(* ===== verification/_CoqProject ===== *)
-Q . S2P
Prelude.v
PyFloat.v
PyDouble.v
Coro.v
Mix.v
WsFrame.v
H3Client.v
Transport.v
Payload.v
Report.v
Workloads.v
WorkloadProofs.v
SseProofs.v
Cell.v
CellProofs.v
Background.v
Chaos.v
ChaosProofs.v
ConfClient.v
ConfProofs.v
Interop.v
Fairness.v
