(* ===== verification/Prelude.v ===== *)
(** * Verification of the vortex conformance clients

    The repository is an HTTP server (vortex, in Nim) with Python programs that
    exercise it over the wire.  This development models those programs, all
    under [src/conformance], and proves what their verdicts rest on.

    ** The programs

    - [stress/client/stress_client.py], the verified load client: it runs one
      workload (or, under [mixed], five at once) until a deadline, checks every
      reply, counts completions, reports, and ends with a verdict.
    - [stress/client/transport.py], what the load clients share: configuration,
      the deterministic body and its checksum, request compression, the sessions
      and the [/stats] sample.
    - [stress/client/h3.py], an HTTP/3 client on aioquic: one connection, one
      queue per stream, and WebSocket tunnels.
    - [stress/client/chaos.py], the misbehaving sidecar: it opens, stalls and
      drops transports on purpose and asserts only the server's fd count.
    - [h3websocket/client.py], the WebSocket-over-HTTP/3 conformance client.
    - [interop/clients/python/client.py] and [fairness/summarize.py].

    ** Files

    - [Prelude]: bytes and strings as lists of integers, exceptions and results,
      printing code, ordered dictionaries and counters, the [str], [bytes] and
      [int] methods the sources use, tactics and shared lemmas.
    - [PyFloat], [PyDouble]: Python floats.  [PyFloat] is the correctly rounded
      [int / int] of the worker split, with its error bound; [PyDouble] is binary64
      arithmetic on the Standard Library's [SpecFloat], and fixed-point formatting.
    - [Coro]: coroutines against a scripted environment, their loops, and the
      rules used to reason about them.
    - [Mix]: [parse_mix], [split_mix], [MIX_SLICES] of [stress_client.py].
    - [WsFrame]: [ws_frame] and [parse_ws] of [h3.py] and of the conformance
      client, against an RFC 6455 reader.
    - [H3Client]: [h3.py]'s [H3Client], [H3Session], [H3Ws], [connect_h3].
    - [Transport], [Payload]: [transport.py].
    - [Report]: the tallies, the report texts and [main] of [stress_client.py].
    - [Workloads]: [drive], [ramped] and every [once] coroutine of the workloads;
      [WorkloadProofs] and [SseProofs] hold the theorems about them.
    - [Cell]: the [asyncio.gather] fan-outs of every [w_*] and of [main], as plans
      of coroutines, and their runs under any interleaving; [CellProofs]: what the
      exit code of a whole cell rests on.
    - [Background]: [reporter] and [loop_watchdog], the tasks beside the workers.
    - [Chaos], [ChaosProofs]: [chaos.py].
    - [ConfClient], [ConfProofs]: [h3websocket/client.py], the [WsClient] object,
      its methods and every case of [run].
    - [Interop]: [interop/clients/python/client.py].
    - [Fairness]: [fairness/summarize.py].

    ** How the code is modelled

    Pure functions are Rocq functions with the source's names; fallible ones
    return [res], printing ones [io].  An object is a record and each of its
    methods a function on it; aioquic, httpx, websockets, hashlib and the codecs
    are parameters, with the laws used of them as hypotheses (a decoder undoes its
    encoder, a hash accumulates its updates).  A worker is a coroutine
    ([Coro.coro]): every clock reading, random draw, network call and exit of a
    context manager is an operation answered by a script, and the run records the
    conversation.  So a theorem about all scripts is a theorem about every server,
    every clock and every failure.

    Coroutines that run together share the event loop and the tallies only.  A
    worker reads nothing another one writes, so its run is that of its script and
    records the additions it makes; a cell is a tree of such runs, and a step of it
    is one addition by any of them, or a report line ([Cell.cell_steps]).  The
    background tasks read what the others write: each await of theirs carries the
    additions made meanwhile ([Background]).  The sidecar's [gather]s run each task
    on its own answers and absorb what it counted ([Chaos.gather]).  Entering a
    session dials on h3; on h1 and h2 it enters an [httpx] client, which connects in
    its first request, and that entering it does not fail is a hypothesis where a
    theorem uses it ([ChaosProofs.entries_succeed]).  The conformance client's packets
    arrive while it awaits, so its answers carry the QUIC events delivered.

    Loops: a loop of a coroutine runs at most one round per scripted answer, which
    is enough because each round performs an operation ([Coro.iter_unfold], for
    [productive] bodies); [parse_ws] uses the buffer's length, [expected_sha1] the
    number of chunks, and their lemmas show the bound is enough.  A run that stops
    in [Wait] is a worker still awaiting an answer, never a result.

    ** What is shown

    - The verdict: [main] exits 0 only for completed, verified work in every slice,
      and prints exactly the defects the workers ended with ([Report]); each exit
      code of the sidecar is tied to the [/stats] replies, the end of its workers
      and the clock of its conversation, and its connection count to what was
      opened and entered ([ChaosProofs]); the conformance client passes only a
      server that passed every case ([ConfProofs]), the interop client only one
      whose every reply kept its promise ([Interop]).
    - The whole cell: under any interleaving, exit 0 means that a worker of every
      slice has in its own conversation the proof of a completed operation, that a
      [requests] total is the number of verified replies, and that a [mixed] cell
      has exactly the workers of its budget ([CellProofs]); reporting goes on
      whatever the samples do, without touching a count ([Background]).
    - The oracle: a [requests] worker counts exactly the replies that keep the
      server's contract, and a server that keeps it is never failed; a completed
      download is the expected stream; an accepted SSE sequence is complete and in
      order; an abandoned upload is counted once ([WorkloadProofs], [SseProofs]).
    - The HTTP/3 client: under any sequence of operations and events it is a set of
      mailboxes, one per opened stream ([client_is_mailboxes]), a request returns the reply under any interleaving of events and
      reads, no reader hangs on a dead stream, and nothing reaches a stream after
      its cleanup ([H3Client]).
    - Framing: what is sent decodes, what is received is parsed exactly, in pieces
      or whole ([WsFrame]); the conformance client's [recv_ws] is a queue of frames
      whatever the packet boundaries, and ends by its deadline ([ConfProofs]).
    - The worker split is exact and by largest remainder, its input parses back, and
      every other input gets the one diagnostic that fits it ([Mix]); the body generator streams the announced body ([Transport]).
    - Where the code departs from its own documentation, a theorem shows it:
      frames dropped by [H3Ws.recv], a queue left behind by [ws_open], the
      conformance client's missing 64-bit length, an over-long weight, the SSE
      batch check that a server without batches passes, the sidecar without a
      baseline, its never-connected code that h1 and h2 cannot reach, and the size of a [mixed] cell of streaming slices only.

    ** Not modelled

    The sidecar's reporter is a coroutine of its own: its lines, which fall between
    the workers' steps, are not part of the run's output.  Not proved: theorems for the [methods] and [ws] workers as
    strong as the one for [requests], bounds for the connection ramp, the tallies of
    a whole sidecar run, and the conversations of the session objects with the
    workers that use them.  Imports, argument parsing, TLS contexts and the opening
    of files are input and output; a traceback is a line that carries its exception.
    The server is not modelled: it is the
    environment. *)
From Stdlib Require Export ZArith Lia.
From stdpp Require Export base list list_numbers numbers strings gmap sorting.

Declare Scope py_scope.
Delimit Scope py_scope with py.
#[export] Set Default Goal Selector "!".
#[local] Open Scope Z_scope.

Create HintDb py.
Create Rewrite HintDb py.

(** ** Data *)

(** Python [bytes]/[bytearray] as the list of their values (each in 0..255),
    Python [str] as the list of its code points. *)
Abbreviation bytes := (list Z) (only parsing).
Abbreviation pystr := (list Z) (only parsing).

Definition len {A} (l : list A) : Z := Z.of_nat (length l).

Definition is_byte (b : Z) : Prop := 0 <= b < 256.
Definition wf_bytes (bs : list Z) : Prop := Forall is_byte bs.

(** A literal: the code points of an ASCII string constant, and the double
    quote, which no literal below contains. *)
Definition cp (a : Ascii.ascii) : Z := Z.of_N (Ascii.N_of_ascii a).
Definition str (s : string) : list Z := map cp (String.list_ascii_of_string s).
Definition dq : list Z := [34].
Arguments str s%_string_scope.

(** Whole-number quantities such as a [Counter]'s values. *)
Definition zsum (l : list Z) : Z := foldr Z.add 0 l.

(** ** Exceptions

    The exception classes the sources raise or catch, each with the text
    [str(e)] shows; [ty] is [type(e).__name__] where a family of library
    classes is caught by its base class.  [Group base subs] is an
    [ExceptionGroup] ([base = false]) or a [BaseExceptionGroup] that is not
    one ([base = true]).  [SystemExitMsg] is [SystemExit] with a text, which the
    interpreter prints before it exits with status 1. *)
Inductive exn : Type :=
| Fail (msg : list Z)
| ProtocolPinError (msg : list Z)
| HttpxTransportError (ty msg : list Z)
| WebSocketException (ty msg : list Z)
| ConnectionError (msg : list Z)
| TimeoutError (msg : list Z)
| OSError (ty msg : list Z)
| AttributeError (msg : list Z)
| AssertionError (msg : list Z)
| ValueError (msg : list Z)
| IndexError (msg : list Z)
| TypeError (msg : list Z)
| OverflowError (msg : list Z)
| RuntimeError (msg : list Z)
| OtherException (ty msg : list Z)
| CancelledError
| KeyboardInterrupt
| SystemExit (code : Z)
| SystemExitMsg (msg : list Z)
| Group (base : bool) (subs : list exn).

(** [isinstance(e, Exception)]: everything but the four [BaseException]
    families. *)
Definition is_Exception (e : exn) : bool :=
  match e with
  | CancelledError | KeyboardInterrupt | SystemExit _ | SystemExitMsg _ => false
  | Group base _ => negb base
  | _ => true
  end.

(** [isinstance(e, OSError)]: [ConnectionError] and (from Python 3.11 on, where
    [asyncio.TimeoutError] is the builtin) [TimeoutError] are subclasses. *)
Definition is_OSError (e : exn) : bool :=
  match e with
  | ConnectionError _ | TimeoutError _ | OSError _ _ => true
  | _ => false
  end.

(** Fallible code: a value, or the exception that left the function. *)
Inductive res (A : Type) : Type :=
| Ok (a : A)
| Raise (e : exn).
Arguments Ok {A} a.
Arguments Raise {A} e.

#[export] Instance res_ret : MRet res := fun A => Ok.
#[export] Instance res_bind : MBind res := fun A B k m =>
  match m with Ok a => k a | Raise e => Raise e end.
#[export] Instance res_fmap : FMap res := fun A B f m =>
  match m with Ok a => Ok (f a) | Raise e => Raise e end.

(** Code that also prints: the lines written so far, and how it ended.  [L] is
    the type of a line ([list Z], or a structured diagnostic). *)
Definition io (L A : Type) : Type := (list L * res A)%type.

Definition io_ret {L A} (a : A) : io L A := ([], Ok a).
Definition io_raise {L A} (e : exn) : io L A := ([], Raise e).
Definition io_bind {L A B} (m : io L A) (k : A -> io L B) : io L B :=
  let '(out, r) := m in
  match r with
  | Ok a => let '(out', r') := k a in (out ++ out', r')
  | Raise e => (out, Raise e)
  end.
Definition io_res {L A} (r : res A) : io L A := ([], r).

(** [print(line)], then [raise SystemExit(code)]. *)
Definition print_exit {L A} (line : L) (code : Z) : io L A := ([line], Raise (SystemExit code)).

Notation "'let*' x := m 'in' k" := (io_bind m (fun x => k))
  (at level 10, x pattern, m at level 100, k at level 200) : py_scope.

Fixpoint io_fold {L A B} (f : A -> B -> io L A) (l : list B) (a : A) : io L A :=
  match l with
  | [] => io_ret a
  | b :: l' => io_bind (f a b) (io_fold f l')
  end.

Fixpoint res_map {A B} (f : A -> res B) (l : list A) : res (list B) :=
  match l with
  | [] => Ok []
  | a :: l' => b ← f a; bs ← res_map f l'; Ok (b :: bs)
  end.

(** ** Dictionaries in insertion order

    A Python [dict] whose iteration order the code observes: an association
    list; assigning to a present key keeps its place. *)
Fixpoint aget {V} (d : list (list Z * V)) (k : list Z) : option V :=
  match d with
  | [] => None
  | (k', v) :: d' => if decide (k' = k) then Some v else aget d' k
  end.

Fixpoint aset {V} (d : list (list Z * V)) (k : list Z) (v : V) : list (list Z * V) :=
  match d with
  | [] => [(k, v)]
  | (k', v') :: d' => if decide (k' = k) then (k', v) :: d' else (k', v') :: aset d' k v
  end.

Definition akeys {V} (d : list (list Z * V)) : list (list Z) := map fst d.
Definition avals {V} (d : list (list Z * V)) : list V := map snd d.

(** [dict(items)] and [d.update(items)] *)
Definition aupdate {V} (d items : list (list Z * V)) : list (list Z * V) :=
  fold_left (fun d '(k, v) => aset d k v) items d.

(** [collections.Counter]: a missing key reads as 0. *)
Definition cget (d : list (list Z * Z)) (k : list Z) : Z := default 0 (aget d k).

(** The same as a finite map, where only counts matter: [c[k]] and [c[k] += n]. *)
Abbreviation counter K := (gmap K Z) (only parsing).
Definition count `{Countable K} (c : counter K) (k : K) : Z := default 0 (c !! k).
Definition count_add `{Countable K} (k : K) (n : Z) (c : counter K) : counter K :=
  <[k := count c k + n]> c.

(** ** Python [str] methods *)

(** [str.isspace] on one code point. *)
Definition is_space (c : Z) : bool :=
  ((9 <=? c) && (c <=? 13)) || ((28 <=? c) && (c <=? 32)) || (c =? 133) || (c =? 160)
  || (c =? 5760) || ((8192 <=? c) && (c <=? 8202)) || (c =? 8232) || (c =? 8233)
  || (c =? 8239) || (c =? 8287) || (c =? 12288).

Fixpoint drop_while (p : Z -> bool) (s : list Z) : list Z :=
  match s with
  | [] => []
  | c :: s' => if p c then drop_while p s' else s
  end.

Definition lstrip_with (p : Z -> bool) (s : list Z) : list Z := drop_while p s.
Definition rstrip_with (p : Z -> bool) (s : list Z) : list Z := rev (drop_while p (rev s)).

(** [s.strip()] *)
Definition strip (s : list Z) : list Z := rstrip_with is_space (lstrip_with is_space s).

(** [s.split(sep)] for a one-character separator. *)
Fixpoint split_on (sep : Z) (s : list Z) : list (list Z) :=
  match s with
  | [] => [[]]
  | c :: s' =>
      if c =? sep then [] :: split_on sep s'
      else match split_on sep s' with
           | [] => [[c]]
           | w :: ws => (c :: w) :: ws
           end
  end.

(** [s.partition(sep)]: the text before the first separator, whether there was
    one, and the text after it. *)
Fixpoint partition_on (sep : Z) (s : list Z) : list Z * bool * list Z :=
  match s with
  | [] => ([], false, [])
  | c :: s' =>
      if c =? sep then ([], true, s')
      else let '(a, found, b) := partition_on sep s' in (c :: a, found, b)
  end.

(** [sep.join(parts)] *)
Fixpoint join (sep : list Z) (parts : list (list Z)) : list Z :=
  match parts with
  | [] => []
  | [p] => p
  | p :: ps => p ++ sep ++ join sep ps
  end.

Fixpoint starts_with (p s : list Z) : bool :=
  match p, s with
  | [], _ => true
  | _, [] => false
  | a :: p', b :: s' => (a =? b) && starts_with p' s'
  end.

(** [sub in s] *)
Fixpoint contains (sub s : list Z) : bool :=
  starts_with sub s || match s with [] => false | _ :: s' => contains sub s' end.

(** [s.replace(old, new)] for a non-empty [old]: left to right, no overlaps. *)
Fixpoint replace_all (fuel : nat) (old new s : list Z) : list Z :=
  match fuel with
  | O => s
  | S f => if starts_with old s then new ++ replace_all f old new (drop (length old) s)
           else match s with [] => [] | c :: s' => c :: replace_all f old new s' end
  end.
Definition replace (old new s : list Z) : list Z := replace_all (S (length s)) old new s.

Definition isascii (s : list Z) : bool := forallb (fun c => c <? 128) s.
Definition is_digit (c : Z) : bool := (48 <=? c) && (c <=? 57).

Definition lower_ascii (c : Z) : Z := if (65 <=? c) && (c <=? 90) then c + 32 else c.

(** [s.lower()]: the ASCII mapping, and [uni] (the Unicode case tables) for a
    string that is not ASCII. *)
Definition lower (uni : list Z -> list Z) (s : list Z) : list Z :=
  if isascii s then map lower_ascii s else uni s.

(** ** Decimal integers *)

(** [str(n)] *)
Fixpoint dec_digits (fuel : nat) (n : Z) (acc : list Z) : list Z :=
  match fuel with
  | O => acc
  | S f => let acc' := 48 + n mod 10 :: acc in
           if n <? 10 then acc' else dec_digits f (n / 10) acc'
  end.

Definition dec_nat (n : Z) : list Z := dec_digits (S (Z.to_nat (Z.log2 n))) n [].
Definition dec (n : Z) : list Z := if n <? 0 then 45 :: dec_nat (- n) else dec_nat n.

(** The value of a digit string, most significant digit first. *)
Definition digits_value (s : list Z) : Z := fold_left (fun acc c => 10 * acc + (c - 48)) s 0.

(** [sys.int_info.default_max_str_digits]: [int] refuses a longer digit string
    with a [ValueError]. *)
Definition max_str_digits : Z := 4300.

(** [int(s)] on a string of ASCII digits. *)
Definition int_of_digits (s : list Z) : res Z :=
  if max_str_digits <? len s
  then Raise (ValueError (str "Exceeds the limit for integer string conversion"))
  else Ok (digits_value s).

(** ** Tactics *)

(** Case analysis on the scrutinee of a [match] or an [if] in the goal or in a
    hypothesis, and the clean-up that follows it. *)
Ltac case_goal :=
  match goal with
  | |- context [match ?x with _ => _ end] =>
      lazymatch x with
      | context [match _ with _ => _ end] => fail
      | _ => let E := fresh "E" in destruct x eqn:E
      end
  end.

Ltac case_hyp H :=
  match type of H with
  | context [match ?x with _ => _ end] =>
      lazymatch x with
      | context [match _ with _ => _ end] => fail
      | _ => let E := fresh "E" in destruct x eqn:E
      end
  end.

(** Boolean comparisons on [Z] as arithmetic facts. *)
Ltac zbool :=
  repeat match goal with
  | H : (_ && _)%bool = true |- _ => apply andb_prop in H; destruct H
  | H : (_ <? _) = true |- _ => apply Z.ltb_lt in H
  | H : (_ <? _) = false |- _ => apply Z.ltb_ge in H
  | H : (_ <=? _) = true |- _ => apply Z.leb_le in H
  | H : (_ <=? _) = false |- _ => apply Z.leb_gt in H
  | H : (_ =? _) = true |- _ => apply Z.eqb_eq in H
  | H : (_ =? _) = false |- _ => apply Z.eqb_neq in H
  | H : negb _ = true |- _ => apply negb_true_iff in H
  | H : negb _ = false |- _ => apply negb_false_iff in H
  end.

(** ** Lemmas on lists, sums and lengths *)

Lemma len_nil {A} : len (@nil A) = 0.
Proof. reflexivity. Qed.

Lemma len_cons {A} (a : A) l : len (a :: l) = 1 + len l.
Proof. unfold len. cbn [length]. lia. Qed.

Lemma len_app {A} (l k : list A) : len (l ++ k) = len l + len k.
Proof. unfold len. rewrite length_app. lia. Qed.

Lemma len_map {A B} (f : A -> B) l : len (map f l) = len l.
Proof. unfold len. by rewrite length_map. Qed.

Lemma len_nonneg {A} (l : list A) : 0 <= len l.
Proof. unfold len. lia. Qed.

Lemma len_take {A} n (l : list A) : len (take n l) = Z.min (Z.of_nat n) (len l).
Proof. unfold len. rewrite length_take. lia. Qed.

Lemma len_drop {A} n (l : list A) : len (drop n l) = Z.max 0 (len l - Z.of_nat n).
Proof. unfold len. rewrite length_drop. lia. Qed.

Lemma zsum_app l k : zsum (l ++ k) = zsum l + zsum k.
Proof. induction l; simpl; lia. Qed.

Lemma zsum_nonneg l : Forall (Z.le 0) l -> 0 <= zsum l.
Proof. induction 1; simpl; lia. Qed.

Lemma zsum_Permutation l k : Permutation l k -> zsum l = zsum k.
Proof. induction 1; simpl; lia. Qed.

Lemma zsum_map_add {A} (f g : A -> Z) l :
  zsum (map (fun x => f x + g x) l) = zsum (map f l) + zsum (map g l).
Proof. induction l; simpl; lia. Qed.

Lemma zsum_map_mul {A} c (f : A -> Z) l : zsum (map (fun x => c * f x) l) = c * zsum (map f l).
Proof. induction l; simpl; lia. Qed.

Lemma zsum_map_le {A} (f g : A -> Z) l :
  Forall (fun x => f x <= g x) l -> zsum (map f l) <= zsum (map g l).
Proof. induction 1; simpl; lia. Qed.

Lemma zsum_map_const {A} c (l : list A) : zsum (map (fun _ => c) l) = c * len l.
Proof. induction l; [unfold len; simpl; lia|]. rewrite len_cons. simpl. lia. Qed.

#[export] Hint Rewrite @len_nil @len_cons @len_app @len_map @len_take @len_drop : py.
#[export] Hint Resolve len_nonneg zsum_nonneg : py.

(** ** Lemmas on digits *)

Lemma digits_value_snoc s c : digits_value (s ++ [c]) = 10 * digits_value s + (c - 48).
Proof. unfold digits_value. by rewrite fold_left_app. Qed.

Lemma fold_digits_acc s a :
  fold_left (fun acc c => 10 * acc + (c - 48)) s a
  = a * 10 ^ len s + fold_left (fun acc c => 10 * acc + (c - 48)) s 0.
Proof.
  revert a. induction s as [|c s IH]; intros a; cbn [fold_left].
  - rewrite len_nil. simpl. lia.
  - rewrite IH, (IH (10 * 0 + (c - 48))), len_cons, Z.pow_add_r by (try lia; apply len_nonneg).
    ring.
Qed.

Lemma dec_digits_value fuel n acc :
  0 <= n < 2 ^ Z.of_nat fuel ->
  digits_value (dec_digits fuel n acc)
  = n * 10 ^ len acc + fold_left (fun a c => 10 * a + (c - 48)) acc 0.
Proof.
  revert n acc. induction fuel as [|f IH]; intros n acc Hn; cbn [dec_digits].
  - change (2 ^ Z.of_nat 0) with 1 in Hn. replace n with 0 by lia.
    unfold digits_value. lia.
  - assert (Hdm := Z.div_mod n 10 ltac:(lia)).
    assert (Hm := Z.mod_pos_bound n 10 ltac:(lia)).
    destruct (Z.ltb_spec n 10).
    + rewrite (Z.mod_small n 10) by lia. unfold digits_value. cbn [fold_left].
      rewrite fold_digits_acc. f_equal. f_equal. lia.
    + rewrite IH.
      * cbn [fold_left]. rewrite len_cons, Z.pow_add_r by (try lia; apply len_nonneg).
        rewrite (fold_digits_acc _ (10 * 0 + _)).
        replace (10 * 0 + (48 + n mod 10 - 48)) with (n mod 10) by lia.
        change (10 ^ 1) with 10.
        replace (n * 10 ^ len acc) with ((10 * (n / 10) + n mod 10) * 10 ^ len acc)
          by (f_equal; lia). ring.
      * rewrite Nat2Z.inj_succ, Z.pow_succ_r in Hn by lia.
        split; [apply Z.div_pos; lia|]. apply Z.div_lt_upper_bound; lia.
Qed.

(** Printing a natural number and reading its digits back is the identity. *)
Lemma dec_nat_value n : 0 <= n -> digits_value (dec_nat n) = n.
Proof.
  intros Hn. unfold dec_nat. rewrite dec_digits_value.
  - unfold len. cbn [length fold_left]. change (10 ^ Z.of_nat 0) with 1. lia.
  - split; [lia|]. destruct (Z.eq_dec n 0) as [->|Hz]; [reflexivity|].
    rewrite Nat2Z.inj_succ, Z2Nat.id by apply Z.log2_nonneg.
    apply Z.log2_spec. lia.
Qed.

Lemma dec_digits_all_digits fuel n acc :
  0 <= n -> Forall (fun c => is_digit c = true) acc ->
  Forall (fun c => is_digit c = true) (dec_digits fuel n acc).
Proof.
  revert n acc. induction fuel as [|f IH]; intros n acc Hn Hacc; cbn [dec_digits]; [done|].
  assert (Hm := Z.mod_pos_bound n 10 ltac:(lia)).
  assert (Forall (fun c => is_digit c = true) (48 + n mod 10 :: acc)).
  { constructor; [|done]. unfold is_digit.
    rewrite (proj2 (Z.leb_le 48 _)), (proj2 (Z.leb_le _ 57)) by lia. done. }
  case_match; [done|]. apply IH; [apply Z.div_pos; lia|done].
Qed.

Lemma dec_nat_digits n : 0 <= n -> Forall (fun c => is_digit c = true) (dec_nat n).
Proof. intros. by apply dec_digits_all_digits. Qed.

Lemma dec_digits_nonempty fuel n acc : (fuel <> 0)%nat \/ acc <> [] -> dec_digits fuel n acc <> [].
Proof.
  revert n acc. induction fuel as [|f IH]; intros n acc [H|H]; cbn [dec_digits]; try done.
  all: case_match; [done|]; apply IH; by right.
Qed.

Lemma dec_nat_nonempty n : dec_nat n <> [].
Proof. apply dec_digits_nonempty. left. lia. Qed.

#[export] Hint Resolve dec_nat_digits dec_nat_nonempty : py.

(** ** Lemmas on string methods *)

Lemma drop_while_none p s : Forall (fun c => p c = false) s -> drop_while p s = s.
Proof. intros [|c s' Hc _]; simpl; [done|]. by rewrite Hc. Qed.

Lemma strip_id s : Forall (fun c => is_space c = false) s -> strip s = s.
Proof.
  intros H. unfold strip, rstrip_with, lstrip_with.
  rewrite (drop_while_none _ s) by done. rewrite drop_while_none.
  - apply rev_involutive.
  - by apply Forall_rev.
Qed.

Lemma digit_not_space c : is_digit c = true -> is_space c = false.
Proof.
  unfold is_digit, is_space. intros H. zbool.
  repeat match goal with
  | |- context [?a <=? ?b] => destruct (Z.leb_spec a b); [try lia|try lia]
  | |- context [?a =? ?b] => destruct (Z.eqb_spec a b); [try lia|try lia]
  end; reflexivity.
Qed.

Lemma split_on_nonempty sep s : split_on sep s <> [].
Proof. induction s as [|c s IH]; simpl; [done|]. case_match; [done|]. by destruct (split_on sep s). Qed.

(** A separator-free word is one field. *)
Lemma split_on_word sep w : Forall (fun c => c <> sep) w -> split_on sep w = [w].
Proof.
  induction 1 as [|c w Hc _ IH]; simpl; [done|].
  rewrite (proj2 (Z.eqb_neq c sep)) by done. by rewrite IH.
Qed.

Lemma split_on_app sep w s :
  Forall (fun c => c <> sep) w -> split_on sep (w ++ sep :: s) = w :: split_on sep s.
Proof.
  induction 1 as [|c w Hc _ IH]; simpl; [by rewrite Z.eqb_refl|].
  rewrite (proj2 (Z.eqb_neq c sep)) by done. by rewrite IH.
Qed.

(** [sep.join] of separator-free fields splits back into them. *)
Lemma split_on_join sep ws :
  ws <> [] -> Forall (Forall (fun c => c <> sep)) ws -> split_on sep (join [sep] ws) = ws.
Proof.
  intros Hne H. induction H as [|w ws Hw Hws IH]; [done|].
  destruct ws as [|w' ws'].
  - by apply split_on_word.
  - cbn [join]. cbn [app]. rewrite split_on_app by done. f_equal. apply IH. done.
Qed.

Lemma partition_on_found sep a b :
  Forall (fun c => c <> sep) a -> partition_on sep (a ++ sep :: b) = (a, true, b).
Proof.
  induction 1 as [|c a Hc _ IH]; simpl; [by rewrite Z.eqb_refl|].
  rewrite (proj2 (Z.eqb_neq c sep)) by done. by rewrite IH.
Qed.

Lemma partition_on_absent sep a :
  Forall (fun c => c <> sep) a -> partition_on sep a = (a, false, []).
Proof.
  induction 1 as [|c a Hc _ IH]; simpl; [done|].
  rewrite (proj2 (Z.eqb_neq c sep)) by done. by rewrite IH.
Qed.

(** ** Lemmas on dictionaries *)

Section Dict.
Context {V : Type}.
Implicit Types (d : list (list Z * V)) (k : list Z).

Lemma aget_aset d k v k' : aget (aset d k v) k' = if decide (k = k') then Some v else aget d k'.
Proof.
  induction d as [|[k0 v0] d IH]; simpl.
  - done.
  - destruct (decide (k0 = k)) as [->|]; simpl; [by destruct (decide (k = k'))|].
    destruct (decide (k0 = k')) as [->|]; [by rewrite decide_False by done|]. apply IH.
Qed.

Lemma aget_Some_in d k v : aget d k = Some v -> In k (akeys d).
Proof.
  induction d as [|[k0 v0] d IH]; simpl; [done|].
  destruct (decide (k0 = k)); [by left|]. intros; right; auto.
Qed.

Lemma aget_is_Some d k : In k (akeys d) -> is_Some (aget d k).
Proof.
  induction d as [|[k0 v0] d IH]; simpl; [done|].
  destruct (decide (k0 = k)); [by eexists|]. intros [->|]; [done|auto].
Qed.

Lemma akeys_aset_in d k v : In k (akeys d) -> akeys (aset d k v) = akeys d.
Proof.
  induction d as [|[k0 v0] d IH]; simpl; [done|].
  destruct (decide (k0 = k)); [done|]. intros [->|]; [done|]. simpl. f_equal. auto.
Qed.

Lemma akeys_aset_new d k v : ~ In k (akeys d) -> aset d k v = d ++ [(k, v)].
Proof.
  induction d as [|[k0 v0] d IH]; simpl; [done|].
  intros H. rewrite decide_False by tauto. f_equal. apply IH. tauto.
Qed.

(** With distinct keys a lookup is membership. *)
Lemma aget_in d k v : NoDup (akeys d) -> In (k, v) d -> aget d k = Some v.
Proof.
  induction d as [|[k0 v0] d IH]; simpl; [done|]. intros Hnd [[= -> ->]|Hin].
  - by rewrite decide_True.
  - apply NoDup_cons in Hnd as [Hk Hnd]. rewrite decide_False; [auto|].
    intros ->. apply Hk, list_elem_of_In. apply in_map_iff. by exists (k, v).
Qed.

Lemma aupdate_nil_fresh d items :
  NoDup (akeys d ++ akeys items) -> aupdate d items = d ++ items.
Proof.
  unfold aupdate. revert d. induction items as [|[k v] items IH]; intros d Hnd; simpl.
  - by rewrite app_nil_r.
  - rewrite akeys_aset_new.
    + rewrite IH; [by rewrite <- app_assoc|].
      unfold akeys in *. rewrite map_app. simpl. by rewrite <- app_assoc.
    + intros Hin. simpl in Hnd. apply NoDup_app in Hnd as (_ & Hd & _).
      apply list_elem_of_In in Hin. apply (Hd _ Hin). by left.
Qed.

Lemma aget_aupdate d items k :
  NoDup (akeys items) ->
  aget (aupdate d items) k = match aget items k with Some v => Some v | None => aget d k end.
Proof.
  unfold aupdate. revert d. induction items as [|[k0 v0] items IH]; intros d Hnd; simpl; [done|].
  apply NoDup_cons in Hnd as [Hk Hnd]. rewrite IH by done. rewrite aget_aset.
  destruct (decide (k0 = k)) as [->|]; [|done].
  destruct (aget items k) eqn:E; [|done].
  exfalso. apply Hk, list_elem_of_In. eapply aget_Some_in, E.
Qed.

Lemma akeys_aupdate d items :
  (forall k, In k (akeys items) -> In k (akeys d)) -> akeys (aupdate d items) = akeys d.
Proof.
  unfold aupdate. revert d. induction items as [|[k v] items IH]; intros d H; simpl; [done|].
  assert (akeys (aset d k v) = akeys d) as E by (apply akeys_aset_in, H; by left).
  rewrite IH; [done|]. intros k' Hk'. rewrite E. apply H. by right.
Qed.

Lemma aset_In_or d k v p : In p (aset d k v) -> In p d \/ p = (k, v).
Proof.
  induction d as [|[k0 v0] d IH]; simpl; [naive_solver|].
  destruct (decide (k0 = k)) as [->|]; simpl; [naive_solver|]. intros [?|?]; [auto|].
  destruct (IH H); auto.
Qed.
End Dict.

(** Overwriting one entry changes the total by the difference. *)
Lemma zsum_aset (d : list (list Z * Z)) k v v0 :
  aget d k = Some v0 -> zsum (avals (aset d k v)) = zsum (avals d) - v0 + v.
Proof.
  induction d as [|[k1 v1] d IH]; simpl; [done|].
  destruct (decide (k1 = k)); simpl.
  - intros [= ->]. lia.
  - intros H. rewrite IH by done. lia.
Qed.

Lemma len_avals_aset (d : list (list Z * Z)) k v v0 :
  aget d k = Some v0 -> len (avals (aset d k v)) = len (avals d).
Proof.
  intros H. assert (E := akeys_aset_in d k v (aget_Some_in _ _ _ H)).
  unfold avals. rewrite !len_map. apply (f_equal len) in E. unfold akeys in E.
  by rewrite !len_map in E.
Qed.

#[export] Hint Resolve aget_Some_in aget_is_Some aget_in : py.

(** ** Lemmas on printing code *)

Lemma io_fold_app {L A B} (f : A -> B -> io L A) l k a :
  io_fold f (l ++ k) a = io_bind (io_fold f l a) (io_fold f k).
Proof.
  revert a. induction l as [|b l IH]; intros a; simpl.
  - unfold io_bind, io_ret. by destruct (io_fold f k a).
  - destruct (f a b) as [o [a'|e]]; simpl; [|done]. rewrite IH.
    destruct (io_fold f l a') as [o' [a''|e]]; simpl; [|done].
    destruct (io_fold f k a''). by rewrite app_assoc.
Qed.

(** An invariant of the accumulator, when every step that returns keeps it. *)
Lemma io_fold_inv {L A B} (f : A -> B -> io L A) (P : A -> Prop) l a a' :
  (forall a b a', P a -> In b l -> snd (f a b) = Ok a' -> P a') ->
  P a -> snd (io_fold f l a) = Ok a' -> P a'.
Proof.
  revert a. induction l as [|b l IH]; intros a Hf Ha; simpl; [by intros [= <-]|].
  destruct (f a b) as [o [a1|e]] eqn:E; simpl; [|done].
  destruct (io_fold f l a1) as [o' r] eqn:E'. simpl. intros Hr.
  apply (IH a1); [intros; eapply Hf; eauto; by right| |by rewrite E'].
  apply (Hf a b); [done|by left|by rewrite E].
Qed.

Lemma res_map_Ok {A B} (f : A -> res B) l bs :
  res_map f l = Ok bs <-> Forall2 (fun a b => f a = Ok b) l bs.
Proof.
  revert bs. induction l as [|a l IH]; intros bs; simpl.
  - split; [intros [= <-]; constructor|]. by inversion 1.
  - destruct (f a) as [b|e] eqn:E; simpl; [|split; [done|inversion 1; congruence]].
    destruct (res_map f l) as [bs'|e] eqn:E'; simpl.
    + split; [intros [= <-]; constructor; [done|]; by apply IH|].
      inversion 1; subst. f_equal. f_equal; [congruence|].
      enough (Ok bs' = Ok l') by congruence. by apply IH.
    + split; [done|]. inversion 1; subst. enough (Raise e = Ok l') by done. by apply IH.
Qed.

(** ** Bytes as text and as numbers *)

(** [b.decode("ascii", "replace")]: a byte above 127 becomes U+FFFD, which has
    no case and is not blank. *)
Definition decode_ascii (b : list Z) : list Z := map (fun c => if c <? 128 then c else 65533) b.

(** [s.lower()] on such a text. *)
Definition lower_decoded (s : list Z) : list Z := map lower_ascii s.

(** ASCII whitespace, as [bytes.split], [bytes.strip] and [int] see it. *)
Definition is_bspace (c : Z) : bool := ((9 <=? c) && (c <=? 13)) || (c =? 32).

Definition bstrip (s : list Z) : list Z := rstrip_with is_bspace (lstrip_with is_bspace s).

(** Digits with single underscores between them, as [int] allows. *)
Fixpoint digits_with_underscores (s : list Z) : option (list Z) :=
  match s with
  | [] => None
  | c :: s' =>
      if negb (is_digit c) then None
      else match s' with
           | [] => Some [c]
           | u :: s'' => if u =? 95 then cons c <$> digits_with_underscores s''
                         else cons c <$> digits_with_underscores s'
           end
  end.

Definition invalid_int : exn := ValueError (str "invalid literal for int() with base 10").

(** [int] on a text without blanks around it: an optional sign, digits. *)
Definition int_stripped (s : list Z) : res Z :=
  let neg := bool_decide (head s = Some 45) in
  let s := if decide (head s = Some 43 \/ head s = Some 45) then tail s else s in
  match digits_with_underscores s with
  | None => Raise invalid_int
  | Some ds => n ← int_of_digits ds; Ok (if neg then - n else n)
  end.

(** [int(b)] on [bytes], and [int(s)] on [str] ([uni] for one that is not
    ASCII: [int] also accepts the other decimal digits of Unicode).  Of an ASCII
    text [int] skips the blanks of C's [isspace], as it does of bytes, not the
    separators 0x1c to 0x1f that [str.strip] removes too. *)
Definition int_bytes (b : list Z) : res Z := int_stripped (bstrip b).
Definition int_str (uni : list Z -> res Z) (s : list Z) : res Z :=
  if isascii s then int_stripped (bstrip s) else uni s.

(** [b.split()]: the maximal runs of non-blank bytes. *)
Fixpoint bsplit (s : list Z) : list (list Z) :=
  match s with
  | [] => []
  | c :: s' =>
      if is_bspace c then bsplit s'
      else match s' with
           | d :: _ => if is_bspace d then [c] :: bsplit s'
                       else match bsplit s' with
                            | w :: ws => (c :: w) :: ws
                            | [] => [[c]]
                            end
           | [] => [[c]]
           end
  end.

Lemma digits_with_underscores_id s :
  s <> [] -> Forall (fun c => is_digit c = true) s -> digits_with_underscores s = Some s.
Proof.
  intros Hne H. induction H as [|c s Hc Hs IH]; [done|].
  cbn [digits_with_underscores]. rewrite Hc. cbn [negb].
  destruct s as [|c' s]; [done|]. rewrite IH by done. inversion Hs as [|? ? Hc' _]; subst.
  destruct (Z.eqb_spec c' 95) as [->|]; [done|]. done.
Qed.

Lemma digit_not_bspace c : is_digit c = true -> is_bspace c = false.
Proof.
  unfold is_digit, is_bspace. intros H. zbool.
  destruct (Z.leb_spec c 13); [lia|]. rewrite andb_false_r. apply Z.eqb_neq. lia.
Qed.

Lemma bstrip_id s : Forall (fun c => is_bspace c = false) s -> bstrip s = s.
Proof.
  intros H. unfold bstrip, rstrip_with, lstrip_with.
  rewrite (drop_while_none _ s) by done. rewrite drop_while_none.
  - apply rev_involutive.
  - by apply Forall_rev.
Qed.

(** [int] reads back a printed natural number of ordinary size. *)
Lemma int_bytes_dec n : 0 <= n -> len (dec_nat n) <= max_str_digits -> int_bytes (dec_nat n) = Ok n.
Proof.
  intros Hn Hlen. assert (H := dec_nat_digits n Hn). assert (Hne := dec_nat_nonempty n).
  assert (Hv := dec_nat_value n Hn). unfold int_bytes, int_stripped.
  rewrite bstrip_id by (eapply Forall_impl; [exact H|]; apply digit_not_bspace).
  destruct (dec_nat n) as [|c s] eqn:E; [done|]. cbn [head].
  assert (is_digit c = true) as Hc by (by inversion H).
  assert (c <> 43 /\ c <> 45) as [H43 H45] by (unfold is_digit in Hc; zbool; lia).
  rewrite bool_decide_eq_false_2 by congruence. rewrite decide_False by naive_solver.
  rewrite digits_with_underscores_id by done. unfold int_of_digits.
  rewrite (proj2 (Z.ltb_ge _ _)) by lia. cbn [mbind res_bind]. by rewrite Hv.
Qed.

(** [s.encode()]: UTF-8 (the sources encode no lone surrogate). *)
Definition utf8_cp (c : Z) : list Z :=
  if c <? 128 then [c]
  else if c <? 2048 then [192 + c / 64; 128 + c mod 64]
  else if c <? 65536 then [224 + c / 4096; 128 + c / 64 mod 64; 128 + c mod 64]
  else [240 + c / 262144; 128 + c / 4096 mod 64; 128 + c / 64 mod 64; 128 + c mod 64].

Definition encode (s : list Z) : list Z := flat_map utf8_cp s.

Lemma encode_ascii s : Forall (fun c => c < 128) s -> encode s = s.
Proof.
  induction 1 as [|c s Hc _ IH]; [done|]. unfold encode in *. cbn [flat_map]. rewrite IH.
  unfold utf8_cp. by rewrite (proj2 (Z.ltb_lt _ _)).
Qed.

(** A run of non-blank bytes is one field of [split]. *)
Lemma bsplit_word w :
  w <> [] -> Forall (fun c => is_bspace c = false) w -> bsplit w = [w].
Proof.
  intros Hne H. induction H as [|c w Hc Hw IH]; [done|]. cbn [bsplit]. rewrite Hc.
  destruct w as [|d w]; [done|]. inversion Hw as [|? ? Hd _]; subst. rewrite Hd, IH by done. done.
Qed.

Lemma bsplit_app w sp s :
  w <> [] -> Forall (fun c => is_bspace c = false) w -> is_bspace sp = true ->
  bsplit (w ++ sp :: s) = w :: bsplit s.
Proof.
  intros Hne H Hsp. induction H as [|c w Hc Hw IH]; [done|]. cbn [bsplit app]. rewrite Hc.
  destruct w as [|d w]; cbn [app]; [rewrite Hsp; cbn [bsplit]; by rewrite Hsp|].
  inversion Hw as [|? ? Hd _]; subst. rewrite Hd. cbn [app] in IH. rewrite IH by done. done.
Qed.

Lemma dec_nat_not_bspace n : 0 <= n -> Forall (fun c => is_bspace c = false) (dec_nat n).
Proof. intros H. eapply Forall_impl; [by apply dec_nat_digits|]. apply digit_not_bspace. Qed.

#[export] Hint Resolve dec_nat_not_bspace : py.

(** ** Lemmas on counters *)

Section Counter.
Context `{Countable K}.
Implicit Types (c : counter K) (k : K).

Lemma count_count_add c k n k' : count (count_add k n c) k' = count c k' + if decide (k = k') then n else 0.
Proof. unfold count, count_add. rewrite lookup_insert. case_decide; subst; simpl; [done|lia]. Qed.

Lemma count_add_comm c k n k' n' : count_add k n (count_add k' n' c) = count_add k' n' (count_add k n c).
Proof.
  apply map_eq. intros i. unfold count_add, count. rewrite !lookup_insert.
  repeat case_decide; subst; simpl; try done. f_equal. lia.
Qed.

(** The sum of a counter's values. *)
Definition csum c : Z := map_fold (fun _ v acc => v + acc) 0 c.

Lemma csum_delete c k v : c !! k = Some v -> csum c = v + csum (delete k c).
Proof. intros E. unfold csum. rewrite (map_fold_delete_L _ 0 k v c); [done|intros; lia|done]. Qed.

Lemma csum_count_add c k n : csum (count_add k n c) = csum c + n.
Proof.
  unfold count_add, count. rewrite (csum_delete (<[k:=_]> c) k _ (lookup_insert_eq _ _ _)), delete_insert_eq.
  destruct (c !! k) as [v|] eqn:E; simpl.
  - rewrite (csum_delete c k v E). lia.
  - rewrite delete_id by done. lia.
Qed.
End Counter.
