(* ===== verification/PyFloat.v ===== *)
(** * Python's true division of integers

    [a / b] on two [int]s is the quotient rounded once, half to even, to a
    binary64 number.  [stress_client.split_mix] computes worker shares with it,
    so the rounding is kept here, subnormal range included, instead of being
    idealised to a rational.  A non-negative finite double is a pair [man * 2^ex]. *)
From S2P Require Import Prelude.
#[local] Open Scope Z_scope.

Record dbl := Dbl { man : Z; ex : Z }.

(** [n / d] rounded to the nearest integer, ties to even. *)
Definition round_half_even (n d : Z) : Z :=
  let q := n / d in
  let r := n mod d in
  match 2 * r ?= d with
  | Lt => q
  | Gt => q + 1
  | Eq => if Z.even q then q else q + 1
  end.

(** [a * 2^(-e) / b] as a fraction of two integers. *)
Definition scaled_num (a e : Z) : Z := if e <=? 0 then a * 2 ^ (- e) else a.
Definition scaled_den (b e : Z) : Z := if e <=? 0 then b else b * 2 ^ e.

(** [floor (log2 (a / b))] for [a, b > 0]. *)
Definition quot_log2 (a b : Z) : Z :=
  let k := Z.log2 a - Z.log2 b in
  if scaled_den b k <=? scaled_num a k then k else k - 1.

(** The exponent of the last place of the result: 52 below the leading bit, but
    never below the subnormal quantum [2^-1074]. *)
Definition quantum (a b : Z) : Z := Z.max (quot_log2 a b - 52) (-1074).

(** [a / b] for [a >= 0], [b > 0]; CPython raises [OverflowError] when the
    rounded quotient is not below [2^1024]. *)
Definition truediv (a b : Z) : res dbl :=
  if a =? 0 then Ok (Dbl 0 0) else
  let e := quantum a b in
  let m := round_half_even (scaled_num a e) (scaled_den b e) in
  if (0 <=? e) && (2 ^ 1024 <=? m * 2 ^ e)
  then Raise (OverflowError (str "integer division result too large for a float"))
  else Ok (Dbl m e).

(** [int(x)]: truncation. *)
Definition dbl_int (x : dbl) : Z :=
  if 0 <=? ex x then man x * 2 ^ ex x else man x / 2 ^ (- ex x).

(** [x - int(x)], which binary64 represents exactly. *)
Definition dbl_frac (x : dbl) : dbl :=
  if 0 <=? ex x then Dbl 0 0 else Dbl (man x mod 2 ^ (- ex x)) (ex x).

(** [x < y] *)
Definition dbl_ltb (x y : dbl) : bool :=
  let e := Z.min (ex x) (ex y) in
  man x * 2 ^ (ex x - e) <? man y * 2 ^ (ex y - e).

(** ** Rounding *)

Lemma round_half_even_bounds n d :
  0 < d -> let m := round_half_even n d in 2 * (m * d) <= 2 * n + d /\ 2 * n - d <= 2 * (m * d).
Proof.
  intros Hd. unfold round_half_even.
  assert (H1 := Z.div_mod n d ltac:(lia)). assert (H2 := Z.mod_pos_bound n d ltac:(lia)).
  destruct (Z.compare_spec (2 * (n mod d)) d); [destruct (Z.even (n / d))|..]; nia.
Qed.

(** Rounding to the nearest never crosses an integer. *)
Lemma round_half_even_ge n d k : 0 < d -> k * d <= n -> k <= round_half_even n d.
Proof.
  intros Hd Hk. assert (k <= n / d) by (apply Z.div_le_lower_bound; lia).
  unfold round_half_even. repeat case_match; lia.
Qed.

Lemma round_half_even_le n d k : 0 < d -> n <= k * d -> round_half_even n d <= k.
Proof.
  intros Hd Hk. destruct (Z_le_gt_dec k (n / d)) as [Hq|Hq].
  - assert (H1 := Z.div_mod n d ltac:(lia)). assert (H2 := Z.mod_pos_bound n d ltac:(lia)).
    assert (n / d = k) as E by nia. assert (n mod d = 0) as Em by nia.
    unfold round_half_even. rewrite E, Em.
    destruct (Z.compare_spec (2 * 0) d); lia.
  - unfold round_half_even. repeat case_match; lia.
Qed.

Lemma scaled_den_pos b e : 0 < b -> 0 < scaled_den b e.
Proof. intros. unfold scaled_den. case_match; [lia|]. zbool. nia. Qed.

(** The quotient lies in its binade: [2^k * b <= a] with the powers cleared. *)
Lemma quot_log2_le a b :
  0 < a -> 0 < b -> scaled_den b (quot_log2 a b) <= scaled_num a (quot_log2 a b).
Proof.
  intros Ha Hb. unfold quot_log2.
  set (k := Z.log2 a - Z.log2 b).
  destruct (Z.leb_spec (scaled_den b k) (scaled_num a k)) as [H|_]; [done|].
  destruct (Z.log2_spec a Ha) as [La _]. destruct (Z.log2_spec b Hb) as [_ Lb].
  assert (0 <= Z.log2 a) by apply Z.log2_nonneg. assert (0 <= Z.log2 b) by apply Z.log2_nonneg.
  unfold scaled_den, scaled_num. destruct (Z.leb_spec (k - 1) 0).
  - assert (2 ^ Z.succ (Z.log2 b) = 2 ^ Z.log2 a * 2 ^ (- (k - 1))) as E.
    { rewrite <- Z.pow_add_r by (subst k; lia). f_equal. subst k. lia. }
    assert (0 < 2 ^ (- (k - 1))) by (apply Z.pow_pos_nonneg; lia). nia.
  - assert (2 ^ Z.log2 a = 2 ^ Z.succ (Z.log2 b) * 2 ^ (k - 1)) as E.
    { rewrite <- Z.pow_add_r by (subst k; lia). f_equal. subst k. lia. }
    assert (0 < 2 ^ (k - 1)) by (apply Z.pow_pos_nonneg; lia). nia.
Qed.

(** Below [2^52] the quantum is a proper fraction. *)
Lemma quantum_neg a b : 0 < a -> 0 < b -> a < b * 2 ^ 52 -> quantum a b < 0.
Proof.
  intros Ha Hb Hlt. assert (H := quot_log2_le a b Ha Hb). unfold quantum.
  destruct (Z_lt_ge_dec (quot_log2 a b) 52) as [Hle|Hgt]; [lia|].
  exfalso. unfold scaled_den, scaled_num in H.
  destruct (Z.leb_spec (quot_log2 a b) 0); [lia|].
  assert (2 ^ 52 <= 2 ^ quot_log2 a b) by (apply Z.pow_le_mono_r; lia). nia.
Qed.

(** In the normal range the rounded quotient exceeds the exact one by at most
    one part in [2^53]. *)
Lemma quantum_normal_error a b :
  0 < a -> 0 < b -> quantum a b <= 0 -> quantum a b = quot_log2 a b - 52 ->
  2 ^ 53 * (round_half_even (a * 2 ^ (- quantum a b)) b * b)
  <= (2 ^ 53 + 1) * (a * 2 ^ (- quantum a b)).
Proof.
  intros Ha Hb Hq Hn. assert (H := quot_log2_le a b Ha Hb).
  set (e := quantum a b) in *. set (k := quot_log2 a b) in *.
  destruct (round_half_even_bounds (a * 2 ^ (- e)) b Hb) as [Hu _].
  assert (b * 2 ^ 52 <= a * 2 ^ (- e)) as Hbin.
  { unfold scaled_den, scaled_num in H. destruct (Z.leb_spec k 0).
    - replace (2 ^ (- e)) with (2 ^ (- k) * 2 ^ 52)
        by (rewrite <- Z.pow_add_r by lia; f_equal; lia). nia.
    - assert (b * 2 ^ 52 = b * 2 ^ k * 2 ^ (- e)) as ->.
      { rewrite <- Z.mul_assoc. f_equal. rewrite <- Z.pow_add_r by lia. f_equal. lia. }
      apply Z.mul_le_mono_nonneg_r; [apply Z.pow_nonneg|]; lia. }
  set (m := round_half_even _ b) in *. change (2 ^ 53) with (2 * 2 ^ 52). nia.
Qed.

(** In the subnormal range the quotient is far below one. *)
Lemma quantum_subnormal a b :
  0 < a -> 0 < b -> quantum a b < 0 -> quantum a b <> quot_log2 a b - 52 ->
  a * 2 ^ (- quantum a b) < b * 2 ^ 52.
Proof.
  intros Ha Hb Hq Hn. unfold quantum in *.
  assert (Z.max (quot_log2 a b - 52) (-1074) = -1074) as E by lia.
  assert (quot_log2 a b < -1022) as Hk by lia. rewrite E in *.
  unfold quot_log2 in Hk. set (k := Z.log2 a - Z.log2 b) in *.
  destruct (Z.log2_spec a Ha) as [_ La]. destruct (Z.log2_spec b Hb) as [Lb _].
  assert (0 <= Z.log2 a) by apply Z.log2_nonneg. assert (0 <= Z.log2 b) by apply Z.log2_nonneg.
  assert (k <= -1022) by (case_match; lia).
  assert (k = -1022 -> a * 2 ^ 1022 < b) as Hedge.
  { intros ->. unfold scaled_den, scaled_num in Hk. cbn [Z.leb Z.compare] in Hk.
    change (- -1022) with 1022 in Hk. case_match; zbool; lia. }
  change (- -1074) with (1022 + 52). rewrite Z.pow_add_r by lia.
  assert (a * 2 ^ 1022 < b); [|nia].
  destruct (Z.eq_dec k (-1022)); [auto|].
  apply Z.lt_le_trans with (2 ^ Z.succ (Z.log2 a) * 2 ^ 1022); [nia|].
  rewrite <- Z.pow_add_r by lia. etrans; [|exact Lb]. apply Z.pow_le_mono_r; lia.
Qed.

(** For a quotient below [2^52], [int(a / b)] is at least the integer quotient,
    at most one more, and exceeds the exact quotient by at most one part in
    [2^53]; the division does not overflow. *)
Lemma truediv_int a b :
  0 <= a -> 0 < b -> a < b * 2 ^ 52 ->
  exists x, truediv a b = Ok x /\ a / b <= dbl_int x
            /\ 2 ^ 53 * (b * dbl_int x) <= (2 ^ 53 + 1) * a.
Proof.
  intros Ha Hb Hlt. unfold truediv. destruct (Z.eqb_spec a 0) as [->|Hz].
  { eexists. split; [done|]. rewrite Zdiv_0_l. cbn. lia. }
  assert (He := quantum_neg a b ltac:(lia) Hb Hlt). set (e := quantum a b) in *.
  rewrite (proj2 (Z.leb_gt 0 e)) by done. cbn [andb].
  eexists. split; [done|]. unfold dbl_int. cbn [man ex].
  rewrite (proj2 (Z.leb_gt 0 e)) by done.
  unfold scaled_num, scaled_den. rewrite (proj2 (Z.leb_le e 0)) by lia.
  assert (0 < 2 ^ (- e)) as Hp by (apply Z.pow_pos_nonneg; lia).
  set (m := round_half_even (a * 2 ^ (- e)) b) in *.
  split.
  - apply Z.div_le_lower_bound; [done|]. rewrite Z.mul_comm.
    apply round_half_even_ge; [done|]. assert (H := Z.mul_div_le a b Hb). nia.
  - assert (H1 := Z.mul_div_le m (2 ^ (- e)) Hp). set (t := m / 2 ^ (- e)) in *.
    destruct (Z.eq_dec e (quot_log2 a b - 52)) as [Hn|Hn].
    + assert (H2 := quantum_normal_error a b ltac:(lia) Hb ltac:(fold e; lia) Hn). fold e m in H2.
      assert (b * t * 2 ^ (- e) <= m * b) by nia.
      apply Z.mul_le_mono_pos_r with (p := 2 ^ (- e)); [done|].
      etrans; [|etrans; [exact H2|]]; nia.
    + assert (H2 := quantum_subnormal a b ltac:(lia) Hb He Hn). fold e in H2.
      assert (m <= 2 ^ 52) by (apply round_half_even_le; [done|lia]).
      assert (t = 0) as ->; [|lia]. unfold t. apply Z.div_small. split.
      * apply (round_half_even_ge _ _ 0); [done|]. nia.
      * apply Z.le_lt_trans with (2 ^ 52); [done|]. apply Z.pow_lt_mono_r; [lia|lia|].
        unfold e, quantum in *. lia.
Qed.

(** ** Order *)

(** [x < y] at any common exponent. *)
Lemma dbl_ltb_scale x y e :
  e <= ex x -> e <= ex y -> dbl_ltb x y = (man x * 2 ^ (ex x - e) <? man y * 2 ^ (ex y - e)).
Proof.
  intros Hx Hy. unfold dbl_ltb. set (m := Z.min (ex x) (ex y)).
  assert (forall z, m <= z -> 2 ^ (z - e) = 2 ^ (z - m) * 2 ^ (m - e)) as Hp.
  { intros z Hz. rewrite <- Z.pow_add_r by lia. f_equal. lia. }
  rewrite (Hp (ex x)), (Hp (ex y)), !Z.mul_assoc by lia.
  assert (0 < 2 ^ (m - e)) as H0 by (apply Z.pow_pos_nonneg; lia).
  destruct (Z.ltb_spec (man x * 2 ^ (ex x - m)) (man y * 2 ^ (ex y - m))); symmetry; [apply Z.ltb_lt|apply Z.ltb_ge]; nia.
Qed.

Lemma dbl_ge_trans x y z : dbl_ltb x y = false -> dbl_ltb y z = false -> dbl_ltb x z = false.
Proof.
  set (e := Z.min (ex x) (Z.min (ex y) (ex z))).
  rewrite !(dbl_ltb_scale _ _ e) by lia. rewrite !Z.ltb_ge. lia.
Qed.

Lemma dbl_ltb_asym x y : dbl_ltb x y = true -> dbl_ltb y x = false.
Proof.
  set (e := Z.min (ex x) (ex y)). rewrite !(dbl_ltb_scale _ _ e) by lia. rewrite Z.ltb_ge, Z.ltb_lt. lia.
Qed.
