(* ===== verification/PyDouble.v ===== *)
(** * Python [float]s

    The clock readings, the deadlines and the rates of the stress clients are
    Python floats.  They are the Standard Library's executable binary64
    ([SpecFloat] at precision 53), with Python's conversions and fixed-point
    formatting on top. *)
From Stdlib Require Export SpecFloat.
From S2P Require Import Prelude PyFloat.
#[local] Open Scope Z_scope.

Abbreviation float := spec_float (only parsing).

Definition fadd : float -> float -> float := SFadd 53 1024.
Definition fsub : float -> float -> float := SFsub 53 1024.
Definition fmul : float -> float -> float := SFmul 53 1024.
Definition fdiv : float -> float -> float := SFdiv 53 1024.
Definition flt : float -> float -> bool := SFltb.
Definition fge (x y : float) : bool := SFleb y x.

(** [m * 2^e], for the constants of the sources, and [0.0]. *)
Definition flit (m e : Z) : float := binary_normalize 53 1024 m e false.
Definition fzero : float := S754_zero false.

(** [max(x, y)] and [min(x, y)]: the first argument unless the second beats it. *)
Definition fmax (x y : float) : float := if flt x y then y else x.
Definition fmin (x y : float) : float := if flt y x then y else x.

(** [float(n)], as the operators convert an [int] operand. *)
Definition float_of_int (n : Z) : res float :=
  match flit n 0 with
  | S754_infinity _ => Raise (OverflowError (str "int too large to convert to float"))
  | x => Ok x
  end.

(** [int(x)] *)
Definition int_of_float (x : float) : res Z :=
  match x with
  | S754_nan => Raise (ValueError (str "cannot convert float NaN to integer"))
  | S754_infinity _ => Raise (OverflowError (str "cannot convert float infinity to integer"))
  | S754_zero _ => Ok 0
  | S754_finite s m e =>
      let n := if 0 <=? e then Zpos m * 2 ^ e else Zpos m / 2 ^ (- e) in
      Ok (if s then - n else n)
  end.

(** [f"{x:.{d}f}"]: the exact value rounded half to even at [d] decimals. *)
Definition fixed_digits (d : Z) (n : Z) : list Z :=
  let ds := dec_nat n in
  let ds := repeat 48 (Z.to_nat (d + 1 - len ds)) ++ ds in
  let k := Z.to_nat (len ds - d) in
  take k ds ++ (if d =? 0 then [] else 46 :: drop k ds).

Definition fixed (d : Z) (x : float) : list Z :=
  let sign (s : bool) := if s then [45] else [] in
  match x with
  | S754_nan => str "nan"
  | S754_infinity s => sign s ++ str "inf"
  | S754_zero s => sign s ++ fixed_digits d 0
  | S754_finite s m e =>
      let n := if 0 <=? e then Zpos m * 2 ^ e * 10 ^ d
               else round_half_even (Zpos m * 10 ^ d) (2 ^ (- e)) in
      sign s ++ fixed_digits d n
  end.

(** [a / b] on [int]s of any sign of [a], [b > 0], as a float. *)
Definition idiv (a b : Z) : res float :=
  x ← truediv (Z.abs a) b;
  Ok (flit (if a <? 0 then - man x else man x) (ex x)).
