(* ===== verification/Coro.v ===== *)
(** * Coroutines against a scripted environment

    A worker of the stress clients is straight Python code between [await]s.
    Everything it cannot decide itself (the clock, the random draws, what the
    network answers) is an operation [o : O] whose answer [a : A] comes from a
    script; the run records the conversation.  The script is finite: a worker
    that needs an answer when none is left, or whose next answer is not of the
    kind it waits for, is still waiting. *)
From S2P Require Import Prelude.

Section Coro.
Context {O A S : Type}.

Record world := World { env : list A; trace : list (O * A); st : S }.

Inductive outcome (R : Type) :=
| Ret (r : R)
| Exc (e : exn)
| Wait.
Arguments Ret {R} r.
Arguments Exc {R} e.
Arguments Wait {R}.

Definition coro (R : Type) : Type := world -> outcome R * world.

Definition ret {R} (r : R) : coro R := fun w => (Ret r, w).
Definition throw {R} (e : exn) : coro R := fun w => (Exc e, w).
Definition bind {R R'} (m : coro R) (k : R -> coro R') : coro R' := fun w =>
  match m w with
  | (Ret r, w') => k r w'
  | (Exc e, w') => (Exc e, w')
  | (Wait, w') => (Wait, w')
  end.
Definition lift {R} (r : res R) : coro R := match r with Ok a => ret a | Raise e => throw e end.

(** Perform [o]; [read] is what its answer means: a value, an exception. *)
Definition perform {R} (o : O) (read : A -> option (res R)) : coro R := fun w =>
  match env w with
  | [] => (Wait, w)
  | a :: env' =>
      match read a with
      | Some (Ok r) => (Ret r, World env' (trace w ++ [(o, a)]) (st w))
      | Some (Raise e) => (Exc e, World env' (trace w ++ [(o, a)]) (st w))
      | None => (Wait, w)
      end
  end.

(** The variables the coroutine shares or closes over. *)
Definition get : coro S := fun w => (Ret (st w), w).
Definition modify (f : S -> S) : coro unit := fun w => (Ret tt, World (env w) (trace w) (f (st w))).

(** [try: m except e: h(e)]; [h] returns [None] for an exception it does not
    catch. *)
Definition catch {R} (m : coro R) (h : exn -> option (coro R)) : coro R := fun w =>
  match m w with
  | (Exc e, w') => match h e with Some m' => m' w' | None => (Exc e, w') end
  | ow => ow
  end.

(** [try: m finally: f], and an [async with] block whose exit is [f]: an
    exception of [f] replaces the block's outcome. *)
Definition finally {R} (m : coro R) (f : coro unit) : coro R := fun w =>
  match m w with
  | (Wait, w') => (Wait, w')
  | (o, w') =>
      match f w' with
      | (Ret _, w'') => (o, w'')
      | (Exc e, w'') => (Exc e, w'')
      | (Wait, w'') => (Wait, w'')
      end
  end.

(** Loops: [inl] goes on, [inr] leaves.  Every loop of the sources performs an
    operation per round, so one round per scripted answer is enough. *)
Fixpoint loop {X R} (fuel : nat) (body : X -> coro (X + R)) (x : X) : coro R :=
  match fuel with
  | 0 => fun w => (Wait, w)
  | Datatypes.S f => bind (body x) (fun y => match y with inl x' => loop f body x' | inr r => ret r end)
  end%nat.
Definition iter {X R} (body : X -> coro (X + R)) (x : X) : coro R := fun w =>
  loop (Datatypes.S (length (env w))) body x w.

(** [for y in l: ...] *)
Fixpoint for_each {X Y} (l : list Y) (body : X -> Y -> coro X) (x : X) : coro X :=
  match l with
  | [] => ret x
  | y :: l' => bind (body x y) (for_each l' body)
  end.

(** ** Reasoning *)

Lemma bind_ext {R R'} (m : coro R) (k k' : R -> coro R') w :
  (forall r w', k r w' = k' r w') -> bind m k w = bind m k' w.
Proof. intros H. unfold bind. destruct (m w) as [[r|e|] w']; [apply H|done|done]. Qed.

(** [m] relates every start to every world it stops in. *)
Definition keeps {R} (P : world -> world -> Prop) (m : coro R) : Prop := forall w, P w (snd (m w)).

Section Keeps.
Context (P : world -> world -> Prop) `{!PreOrder P}.

Lemma keeps_ret {R} (r : R) : keeps P (ret r).
Proof. intros w. cbn. reflexivity. Qed.

Lemma keeps_throw {R} e : keeps P (throw (R := R) e).
Proof. intros w. cbn. reflexivity. Qed.

Lemma keeps_lift {R} (r : res R) : keeps P (lift r).
Proof. destruct r; [apply keeps_ret|apply keeps_throw]. Qed.

Lemma keeps_bind {R R'} (m : coro R) (k : R -> coro R') :
  keeps P m -> (forall r, keeps P (k r)) -> keeps P (bind m k).
Proof.
  intros Hm Hk w. specialize (Hm w). unfold bind. destruct (m w) as [[r|e|] w']; cbn in *; [|done|done].
  etrans; [exact Hm|apply Hk].
Qed.

Lemma keeps_catch {R} (m : coro R) h :
  keeps P m -> (forall e m', h e = Some m' -> keeps P m') -> keeps P (catch m h).
Proof.
  intros Hm Hh w. specialize (Hm w). unfold catch. destruct (m w) as [[r|e|] w']; cbn in *; try done.
  destruct (h e) as [m'|] eqn:E; cbn; [|done]. etrans; [exact Hm|by eapply Hh].
Qed.

Lemma keeps_finally {R} (m : coro R) f : keeps P m -> keeps P f -> keeps P (finally m f).
Proof.
  intros Hm Hf w. specialize (Hm w). unfold finally. destruct (m w) as [[r|e|] w']; cbn in *; try done;
    specialize (Hf w'); destruct (f w') as [[]]; cbn in *; by etrans.
Qed.

Lemma keeps_loop {X R} fuel (body : X -> coro (X + R)) x :
  (forall x, keeps P (body x)) -> keeps P (loop fuel body x).
Proof.
  intros Hb. revert x. induction fuel as [|f IH]; intros x; cbn [loop]; [intros w; cbn; reflexivity|].
  apply keeps_bind; [done|]. intros [x'|r]; [apply IH|apply keeps_ret].
Qed.

Lemma keeps_iter {X R} (body : X -> coro (X + R)) x : (forall x, keeps P (body x)) -> keeps P (iter body x).
Proof. intros Hb w. by apply keeps_loop. Qed.

Lemma keeps_for_each {X Y} (l : list Y) (body : X -> Y -> coro X) x :
  (forall x y, keeps P (body x y)) -> keeps P (for_each l body x).
Proof.
  intros Hb. revert x. induction l as [|y l IH]; intros x; cbn [for_each]; [apply keeps_ret|].
  by apply keeps_bind.
Qed.

Lemma keeps_get : keeps P get.
Proof. intros w. cbn. reflexivity. Qed.
End Keeps.

(** The conversation only grows, by what the script gave. *)
Definition extends (w w' : world) : Prop :=
  exists tr, trace w' = trace w ++ tr /\ env w = map snd tr ++ env w'.

#[export] Instance extends_preorder : PreOrder extends.
Proof.
  split.
  - intros w. exists []. by rewrite app_nil_r.
  - intros w1 w2 w3 (t1 & E1 & F1) (t2 & E2 & F2). exists (t1 ++ t2).
    rewrite E2, E1, F1, F2, map_app, <- !app_assoc. done.
Qed.

Lemma perform_extends {R} o (read : A -> option (res R)) : keeps extends (perform o read).
Proof.
  intros w. unfold perform. destruct (env w) as [|a env'] eqn:E; [cbn; reflexivity|].
  destruct (read a) as [[r|e]|]; cbn; [| |reflexivity]; exists [(o, a)]; by rewrite E.
Qed.

Lemma modify_extends f : keeps extends (modify f).
Proof. intros w. exists []. by rewrite app_nil_r. Qed.

Lemma extends_length w w' : extends w w' -> (length (env w') <= length (env w))%nat.
Proof. intros (tr & _ & ->). rewrite length_app. lia. Qed.

(** A round that goes on has used up an answer. *)
Definition productive {X R} (body : X -> coro (X + R)) : Prop :=
  forall x w x' w', body x w = (Ret (inl x'), w') -> (length (env w') < length (env w))%nat.

Lemma perform_uses {R} o (read : A -> option (res R)) w r w' :
  perform o read w = (Ret r, w') -> (length (env w') < length (env w))%nat.
Proof.
  unfold perform. destruct (env w) as [|a env'] eqn:E; [done|]. destruct (read a) as [[]|]; [|done|done].
  intros [= _ <-]. cbn. lia.
Qed.

Lemma bind_uses {R R'} (m : coro R) (k : R -> coro R') w r w' :
  (forall w r w', m w = (Ret r, w') -> (length (env w') < length (env w))%nat) -> (forall r, keeps extends (k r)) ->
  bind m k w = (Ret r, w') -> (length (env w') < length (env w))%nat.
Proof.
  intros Hm Hk. unfold bind. destruct (m w) as [[r0|e|] w0] eqn:E; [|done|done]. intros Ek.
  assert (H := Hk r0 w0). rewrite Ek in H. apply extends_length in H. apply Hm in E. cbn in H. lia.
Qed.

Lemma loop_fuel {X R} (body : X -> coro (X + R)) f g x w :
  productive body -> (length (env w) < f)%nat -> (length (env w) < g)%nat -> loop f body x w = loop g body x w.
Proof.
  intros Hb. revert g x w. induction f as [|f IH]; intros [|g] x w Hf Hg; [lia|lia|lia|].
  cbn [loop]. unfold bind. destruct (body x w) as [[[x'|r]|e|] w'] eqn:E; try done.
  apply Hb in E. apply IH; lia.
Qed.

(** So a loop is its first round followed by the loop. *)
Lemma iter_unfold {X R} (body : X -> coro (X + R)) x w :
  productive body ->
  iter body x w = bind (body x) (fun y => match y with inl x' => iter body x' | inr r => ret r end) w.
Proof.
  intros Hb. unfold iter at 1. cbn [loop]. unfold bind.
  destruct (body x w) as [[[x'|r]|e|] w'] eqn:E; try done.
  apply (loop_fuel body); [done|by apply Hb in E|]. lia.
Qed.

(** Induction over the rounds of a loop: [I] holds at every head, and [Q] of
    every way out. *)
Lemma iter_rule {X R} (body : X -> coro (X + R)) (I : X -> world -> Prop) (Q : outcome R -> world -> Prop) x w :
  productive body ->
  (forall x w, I x w -> match body x w with
                        | (Ret (inl x'), w') => I x' w'
                        | (Ret (inr r), w') => Q (Ret r) w'
                        | (Exc e, w') => Q (Exc e) w'
                        | (Wait, w') => Q Wait w'
                        end) ->
  I x w -> let '(o, w') := iter body x w in Q o w'.
Proof.
  intros Hb Hstep HI. unfold iter. assert (length (env w) < Datatypes.S (length (env w)))%nat as Hf by lia.
  revert Hf HI. generalize (Datatypes.S (length (env w))) as f. intros f. revert x w.
  induction f as [|f IH]; intros x w Hf HI; [lia|]. cbn [loop]. unfold bind.
  specialize (Hstep x w HI). destruct (body x w) as [[[x'|r]|e|] w'] eqn:E; try done.
  apply IH; [|done]. apply Hb in E. lia.
Qed.

(** Partial correctness of one run: [Q] of how [m] stopped, and where. *)
Definition wp {R} (m : coro R) (Q : outcome R -> world -> Prop) (w : world) : Prop :=
  let '(o, w') := m w in Q o w'.

Lemma wp_bind {R R'} (m : coro R) (k : R -> coro R') Q w :
  wp m (fun o w' => match o with
                    | Ret r => wp (k r) Q w'
                    | Exc e => Q (Exc e) w'
                    | Wait => Q Wait w'
                    end) w -> wp (bind m k) Q w.
Proof. unfold wp, bind. by destruct (m w) as [[r|e|] w']. Qed.

Lemma wp_mono {R} (m : coro R) (Q Q' : outcome R -> world -> Prop) w :
  wp m Q w -> (forall o w', Q o w' -> Q' o w') -> wp m Q' w.
Proof. unfold wp. destruct (m w). auto. Qed.

Lemma wp_perform {R} o (read : A -> option (res R)) Q w :
  Q Wait w ->
  (forall a env' r, env w = a :: env' -> read a = Some r ->
     Q (match r with Ok x => Ret x | Raise e => Exc e end) (World env' (trace w ++ [(o, a)]) (st w))) ->
  wp (perform o read) Q w.
Proof.
  intros Hw Ha. unfold wp, perform. destruct (env w) as [|a env'] eqn:E; [done|].
  destruct (read a) as [[r|e]|] eqn:Er; [exact (Ha a env' (Ok r) eq_refl Er)|exact (Ha a env' (Raise e) eq_refl Er)|done].
Qed.

Lemma wp_iter {X R} (body : X -> coro (X + R)) (I : X -> world -> Prop) (Q : outcome R -> world -> Prop) x w :
  productive body -> I x w ->
  (forall x w, I x w -> wp (body x) (fun o w' => match o with
                                                 | Ret (inl x') => I x' w'
                                                 | Ret (inr r) => Q (Ret r) w'
                                                 | Exc e => Q (Exc e) w'
                                                 | Wait => Q Wait w'
                                                 end) w) ->
  wp (iter body x) Q w.
Proof.
  intros Hb HI Hstep. apply (iter_rule body I Q x w Hb); [|done]. intros x1 w1 H1. specialize (Hstep x1 w1 H1).
  unfold wp in Hstep. by destruct (body x1 w1) as [[[?|?]|?|] ?].
Qed.

Lemma wp_for_each {X Y} (l : list Y) (body : X -> Y -> coro X) (I : X -> world -> Prop)
  (Q : outcome X -> world -> Prop) x w :
  I x w ->
  (forall x y w, In y l -> I x w -> wp (body x y) (fun o w' => match o with
                                                               | Ret x' => I x' w'
                                                               | Exc e => Q (Exc e) w'
                                                               | Wait => Q Wait w'
                                                               end) w) ->
  (forall x w, I x w -> Q (Ret x) w) ->
  wp (for_each l body x) Q w.
Proof.
  revert x w. induction l as [|y l IH]; intros x w HI Hb HQ; cbn [for_each]; [by apply HQ|].
  apply wp_bind. eapply wp_mono; [apply Hb; [by left|exact HI]|]. intros [x'|e|] w' H; [|done|done].
  apply IH; [done| |done]. intros. apply Hb; [by right|done].
Qed.
(** ** Runs by what they add to the conversation

    [runs m P s]: started in the state [s] under any script of [legal] answers,
    [m] adds some [seg] to the conversation and stops with [P seg] of the state
    and the outcome.  [P] is a weakest precondition: [runs_bind] threads it. *)
Section Runs.
Context (legal : A -> Prop).

Definition runs {R} (m : coro R) (P : list (O * A) -> S -> outcome R -> Prop) (s : S) : Prop :=
  forall w, st w = s -> Forall legal (env w) ->
  let '(o, w') := m w in
  exists seg, trace w' = trace w ++ seg /\ Forall legal (map snd seg) /\ Forall legal (env w') /\ P seg (st w') o.

Lemma runs_mono {R} (m : coro R) (P Q : list (O * A) -> S -> outcome R -> Prop) s :
  runs m P s -> (forall seg s' o, Forall legal (map snd seg) -> P seg s' o -> Q seg s' o) -> runs m Q s.
Proof.
  intros H HPQ w E L. specialize (H w E L). destruct (m w) as [o w'].
  destruct H as (seg & Ht & Hs & He & HP). exists seg. auto.
Qed.

Lemma runs_ext {R} (m m' : coro R) P s : (forall w, m w = m' w) -> runs m' P s -> runs m P s.
Proof. intros E H w. rewrite E. apply H. Qed.

Lemma runs_ret {R} (r : R) P s : P [] s (Ret r) -> runs (ret r) P s.
Proof. intros H w <- L. exists []. rewrite app_nil_r. cbn. auto. Qed.

Lemma runs_throw {R} e (P : list (O * A) -> S -> outcome R -> Prop) s : P [] s (Exc e) -> runs (throw e) P s.
Proof. intros H w <- L. exists []. rewrite app_nil_r. cbn. auto. Qed.

Lemma runs_lift {R} (x : res R) P s :
  P [] s (match x with Ok r => Ret r | Raise e => Exc e end) -> runs (lift x) P s.
Proof. destruct x; [apply runs_ret|apply runs_throw]. Qed.

Lemma runs_bind {R R'} (m : coro R) (k : R -> coro R') P s :
  runs m (fun seg s1 o => match o with
                          | Ret r => runs (k r) (fun seg' => P (seg ++ seg')) s1
                          | Exc e => P seg s1 (Exc e)
                          | Wait => P seg s1 Wait
                          end) s -> runs (bind m k) P s.
Proof.
  intros H w E L. specialize (H w E L). unfold bind. destruct (m w) as [[r|e|] w1];
    destruct H as (seg & Ht & Hs & He & HP); [|by exists seg|by exists seg].
  specialize (HP w1 eq_refl He). destruct (k r w1) as [o w2].
  destruct HP as (seg' & Ht' & Hs' & He' & HP). exists (seg ++ seg').
  rewrite Ht', Ht, app_assoc, map_app, Forall_app. auto.
Qed.

Lemma runs_perform {R} o (read : A -> option (res R)) P s :
  P [] s Wait ->
  (forall a r, legal a -> read a = Some r -> P [(o, a)] s (match r with Ok x => Ret x | Raise e => Exc e end)) ->
  runs (perform o read) P s.
Proof.
  intros HW HP w <- L. unfold perform. destruct (env w) as [|a env'] eqn:Ee.
  - exists []. rewrite app_nil_r, Ee. cbn. auto.
  - inversion L as [|? ? La Le]; subst. destruct (read a) as [[r|e]|] eqn:Er.
    + exists [(o, a)]. cbn. split; [done|]. split; [by constructor|]. split; [done|]. exact (HP a (Ok r) La Er).
    + exists [(o, a)]. cbn. split; [done|]. split; [by constructor|]. split; [done|]. exact (HP a (Raise e) La Er).
    + exists []. rewrite app_nil_r, Ee. cbn. auto.
Qed.

Lemma runs_get P s : P [] s (Ret s) -> runs get P s.
Proof. intros H w <- L. exists []. rewrite app_nil_r. cbn. auto. Qed.

Lemma runs_modify f P s : P [] (f s) (Ret tt) -> runs (modify f) P s.
Proof. intros H w <- L. exists []. rewrite app_nil_r. cbn. auto. Qed.

Lemma runs_finally {R} (m : coro R) f P s :
  runs m (fun seg s1 o => match o with
                          | Wait => P seg s1 Wait
                          | o => runs f (fun seg' s2 o2 => match o2 with
                                                           | Ret _ => P (seg ++ seg') s2 o
                                                           | Exc e => P (seg ++ seg') s2 (Exc e)
                                                           | Wait => P (seg ++ seg') s2 Wait
                                                           end) s1
                          end) s -> runs (finally m f) P s.
Proof.
  intros H w E L. specialize (H w E L). unfold finally. destruct (m w) as [[r|e|] w1];
    destruct H as (seg & Ht & Hs & He & HP); [| |by exists seg].
  all: specialize (HP w1 eq_refl He); destruct (f w1) as [[[]|e2|] w2];
    destruct HP as (seg' & Ht' & Hs' & He' & HP); exists (seg ++ seg');
    rewrite Ht', Ht, app_assoc, map_app, Forall_app; auto.
Qed.

Lemma runs_catch {R} (m : coro R) h P s :
  runs m (fun seg s1 o => match o with
                          | Exc e => match h e with
                                     | Some m' => runs m' (fun seg' => P (seg ++ seg')) s1
                                     | None => P seg s1 (Exc e)
                                     end
                          | o => P seg s1 o
                          end) s -> runs (catch m h) P s.
Proof.
  intros H w E L. specialize (H w E L). unfold catch. destruct (m w) as [[r|e|] w1];
    destruct H as (seg & Ht & Hs & He & HP); [by exists seg| |by exists seg].
  destruct (h e) as [m'|]; [|by exists seg]. specialize (HP w1 eq_refl He). destruct (m' w1) as [o w2].
  destruct HP as (seg' & Ht' & Hs' & He' & HP). exists (seg ++ seg').
  rewrite Ht', Ht, app_assoc, map_app, Forall_app. auto.
Qed.

(** A loop: [I seg s] of the conversation since the loop began, at every head. *)
Lemma runs_iter {X R} (body : X -> coro (X + R)) (I : X -> list (O * A) -> S -> Prop) P x s :
  I x [] s ->
  (forall x seg s, Forall legal (map snd seg) -> I x seg s -> P seg s Wait) ->
  (forall x seg s, Forall legal (map snd seg) -> I x seg s ->
     runs (body x) (fun seg' s' o => match o with
                                     | Ret (inl x') => I x' (seg ++ seg') s'
                                     | Ret (inr r) => P (seg ++ seg') s' (Ret r)
                                     | Exc e => P (seg ++ seg') s' (Exc e)
                                     | Wait => P (seg ++ seg') s' Wait
                                     end) s) ->
  runs (iter body x) P s.
Proof.
  intros H0 HW Hb w E L. unfold iter. generalize (Datatypes.S (length (env w))) as fuel. intros fuel.
  assert (forall fuel x seg s w, I x seg s -> Forall legal (map snd seg) -> st w = s -> Forall legal (env w) ->
    let '(o, w') := loop fuel body x w in
    exists seg', trace w' = trace w ++ seg' /\ Forall legal (map snd seg') /\ Forall legal (env w') /\
                 P (seg ++ seg') (st w') o) as H.
  { clear -HW Hb. induction fuel as [|fuel IH]; intros x seg s w HI Hs E L; cbn [loop].
    - exists []. rewrite !app_nil_r. subst s. eauto.
    - unfold bind. specialize (Hb x seg s Hs HI w E L).
      destruct (body x w) as [[[x'|r]|e|] w1]; destruct Hb as (seg1 & Ht & Hs1 & He & HP); [|by exists seg1..].
      specialize (IH x' (seg ++ seg1) (st w1) w1 HP). rewrite map_app, Forall_app in IH.
      specialize (IH (conj Hs Hs1) eq_refl He). destruct (loop fuel body x' w1) as [o w2].
      destruct IH as (seg2 & Ht2 & Hs2 & He2 & HP2). exists (seg1 ++ seg2).
      rewrite Ht2, Ht, <- !app_assoc, map_app, Forall_app in *. auto. }
  exact (H fuel x [] s w H0 (Forall_nil_2 _) E L).
Qed.

Lemma runs_for_each {X Y} (l : list Y) (body : X -> Y -> coro X) (I : list Y -> X -> list (O * A) -> S -> Prop) P x s :
  I [] x [] s ->
  (forall done y x seg s, (exists rest, l = done ++ y :: rest) -> Forall legal (map snd seg) -> I done x seg s ->
     runs (body x y) (fun seg' s' o => match o with
                                       | Ret x' => I (done ++ [y]) x' (seg ++ seg') s'
                                       | Exc e => P (seg ++ seg') s' (Exc e)
                                       | Wait => P (seg ++ seg') s' Wait
                                       end) s) ->
  (forall x seg s, Forall legal (map snd seg) -> I l x seg s -> P seg s (Ret x)) ->
  runs (for_each l body x) P s.
Proof.
  intros H0 Hb HP. assert (forall done l' x seg s, l = done ++ l' -> I done x seg s -> Forall legal (map snd seg) ->
    runs (for_each l' body x) (fun seg' s' o => P (seg ++ seg') s' o) s) as H.
  { clear -Hb HP. intros done l'. revert done. induction l' as [|y l' IH]; intros done x seg s El HI Hs; cbn [for_each].
    - apply runs_ret. rewrite app_nil_r. rewrite app_nil_r in El. subst done. by apply HP.
    - apply runs_bind. eapply runs_mono; [apply (Hb done y x seg s); [by exists l'|done|done]|].
      intros seg' s' [x'|e|] Hl H; [|done|done].
      eapply runs_mono; [apply (IH (done ++ [y]) x' (seg ++ seg')); [by rewrite <- app_assoc|done|]|].
      + rewrite map_app, Forall_app. auto.
      + intros seg2 s2 o2 _. by rewrite app_assoc. }
  exact (H [] l x [] s eq_refl H0 (Forall_nil_2 _)).
Qed.
End Runs.
End Coro.

Arguments world : clear implicits.
Arguments coro : clear implicits.
Arguments Ret {R} r.
Arguments Exc {R} e.
Arguments Wait {R}.

Declare Scope coro_scope.
Delimit Scope coro_scope with coro.
Notation "'let!' x := m 'in' k" := (bind m (fun x => k))
  (at level 10, x pattern, m at level 100, k at level 200) : coro_scope.
Notation "m ;; k" := (bind m (fun _ => k)) (at level 100, right associativity) : coro_scope.

#[export] Hint Resolve keeps_ret keeps_throw keeps_lift keeps_bind keeps_catch keeps_finally keeps_iter
  keeps_for_each keeps_get perform_extends modify_extends : py.
#[export] Existing Instance extends_preorder.
