(* ===== verification/Mix.v ===== *)
(** * The [mixed] workload's worker split

    [stress_client.py]: [MIX_DEFAULT], [MIX_FIXED], [mix_fail], [parse_mix],
    [split_mix] and the module-level [MIX_SLICES].  A diagnostic line is kept as
    a structured value ([mix_diag]) that carries what the f-string interpolates;
    [mix_fail] prints it and exits 2.  Weights are Python integers of any size,
    so the division is [PyFloat.truediv] with its rounding. *)
From S2P Require Import Prelude PyFloat.
#[local] Open Scope Z_scope.
#[local] Open Scope py_scope.

(** ** Data *)

Definition requests : list Z := str "requests".
Definition ws : list Z := str "ws".
Definition sse : list Z := str "sse".
Definition streamupload : list Z := str "streamupload".
Definition streamdownload : list Z := str "streamdownload".

Definition MIX_DEFAULT : list (list Z * Z) :=
  [(requests, 40); (ws, 20); (sse, 20); (streamupload, 10); (streamdownload, 10)].

Definition MIX_FIXED : list (list Z) := [streamupload; streamdownload].

Inductive mix_diag :=
| BadEntry (item : list Z)
| UnknownWorkload (k : list Z)
| NamedTwice (k raw : list Z)
| BadWeight (k v : list Z)
| LeavesNothing (raw : list Z)
| BelowSlices (budget : Z) (names : list (list Z)).

(** ** Operations *)

Definition mix_fail {A} (d : mix_diag) : io mix_diag A := print_exit d 2.

(** [v.isascii() and v.isdigit()] *)
Definition ascii_digits (v : list Z) : bool :=
  isascii v && match v with [] => false | _ => forallb is_digit v end.

(** One turn of [parse_mix]'s loop; the state is [(share, seen)]. *)
Definition parse_item (raw : list Z) (st : list (list Z * Z) * list (list Z)) (item0 : list Z)
  : io mix_diag (list (list Z * Z) * list (list Z)) :=
  let '(share, seen) := st in
  let item := strip item0 in
  if decide (item = []) then io_ret (share, seen) else
  let '(k0, eq, v0) := partition_on 61 item in
  let k := strip k0 in
  let v := strip v0 in
  if negb eq then mix_fail (BadEntry item) else
  if bool_decide (k ∉ akeys share) then mix_fail (UnknownWorkload k) else
  if bool_decide (k ∈ seen) then mix_fail (NamedTwice k raw) else
  if negb (ascii_digits v) then mix_fail (BadWeight k v) else
  let* n := io_res (int_of_digits v) in
  io_ret (aset share k n, k :: seen).

(** [env] is [os.environ.get("VORTEX_MIX", "")]. *)
Definition parse_mix (env : list Z) : io mix_diag (list (list Z * Z)) :=
  let raw := strip env in
  let* st := io_fold (parse_item raw) (split_on 44 raw) (MIX_DEFAULT, []) in
  let share := fst st in
  let out := filter (fun kv => 0 < kv.2) (map (fun k => (k, cget share k)) (akeys MIX_DEFAULT)) in
  match out with
  | [] => mix_fail (LeavesNothing raw)
  | _ => io_ret out
  end.

(** [sorted(exact, key=fraction, reverse=True)]: stable, so an earlier entry
    stays ahead of a later one with the same fraction. *)
Fixpoint insert_desc (x : list Z * dbl) (l : list (list Z * dbl)) : list (list Z * dbl) :=
  match l with
  | [] => [x]
  | y :: l' => if dbl_ltb (dbl_frac x.2) (dbl_frac y.2) then y :: insert_desc x l' else x :: l
  end.

Definition sort_desc (l : list (list Z * dbl)) : list (list Z * dbl) := foldr insert_desc [] l.

(** The loop that hands [spare] workers out, one each, with its early [break]. *)
Fixpoint hand_out (order : list (list Z * dbl)) (alloc : list (list Z * Z)) (spare : Z)
  : list (list Z * Z) :=
  match order with
  | [] => alloc
  | (k, _) :: order' =>
      if spare <=? 0 then alloc
      else hand_out order' (aset alloc k (cget alloc k + 1)) (spare - 1)
  end.

(** [max(alloc, key=lambda j: alloc[j])]: the first key with the largest value. *)
Fixpoint max_key (alloc : list (list Z * Z)) (best : list Z * Z) : list Z * Z :=
  match alloc with
  | [] => best
  | kv :: alloc' => max_key alloc' (if best.2 <? kv.2 then kv else best)
  end.

Definition donor (alloc : list (list Z * Z)) : list Z :=
  match alloc with
  | [] => []
  | kv :: alloc' => fst (max_key alloc' kv)
  end.

(** The floor: a slice left with no worker takes one from the largest. *)
Definition donate (alloc : list (list Z * Z)) (k : list Z) : list (list Z * Z) :=
  let d := donor alloc in
  aset (aset alloc d (cget alloc d - 1)) k 1.

Definition zero_keys (alloc : list (list Z * Z)) : list (list Z) :=
  akeys (filter (fun kv => kv.2 = 0) alloc).

(** The request-shaped slices' share of [left] workers, by largest remainder. *)
Definition split_rest (left : Z) (rest : list (list Z * Z)) : res (list (list Z * Z)) :=
  let total_w := let s := zsum (avals rest) in if s =? 0 then len rest else s in
  exact ← res_map (fun kw => x ← truediv (left * kw.2) total_w; Ok (kw.1, x)) rest;
  let alloc := aupdate [] (map (fun kx => (kx.1, dbl_int kx.2)) exact) in
  let spare := left - zsum (avals alloc) in
  let alloc := hand_out (sort_desc exact) alloc spare in
  Ok (fold_left donate (zero_keys alloc) alloc).

Definition split_mix (budget : Z) (shares : list (list Z * Z)) : io mix_diag (list (list Z * Z)) :=
  if budget <? len shares then mix_fail (BelowSlices budget (akeys shares)) else
  let out := aupdate [] (map (fun kw => (kw.1, 1)) shares) in
  let rest := filter (fun kw => kw.1 ∉ MIX_FIXED) shares in
  let extra := budget - len shares in
  let* out :=
    (if (0 <? len rest) && (0 <? extra)
     then let* alloc := io_res (split_rest (extra + len rest) rest) in
          io_ret (aupdate out alloc)
     else io_ret out) in
  io_ret (map (fun k => (k, cget out k)) (akeys shares)).

(** The module-level [MIX_SLICES], a run's exit included. *)
Definition MIX_SLICES (is_mixed : bool) (conc : Z) (env : list Z) : io mix_diag (list (list Z * Z)) :=
  if is_mixed then let* shares := parse_mix env in split_mix conc shares else io_ret [].

(** ** The documented examples *)

Example default_split_32 :
  MIX_SLICES true 32 [] =
  ([], Ok [(requests, 15); (ws, 8); (sse, 7); (streamupload, 1); (streamdownload, 1)]).
Proof. vm_compute. reflexivity. Qed.

Example skewed_split :
  MIX_SLICES true 8 (str "requests=1000 , sse=0") =
  ([], Ok [(requests, 5); (ws, 1); (streamupload, 1); (streamdownload, 1)]).
Proof. vm_compute. reflexivity. Qed.

(** ** Handing workers out *)

Lemma cget_Some d k v : aget d k = Some v -> cget d k = v.
Proof. unfold cget. by intros ->. Qed.

Lemma insert_desc_Permutation x l : Permutation (insert_desc x l) (x :: l).
Proof.
  induction l as [|y l IH]; simpl; [done|]. case_match; [|done]. rewrite IH. apply Permutation_swap.
Qed.

Lemma sort_desc_Permutation l : Permutation (sort_desc l) l.
Proof. induction l as [|x l IH]; simpl; [done|]. by rewrite insert_desc_Permutation, IH. Qed.

(** The state of an allocation: its keys are [ks], every entry non-negative. *)
Record alloc_ok (ks : list (list Z)) (alloc : list (list Z * Z)) : Prop := {
  alloc_keys : akeys alloc = ks;
  alloc_nodup : NoDup ks;
  alloc_nonneg : Forall (fun kv => 0 <= kv.2) alloc }.

Lemma alloc_ok_get ks alloc k :
  alloc_ok ks alloc -> In k ks -> exists v, aget alloc k = Some v /\ 0 <= v /\ In (k, v) alloc.
Proof.
  intros [Hk Hnd Hnn] Hin. rewrite <- Hk in Hin. unfold akeys in Hin.
  apply in_map_iff in Hin as [[k' v] [<- Hin]]. exists v. split.
  - apply aget_in; [by rewrite Hk|done].
  - rewrite Forall_forall in Hnn. split; [|done]. apply (Hnn (k', v)). by apply list_elem_of_In.
Qed.

Lemma alloc_ok_aset ks alloc k v :
  alloc_ok ks alloc -> In k ks -> 0 <= v -> alloc_ok ks (aset alloc k v).
Proof.
  intros [Hk Hnd Hnn] Hin Hv. split; [by rewrite akeys_aset_in by (by rewrite Hk)|done|].
  rewrite Forall_forall in *. intros p Hp. apply list_elem_of_In, aset_In_or in Hp as [Hp| ->].
  - apply Hnn. by apply list_elem_of_In.
  - done.
Qed.

(** Each slice visited gains one worker until [spare] runs out; with no more
    spare workers than slices, all of it is handed out. *)
Lemma hand_out_spec ks order alloc spare :
  alloc_ok ks alloc -> (forall k, In k (akeys order) -> In k ks) -> NoDup (akeys order) ->
  0 <= spare <= len order ->
  let alloc' := hand_out order alloc spare in
  alloc_ok ks alloc' /\ zsum (avals alloc') = zsum (avals alloc) + spare /\
  (forall k, In k ks -> cget alloc k <= cget alloc' k <= cget alloc k + 1) /\
  (forall k, In k ks -> ~ In k (akeys order) -> cget alloc' k = cget alloc k).
Proof.
  revert alloc spare. induction order as [|[k x] order IH]; intros alloc spare Hok Hin Hnd Hs.
  - change (len (@nil (list Z * dbl))) with 0 in Hs. simpl.
    split; [done|]. split; [lia|]. split; intros; [lia|done].
  - rewrite len_cons in Hs. simpl in Hnd. apply NoDup_cons in Hnd as [Hk Hnd].
    cbn [hand_out]. destruct (Z.leb_spec spare 0).
    + split; [done|]. split; [lia|]. split; intros; [lia|done].
    + assert (In k ks) as Hkin by (apply Hin; by left).
      destruct (alloc_ok_get _ _ _ Hok Hkin) as (v & Hv & Hv0 & _).
      rewrite (cget_Some _ _ _ Hv).
      destruct (IH (aset alloc k (v + 1)) (spare - 1)) as (Ha & Hsum & Hle & Hsame);
        [by apply alloc_ok_aset; [| |lia]|intros; apply Hin; by right|done|lia|].
      assert (forall j, In j ks -> cget (aset alloc k (v + 1)) j
                        = if decide (k = j) then cget alloc j + 1 else cget alloc j) as Hget.
      { intros j _. unfold cget. rewrite aget_aset. destruct (decide (k = j)) as [<-|]; [|done].
        by rewrite Hv. }
      split; [done|]. split; [rewrite Hsum, (zsum_aset _ _ _ _ Hv); lia|]. split.
      * intros j Hj. destruct (decide (k = j)) as [<-|Hne].
        -- rewrite Hsame, Hget by (try done; by rewrite <- list_elem_of_In). rewrite decide_True by done. lia.
        -- specialize (Hle j Hj). rewrite Hget, decide_False in Hle by done. done.
      * intros j Hj Hnin. simpl in Hnin. rewrite Hsame, Hget by tauto.
        rewrite decide_False by tauto. done.
Qed.

(** ** The floor of one worker *)

Lemma max_key_spec alloc best :
  (In (max_key alloc best) (best :: alloc)) /\
  Forall (fun kv => kv.2 <= (max_key alloc best).2) (best :: alloc).
Proof.
  revert best. induction alloc as [|kv alloc IH]; intros best; cbn [max_key].
  - split; [by left|]. constructor; [lia|constructor].
  - destruct (Z.ltb_spec best.2 kv.2).
    + destruct (IH kv) as [Hin Hall]. split; [by right|].
      constructor; [|done]. inversion Hall; subst. lia.
    + destruct (IH best) as [Hin Hall]. inversion Hall; subst. split.
      * destruct Hin as [Hin|Hin]; [by left|right; by right].
      * constructor; [done|]. constructor; [lia|done].
Qed.

Lemma donor_spec ks alloc :
  alloc_ok ks alloc -> ks <> [] ->
  exists v, aget alloc (donor alloc) = Some v /\ In (donor alloc) ks /\
            Forall (fun kv => kv.2 <= v) alloc.
Proof.
  intros Hok Hne. destruct alloc as [|kv alloc]; [by destruct Hok as [<- _ _]|].
  destruct (max_key_spec alloc kv) as [Hin Hall]. unfold donor.
  destruct (max_key alloc kv) as [d v] eqn:E. exists v. simpl in Hall |- *.
  assert (aget (kv :: alloc) d = Some v) as Hg.
  { apply aget_in; [|done]. destruct Hok as [-> ? _]. done. }
  split; [done|]. split; [|done]. destruct Hok as [<- _ _]. eapply aget_Some_in, Hg.
Qed.

Lemma zsum_small (l : list Z) m :
  Forall (fun v => v <= m) l -> In 0 l -> len l <= zsum l -> 2 <= m.
Proof.
  intros Hall Hz Hsum. destruct (Z_le_gt_dec 2 m) as [|Hm]; [done|]. exfalso.
  assert (forall l, Forall (fun v => v <= m) l -> zsum l <= len l) as Hle.
  { clear -Hm. induction 1; [done|]. rewrite len_cons. simpl. lia. }
  apply in_split in Hz as (l1 & l2 & ->). apply Forall_app in Hall as [H1 H2].
  inversion H2 as [|? ? _ H3]; subst. assert (L1 := Hle _ H1). assert (L2 := Hle _ H3).
  rewrite len_app, len_cons, zsum_app in Hsum. simpl in Hsum. lia.
Qed.

Lemma zero_keys_spec ks alloc k :
  alloc_ok ks alloc -> In k (zero_keys alloc) <-> aget alloc k = Some 0.
Proof.
  intros [Hk Hnd _]. unfold zero_keys, akeys. rewrite in_map_iff. split.
  - intros [[k' v] [<- Hin]]. apply list_elem_of_In, list_elem_of_filter in Hin as [Hv Hin].
    simpl in *. subst v. apply aget_in; [by rewrite Hk|by apply list_elem_of_In].
  - intros Hg. exists (k, 0). split; [done|].
    apply list_elem_of_In, list_elem_of_filter. split; [done|]. apply list_elem_of_In.
    clear -Hg. induction alloc as [|[k0 v0] alloc IH]; simpl in *; [done|].
    destruct (decide (k0 = k)) as [->|]; [injection Hg as ->; by left|right; auto].
Qed.

Lemma zero_keys_NoDup ks alloc : alloc_ok ks alloc -> NoDup (zero_keys alloc).
Proof.
  intros [<- Hnd _]. clear -Hnd. unfold zero_keys. induction alloc as [|[k v] alloc IH]; [constructor|].
  simpl in Hnd. apply NoDup_cons in Hnd as [Hk Hnd]. rewrite filter_cons. case_decide; [|auto].
  simpl. constructor; [|auto]. intros Hin. apply Hk.
  unfold akeys in *. apply list_elem_of_In in Hin. apply list_elem_of_In.
  apply in_map_iff in Hin as [p [<- Hp]]. apply in_map_iff. exists p. split; [done|].
  apply list_elem_of_In, list_elem_of_filter in Hp as [_ Hp]. by apply list_elem_of_In.
Qed.

Lemma donate_loop ks zs alloc :
  alloc_ok ks alloc -> NoDup zs -> len ks <= zsum (avals alloc) ->
  (forall k, In k ks -> In k zs <-> cget alloc k = 0) -> (forall k, In k zs -> In k ks) ->
  let alloc' := fold_left donate zs alloc in
  alloc_ok ks alloc' /\ zsum (avals alloc') = zsum (avals alloc) /\
  (forall k, In k ks -> 1 <= cget alloc' k).
Proof.
  revert alloc. induction zs as [|z zs IH]; intros alloc Hok Hnd Hsum Hz Hsub; cbn [fold_left].
  - split; [done|]. split; [done|]. intros k Hk.
    destruct (alloc_ok_get _ _ _ Hok Hk) as (v & Hv & H0 & _). rewrite (cget_Some _ _ _ Hv).
    destruct (Z.eq_dec v 0) as [->|]; [|lia]. exfalso. apply (Hz k Hk). by apply cget_Some.
  - apply NoDup_cons in Hnd as [Hnz Hnd].
    assert (In z ks) as Hzk by (apply Hsub; by left).
    destruct (donor_spec ks alloc Hok) as (m & Hm & Hd & Hall); [by intros ->|].
    set (d := donor alloc) in *.
    destruct (alloc_ok_get _ _ _ Hok Hzk) as (v & Hv & _ & Hvin).
    assert (v = 0) as ->.
    { rewrite <- (cget_Some _ _ _ Hv). apply Hz; [done|by left]. }
    assert (2 <= m) as Hm2.
    { apply (zsum_small (avals alloc)).
      - unfold avals. by apply Forall_map.
      - unfold avals. apply in_map_iff. by exists (z, 0).
      - rewrite <- (alloc_keys _ _ Hok) in Hsum. unfold akeys, avals in *. by rewrite !len_map in *. }
    assert (d <> z) as Hdz by (intros E; rewrite E, Hv in Hm; injection Hm; lia).
    assert (Hok1 := alloc_ok_aset _ _ d (m - 1) Hok Hd ltac:(lia)).
    assert (aget (aset alloc d (m - 1)) z = Some 0) as Hz1 by (rewrite aget_aset, decide_False; done).
    assert (donate alloc z = aset (aset alloc d (m - 1)) z 1) as Edon.
    { unfold donate. fold d. by rewrite (cget_Some _ _ _ Hm). }
    rewrite Edon.
    assert (zsum (avals (aset (aset alloc d (m - 1)) z 1)) = zsum (avals alloc)) as Esum.
    { rewrite (zsum_aset _ _ _ _ Hz1), (zsum_aset _ _ _ _ Hm). lia. }
    rewrite <- Esum in Hsum |- *. apply IH; [by apply alloc_ok_aset|done|done| |].
    + intros k Hk. unfold cget. rewrite !aget_aset.
      destruct (decide (z = k)) as [<-|Hzk']; simpl.
      { split; [|lia]. intros Hin. exfalso. by apply Hnz, list_elem_of_In. }
      specialize (Hz k Hk). unfold cget in Hz.
      destruct (decide (d = k)) as [<-|]; simpl.
      * split; [|lia]. intros Hin. assert (default 0 (aget alloc d) = 0) by (apply Hz; by right).
        rewrite Hm in *. simpl in *. lia.
      * rewrite <- Hz. simpl. split; [by right|]. by intros [?|?].
    + intros k Hk. apply Hsub. by right.
Qed.

(** ** The largest-remainder split *)

Definition quota_of (left W : Z) (kw : list Z * Z) (kx : list Z * dbl) : Prop :=
  kx.1 = kw.1 /\ left * kw.2 / W <= dbl_int kx.2 /\
  2 ^ 53 * (W * dbl_int kx.2) <= (2 ^ 53 + 1) * (left * kw.2).

Lemma weight_le_sum (rest : list (list Z * Z)) kw :
  Forall (fun kw => 0 < kw.2) rest -> In kw rest -> kw.2 <= zsum (avals rest).
Proof.
  intros Hpos Hin. apply in_split in Hin as (l1 & l2 & ->). apply Forall_app in Hpos as [H1 H2].
  assert (forall l : list (list Z * Z), Forall (fun kw => 0 < kw.2) l -> 0 <= zsum (avals l)) as H0.
  { clear. induction 1; simpl; lia. }
  inversion H2 as [|? ? H3 H4]; subst. assert (A := H0 _ H1). assert (B := H0 _ H4).
  unfold avals in *. rewrite map_app, zsum_app. simpl. lia.
Qed.

(** Every quotient is computed, and each lies within its quota. *)
Lemma exact_shares left rest :
  Forall (fun kw => 0 < kw.2) rest -> 0 < zsum (avals rest) -> 0 <= left < 2 ^ 52 ->
  exists exact,
    res_map (fun kw => x ← truediv (left * kw.2) (zsum (avals rest)); Ok (kw.1, x)) rest = Ok exact /\
    Forall2 (quota_of left (zsum (avals rest))) rest exact.
Proof.
  intros Hpos HW Hleft. set (W := zsum (avals rest)) in *.
  assert (forall l, (forall kw, In kw l -> In kw rest) -> exists exact,
    res_map (fun kw => x ← truediv (left * kw.2) W; Ok (kw.1, x)) l = Ok exact /\
    Forall2 (quota_of left W) l exact) as H; [|by apply H].
  induction l as [|[k w] l IH]; intros Hsub; [by exists []|].
  destruct IH as (exact & E & HF); [intros; apply Hsub; by right|].
  assert (0 < w) as Hw by (rewrite Forall_forall in Hpos; apply (Hpos (k, w)), list_elem_of_In, Hsub; by left).
  assert (w <= W) as HwW by (apply (weight_le_sum rest (k, w) Hpos), Hsub; by left).
  destruct (truediv_int (left * w) W) as (x & Ex & Hlo & Hhi); [nia|done|nia|].
  exists ((k, x) :: exact). cbn [res_map snd fst]. rewrite Ex. cbn [mbind res_bind]. rewrite E.
  split; [done|]. constructor; [done|done].
Qed.

(** The rounded-down shares leave between none and one spare worker per slice. *)
Lemma spare_bounds left W (rest : list (list Z * Z)) exact :
  Forall2 (quota_of left W) rest exact -> W = zsum (avals rest) -> 0 < W -> 0 <= left < 2 ^ 52 ->
  let S := zsum (map (fun kx => dbl_int kx.2) exact) in S <= left /\ left - S <= len exact.
Proof.
  intros HF HW Hpos Hleft S.
  assert (2 ^ 53 * (W * S) <= (2 ^ 53 + 1) * (left * zsum (avals rest)) /\
          left * zsum (avals rest) <= W * S + W * len exact) as [H1 H2].
  { subst S. clear HW. induction HF as [|[k w] [k' x] rest exact (Hk & Hlo & Hhi) HF IH];
      [unfold len; simpl; lia|].
    rewrite len_cons. simpl in *. assert (Hd := Z.mul_succ_div_gt (left * w) W Hpos). nia. }
  rewrite <- HW in *. split; [|nia].
  assert (2 ^ 53 * S <= (2 ^ 53 + 1) * left) by nia. lia.
Qed.

Lemma quota_keys left W rest exact : Forall2 (quota_of left W) rest exact -> akeys exact = akeys rest.
Proof. induction 1 as [|kw kx rest exact (Hk & _) _ IH]; simpl; [done|]. by rewrite Hk, IH. Qed.

Lemma quota_nonneg left W (rest : list (list Z * Z)) exact :
  Forall2 (quota_of left W) rest exact -> Forall (fun kw => 0 < kw.2) rest -> 0 < W ->
  0 <= left < 2 ^ 52 -> Forall (fun kx => 0 <= dbl_int kx.2) exact.
Proof.
  intros HF Hpos HW Hleft.
  induction HF as [|[k w] [k' x] rest exact (_ & Hlo & _) HF IH]; [constructor|].
  inversion Hpos; subst. constructor; [|auto]. simpl in *.
  assert (0 <= left * w / W) by (apply Z.div_pos; nia). lia.
Qed.

Lemma quota_lookup left W rest exact k w :
  Forall2 (quota_of left W) rest exact -> In (k, w) rest ->
  exists x, In (k, x) exact /\ quota_of left W (k, w) (k, x).
Proof.
  intros HF Hin. induction HF as [|kw [k' x] rest exact Hq HF IH]; [done|].
  destruct Hin as [->|Hin].
  - destruct Hq as [E Hq]. simpl in E. subst k'. exists x. split; [by left|done].
  - destruct (IH Hin) as (y & ? & ?). exists y. split; [by right|done].
Qed.

Lemma akeys_map {V V'} (f : list Z * V -> V') (d : list (list Z * V)) :
  akeys (map (fun kv => (kv.1, f kv)) d) = akeys d.
Proof. unfold akeys. rewrite map_map. done. Qed.

Lemma akeys_Permutation {V} (d d' : list (list Z * V)) :
  Permutation d d' -> Permutation (akeys d) (akeys d').
Proof. apply Permutation_map. Qed.

(** The allocation before the floor: every share is its rounded-down quota or
    one more, and the shares add up to [left]. *)
Lemma handed_out left (rest : list (list Z * Z)) exact :
  let W := zsum (avals rest) in
  Forall2 (quota_of left W) rest exact -> NoDup (akeys rest) ->
  Forall (fun kw => 0 < kw.2) rest -> 0 < W -> 0 <= left < 2 ^ 52 ->
  let alloc := aupdate [] (map (fun kx => (kx.1, dbl_int kx.2)) exact) in
  let alloc' := hand_out (sort_desc exact) alloc (left - zsum (avals alloc)) in
  alloc_ok (akeys rest) alloc' /\ zsum (avals alloc') = left /\
  (forall k x, In (k, x) exact -> dbl_int x <= cget alloc' k <= dbl_int x + 1).
Proof.
  intros W HF Hnd Hpos HW Hleft alloc alloc'.
  assert (Ek := quota_keys _ _ _ _ HF).
  destruct (spare_bounds left W rest exact HF eq_refl HW Hleft) as [Hs1 Hs2].
  assert (alloc = map (fun kx => (kx.1, dbl_int kx.2)) exact) as Ea.
  { unfold alloc. rewrite aupdate_nil_fresh; [done|]. simpl.
    rewrite (akeys_map (fun kx => dbl_int kx.2)). by rewrite Ek. }
  assert (zsum (avals alloc) = zsum (map (fun kx => dbl_int kx.2) exact)) as Es.
  { rewrite Ea. unfold avals. by rewrite map_map. }
  assert (alloc_ok (akeys rest) alloc) as Hok.
  { split; [rewrite Ea, (akeys_map (fun kx => dbl_int kx.2)); done|done|].
    rewrite Ea. apply Forall_map. by apply (quota_nonneg left W rest). }
  assert (Hp := sort_desc_Permutation exact).
  destruct (hand_out_spec (akeys rest) (sort_desc exact) alloc (left - zsum (avals alloc)))
    as (H1 & H2 & H3 & _); [done| | |rewrite Es; apply Permutation_length in Hp; unfold len in *; lia|].
  - intros k Hk. rewrite <- Ek. apply list_elem_of_In.
    rewrite <- (akeys_Permutation _ _ Hp). by apply list_elem_of_In.
  - rewrite (akeys_Permutation _ _ Hp). by rewrite Ek.
  - split; [done|]. split; [fold alloc' in H2; lia|]. intros k x Hin.
    assert (In k (akeys rest)) as Hk.
    { rewrite <- Ek. unfold akeys. apply in_map_iff. by exists (k, x). }
    assert (cget alloc k = dbl_int x) as <-; [|by apply H3].
    apply cget_Some, aget_in; [by rewrite (alloc_keys _ _ Hok)|].
    rewrite Ea. apply in_map_iff. by exists (k, x).
Qed.

(** *** Who gets the spare workers *)

Definition precedes {A} (l : list A) (a b : A) : Prop := exists l1 l2 l3, l = l1 ++ a :: l2 ++ b :: l3.

(** [a] comes first in [sorted(..., reverse=True)]: a larger fraction, or the same and
    an earlier place. *)
Definition beats (l : list (list Z * dbl)) (a b : list Z * dbl) : Prop :=
  dbl_ltb (dbl_frac b.2) (dbl_frac a.2) = true \/
  (dbl_ltb (dbl_frac a.2) (dbl_frac b.2) = false /\ precedes l a b).

(** An allocation of [left] workers to the shares [exact] by largest remainder. *)
Record largest_remainder (left : Z) (exact : list (list Z * dbl)) (alloc : list (list Z * Z)) : Prop := {
  lr_keys : akeys alloc = akeys exact;
  lr_total : zsum (avals alloc) = left;
  lr_near k x : In (k, x) exact -> cget alloc k = dbl_int x \/ cget alloc k = dbl_int x + 1;
  lr_order k x k' x' :
    In (k, x) exact -> In (k', x') exact -> cget alloc k = dbl_int x + 1 -> cget alloc k' = dbl_int x' ->
    beats exact (k, x) (k', x') }.

Lemma precedes_cons {A} x (l : list A) a b : precedes l a b -> precedes (x :: l) a b.
Proof. intros (l1 & l2 & l3 & ->). by exists (x :: l1), l2, l3. Qed.

Lemma precedes_head {A} (x : A) l b : In b l -> precedes (x :: l) x b.
Proof. intros (l2 & l3 & ->)%in_split. by exists [], l2, l3. Qed.

Lemma beats_ge l a b : beats l a b -> dbl_ltb (dbl_frac a.2) (dbl_frac b.2) = false.
Proof. intros [H|[H _]]; [by apply dbl_ltb_asym|done]. Qed.

Lemma insert_desc_sorted x l s :
  StronglySorted (beats l) s -> (forall z, In z s -> In z l) -> StronglySorted (beats (x :: l)) (insert_desc x s).
Proof.
  intros Hs. induction Hs as [|y s Hs IH Hy]; intros Hin; cbn [insert_desc]; [repeat constructor|].
  assert (forall a b, beats l a b -> beats (x :: l) a b) as Hmono.
  { intros a b [H|[H1 H2]]; [by left|]. right. split; [done|by apply precedes_cons]. }
  destruct (dbl_ltb (dbl_frac x.2) (dbl_frac y.2)) eqn:E.
  - constructor; [apply IH; intros; apply Hin; by right|]. rewrite insert_desc_Permutation. constructor; [by left|].
    eapply Forall_impl; [exact Hy|]. auto.
  - assert (forall z, In z (y :: s) -> dbl_ltb (dbl_frac x.2) (dbl_frac z.2) = false) as Hge.
    { intros z [<-|Hz]; [done|]. eapply dbl_ge_trans; [exact E|]. rewrite Forall_forall in Hy.
      by eapply beats_ge, Hy, list_elem_of_In. }
    constructor.
    + constructor; [|eapply Forall_impl; [exact Hy|]; auto]. clear -Hs Hmono. induction Hs as [|a s Hs IH Ha]; constructor; [done|].
      eapply Forall_impl; [exact Ha|]. auto.
    + apply Forall_forall. intros z Hz. apply list_elem_of_In in Hz. right. split; [by apply Hge|]. by apply precedes_head, Hin.
Qed.

Lemma sort_desc_sorted l : StronglySorted (beats l) (sort_desc l).
Proof.
  induction l as [|x l IH]; cbn [sort_desc foldr]; [constructor|]. apply insert_desc_sorted; [exact IH|].
  intros z Hz. apply list_elem_of_In. rewrite <- (sort_desc_Permutation l). by apply list_elem_of_In.
Qed.

(** Exactly the first [spare] of the order get one. *)
Lemma hand_out_winners order alloc spare k :
  NoDup (akeys order) ->
  cget (hand_out order alloc spare) k = cget alloc k + if decide (k ∈ akeys (take (Z.to_nat spare) order)) then 1 else 0.
Proof.
  revert alloc spare. induction order as [|[j x] order IH]; intros alloc spare Hnd.
  - rewrite take_nil. cbn [hand_out akeys map]. rewrite decide_False by apply not_elem_of_nil. lia.
  - cbn [akeys map] in Hnd. apply NoDup_cons in Hnd as [Hj Hnd]. cbn [hand_out]. destruct (Z.leb_spec spare 0).
    + replace (Z.to_nat spare) with 0%nat by lia. cbn [take akeys map]. rewrite decide_False by apply not_elem_of_nil. lia.
    + rewrite IH by done. replace (Z.to_nat spare) with (S (Z.to_nat (spare - 1))) by lia. cbn [take akeys map].
      unfold cget at 1. rewrite aget_aset. destruct (decide (j = k)) as [->|Hne].
      * cbn [default]. rewrite (decide_True (P := k ∈ _ :: _)) by (by left). rewrite decide_False; [cbn; lia|].
        intros Hk. apply Hj. unfold akeys in Hk. apply list_elem_of_fmap in Hk as (y & -> & Hy). apply list_elem_of_fmap.
        exists y. split; [done|]. by eapply elem_of_take in Hy as (? & ? & _); eapply list_elem_of_lookup_2.
      * fold (cget alloc k). destruct (decide (k ∈ akeys (take (Z.to_nat (spare - 1)) order))) as [Hk|Hk].
        -- by rewrite decide_True by (by right).
        -- rewrite decide_False; [done|]. cbn. rewrite not_elem_of_cons. done.
Qed.

Lemma handed_out_largest left (rest : list (list Z * Z)) exact :
  let W := zsum (avals rest) in
  Forall2 (quota_of left W) rest exact -> NoDup (akeys rest) ->
  Forall (fun kw => 0 < kw.2) rest -> 0 < W -> 0 <= left < 2 ^ 52 ->
  let alloc := aupdate [] (map (fun kx => (kx.1, dbl_int kx.2)) exact) in
  largest_remainder left exact (hand_out (sort_desc exact) alloc (left - zsum (avals alloc))).
Proof.
  intros W HF Hnd Hpos HW Hleft alloc. destruct (handed_out left rest exact HF Hnd Hpos HW Hleft) as (Hok & Hsum & Hq).
  assert (Ek := quota_keys _ _ _ _ HF). fold alloc in Hok, Hsum, Hq. set (spare := left - zsum (avals alloc)) in *.
  assert (NoDup (akeys exact)) as Hnx by (by rewrite Ek).
  assert (Hp := sort_desc_Permutation exact).
  assert (NoDup (akeys (sort_desc exact))) as Hns by (by rewrite (akeys_Permutation _ _ Hp)).
  assert (forall k x, In (k, x) exact -> cget alloc k = dbl_int x) as Hget.
  { intros k x Hin. unfold alloc. rewrite aupdate_nil_fresh by (cbn; by rewrite (akeys_map (fun kx => dbl_int kx.2))).
    cbn [app]. apply cget_Some, aget_in; [by rewrite (akeys_map (fun kx => dbl_int kx.2))|]. apply in_map_iff. by exists (k, x). }
  assert (forall k x, In (k, x) exact -> (k, x) ∈ sort_desc exact) as Hin' by (intros; rewrite Hp; by apply list_elem_of_In).
  assert (forall k x y, In (k, x) exact -> In (k, y) exact -> x = y) as Huniq.
  { intros k x y H1 H2. apply (aget_in exact k x Hnx) in H1. apply (aget_in exact k y Hnx) in H2. congruence. }
  split.
  - by rewrite (alloc_keys _ _ Hok), Ek.
  - exact Hsum.
  - intros k x Hin. destruct (Hq k x Hin). lia.
  - intros k x k' x' Hk Hk' Hw Hl. rewrite hand_out_winners in Hw, Hl by done. rewrite (Hget _ _ Hk) in Hw. rewrite (Hget _ _ Hk') in Hl.
    destruct (decide (k ∈ akeys (take (Z.to_nat spare) (sort_desc exact)))) as [Hwin|]; [|lia].
    destruct (decide (k' ∈ akeys (take (Z.to_nat spare) (sort_desc exact)))) as [|Hlose]; [lia|].
    assert ((k, x) ∈ take (Z.to_nat spare) (sort_desc exact)) as H1.
    { unfold akeys in Hwin. apply list_elem_of_fmap in Hwin as ([j y] & -> & Hy). cbn in *.
      assert (In (j, y) exact) as Hy'.
      { apply list_elem_of_In. rewrite <- Hp. apply elem_of_take in Hy as (i & Hi & _). by eapply list_elem_of_lookup_2. }
      by rewrite (Huniq j x y). }
    assert ((k', x') ∈ drop (Z.to_nat spare) (sort_desc exact)) as H2.
    { assert (H := Hin' _ _ Hk'). rewrite <- (take_drop (Z.to_nat spare) (sort_desc exact)) in H. apply elem_of_app in H as [H|H]; [|done].
      exfalso. apply Hlose. unfold akeys. apply list_elem_of_fmap. by exists (k', x'). }
    assert (Hs := sort_desc_sorted exact). rewrite <- (take_drop (Z.to_nat spare) (sort_desc exact)) in Hs.
    by eapply (StronglySorted_app_1_elem_of (beats exact)); [exact Hs|..].
Qed.

(** The shares are the quotients. *)
Lemma exact_quotients left W (rest : list (list Z * Z)) exact :
  res_map (fun kw => x ← truediv (left * kw.2) W; Ok (kw.1, x)) rest = Ok exact ->
  Forall2 (fun kw kx => kx.1 = kw.1 /\ truediv (left * kw.2) W = Ok kx.2) rest exact.
Proof.
  revert exact. induction rest as [|kw rest IH]; intros exact; cbn [res_map]; [by intros [= <-]; constructor|].
  destruct (truediv (left * kw.2) W) as [x|] eqn:Ex; cbn [mbind res_bind]; [|done].
  destruct (res_map _ rest) as [exact'|] eqn:Er; [|done]. intros [= <-]. constructor; [done|]. by apply IH.
Qed.

Lemma split_rest_ok left (rest : list (list Z * Z)) :
  NoDup (akeys rest) -> Forall (fun kw => 0 < kw.2) rest -> rest <> [] ->
  len rest <= left < 2 ^ 52 ->
  exists alloc, split_rest left rest = Ok alloc /\ alloc_ok (akeys rest) alloc /\
                zsum (avals alloc) = left /\ forall k, In k (akeys rest) -> 1 <= cget alloc k.
Proof.
  intros Hnd Hpos Hne Hleft.
  assert (0 < zsum (avals rest)) as HW.
  { destruct rest as [|kw rest]; [done|]. assert (H := weight_le_sum _ kw Hpos ltac:(by left)).
    inversion Hpos; subst. lia. }
  assert (H0 := len_nonneg rest).
  destruct (exact_shares left rest Hpos HW) as (exact & Ex & HF); [lia|].
  destruct (handed_out left rest exact HF Hnd Hpos HW) as (Hok & Hsum & _); [lia|].
  unfold split_rest. rewrite (proj2 (Z.eqb_neq _ 0)) by lia. rewrite Ex. cbn [mbind res_bind].
  set (alloc := hand_out _ _ _) in *.
  destruct (donate_loop (akeys rest) (zero_keys alloc) alloc) as (Hok' & Hsum' & Hone).
  - done.
  - by eapply zero_keys_NoDup.
  - rewrite Hsum. unfold akeys. rewrite len_map. lia.
  - intros k Hk. rewrite zero_keys_spec by done. unfold cget.
    destruct (alloc_ok_get _ _ _ Hok Hk) as (v & Hv & _). rewrite Hv. simpl. split; congruence.
  - intros k Hk. rewrite (zero_keys_spec (akeys rest)) in Hk by done.
    rewrite <- (alloc_keys _ _ Hok). eapply aget_Some_in, Hk.
  - eexists. split; [done|]. split; [done|]. split; [lia|done].
Qed.

(** ** The whole split *)

Lemma zsum_cget (d : list (list Z * Z)) :
  NoDup (akeys d) -> zsum (map (cget d) (akeys d)) = zsum (avals d).
Proof.
  intros Hnd.
  assert (map (cget d) (akeys d) = avals d) as ->; [|done].
  unfold akeys, avals. rewrite map_map. apply map_ext_in. intros [k v] Hin.
  by apply cget_Some, aget_in.
Qed.

Lemma zsum_filter {A} (P : A -> Prop) `{!forall x, Decision (P x)} (f : A -> Z) l :
  zsum (map f l) = zsum (map f (filter P l)) + zsum (map f (filter (fun x => ~ P x) l)).
Proof.
  induction l as [|x l IH]; [done|]. rewrite !filter_cons. simpl.
  destruct (decide (P x)) as [Hx|Hx].
  - rewrite (decide_False (P := ~ P x)) by tauto. simpl. lia.
  - rewrite (decide_True (P := ~ P x)) by tauto. simpl. lia.
Qed.

Lemma len_filter {A} (P : A -> Prop) `{!forall x, Decision (P x)} (l : list A) :
  len l = len (filter P l) + len (filter (fun x => ~ P x) l).
Proof.
  assert (E := zsum_filter P (fun _ => 1) l). rewrite !zsum_map_const in E. lia.
Qed.

Lemma akeys_filter_NoDup {V} (P : list Z * V -> Prop) `{!forall x, Decision (P x)} (d : list (list Z * V)) :
  NoDup (akeys d) -> NoDup (akeys (filter P d)).
Proof.
  intros Hnd. apply (sublist_NoDup _ _ Hnd). clear Hnd. unfold akeys.
  induction d as [|x d IH]; [constructor|]. rewrite filter_cons. simpl.
  case_decide; simpl; by constructor.
Qed.

Lemma Forall_filter_sub {A} (P Q : A -> Prop) `{!forall x, Decision (P x)} l :
  Forall Q l -> Forall Q (filter P l).
Proof. rewrite !Forall_forall. intros HQ x Hx. apply list_elem_of_filter in Hx as [_ Hx]. auto. Qed.

Definition request_shaped (shares : list (list Z * Z)) : list (list Z * Z) :=
  filter (fun kw => kw.1 ∉ MIX_FIXED) shares.

(** What the split promises of its result. *)
Record split_ok (budget : Z) (shares out : list (list Z * Z)) : Prop := {
  split_names : akeys out = akeys shares;
  split_floor : Forall (fun kn => 1 <= kn.2) out;
  split_fixed : Forall (fun kn => kn.1 ∈ MIX_FIXED -> kn.2 = 1) out;
  split_sum : zsum (avals out) = if decide (request_shaped shares = []) then len shares else budget }.

Lemma split_ok_intro budget shares f :
  NoDup (akeys shares) ->
  (forall kw, In kw shares -> 1 <= f kw.1) ->
  (forall kw, In kw shares -> kw.1 ∈ MIX_FIXED -> f kw.1 = 1) ->
  zsum (map (fun kw => f kw.1) (request_shaped shares))
  = (if decide (request_shaped shares = []) then 0
     else budget - len shares + len (request_shaped shares)) ->
  split_ok budget shares (map (fun k => (k, f k)) (akeys shares)).
Proof.
  intros Hnd Hone Hfix Hsum. unfold akeys. rewrite map_map. split.
  - unfold akeys. by rewrite map_map.
  - apply Forall_map, Forall_forall. intros kw Hin. by apply Hone, list_elem_of_In.
  - apply Forall_map, Forall_forall. intros kw Hin Hf. apply Hfix; [by apply list_elem_of_In|done].
  - unfold avals. rewrite map_map. simpl.
    rewrite (zsum_filter (fun kw : list Z * Z => kw.1 ∉ MIX_FIXED)). fold (request_shaped shares). rewrite Hsum.
    assert (zsum (map (fun kw => f kw.1) (filter (fun kw : list Z * Z => ~ (kw.1 ∉ MIX_FIXED)) shares))
            = len (filter (fun kw : list Z * Z => ~ (kw.1 ∉ MIX_FIXED)) shares)) as ->.
    { rewrite <- (Z.mul_1_l (len _)), <- zsum_map_const. f_equal. apply map_ext_in.
      intros kw Hin. apply list_elem_of_In, list_elem_of_filter in Hin as [Hk Hin].
      apply Hfix; [by apply list_elem_of_In|]. by apply dec_stable. }
    assert (E := len_filter (fun kw : list Z * Z => kw.1 ∉ MIX_FIXED) shares).
    cbn beta in E. fold (request_shaped shares) in E.
    destruct (decide (request_shaped shares = [])) as [Hd|Hd]; [|lia].
    rewrite Hd, len_nil in E. lia.
Qed.

(** [out.update(alloc)]: the allocation wins where it has a share. *)
Lemma cget_override ones alloc ks k :
  alloc_ok ks alloc ->
  cget (aupdate ones alloc) k = if decide (k ∈ ks) then cget alloc k else cget ones k.
Proof.
  intros [<- Hnd _]. unfold cget. rewrite aget_aupdate by done. destruct (aget alloc k) eqn:E.
  - rewrite decide_True; [done|]. eapply list_elem_of_In, aget_Some_in, E.
  - rewrite decide_False; [done|]. intros Hin. apply list_elem_of_In, aget_is_Some in Hin as [? ?].
    congruence.
Qed.

Lemma split_mix_ok budget shares :
  NoDup (akeys shares) -> Forall (fun kw => 0 < kw.2) shares ->
  len shares <= budget < 2 ^ 52 ->
  exists out, split_mix budget shares = ([], Ok out) /\ split_ok budget shares out.
Proof.
  intros Hnd Hpos Hb. unfold split_mix. rewrite (proj2 (Z.ltb_ge _ _)) by lia.
  rewrite aupdate_nil_fresh by (simpl; by rewrite (akeys_map (fun _ => 1))). cbn [app].
  set (ones := map _ shares). fold (request_shaped shares).
  assert (forall kw, In kw shares -> cget ones kw.1 = 1) as Hones.
  { intros kw Hin. apply cget_Some, aget_in; [unfold ones; by rewrite (akeys_map (fun _ => 1))|].
    apply in_map_iff. by exists kw. }
  destruct ((0 <? len (request_shaped shares)) && (0 <? budget - len shares)) eqn:Hc; zbool.
  - destruct (split_rest_ok (budget - len shares + len (request_shaped shares)) (request_shaped shares))
      as (alloc & Es & Hok & Hsum & Hone).
    + by apply akeys_filter_NoDup.
    + by apply Forall_filter_sub.
    + intros E. rewrite E in *. unfold len in *. simpl in *. lia.
    + assert (E := len_filter (fun kw : list Z * Z => kw.1 ∉ MIX_FIXED) shares).
      cbn beta in E. fold (request_shaped shares) in E.
      assert (Hn := len_nonneg (filter (fun kw : list Z * Z => ~ (kw.1 ∉ MIX_FIXED)) shares)). lia.
    + rewrite Es. cbn [io_bind io_res io_ret app]. eexists. split; [done|].
      assert (Hget := fun k => cget_override ones alloc _ k Hok).
      apply split_ok_intro; [done|..].
      * intros kw Hin. rewrite Hget. case_decide as Hd; [by apply Hone, list_elem_of_In|]. by rewrite Hones.
      * intros kw Hin Hf. rewrite Hget. case_decide as Hd; [|by apply Hones].
        exfalso. unfold akeys in Hd. apply list_elem_of_In, in_map_iff in Hd as (kw' & E & Hin').
        apply list_elem_of_In, list_elem_of_filter in Hin' as [Hn _]. by rewrite E in Hn.
      * rewrite decide_False by (intros E; rewrite E in *; unfold len in *; simpl in *; lia).
        rewrite <- Hsum, <- (zsum_cget alloc) by (rewrite (alloc_keys _ _ Hok); apply Hok).
        rewrite (alloc_keys _ _ Hok). unfold akeys. rewrite map_map. f_equal. apply map_ext_in.
        intros kw Hin. rewrite Hget, decide_True; [done|]. apply list_elem_of_In, in_map_iff. by exists kw.
  - cbn [io_bind io_ret app]. eexists. split; [done|].
    apply split_ok_intro; [done|intros; by rewrite Hones|intros; by apply Hones|].
    transitivity (len (request_shaped shares)).
    { rewrite <- (Z.mul_1_l (len _)), <- zsum_map_const. f_equal. apply map_ext_in.
      intros kw Hin. apply Hones. apply list_elem_of_In, list_elem_of_filter in Hin as [_ Hin].
      by apply list_elem_of_In. }
    case_decide as Hd; [by rewrite Hd|].
    assert (0 < len (request_shaped shares)) as Hl by (destruct (request_shaped shares); [done|unfold len; simpl; lia]).
    rewrite (proj2 (Z.ltb_lt _ _)) in Hc by done. simpl in Hc. zbool. lia.
Qed.

(** ** Parsing VORTEX_MIX *)

(** [item] is a well-formed [name=weight] entry denoting [kn]. *)
Definition entry_of (item : list Z) (kn : list Z * Z) : Prop :=
  exists k0 v0, partition_on 61 item = (k0, true, v0) /\ strip k0 = kn.1 /\
                ascii_digits (strip v0) = true /\ int_of_digits (strip v0) = Ok kn.2.

(** The weights in force once [kns] overrode the defaults, dropped slices removed. *)
Definition mix_of (kns : list (list Z * Z)) : list (list Z * Z) :=
  filter (fun kv => 0 < kv.2)
    (map (fun k => (k, cget (aupdate MIX_DEFAULT kns) k)) (akeys MIX_DEFAULT)).

(** A weight is one or more ASCII digits. *)
Definition weight_text (v : list Z) : Prop := v <> [] /\ Forall (fun c => 48 <= c <= 57) v.

Lemma ascii_digits_spec v : ascii_digits v = true <-> weight_text v.
Proof.
  unfold ascii_digits, weight_text, isascii. rewrite andb_true_iff. split.
  - intros [_ H]. destruct v as [|c v]; [done|]. split; [done|]. apply Forall_forall. intros x Hx.
    apply list_elem_of_In in Hx. apply (proj1 (forallb_forall _ _) H) in Hx. unfold is_digit in Hx. zbool. lia.
  - intros [Hne H]. rewrite Forall_forall in H. split.
    + apply forallb_forall. intros x Hx. apply list_elem_of_In, H in Hx. apply Z.ltb_lt. lia.
    + destruct v as [|c v]; [done|]. apply forallb_forall. intros x Hx. apply list_elem_of_In, H in Hx.
      unfold is_digit. apply andb_true_intro. split; apply Z.leb_le; lia.
Qed.

(** [item] reads [k = v]. *)
Definition assigns (item k v : list Z) : Prop :=
  exists k0 v0, partition_on 61 item = (k0, true, v0) /\ strip k0 = k /\ strip v0 = v.

(** Why an item is refused after the [names] before it, and with which diagnostic. *)
Inductive refused (raw : list Z) (names : list (list Z)) (item : list Z) : mix_diag -> Prop :=
| refused_shape : (61 ∉ item) -> refused raw names item (BadEntry item)
| refused_name k v : assigns item k v -> (k ∉ akeys MIX_DEFAULT) -> refused raw names item (UnknownWorkload k)
| refused_twice k v :
    assigns item k v -> (k ∈ akeys MIX_DEFAULT) -> (k ∈ names) -> refused raw names item (NamedTwice k raw)
| refused_weight k v :
    assigns item k v -> (k ∈ akeys MIX_DEFAULT) -> (k ∉ names) -> ~ weight_text v -> refused raw names item (BadWeight k v).

(** A good item but for a weight longer than [int] converts. *)
Definition overlong (names : list (list Z)) (item : list Z) : Prop :=
  exists k v, assigns item k v /\ (k ∈ akeys MIX_DEFAULT) /\ (k ∉ names) /\ weight_text v /\ max_str_digits < len v.

Lemma refused_names raw names names' item d :
  (forall k, k ∈ names <-> k ∈ names') -> refused raw names item d -> refused raw names' item d.
Proof.
  intros Hn Hr. destruct Hr as [H|k v H1 H2|k v H1 H2 H3|k v H1 H2 H3 H4];
    [by constructor|by econstructor|by eapply refused_twice; [..|apply Hn]|by eapply refused_weight; [..|rewrite <- Hn|]].
Qed.

Lemma overlong_names names names' item :
  (forall k, k ∈ names <-> k ∈ names') -> overlong names item -> overlong names' item.
Proof. intros Hn (k & v & H1 & H2 & H3 & H4). exists k, v. by rewrite <- Hn. Qed.

Lemma partition_on_false sep a k v : partition_on sep a = (k, false, v) -> sep ∉ a.
Proof.
  revert k v. induction a as [|c a IH]; intros k v; cbn [partition_on]; [intros _; apply not_elem_of_nil|].
  destruct (Z.eqb_spec c sep) as [|Hne]; [done|]. destruct (partition_on sep a) as [[k' f] v'] eqn:E.
  intros [= _ -> _]. rewrite not_elem_of_cons. split; [done|]. by eapply IH.
Qed.

Lemma parse_item_cases raw share seen item0 out r :
  parse_item raw (share, seen) item0 = (out, r) -> akeys share = akeys MIX_DEFAULT ->
  (strip item0 = [] /\ out = [] /\ r = Ok (share, seen)) \/
  (strip item0 <> [] /\ exists kn, entry_of (strip item0) kn /\ (kn.1 ∈ akeys MIX_DEFAULT) /\ (kn.1 ∉ seen) /\
     out = [] /\ r = Ok (aset share kn.1 kn.2, kn.1 :: seen)) \/
  (strip item0 <> [] /\ exists d, refused raw seen (strip item0) d /\ out = [d] /\ r = Raise (SystemExit 2)) \/
  (strip item0 <> [] /\ overlong seen (strip item0) /\ out = [] /\ exists m, r = Raise (ValueError m)).
Proof.
  unfold parse_item, mix_fail, print_exit. intros H Hsh. rewrite Hsh in H.
  case_decide as Hblank; [injection H as <- <-; by left|].
  destruct (partition_on 61 (strip item0)) as [[k0 eq] v0] eqn:Ep.
  destruct eq; cbn [negb] in H; [|injection H as <- <-; right; right; left; split; [done|]].
  2: { eexists. split; [|done]. constructor. by eapply partition_on_false. }
  assert (assigns (strip item0) (strip k0) (strip v0)) as Ha by (by exists k0, v0).
  case_bool_decide as Hk.
  { injection H as <- <-. right; right; left. split; [done|]. eexists. split; [|done]. by econstructor. }
  case_bool_decide as Hs.
  { injection H as <- <-. right; right; left. split; [done|]. eexists. split; [|done]. by eapply refused_twice. }
  destruct (ascii_digits (strip v0)) eqn:Ed; cbn [negb] in H.
  2: { injection H as <- <-. right; right; left. split; [done|]. eexists. split; [|done].
       eapply refused_weight; [done..|]. rewrite <- ascii_digits_spec. congruence. }
  destruct (int_of_digits (strip v0)) as [n|e] eqn:Ei; cbn in H.
  - right; left. injection H as <- <-. split; [done|]. exists (strip k0, n).
    split; [exists k0, v0; auto|]. auto.
  - right; right; right. injection H as <- <-. unfold int_of_digits in Ei.
    destruct (Z.ltb_spec max_str_digits (len (strip v0))); [|done]. injection Ei as <-. split; [done|].
    split; [|by eauto]. exists (strip k0), (strip v0). by rewrite <- ascii_digits_spec.
Qed.

Definition nonblank (items : list (list Z)) : list (list Z) := filter (fun i => i <> []) (map strip items).

(** The loop reads entries until the first item it does not accept. *)
Lemma parse_items_reads raw items share seen out r :
  io_fold (parse_item raw) items (share, seen) = (out, r) -> akeys share = akeys MIX_DEFAULT ->
  exists pre rest kns, nonblank items = pre ++ rest /\ Forall2 entry_of pre kns /\ NoDup (akeys kns) /\
    Forall (fun k => k ∈ akeys MIX_DEFAULT /\ k ∉ seen) (akeys kns) /\
    ((rest = [] /\ out = [] /\ exists seen', r = Ok (aupdate share kns, seen')) \/
     (exists item more d, rest = item :: more /\ refused raw (akeys kns ++ seen) item d /\ out = [d] /\ r = Raise (SystemExit 2)) \/
     (exists item more m, rest = item :: more /\ overlong (akeys kns ++ seen) item /\ out = [] /\ r = Raise (ValueError m))).
Proof.
  revert share seen out. induction items as [|i items IH]; intros share seen out.
  - intros [= <- <-] _. exists [], [], []. split; [done|]. do 3 (split; [constructor|]). left. by eauto.
  - cbn [io_fold]. destruct (parse_item raw (share, seen) i) as [o r0] eqn:E. intros H Hsh.
    unfold nonblank. cbn [map]. rewrite filter_cons.
    apply parse_item_cases in E as [(Hb & -> & ->)|[(Hb & kn & He & Hk & Hs & -> & ->)|[(Hb & d & Hd & -> & ->)|(Hb & Ho & -> & m & ->)]]];
      [| | | |done].
    + rewrite decide_False by tauto. cbn [io_bind] in H. destruct (io_fold _ _ _) as [o' r'] eqn:E'. injection H as <- <-. by eapply IH.
    + rewrite decide_True by done. cbn [io_bind] in H. destruct (io_fold _ _ _) as [o' r'] eqn:E'. injection H as <- <-.
      assert (akeys (aset share kn.1 kn.2) = akeys MIX_DEFAULT) as Ek
        by (rewrite akeys_aset_in; [done|]; rewrite Hsh; by apply list_elem_of_In).
      destruct (IH _ _ _ E' Ek) as (pre & rest & kns & El & HF & Hnd & Hin & Hor). unfold nonblank in El. rewrite El.
      exists (strip i :: pre), rest, (kn :: kns). split; [done|]. split; [by constructor|].
      assert (forall k, k ∈ akeys kns ++ kn.1 :: seen <-> k ∈ akeys (kn :: kns) ++ seen) as Hn
        by (intros k; cbn [akeys map]; unfold akeys; set_solver).
      split; [|split].
      * cbn [akeys map]. constructor; [|done]. rewrite Forall_forall in Hin. intros Hc. apply Hin in Hc as [_ Hc].
        apply Hc. by left.
      * cbn [akeys map]. constructor; [done|]. eapply Forall_impl; [exact Hin|]. cbn. intros k [? Hn']. split; [done|].
        intros ?. apply Hn'. by right.
      * destruct Hor as [(-> & -> & seen' & ->)|[(item & more & d & -> & Hd & -> & ->)|(item & more & m & -> & Ho & -> & ->)]].
        -- left. split; [done|]. split; [done|]. exists seen'. by destruct kn.
        -- right; left. exists item, more, d. split; [done|]. split; [by eapply refused_names|done].
        -- right; right. exists item, more, m. split; [done|]. split; [by eapply overlong_names|done].
    + rewrite decide_True by done. cbn in H. injection H as <- <-. exists [], (strip i :: nonblank items), [].
      split; [done|]. do 3 (split; [constructor|]). right; left. exists (strip i), (nonblank items), d. done.
    + rewrite decide_True by done. cbn in H. injection H as <- <-. exists [], (strip i :: nonblank items), [].
      split; [done|]. do 3 (split; [constructor|]). right; right. exists (strip i), (nonblank items), m. done.
Qed.

(** The items of a VORTEX_MIX. *)
Definition mix_items (env : list Z) : list (list Z) := nonblank (split_on 44 (strip env)).

(** [pre] are entries of distinct workloads, [kns] what they say. *)
Definition reads (pre : list (list Z)) (kns : list (list Z * Z)) : Prop :=
  Forall2 entry_of pre kns /\ NoDup (akeys kns) /\ Forall (fun k => k ∈ akeys MIX_DEFAULT) (akeys kns).

Lemma parse_mix_reads env :
  exists pre rest kns, mix_items env = pre ++ rest /\ reads pre kns /\
    ((rest = [] /\ mix_of kns <> [] /\ parse_mix env = ([], Ok (mix_of kns))) \/
     (rest = [] /\ mix_of kns = [] /\ parse_mix env = ([LeavesNothing (strip env)], Raise (SystemExit 2))) \/
     (exists item more d, rest = item :: more /\ refused (strip env) (akeys kns) item d /\
        parse_mix env = ([d], Raise (SystemExit 2))) \/
     (exists item more m, rest = item :: more /\ overlong (akeys kns) item /\ parse_mix env = ([], Raise (ValueError m)))).
Proof.
  unfold parse_mix. destruct (io_fold _ _ _) as [o r] eqn:E.
  destruct (parse_items_reads _ _ _ _ _ _ E eq_refl) as (pre & rest & kns & El & HF & Hnd & Hin & Hor).
  exists pre, rest, kns. split; [exact El|]. split.
  { split; [done|]. split; [done|]. eapply Forall_impl; [exact Hin|]. by intros k [? _]. }
  rewrite app_nil_r in Hor.
  destruct Hor as [(-> & -> & seen' & ->)|[(item & more & d & -> & Hd & -> & ->)|(item & more & m & -> & Ho & -> & ->)]].
  - cbn [io_bind fst]. fold (mix_of kns). destruct (mix_of kns) as [|kw l] eqn:Em; [right; left; done|]. left. done.
  - right; right; left. by exists item, more, d.
  - right; right; right. by exists item, more, m.
Qed.

Lemma mix_of_shape kns :
  NoDup (akeys (mix_of kns)) /\ Forall (fun kw => 0 < kw.2) (mix_of kns) /\ len (mix_of kns) <= 5.
Proof.
  unfold mix_of. set (l := map _ _). split; [|split].
  - apply akeys_filter_NoDup. unfold l, akeys. rewrite map_map. vm_compute.
    repeat constructor; set_solver.
  - rewrite Forall_forall. intros kv Hin. by apply list_elem_of_filter in Hin as [? _].
  - assert (len (filter (fun kv => 0 < kv.2) l) <= len l).
    { unfold len. apply Nat2Z.inj_le, length_filter. }
    unfold l in *. rewrite len_map in *. exact H.
Qed.

Lemma parse_mix_cases env out r :
  parse_mix env = (out, r) ->
  (exists kns, r = Ok (mix_of kns) /\ mix_of kns <> [] /\ reads (mix_items env) kns) \/
  (r = Raise (SystemExit 2) /\ exists d, out = [d]) \/
  (out = [] /\ exists m, r = Raise (ValueError m)).
Proof.
  destruct (parse_mix_reads env) as (pre & rest & kns & El & Hr & [(-> & Hne & ->)|[(_ & _ & ->)|
    [(item & more & d & _ & _ & ->)|(item & more & m & _ & _ & ->)]]]); intros [= <- <-]; [|by eauto..].
  left. exists kns. rewrite El, app_nil_r. done.
Qed.

(** Rendering weights the way the knob is documented. *)
Definition mix_item (kn : list Z * Z) : list Z := kn.1 ++ 61 :: dec_nat kn.2.
Definition render_mix (kns : list (list Z * Z)) : list Z := join [44] (map mix_item kns).

(** A character a rendered entry may contain: neither blank nor a comma. *)
Definition plain (c : Z) : Prop := is_space c = false /\ c <> 44.

Lemma default_key_chars k :
  k ∈ akeys MIX_DEFAULT -> Forall (fun c => plain c /\ c <> 61) k.
Proof.
  intros Hin. assert (H : Forall (Forall (fun c => plain c /\ c <> 61)) (akeys MIX_DEFAULT)).
  { vm_compute. repeat constructor; discriminate. }
  rewrite Forall_forall in H. by apply H.
Qed.

Lemma dec_nat_plain n : 0 <= n -> Forall (fun c => plain c /\ c <> 61) (dec_nat n).
Proof.
  intros Hn. eapply Forall_impl; [by apply dec_nat_digits|]. intros c Hc.
  assert (H := digit_not_space c Hc). unfold is_digit in Hc. zbool. unfold plain. split; [split; [done|lia]|lia].
Qed.

Lemma dec_nat_ascii_digits n : 0 <= n -> ascii_digits (dec_nat n) = true.
Proof.
  intros Hn. assert (H := dec_nat_digits n Hn). assert (Hne := dec_nat_nonempty n).
  unfold ascii_digits. apply andb_true_intro. split.
  - apply forallb_forall. intros c Hc. rewrite Forall_forall in H.
    apply list_elem_of_In, H in Hc. unfold is_digit in Hc. zbool. apply Z.ltb_lt. lia.
  - destruct (dec_nat n) as [|c s]; [done|]. apply forallb_forall. intros c' Hc.
    rewrite Forall_forall in H. by apply H, list_elem_of_In.
Qed.

Lemma mix_item_plain kn :
  kn.1 ∈ akeys MIX_DEFAULT -> 0 <= kn.2 -> Forall plain (mix_item kn).
Proof.
  intros Hk Hn. unfold mix_item. apply Forall_app. split.
  - eapply Forall_impl; [by apply default_key_chars|]. naive_solver.
  - constructor; [done|]. eapply Forall_impl; [by apply dec_nat_plain|]. naive_solver.
Qed.

Lemma parse_item_render raw share seen kn :
  akeys share = akeys MIX_DEFAULT -> kn.1 ∈ akeys MIX_DEFAULT -> kn.1 ∉ seen ->
  0 <= kn.2 -> len (dec_nat kn.2) <= max_str_digits ->
  parse_item raw (share, seen) (mix_item kn) = ([], Ok (aset share kn.1 kn.2, kn.1 :: seen)).
Proof.
  intros Hkeys Hk Hs Hn Hlen. unfold parse_item.
  assert (Hi := mix_item_plain kn Hk Hn).
  rewrite (strip_id (mix_item kn)) by (eapply Forall_impl; [exact Hi|]; unfold plain; naive_solver).
  rewrite decide_False by (unfold mix_item; by destruct kn.1).
  assert (Hkc := default_key_chars _ Hk). assert (Hnc := dec_nat_plain _ Hn).
  unfold mix_item. rewrite partition_on_found by (eapply Forall_impl; [exact Hkc|]; naive_solver).
  rewrite !strip_id by (eapply Forall_impl; [eassumption|]; unfold plain; naive_solver).
  cbn [negb]. rewrite bool_decide_eq_false_2 by (rewrite Hkeys; tauto).
  rewrite bool_decide_eq_false_2 by done. rewrite dec_nat_ascii_digits by done. cbn [negb].
  unfold int_of_digits. rewrite (proj2 (Z.ltb_ge _ _)) by lia. by rewrite dec_nat_value.
Qed.

Lemma parse_items_render raw kns share seen :
  akeys share = akeys MIX_DEFAULT -> NoDup (akeys kns ++ seen) ->
  Forall (fun kn => kn.1 ∈ akeys MIX_DEFAULT /\ 0 <= kn.2 /\ len (dec_nat kn.2) <= max_str_digits) kns ->
  exists seen', io_fold (parse_item raw) (map mix_item kns) (share, seen) = ([], Ok (aupdate share kns, seen')).
Proof.
  revert share seen. induction kns as [|[k n] kns IH]; intros share seen Hkeys Hnd H; [by eexists|].
  inversion H as [|? ? (Hk & Hn & Hl) H']; subst. simpl in Hnd. apply NoDup_cons in Hnd as [Hk' Hnd].
  cbn [map io_fold]. rewrite parse_item_render by (try done; simpl; set_solver).
  cbn [io_bind fst snd]. destruct (IH (aset share k n) (k :: seen)) as [seen' E].
  - rewrite akeys_aset_in; [done|]. rewrite Hkeys. by apply list_elem_of_In.
  - rewrite (Permutation_app_comm (akeys kns)). simpl. rewrite NoDup_cons, (Permutation_app_comm seen).
    split; [set_solver|done].
  - done.
  - exists seen'. by rewrite E.
Qed.

Lemma parse_mix_render kns :
  NoDup (akeys kns) -> mix_of kns <> [] ->
  Forall (fun kn => kn.1 ∈ akeys MIX_DEFAULT /\ 0 <= kn.2 /\ len (dec_nat kn.2) <= max_str_digits) kns ->
  parse_mix (render_mix kns) = ([], Ok (mix_of kns)).
Proof.
  intros Hnd Hne H. unfold parse_mix.
  assert (Forall (Forall plain) (map mix_item kns)) as Hp.
  { apply Forall_map. eapply Forall_impl; [exact H|]. intros kn (? & ? & _). by apply mix_item_plain. }
  assert (strip (render_mix kns) = render_mix kns) as ->.
  { apply strip_id. unfold render_mix. clear -Hp. induction Hp as [|w l Hw Hl IH]; [constructor|].
    destruct l as [|w' l].
    - eapply Forall_impl; [exact Hw|]. by intros c [? _].
    - change (join [44] (w :: w' :: l)) with (w ++ 44 :: join [44] (w' :: l)).
      apply Forall_app. split; [eapply Forall_impl; [exact Hw|]; by intros c [? _]|]. by constructor. }
  assert (exists seen', io_fold (parse_item (render_mix kns)) (split_on 44 (render_mix kns)) (MIX_DEFAULT, [])
          = ([], Ok (aupdate MIX_DEFAULT kns, seen'))) as [seen' E].
  { destruct kns as [|kn kns]; [by exists []|].
    unfold render_mix at 2. rewrite split_on_join.
    - apply parse_items_render; [done|by rewrite app_nil_r|done].
    - done.
    - eapply Forall_impl; [exact Hp|]. intros w Hw. eapply Forall_impl; [exact Hw|]. by intros c [_ ?]. }
  rewrite E. cbn [io_bind fst]. fold (mix_of kns). by destruct (mix_of kns).
Qed.

(** A resolved [MIX_SLICES] is a split of a mix of known names. *)
Lemma MIX_SLICES_split conc env out :
  conc < 2 ^ 52 -> snd (MIX_SLICES true conc env) = Ok out ->
  exists shares, split_ok conc shares out /\ Forall (fun k => k ∈ akeys MIX_DEFAULT) (akeys shares).
Proof.
  intros Hc. unfold MIX_SLICES. destruct (parse_mix env) as [o r] eqn:E.
  destruct (parse_mix_cases _ _ _ E) as [(kns & -> & _)|[[-> _]|[_ [m ->]]]]; cbn [io_bind]; [|done|done].
  destruct (mix_of_shape kns) as (Hnd & Hpos & _). intros H. exists (mix_of kns). split.
  - destruct (Z_lt_le_dec conc (len (mix_of kns))) as [Hlt|Hle].
    { exfalso. revert H. unfold split_mix. by rewrite (proj2 (Z.ltb_lt _ _)) by done. }
    destruct (split_mix_ok conc (mix_of kns) Hnd Hpos) as (out' & Es & Hok); [lia|]. rewrite Es in H. by injection H as <-.
  - apply Forall_forall. intros k Hk. apply list_elem_of_fmap in Hk as ([k' w] & -> & Hk).
    apply list_elem_of_filter in Hk as [_ Hk]. apply list_elem_of_fmap in Hk as (k & [= -> _] & Hk). done.
Qed.

(** ** Properties *)

(** C16: given distinct slices with positive weights and a budget of at least
    one worker per slice, [split_mix] returns an allocation that names exactly
    the slices of the mix in order, gives every slice at least one worker and
    every streaming slice exactly one, and whose total is exactly the budget
    whenever a request-shaped slice is present (and one worker per slice
    otherwise). *)
Theorem split_mix_exact budget shares :
  NoDup (akeys shares) -> Forall (fun kw => 0 < kw.2) shares ->
  len shares <= budget < 2 ^ 52 ->
  exists out, split_mix budget shares = ([], Ok out) /\ split_ok budget shares out.
Proof. apply split_mix_ok. Qed.

Lemma split_mix_exact_witness :
  exists out, split_mix 32 MIX_DEFAULT = ([], Ok out) /\ split_ok 32 MIX_DEFAULT out.
Proof.
  apply split_mix_exact.
  - vm_compute. repeat constructor; set_solver.
  - repeat constructor.
  - vm_compute. split; [intros ?|]; done.
Defined.

(** C24: how [MIX_SLICES] of a mixed cell resolves, for every VORTEX_MIX text and
    every worker budget below 2^52.  Split the text's non-blank items at the first
    one that is not a [name=digits] entry of a workload not named before.  If
    there is none, the defaults overridden by the entries are the mix: the result
    is its split when it is not empty and has at most [conc] slices, and exit 2
    after the one diagnostic for an empty or too wide mix otherwise.  If there is
    one, it is exit 2 after the one diagnostic that fits it; only for a new entry
    of more than 4300 digits it is [int]'s [ValueError], with nothing printed. *)
Theorem MIX_SLICES_outcomes conc env :
  conc < 2 ^ 52 ->
  exists pre rest kns, mix_items env = pre ++ rest /\ reads pre kns /\
    match rest with
    | [] =>
        if decide (mix_of kns = []) then MIX_SLICES true conc env = ([LeavesNothing (strip env)], Raise (SystemExit 2))
        else if decide (conc < len (mix_of kns))
        then MIX_SLICES true conc env = ([BelowSlices conc (akeys (mix_of kns))], Raise (SystemExit 2))
        else exists out, MIX_SLICES true conc env = ([], Ok out) /\ split_ok conc (mix_of kns) out
    | item :: _ =>
        (exists d, refused (strip env) (akeys kns) item d /\ MIX_SLICES true conc env = ([d], Raise (SystemExit 2))) \/
        (overlong (akeys kns) item /\ exists m, MIX_SLICES true conc env = ([], Raise (ValueError m)))
    end.
Proof.
  intros Hc. unfold MIX_SLICES. destruct (parse_mix_reads env) as (pre & rest & kns & El & Hr & Hor).
  exists pre, rest, kns. split; [done|]. split; [done|].
  destruct Hor as [(-> & Hne & ->)|[(-> & He & ->)|[(item & more & d & -> & Hd & ->)|(item & more & m & -> & Ho & ->)]]].
  - rewrite decide_False by done. destruct (mix_of_shape kns) as (Hnd & Hpos & _). cbn [io_bind].
    destruct (decide (conc < len (mix_of kns))) as [Hlt|Hle].
    + unfold split_mix. by rewrite (proj2 (Z.ltb_lt _ _)) by done.
    + destruct (split_mix_ok conc (mix_of kns) Hnd Hpos) as (out & Es & Hok); [lia|]. rewrite Es. by exists out.
  - by rewrite decide_True.
  - left. by exists d.
  - right. split; [done|]. by exists m.
Qed.

(** Blank items are skipped; the second [sse] is the one refused. *)
Lemma MIX_SLICES_outcomes_witness :
  exists pre rest kns, mix_items (str "sse=0, ,sse=7,ws=") = pre ++ rest /\ reads pre kns /\
    match rest with
    | [] =>
        if decide (mix_of kns = [])
        then MIX_SLICES true 6 (str "sse=0, ,sse=7,ws=") = ([LeavesNothing (strip (str "sse=0, ,sse=7,ws="))], Raise (SystemExit 2))
        else if decide (6 < len (mix_of kns))
        then MIX_SLICES true 6 (str "sse=0, ,sse=7,ws=") = ([BelowSlices 6 (akeys (mix_of kns))], Raise (SystemExit 2))
        else exists out, MIX_SLICES true 6 (str "sse=0, ,sse=7,ws=") = ([], Ok out) /\ split_ok 6 (mix_of kns) out
    | item :: _ =>
        (exists d, refused (strip (str "sse=0, ,sse=7,ws=")) (akeys kns) item d /\
                   MIX_SLICES true 6 (str "sse=0, ,sse=7,ws=") = ([d], Raise (SystemExit 2))) \/
        (overlong (akeys kns) item /\ exists m, MIX_SLICES true 6 (str "sse=0, ,sse=7,ws=") = ([], Raise (ValueError m)))
    end.
Proof. apply (MIX_SLICES_outcomes 6 (str "sse=0, ,sse=7,ws=")). lia. Defined.

Example refused_twice_example :
  MIX_SLICES true 6 (str "sse=0, ,sse=7,ws=") = ([NamedTwice sse (str "sse=0, ,sse=7,ws=")], Raise (SystemExit 2)).
Proof. vm_compute. reflexivity. Qed.

(** C38: the request-shaped slices are split by largest remainder.  With distinct
    slices of positive weight and [len rest <= left < 2^52], the shares [x] are
    the float quotients [left * w / W]; before the floor of one worker, each slice
    has [int(x)] workers or one more, all [left] of them are handed out, and every
    slice that got the extra one has a larger fraction than any that did not, or
    the same fraction and an earlier place in the mix; the floor then moves a
    worker to each slice left with none.  When every exact share [left * w / W] is
    at least one there is none, and each slice is within one of its exact share
    (up to one part in 2^53 of float rounding). *)
Theorem split_rest_largest_remainder left (rest : list (list Z * Z)) :
  let W := zsum (avals rest) in
  NoDup (akeys rest) -> Forall (fun kw => 0 < kw.2) rest -> rest <> [] -> len rest <= left < 2 ^ 52 ->
  exists exact alloc,
    Forall2 (fun kw kx => kx.1 = kw.1 /\ truediv (left * kw.2) W = Ok kx.2) rest exact /\
    largest_remainder left exact alloc /\
    split_rest left rest = Ok (fold_left donate (zero_keys alloc) alloc) /\
    (Forall (fun kw => W <= left * kw.2) rest ->
     split_rest left rest = Ok alloc /\
     forall k w, In (k, w) rest ->
       left * w < W * (cget alloc k + 1) /\ 2 ^ 53 * (W * (cget alloc k - 1)) <= (2 ^ 53 + 1) * (left * w)).
Proof.
  intros W Hnd Hpos Hne Hleft. assert (Hlen := len_nonneg rest).
  assert (0 < W) as HW.
  { destruct rest as [|kw rest]; [done|]. assert (H := weight_le_sum _ kw Hpos ltac:(by left)).
    inversion Hpos; subst. unfold W. lia. }
  destruct (exact_shares left rest Hpos HW) as (exact & Ex & HF); [lia|].
  destruct (handed_out left rest exact HF Hnd Hpos HW) as (Hok & Hsum & Hq); [lia|].
  assert (Hlr := handed_out_largest left rest exact HF Hnd Hpos HW ltac:(lia)). cbv zeta in Hok, Hsum, Hq, Hlr.
  set (alloc := hand_out _ _ _) in *. exists exact, alloc.
  assert (split_rest left rest = Ok (fold_left donate (zero_keys alloc) alloc)) as Es.
  { unfold split_rest. fold W in Ex |- *. rewrite (proj2 (Z.eqb_neq W 0)) by lia. rewrite Ex. reflexivity. }
  split; [by apply exact_quotients|]. split; [done|]. split; [done|]. intros Hone.
  assert (Hx := fun k w => quota_lookup left W rest exact k w HF).
  assert (zero_keys alloc = []) as Ez.
  { destruct (zero_keys alloc) as [|k zs] eqn:Ez; [done|]. exfalso.
    assert (Hz : aget alloc k = Some 0) by (apply (zero_keys_spec _ _ _ Hok); rewrite Ez; by left).
    assert (Hk := aget_Some_in _ _ _ Hz). rewrite (alloc_keys _ _ Hok) in Hk.
    apply in_map_iff in Hk as ([k' w] & E & Hin). simpl in E. subst k'.
    destruct (Hx k w Hin) as (x & Hin' & _ & Hlo & _). destruct (Hq k x Hin') as [Hlo' _].
    rewrite (cget_Some _ _ _ Hz) in Hlo'. rewrite Forall_forall in Hone.
    assert (Hw := Hone (k, w) (proj2 (list_elem_of_In _ _) Hin)). simpl in Hw, Hlo.
    assert (1 <= left * w / W) by (apply Z.div_le_lower_bound; lia). lia. }
  rewrite Es, Ez. split; [done|]. intros k w Hin.
  destruct (Hx k w Hin) as (x & Hin' & _ & Hlo & Hhi). destruct (Hq k x Hin') as [Hlo' Hhi'].
  simpl in Hlo, Hhi. assert (Hd := Z.mul_succ_div_gt (left * w) W HW). nia.
Qed.

(** 30 workers at 40/20/20: the shares are 15, 7.5 and 7.5, and the tie goes to
    [ws]. *)
Lemma split_rest_largest_remainder_witness :
  split_rest 30 [(requests, 40); (ws, 20); (sse, 20)] = Ok [(requests, 15); (ws, 8); (sse, 7)] /\
  exists exact, largest_remainder 30 exact [(requests, 15); (ws, 8); (sse, 7)].
Proof.
  destruct (split_rest_largest_remainder 30 [(requests, 40); (ws, 20); (sse, 20)]) as (exact & alloc & _ & Hl & _ & Hs).
  - vm_compute. repeat constructor; set_solver.
  - repeat constructor.
  - done.
  - vm_compute. split; [intros ?|]; done.
  - destruct Hs as [Hs _]; [repeat constructor; vm_compute; intros ?; done|].
    assert (split_rest 30 [(requests, 40); (ws, 20); (sse, 20)] = Ok [(requests, 15); (ws, 8); (sse, 7)]) as E
      by (vm_compute; reflexivity).
    split; [exact E|]. exists exact. rewrite E in Hs. injection Hs as <-. exact Hl.
Defined.

(** C32: writing weights in the documented [name=weight,...] form and parsing
    them gives the defaults overridden by those weights, with the slices of
    weight 0 dropped; nothing is printed. *)
Theorem parse_mix_roundtrip kns :
  NoDup (akeys kns) -> mix_of kns <> [] ->
  Forall (fun kn => kn.1 ∈ akeys MIX_DEFAULT /\ 0 <= kn.2 /\ len (dec_nat kn.2) <= max_str_digits) kns ->
  parse_mix (render_mix kns) = ([], Ok (mix_of kns)).
Proof. apply parse_mix_render. Qed.

Lemma parse_mix_roundtrip_witness :
  parse_mix (render_mix [(sse, 0); (requests, 100)]) = ([], Ok (mix_of [(sse, 0); (requests, 100)])).
Proof.
  apply parse_mix_roundtrip.
  - vm_compute. repeat constructor; set_solver.
  - vm_compute. done.
  - repeat constructor; vm_compute; try (intros ?; done); set_solver.
Defined.

(** A weight of more than 4300 digits is not answered by exit code 2 and a
    diagnostic, as every other malformed weight is: [int] raises [ValueError]. *)
Theorem parse_mix_long_weight n :
  max_str_digits < Z.of_nat n ->
  exists m, parse_mix (requests ++ 61 :: repeat 57 n) = ([], Raise (ValueError m)).
Proof.
  intros Hn. set (w := repeat 57 n).
  assert (Forall (fun c => c = 57) w) as Hw by (apply Forall_forall; intros c Hc; by eapply repeat_spec, list_elem_of_In).
  assert (Forall (fun c => is_space c = false /\ c <> 44) (requests ++ 61 :: w)) as Hp.
  { apply Forall_app. split; [vm_compute; by repeat constructor|]. constructor; [done|].
    eapply Forall_impl; [exact Hw|]. by intros c ->. }
  unfold parse_mix.
  assert (Hs : strip (requests ++ 61 :: w) = requests ++ 61 :: w)
    by (apply strip_id; eapply Forall_impl; [exact Hp|]; by intros c [? _]).
  rewrite Hs, split_on_word by (eapply Forall_impl; [exact Hp|]; by intros c [_ ?]).
  cbn [io_fold]. unfold parse_item. rewrite Hs, decide_False by done.
  rewrite partition_on_found by (vm_compute; by repeat constructor).
  rewrite (strip_id w) by (eapply Forall_impl; [exact Hw|]; by intros c ->).
  change (strip requests) with requests. cbn [negb].
  rewrite bool_decide_eq_false_2 by (intros H; apply H; by left).
  rewrite bool_decide_eq_false_2 by set_solver.
  assert (ascii_digits w = true) as ->.
  { unfold ascii_digits. apply andb_true_intro. split.
    - apply forallb_forall. intros c Hc. rewrite Forall_forall in Hw. apply list_elem_of_In, Hw in Hc. by subst c.
    - destruct w as [|c w'] eqn:E; [destruct n; [vm_compute in Hn|]; done|]. rewrite <- E in *.
      apply forallb_forall. intros c' Hc. rewrite Forall_forall in Hw. apply list_elem_of_In, Hw in Hc. by subst c'. }
  cbn [negb]. unfold int_of_digits.
  assert (len w = Z.of_nat n) as -> by (unfold len, w; by rewrite repeat_length).
  rewrite (proj2 (Z.ltb_lt _ _)) by done. by eexists.
Qed.

Lemma parse_mix_long_weight_witness :
  exists m, parse_mix (requests ++ 61 :: repeat 57 4301) = ([], Raise (ValueError m)).
Proof. apply parse_mix_long_weight. vm_compute. reflexivity. Defined.
