(* ===== verification/WsFrame.v ===== *)
(** * WebSocket framing

    The hand-rolled framing of the two HTTP/3 clients: [ws_frame] and
    [parse_ws] of [conformance/stress/client/h3.py] (Module [H3]) and of
    [conformance/h3websocket/client.py] (Module [Conf]).  The two parsers have
    the same loop and differ in the extended lengths they know, so the loop is
    one definition over the header reader
    and the assertion's text.  [Rfc] is the RFC 6455 reading of a
    frame the theorems compare the code with. *)
From S2P Require Import Prelude.
#[local] Open Scope Z_scope.

(** ** Data *)

Definition OP_TEXT := 1.
Definition OP_BINARY := 2.
Definition OP_CLOSE := 8.
Definition OP_PING := 9.
Definition OP_PONG := 10.

Definition WS_MASK : list Z := [33; 67; 101; 135].

(** A parsed frame: opcode and payload. *)
Abbreviation frame := (Z * list Z)%type.

(** [n.to_bytes(k, "big")] and [int.from_bytes(b, "big")] *)
Fixpoint to_be (k : nat) (n : Z) : list Z :=
  match k with
  | O => []
  | S k' => to_be k' (n / 256) ++ [n mod 256]
  end.

Definition from_be (b : list Z) : Z := fold_left (fun acc x => 256 * acc + x) b 0.

(** [bytes(payload[i] ^ MASK[i % 4] for i in range(n))] *)
Definition mask_payload (payload : list Z) : list Z :=
  imap (fun i b => Z.lxor b (nth (i mod 4) WS_MASK 0)) payload.

(** ** The parsing loop *)

(** [ext ln rest] is the length of the frame at the head of [rest] and the size
    of its header, when that much has arrived. *)
Section Loop.
Context (ext : Z -> list Z -> option (Z * Z)) (unmasked_msg : list Z).

Inductive step_result :=
| Incomplete
| Masked
| Parsed (f : frame) (size : Z).

(** The body of the [while] loop at [rest = buf[pos:]]. *)
Definition parse_step (rest : list Z) : step_result :=
  match rest with
  | b0 :: b1 :: _ =>
      if negb (Z.land b1 128 =? 0) then Masked else
      match ext (Z.land b1 127) rest with
      | None => Incomplete
      | Some (ln, hdr) =>
          if len rest <? hdr + ln then Incomplete
          else Parsed (Z.land b0 15, take (Z.to_nat ln) (drop (Z.to_nat hdr) rest)) (hdr + ln)
      end
  | _ => Incomplete
  end.

Fixpoint parse_loop (fuel : nat) (buf : list Z) (frames : list frame) (pos : Z)
  : res (list frame * Z) :=
  match fuel with
  | O => Ok (frames, pos)
  | S fuel' =>
      match parse_step (drop (Z.to_nat pos) buf) with
      | Incomplete => Ok (frames, pos)
      | Masked => Raise (AssertionError unmasked_msg)
      | Parsed f size => parse_loop fuel' buf (frames ++ [f]) (pos + size)
      end
  end.

(** Every parsed frame is at least two bytes long, so one unit of fuel per
    byte is enough (Lemma [parse_buf_unfold]). *)
Definition parse_buf (buf : list Z) : res (list frame * Z) :=
  parse_loop (S (length buf)) buf [] 0.
End Loop.

(** [conformance/stress/client/h3.py] *)
Module H3.
Definition ws_frame (opcode : Z) (payload : list Z) (fin : bool) : res (list Z) :=
  let b0 := Z.lor (if fin then 128 else 0) opcode in
  if negb ((0 <=? b0) && (b0 <? 256)) then Raise (ValueError (str "byte must be in range(0, 256)")) else
  let n := len payload in
  lenb ← (if n <? 126 then Ok [Z.lor 128 n]
          else if n <? 65536
          then Ok [Z.lor 128 126; Z.land (Z.shiftr n 8) 255; Z.land n 255]
          else if 2 ^ 64 <=? n then Raise (OverflowError (str "int too big to convert"))
          else Ok (Z.lor 128 127 :: to_be 8 n));
  Ok (b0 :: lenb ++ WS_MASK ++ mask_payload payload).

Definition ext (ln : Z) (rest : list Z) : option (Z * Z) :=
  if ln =? 126 then
    if len rest <? 4 then None
    else Some (Z.lor (Z.shiftl (nth 2 rest 0) 8) (nth 3 rest 0), 4)
  else if ln =? 127 then
    if len rest <? 10 then None
    else Some (from_be (take 8 (drop 2 rest)), 10)
  else Some (ln, 2).

Definition parse_ws (buf : list Z) : res (list frame * Z) :=
  parse_buf ext (str "server WebSocket frame must be unmasked") buf.
End H3.

(** [conformance/h3websocket/client.py] *)
Module Conf.
Definition ws_frame (opcode : Z) (payload : list Z) (fin : bool) : res (list Z) :=
  if negb (len payload <? 126) then Raise (AssertionError []) else
  let b0 := Z.lor (if fin then 128 else 0) opcode in
  if negb ((0 <=? b0) && (b0 <? 256)) then Raise (ValueError (str "byte must be in range(0, 256)")) else
  Ok (b0 :: Z.lor 128 (len payload) :: WS_MASK ++ mask_payload payload).

Definition ext (ln : Z) (rest : list Z) : option (Z * Z) :=
  if ln =? 126 then
    if len rest <? 4 then None
    else Some (Z.lor (Z.shiftl (nth 2 rest 0) 8) (nth 3 rest 0), 4)
  else Some (ln, 2).

Definition parse_ws (buf : list Z) : res (list frame * Z) :=
  parse_buf ext (str "server frame must be unmasked") buf.
End Conf.

(** ** RFC 6455, section 5.2, as the reference *)
Module Rfc.
(** The length field of a frame, in its shortest form. *)
Definition length_field (mask_bit n : Z) : list Z :=
  if n <? 126 then [mask_bit + n]
  else if n <? 65536 then mask_bit + 126 :: to_be 2 n
  else mask_bit + 127 :: to_be 8 n.

(** An unmasked (server) frame with the FIN bit set. *)
Definition server_frame (f : frame) : list Z := (128 + f.1) :: length_field 0 (len f.2) ++ f.2.

(** A frame in the range the wire format can carry. *)
Definition wf_frame (f : frame) : Prop := 0 <= f.1 < 16 /\ len f.2 < 2 ^ 64.

Definition read_length (code : Z) (s : list Z) : option (Z * list Z) :=
  if code <? 126 then Some (code, s)
  else let k := if code =? 126 then 2%nat else 8%nat in
       if len s <? Z.of_nat k then None else Some (from_be (take k s), drop k s).

(** Reading one masked (client) frame off the front of a byte stream:
    [(fin, opcode, payload, rest)]. *)
Definition read_client_frame (s : list Z) : option (bool * Z * list Z * list Z) :=
  match s with
  | b0 :: b1 :: s =>
      if b1 <? 128 then None else
      '(n, s) ← read_length (b1 - 128) s;
      match s with
      | k0 :: k1 :: k2 :: k3 :: s =>
          if len s <? n then None
          else Some (128 <=? b0, b0 mod 16,
                     imap (fun i b => Z.lxor b (nth (i mod 4) [k0; k1; k2; k3] 0)) (take (Z.to_nat n) s),
                     drop (Z.to_nat n) s)
      | _ => None
      end
  | _ => None
  end.
End Rfc.

Example parse_two : H3.parse_ws [129; 2; 104; 105; 130; 1; 7; 129] = Ok ([(1, [104; 105]); (2, [7])], 7).
Proof. reflexivity. Qed.

(** ** Facts about bytes, by exhaustion *)

Lemma byte_forall (P : Z -> bool) :
  forallb P (seqZ 0 256) = true -> forall b, is_byte b -> P b = true.
Proof.
  intros H b Hb. rewrite forallb_forall in H. apply H, list_elem_of_In, elem_of_seqZ.
  unfold is_byte in Hb. lia.
Qed.

Lemma land_128 b : 0 <= b < 128 -> Z.land b 128 = 0.
Proof.
  intros H. apply Z.eqb_eq.
  assert (E := byte_forall (fun b => (128 <=? b) || (Z.land b 128 =? 0)) eq_refl b ltac:(unfold is_byte; lia)).
  apply orb_prop in E as [E|E]; [zbool; lia|done].
Qed.

Lemma land_127 b : is_byte b -> Z.land b 127 = b mod 128.
Proof. intros _. apply (Z.land_ones b 7). lia. Qed.

Lemma land_15 b : Z.land b 15 = b mod 16.
Proof. apply (Z.land_ones b 4). lia. Qed.

Lemma lor_128 n : 0 <= n < 128 -> Z.lor 128 n = 128 + n.
Proof.
  intros H. apply Z.eqb_eq.
  assert (E := byte_forall (fun b => (128 <=? b) || (Z.lor 128 b =? 128 + b)) eq_refl n ltac:(unfold is_byte; lia)).
  apply orb_prop in E as [E|E]; [zbool; lia|done].
Qed.

Lemma lor_shift_byte a b : 0 <= b < 256 -> Z.lor (Z.shiftl a 8) b = 256 * a + b.
Proof.
  intros Hb. rewrite <- Z.add_nocarry_lor.
  - rewrite Z.shiftl_mul_pow2 by lia. lia.
  - apply Z.bits_inj'. intros n Hn. rewrite Z.land_spec, Z.bits_0.
    destruct (Z_lt_le_dec n 8).
    + by rewrite Z.shiftl_spec_low.
    + rewrite (Z.bits_above_log2 b n); [apply andb_false_r|lia|].
      destruct (Z.eq_dec b 0) as [->|]; [simpl; lia|]. apply Z.log2_lt_pow2; [lia|].
      apply Z.lt_le_trans with (2 ^ 8); [lia|]. apply Z.pow_le_mono_r; lia.
Qed.

(** ** Big-endian integers *)

Lemma length_to_be k n : length (to_be k n) = k.
Proof. revert n. induction k as [|k IH]; intros n; simpl; [done|]. rewrite length_app, IH. simpl. lia. Qed.

Lemma len_to_be k n : len (to_be k n) = Z.of_nat k.
Proof. unfold len. by rewrite length_to_be. Qed.

Lemma from_be_snoc b x : from_be (b ++ [x]) = 256 * from_be b + x.
Proof. unfold from_be. by rewrite fold_left_app. Qed.

Lemma from_to_be k n : 0 <= n < 256 ^ Z.of_nat k -> from_be (to_be k n) = n.
Proof.
  revert n. induction k as [|k IH]; intros n Hn.
  - change (256 ^ Z.of_nat 0) with 1 in Hn. cbn. lia.
  - cbn [to_be]. rewrite from_be_snoc, IH.
    + assert (H := Z.div_mod n 256 ltac:(lia)). lia.
    + rewrite Nat2Z.inj_succ, Z.pow_succ_r in Hn by lia.
      split; [apply Z.div_pos; lia|]. apply Z.div_lt_upper_bound; lia.
Qed.

Lemma wf_to_be k n : wf_bytes (to_be k n).
Proof.
  revert n. induction k as [|k IH]; intros n; [constructor|]. apply Forall_app. split; [apply IH|].
  constructor; [|constructor]. apply Z.mod_pos_bound. lia.
Qed.

Lemma from_be_nonneg b : wf_bytes b -> 0 <= from_be b.
Proof.
  induction b as [|x b IH] using rev_ind; intros H; [done|]. apply Forall_app in H as [Hb Hx].
  inversion Hx as [|? ? Hx' _]; subst. rewrite from_be_snoc. unfold is_byte in Hx'. specialize (IH Hb). lia.
Qed.

(** ** Masking *)

Lemma length_mask payload : length (mask_payload payload) = length payload.
Proof. apply length_imap. Qed.

Lemma mask_involutive payload : mask_payload (mask_payload payload) = payload.
Proof.
  unfold mask_payload. apply list_eq. intros i. rewrite !list_lookup_imap.
  destruct (payload !! i); simpl; [|done]. by rewrite Z.lxor_assoc, Z.lxor_nilpotent, Z.lxor_0_r.
Qed.

(** ** The parsing loop *)

(** What a header reader owes the loop: lengths are natural, the header has at
    least its two fixed bytes, and only the header's own bytes decide what is read. *)
Class HeaderReader (ext : Z -> list Z -> option (Z * Z)) : Prop := {
  ext_bounds ln rest n h :
    wf_bytes rest -> 0 <= ln -> ext ln rest = Some (n, h) -> 0 <= n /\ 2 <= h;
  ext_app ln rest more r : ext ln rest = Some r -> ext ln (rest ++ more) = Some r;
  ext_take ln rest k n h : ext ln rest = Some (n, h) -> h <= Z.of_nat k -> ext ln (take k rest) = Some (n, h) }.

Lemma nth_byte i bs : wf_bytes bs -> is_byte (nth i bs 0).
Proof.
  intros H. destruct (nth_in_or_default i bs 0) as [Hin| ->]; [|done].
  unfold wf_bytes in H. rewrite Forall_forall in H. by apply H, list_elem_of_In.
Qed.

Lemma nth_take {A} i k (l : list A) d : (i < k)%nat -> nth i (take k l) d = nth i l d.
Proof.
  revert k l. induction i as [|i IH]; intros [|k] [|x l] H; try lia; try done. cbn. apply IH. lia.
Qed.

Lemma ext16_bounds rest :
  wf_bytes rest -> 0 <= Z.lor (Z.shiftl (nth 2 rest 0) 8) (nth 3 rest 0).
Proof.
  intros Hwf. assert (A := nth_byte 2 rest Hwf). assert (B := nth_byte 3 rest Hwf).
  unfold is_byte in *. rewrite lor_shift_byte; lia.
Qed.

#[export] Instance H3_ext_reader : HeaderReader H3.ext.
Proof.
  split; unfold H3.ext.
  - intros ln rest n h Hwf Hln H. repeat (case_match; try done); simplify_eq.
    + split; [by apply ext16_bounds|lia].
    + split; [|lia]. apply from_be_nonneg. apply Forall_take, Forall_drop. exact Hwf.
    + lia.
  - intros ln rest more r H. assert (0 <= len more) by apply len_nonneg. rewrite len_app.
    destruct (ln =? 126).
    + destruct (Z.ltb_spec (len rest) 4); [done|]. destruct (Z.ltb_spec (len rest + len more) 4); [lia|].
      unfold len in *. rewrite !app_nth1 by lia. done.
    + destruct (ln =? 127); [|done].
      destruct (Z.ltb_spec (len rest) 10); [done|]. destruct (Z.ltb_spec (len rest + len more) 10); [lia|].
      unfold len in *. rewrite drop_app_le, take_app_le by (rewrite ?length_drop; lia). done.
  - intros ln rest k n h H Hk. rewrite len_take. destruct (ln =? 126).
    + destruct (Z.ltb_spec (len rest) 4); [done|]. injection H as <- <-.
      destruct (Z.ltb_spec (Z.min (Z.of_nat k) (len rest)) 4); [lia|]. by rewrite !nth_take by lia.
    + destruct (ln =? 127); [|done].
      destruct (Z.ltb_spec (len rest) 10); [done|]. injection H as <- <-.
      destruct (Z.ltb_spec (Z.min (Z.of_nat k) (len rest)) 10); [lia|].
      rewrite !take_drop_commute, take_take. by rewrite Nat.min_l by lia.
Qed.

#[export] Instance Conf_ext_reader : HeaderReader Conf.ext.
Proof.
  split; unfold Conf.ext.
  - intros ln rest n h Hwf Hln H. repeat (case_match; try done); simplify_eq.
    + split; [by apply ext16_bounds|lia].
    + lia.
  - intros ln rest more r H. assert (0 <= len more) by apply len_nonneg. rewrite len_app.
    destruct (ln =? 126); [|done].
    destruct (Z.ltb_spec (len rest) 4); [done|]. destruct (Z.ltb_spec (len rest + len more) 4); [lia|].
    unfold len in *. rewrite !app_nth1 by lia. done.
  - intros ln rest k n h H Hk. rewrite len_take. destruct (ln =? 126); [|done].
    destruct (Z.ltb_spec (len rest) 4); [done|]. injection H as <- <-.
    destruct (Z.ltb_spec (Z.min (Z.of_nat k) (len rest)) 4); [lia|]. by rewrite !nth_take by lia.
Qed.

Section LoopFacts.
Context (ext : Z -> list Z -> option (Z * Z)) `{!HeaderReader ext} (msg : list Z).
Implicit Types (buf rest : list Z).

Lemma wf_drop n buf : wf_bytes buf -> wf_bytes (drop n buf).
Proof. apply Forall_drop. Qed.

Lemma parse_step_size rest f size :
  wf_bytes rest -> parse_step ext rest = Parsed f size -> 2 <= size <= len rest.
Proof.
  intros Hwf. unfold parse_step. destruct rest as [|b0 [|b1 rest]]; try done.
  case_match; [done|]. destruct (ext _ _) as [[n h]|] eqn:E; [|done].
  apply ext_bounds in E; [|done|].
  - case_match; [done|]. intros [= _ <-]. zbool. lia.
  - rewrite land_127 by (inversion Hwf as [|? ? _ H']; by inversion H').
    apply Z.mod_pos_bound. lia.
Qed.

(** More input never changes a decision already taken. *)
Lemma parse_step_app rest more :
  wf_bytes rest -> parse_step ext rest <> Incomplete ->
  parse_step ext (rest ++ more) = parse_step ext rest.
Proof.
  intros Hwf. unfold parse_step. destruct rest as [|b0 [|b1 rest]]; try done.
  cbn [app]. case_match; [done|].
  destruct (ext _ (b0 :: b1 :: rest)) as [[n h]|] eqn:E; [|done].
  assert (Hb := E). apply ext_bounds in Hb as [Hn Hh];
    [|done|rewrite land_127 by (inversion Hwf as [|? ? _ H']; by inversion H'); by apply Z.mod_pos_bound].
  apply (ext_app _ _ more) in E. cbn [app] in E. rewrite E.
  destruct (Z.ltb_spec (len (b0 :: b1 :: rest)) (h + n)) as [|Hle]; [done|]. intros _.
  change (b0 :: b1 :: rest ++ more) with ((b0 :: b1 :: rest) ++ more).
  assert (0 <= len more) by apply len_nonneg. rewrite len_app.
  destruct (Z.ltb_spec (len (b0 :: b1 :: rest) + len more) (h + n)); [lia|].
  f_equal. f_equal. unfold len in *.
  rewrite drop_app_le by lia. rewrite take_app_le by (rewrite length_drop; lia). done.
Qed.

(** Nor does less input, as long as it still holds the frame. *)
Lemma parse_step_take rest f size n :
  wf_bytes rest -> parse_step ext rest = Parsed f size -> size <= Z.of_nat n ->
  parse_step ext (take n rest) = Parsed f size.
Proof.
  intros Hwf H Hn. assert (Hs := parse_step_size _ _ _ Hwf H). revert H. unfold parse_step.
  destruct rest as [|b0 [|b1 rest]]; try done. destruct n as [|[|n]]; [lia|lia|].
  change (take (S (S n)) (b0 :: b1 :: rest)) with (b0 :: b1 :: take n rest).
  destruct (negb _) eqn:Em; [done|]. destruct (ext _ (b0 :: b1 :: rest)) as [[m h]|] eqn:E; [|done].
  assert (Hb := E). apply ext_bounds in Hb as [Hm Hh];
    [|done|rewrite land_127 by (inversion Hwf as [|? ? _ H']; by inversion H'); by apply Z.mod_pos_bound].
  destruct (Z.ltb_spec (len (b0 :: b1 :: rest)) (h + m)); [done|]. intros [= <- <-].
  apply (ext_take _ _ (S (S n))) in E; [|lia].
  change (take (S (S n)) (b0 :: b1 :: rest)) with (b0 :: b1 :: take n rest) in E. rewrite E.
  change (b0 :: b1 :: take n rest) with (take (S (S n)) (b0 :: b1 :: rest)). rewrite len_take.
  destruct (Z.ltb_spec (Z.min (Z.of_nat (S (S n))) (len (b0 :: b1 :: rest))) (h + m)); [lia|].
  rewrite Em. do 2 f_equal. apply list_eq. intros i. rewrite !lookup_take. case_decide; [|done].
  rewrite !lookup_drop, lookup_take_lt; [done|lia].
Qed.

(** Frames parsed earlier and the position reached, prepended to a result. *)
Definition prepend (frames : list frame) (pos : Z) (r : res (list frame * Z)) : res (list frame * Z) :=
  match r with
  | Ok (fs, c) => Ok (frames ++ fs, pos + c)
  | Raise e => Raise e
  end.

Lemma prepend_prepend fs pos fs' pos' r :
  prepend fs pos (prepend fs' pos' r) = prepend (fs ++ fs') (pos + pos') r.
Proof. destruct r as [[? ?]|]; simpl; [|done]. by rewrite app_assoc, Z.add_assoc. Qed.

Lemma prepend_nil r : prepend [] 0 r = r.
Proof. by destruct r as [[? ?]|]. Qed.

Lemma parse_loop_shift fuel buf frames pos :
  wf_bytes buf -> 0 <= pos ->
  parse_loop ext msg fuel buf frames pos
  = prepend frames pos (parse_loop ext msg fuel (drop (Z.to_nat pos) buf) [] 0).
Proof.
  revert buf frames pos. induction fuel as [|fuel IH]; intros buf frames pos Hwf Hpos.
  - simpl. by rewrite app_nil_r, Z.add_0_r.
  - cbn [parse_loop]. change (Z.to_nat 0) with 0%nat. rewrite drop_0.
    destruct (parse_step ext (drop (Z.to_nat pos) buf)) as [| |f size] eqn:E.
    + simpl. by rewrite app_nil_r, Z.add_0_r.
    + done.
    + apply parse_step_size in E; [|by apply wf_drop].
      rewrite IH by (try done; lia). symmetry. rewrite IH by (try (by apply wf_drop); lia).
      rewrite prepend_prepend, drop_drop. cbn [app]. rewrite Z.add_0_l. do 2 f_equal.
      by rewrite Z2Nat.inj_add by lia.
Qed.

Lemma parse_loop_fuel fuel fuel' buf :
  wf_bytes buf -> (length buf < fuel)%nat -> (length buf < fuel')%nat ->
  parse_loop ext msg fuel buf [] 0 = parse_loop ext msg fuel' buf [] 0.
Proof.
  revert fuel' buf. induction fuel as [|fuel IH]; intros fuel' buf Hwf H1 H2; [lia|].
  destruct fuel' as [|fuel']; [lia|]. cbn [parse_loop].
  change (Z.to_nat 0) with 0%nat. rewrite drop_0.
  destruct (parse_step ext buf) as [| |f size] eqn:E; [done|done|].
  apply parse_step_size in E; [|done].
  rewrite !(parse_loop_shift _ buf) by (try done; lia). f_equal. unfold len in E.
  apply IH; [by apply wf_drop|rewrite length_drop; lia|rewrite length_drop; lia].
Qed.

(** The loop as a recursion on the unread suffix. *)
Lemma parse_buf_unfold buf :
  wf_bytes buf ->
  parse_buf ext msg buf
  = match parse_step ext buf with
    | Incomplete => Ok ([], 0)
    | Masked => Raise (AssertionError msg)
    | Parsed f size => prepend [f] size (parse_buf ext msg (drop (Z.to_nat size) buf))
    end.
Proof.
  intros Hwf. unfold parse_buf at 1. cbn [parse_loop]. change (Z.to_nat 0) with 0%nat. rewrite drop_0.
  destruct (parse_step ext buf) as [| |f size] eqn:E; [done|done|].
  apply parse_step_size in E; [|done]. rewrite parse_loop_shift by (try done; lia).
  cbn [app]. rewrite Z.add_0_l. f_equal. unfold len in E. unfold parse_buf.
  apply parse_loop_fuel; [by apply wf_drop|rewrite length_drop; lia|lia].
Qed.

(** Induction along the frames of a buffer. *)
Lemma parse_buf_ind (P : list Z -> Prop) :
  (forall buf, wf_bytes buf ->
     (forall f size, parse_step ext buf = Parsed f size -> P (drop (Z.to_nat size) buf)) -> P buf) ->
  forall buf, wf_bytes buf -> P buf.
Proof.
  intros H buf. remember (length buf) as n eqn:En. revert buf En.
  induction n as [n IH] using (well_founded_induction Nat.lt_wf_0). intros buf -> Hwf.
  apply H; [done|]. intros f size E. apply parse_step_size in E; [|done]. unfold len in E.
  eapply IH; [|done|by apply wf_drop]. rewrite length_drop. lia.
Qed.

(** A parse never reads past the buffer, and what it leaves holds no frame. *)
Lemma parse_buf_consumed buf fs c :
  wf_bytes buf -> parse_buf ext msg buf = Ok (fs, c) ->
  0 <= c <= len buf /\ parse_buf ext msg (drop (Z.to_nat c) buf) = Ok ([], 0) /\
  Z.of_nat (2 * length fs) <= c.
Proof.
  intros Hwf. revert fs c. revert buf Hwf. apply (parse_buf_ind (fun buf => forall fs c,
    parse_buf ext msg buf = Ok (fs, c) -> 0 <= c <= len buf /\
    parse_buf ext msg (drop (Z.to_nat c) buf) = Ok ([], 0) /\ Z.of_nat (2 * length fs) <= c)).
  intros buf Hwf IH fs c H. assert (H0 := H). rewrite parse_buf_unfold in H by done.
  destruct (parse_step ext buf) as [| |f size] eqn:E.
  - injection H as <- <-. change (Z.to_nat 0) with 0%nat. rewrite drop_0.
    split; [split; [lia|apply len_nonneg]|]. split; [done|simpl; lia].
  - done.
  - destruct (parse_buf ext msg (drop (Z.to_nat size) buf)) as [[fs' c']|] eqn:E'; simpl in H; [|done].
    injection H as <- <-. apply parse_step_size in E as Hs; [|done].
    destruct (IH f size eq_refl fs' c' E') as (Hc & Hd & Hn).
    rewrite len_drop in Hc. rewrite drop_drop in Hd.
    rewrite Z2Nat.inj_add by lia. split; [lia|]. split; [done|]. simpl length. lia.
Qed.

(** Parsing is incremental: what a prefix of the stream yields stays, and the
    rest of the stream is parsed after the bytes the prefix left over. *)
Lemma parse_buf_app buf more fs c :
  wf_bytes buf -> wf_bytes more -> parse_buf ext msg buf = Ok (fs, c) ->
  parse_buf ext msg (buf ++ more) = prepend fs c (parse_buf ext msg (drop (Z.to_nat c) buf ++ more)).
Proof.
  intros Hwf Hmore. revert fs c. revert buf Hwf. apply (parse_buf_ind (fun buf => forall fs c,
    parse_buf ext msg buf = Ok (fs, c) -> parse_buf ext msg (buf ++ more)
    = prepend fs c (parse_buf ext msg (drop (Z.to_nat c) buf ++ more)))).
  intros buf Hwf IH fs c H. rewrite parse_buf_unfold in H by done.
  destruct (parse_step ext buf) as [| |f size] eqn:E.
  - injection H as <- <-. change (Z.to_nat 0) with 0%nat. by rewrite drop_0, prepend_nil.
  - done.
  - destruct (parse_buf ext msg (drop (Z.to_nat size) buf)) as [[fs' c']|] eqn:E'; simpl in H; [|done].
    injection H as <- <-. apply parse_step_size in E as Hs; [|done]. unfold len in Hs.
    destruct (parse_buf_consumed _ _ _ (wf_drop _ _ Hwf) E') as (Hc & _).
    rewrite (parse_buf_unfold (buf ++ more)) by (by apply Forall_app).
    rewrite parse_step_app by (try done; by rewrite E). rewrite E, drop_app_le by lia.
    rewrite (IH f size eq_refl fs' c' E'), prepend_prepend, drop_drop.
    cbn [app]. by rewrite Z2Nat.inj_add by lia.
Qed.

(** A masked frame is an error whatever follows. *)
Lemma parse_buf_app_raise buf more e :
  wf_bytes buf -> wf_bytes more -> parse_buf ext msg buf = Raise e -> parse_buf ext msg (buf ++ more) = Raise e.
Proof.
  intros Hwf Hmore. revert buf Hwf. apply (parse_buf_ind (fun buf =>
    parse_buf ext msg buf = Raise e -> parse_buf ext msg (buf ++ more) = Raise e)).
  intros buf Hwf IH H. rewrite parse_buf_unfold in H by done. rewrite parse_buf_unfold by (by apply Forall_app).
  destruct (parse_step ext buf) as [| |f size] eqn:E; [done| |]; rewrite parse_step_app by (try done; by rewrite E);
    rewrite E; [done|].
  destruct (parse_buf ext msg (drop (Z.to_nat size) buf)) as [[fs' c']|e'] eqn:E'; simpl in H; [done|].
  injection H as ->. apply parse_step_size in E as Hs; [|done]. unfold len in Hs.
  rewrite drop_app_le by lia. by rewrite (IH f size eq_refl E').
Qed.

(** The consumed bytes alone parse into the same frames. *)
Lemma parse_buf_take buf fs c :
  wf_bytes buf -> parse_buf ext msg buf = Ok (fs, c) -> parse_buf ext msg (take (Z.to_nat c) buf) = Ok (fs, c).
Proof.
  intros Hwf. revert fs c. revert buf Hwf. apply (parse_buf_ind (fun buf => forall fs c,
    parse_buf ext msg buf = Ok (fs, c) -> parse_buf ext msg (take (Z.to_nat c) buf) = Ok (fs, c))).
  intros buf Hwf IH fs c H. rewrite parse_buf_unfold in H by done.
  destruct (parse_step ext buf) as [| |f size] eqn:E; [by injection H as <- <-|done|].
  destruct (parse_buf ext msg (drop (Z.to_nat size) buf)) as [[fs' c']|] eqn:E'; simpl in H; [|done].
  injection H as <- <-. apply parse_step_size in E as Hs; [|done]. unfold len in Hs.
  destruct (parse_buf_consumed _ _ _ (wf_drop _ _ Hwf) E') as (Hc & _).
  assert (Hd : drop (Z.to_nat size) (take (Z.to_nat (size + c')) buf) = take (Z.to_nat c') (drop (Z.to_nat size) buf)).
  { rewrite Z2Nat.inj_add by lia. by rewrite take_drop_commute. }
  assert (Hstep : parse_step ext (take (Z.to_nat (size + c')) buf) = Parsed f size) by (by apply parse_step_take; [..|lia]).
  rewrite parse_buf_unfold by (by apply Forall_take). rewrite Hstep, Hd, (IH f size eq_refl fs' c' E'). done.
Qed.
End LoopFacts.

(** ** Server frames *)

(** The shortest form of a length, read back by the parser. *)
Lemma length_field_cases n :
  0 <= n < 2 ^ 64 ->
  (n < 126 /\ Rfc.length_field 0 n = [n]) \/
  (126 <= n < 65536 /\ Rfc.length_field 0 n = 126 :: to_be 2 n) \/
  (65536 <= n /\ Rfc.length_field 0 n = 127 :: to_be 8 n).
Proof.
  intros Hn. unfold Rfc.length_field.
  destruct (Z.ltb_spec n 126); [left; by rewrite Z.add_0_l|].
  destruct (Z.ltb_spec n 65536); [right; left; by rewrite Z.add_0_l|right; right; by rewrite Z.add_0_l].
Qed.

Lemma to_be_2 n : 0 <= n < 65536 -> to_be 2 n = [n / 256; n mod 256].
Proof.
  intros Hn. cbn [to_be app]. rewrite (Z.mod_small (n / 256)); [done|].
  split; [apply Z.div_pos; lia|apply Z.div_lt_upper_bound; lia].
Qed.

Lemma wf_server_frame f : Rfc.wf_frame f -> wf_bytes f.2 -> wf_bytes (Rfc.server_frame f).
Proof.
  intros [Hop Hlen] Hwf. unfold Rfc.server_frame. constructor; [unfold is_byte; lia|].
  apply Forall_app. split; [|done]. assert (0 <= len f.2) by apply len_nonneg.
  destruct (length_field_cases (len f.2)) as [[H1 ->]|[[H1 ->]|[H1 ->]]]; [lia|..].
  - constructor; [unfold is_byte; lia|constructor].
  - constructor; [unfold is_byte; lia|apply wf_to_be].
  - constructor; [unfold is_byte; lia|apply wf_to_be].
Qed.

Lemma opcode_bits op : 0 <= op < 16 -> Z.land (128 + op) 15 = op.
Proof. intros H. rewrite land_15. change 128 with (8 * 16). by rewrite Z.add_comm, Z.mod_add, Z.mod_small. Qed.

Lemma take_drop_middle_app {A} n m (l k r : list A) :
  length l = n -> length k = m -> take m (drop n (l ++ k ++ r)) = k.
Proof. intros <- <-. by rewrite drop_app_length, take_app_length. Qed.

(** A complete server frame at the head of the buffer is parsed as itself. *)
Lemma parse_step_server f rest :
  Rfc.wf_frame f ->
  parse_step H3.ext (Rfc.server_frame f ++ rest) = Parsed f (len (Rfc.server_frame f)).
Proof.
  intros [Hop Hlen]. destruct f as [op p]. cbn [fst snd] in *. unfold Rfc.server_frame. cbn [fst snd].
  assert (Hp := len_nonneg p). assert (Hr := len_nonneg rest).
  destruct (length_field_cases (len p)) as [[H1 ->]|[[H1 ->]|[H1 ->]]]; [lia|..].
  - cbn [app parse_step]. rewrite land_128 by lia. cbn [Z.eqb negb].
    rewrite land_127, Z.mod_small by (unfold is_byte; lia). unfold H3.ext.
    rewrite (proj2 (Z.eqb_neq _ 126)), (proj2 (Z.eqb_neq _ 127)) by lia.
    autorewrite with py. rewrite (proj2 (Z.ltb_ge _ _)) by lia. rewrite opcode_bits by done.
    f_equal; [|lia]. f_equal. change (drop (Z.to_nat 2) (128 + op :: len p :: p ++ rest)) with (p ++ rest).
    apply take_app_length'. unfold len. lia.
  - rewrite to_be_2 by lia. cbn [app parse_step]. change (Z.land 126 128) with 0.
    change (Z.land 126 127) with 126. cbn [Z.eqb negb]. unfold H3.ext. cbn [Z.eqb Pos.eqb].
    autorewrite with py. rewrite (proj2 (Z.ltb_ge _ 4)) by lia. cbn [nth].
    rewrite lor_shift_byte by (apply Z.mod_pos_bound; lia).
    rewrite <- (Z.div_mod (len p) 256) by lia. rewrite (proj2 (Z.ltb_ge _ _)) by lia.
    rewrite opcode_bits by done. f_equal; [|lia]. f_equal.
    apply (take_drop_middle_app _ _ [_; _; _; _]); [done|]. unfold len. lia.
  - assert (H8 := length_to_be 8 (len p)). assert (H8' := from_to_be 8 (len p)).
    cbn [app parse_step]. change (Z.land 127 128) with 0. change (Z.land 127 127) with 127.
    cbn [Z.eqb negb]. unfold H3.ext. cbn [Z.eqb Pos.eqb].
    autorewrite with py. rewrite len_to_be, (proj2 (Z.ltb_ge _ 10)) by lia.
    cbn [drop]. rewrite <- app_assoc, !drop_0, !(take_app_length' (to_be 8 (len p))) by done.
    rewrite H8' by (change (256 ^ Z.of_nat 8) with (2 ^ 64); lia).
    rewrite (proj2 (Z.ltb_ge _ _)) by lia. rewrite opcode_bits by done. f_equal; [|lia]. f_equal.
    apply (take_drop_middle_app _ _ (_ :: _ :: to_be 8 (len p))); [cbn [length]; by rewrite H8|].
    unfold len. lia.
Qed.

Lemma concat_cons_app {A} (x : list A) l r : concat (x :: l) ++ r = x ++ concat l ++ r.
Proof. simpl. by rewrite app_assoc. Qed.

Lemma parse_server_frames fs rest :
  Forall (fun f => Rfc.wf_frame f /\ wf_bytes f.2) fs -> wf_bytes rest ->
  H3.parse_ws (concat (map Rfc.server_frame fs) ++ rest)
  = prepend fs (len (concat (map Rfc.server_frame fs))) (H3.parse_ws rest).
Proof.
  intros H Hrest. unfold H3.parse_ws.
  induction H as [|f fs [Hf Hp] Hfs IH]; [by rewrite prepend_nil|]. cbn [map].
  rewrite concat_cons_app, (parse_buf_unfold H3.ext).
  - rewrite parse_step_server by done. unfold len at 2. rewrite Nat2Z.id, drop_app_length, IH, prepend_prepend.
    cbn [app concat]. by rewrite len_app.
  - apply Forall_app. split; [by apply wf_server_frame|]. apply Forall_app. split; [|done].
    apply Forall_concat, Forall_map. eapply Forall_impl; [exact Hfs|].
    intros g [? ?]. by apply wf_server_frame.
Qed.

(** A frame cut short anywhere is not a frame yet. *)
Lemma parse_step_partial f k :
  Rfc.wf_frame f -> wf_bytes f.2 -> (k < length (Rfc.server_frame f))%nat ->
  parse_step H3.ext (take k (Rfc.server_frame f)) = Incomplete.
Proof.
  intros Hf Hp Hk. set (p := take k (Rfc.server_frame f)).
  assert (wf_bytes p) as Hwf by (apply Forall_take, wf_server_frame; done).
  assert (parse_step H3.ext (p ++ drop k (Rfc.server_frame f)) = Parsed f (len (Rfc.server_frame f))) as E.
  { unfold p. rewrite take_drop. rewrite <- (app_nil_r (Rfc.server_frame f)) at 1. by apply parse_step_server. }
  destruct (parse_step H3.ext p) as [| |g size] eqn:Ep; [done|..].
  - rewrite (parse_step_app H3.ext), Ep in E by (try done; by rewrite Ep). done.
  - rewrite (parse_step_app H3.ext), Ep in E by (try done; by rewrite Ep). injection E as _ ->.
    apply (parse_step_size H3.ext) in Ep; [|done]. unfold p, len in Ep. rewrite length_take in Ep. lia.
Qed.

(** ** The conformance client's parser *)

Lemma Conf_ext_eq ln rest : ln <> 127 -> Conf.ext ln rest = H3.ext ln rest.
Proof. intros H. unfold Conf.ext, H3.ext. by rewrite (proj2 (Z.eqb_neq ln 127)). Qed.

(** The length code of a frame that fits a 16-bit length. *)
Lemma short_frame_code f rest :
  Rfc.wf_frame f -> len f.2 < 65536 ->
  exists b1 tl, Rfc.server_frame f ++ rest = 128 + f.1 :: b1 :: tl /\ 0 <= b1 < 127.
Proof.
  intros [Hop Hlen] Hs. unfold Rfc.server_frame. assert (H0 := len_nonneg f.2).
  destruct (length_field_cases (len f.2)) as [[H1 ->]|[[H1 ->]|[H1 ->]]]; [lia|..|lia].
  - eexists _, _. split; [done|lia].
  - eexists _, _. split; [done|lia].
Qed.

Lemma parse_step_conf b0 b1 tl :
  0 <= b1 < 127 -> parse_step Conf.ext (b0 :: b1 :: tl) = parse_step H3.ext (b0 :: b1 :: tl).
Proof.
  intros Hb. unfold parse_step. rewrite Conf_ext_eq; [done|].
  rewrite land_127, Z.mod_small by (unfold is_byte; lia). lia.
Qed.

Lemma Conf_parse_short fs rest :
  Forall (fun f => Rfc.wf_frame f /\ wf_bytes f.2 /\ len f.2 < 65536) fs -> wf_bytes rest ->
  Conf.parse_ws (concat (map Rfc.server_frame fs) ++ rest)
  = prepend fs (len (concat (map Rfc.server_frame fs))) (Conf.parse_ws rest).
Proof.
  intros H Hrest. unfold Conf.parse_ws.
  induction H as [|f fs (Hf & Hp & Hs) Hfs IH]; [by rewrite prepend_nil|]. cbn [map].
  rewrite concat_cons_app, (parse_buf_unfold Conf.ext).
  - destruct (short_frame_code f (concat (map Rfc.server_frame fs) ++ rest) Hf Hs) as (b1 & tl & E & Hb).
    rewrite E, parse_step_conf, <- E, parse_step_server by done.
    unfold len at 2. rewrite Nat2Z.id, drop_app_length, IH, prepend_prepend. cbn [app concat]. by rewrite len_app.
  - apply Forall_app. split; [by apply wf_server_frame|]. apply Forall_app. split; [|done].
    apply Forall_concat, Forall_map. eapply Forall_impl; [exact Hfs|].
    intros g (? & ? & _). by apply wf_server_frame.
Qed.

Lemma Conf_parse_partial f k :
  Rfc.wf_frame f -> wf_bytes f.2 -> len f.2 < 65536 -> (k < length (Rfc.server_frame f))%nat ->
  Conf.parse_ws (take k (Rfc.server_frame f)) = Ok ([], 0).
Proof.
  intros Hf Hp Hs Hk. unfold Conf.parse_ws.
  rewrite (parse_buf_unfold Conf.ext) by (apply Forall_take; by apply wf_server_frame).
  assert (E := parse_step_partial f k Hf Hp Hk).
  destruct (short_frame_code f [] Hf Hs) as (b1 & tl & Ef & Hb). rewrite app_nil_r in Ef.
  destruct k as [|[|k]]; [done|by rewrite Ef|].
  rewrite Ef in E |- *. cbn [take] in E |- *. by rewrite parse_step_conf, E.
Qed.

(** ** Client frames *)

Lemma read_length_field n s :
  0 <= n < 2 ^ 64 ->
  exists b1 tl, Rfc.length_field 128 n ++ s = b1 :: tl /\ 128 <= b1 /\ Rfc.read_length (b1 - 128) tl = Some (n, s).
Proof.
  intros Hn. assert (H0 := len_nonneg s). unfold Rfc.length_field, Rfc.read_length.
  destruct (Z.ltb_spec n 126); [|destruct (Z.ltb_spec n 65536)].
  - eexists _, _. split; [done|]. split; [lia|].
    replace (128 + n - 128) with n by lia. by rewrite (proj2 (Z.ltb_lt _ _)) by lia.
  - exists (128 + 126), (to_be 2 n ++ s). split; [done|]. split; [lia|]. change (128 + 126 - 128) with 126.
    change (126 <? 126) with false. change (126 =? 126) with true. cbv iota zeta.
    rewrite len_app, len_to_be, (proj2 (Z.ltb_ge _ _)) by lia.
    rewrite take_app_length', drop_app_length' by (by rewrite length_to_be). by rewrite from_to_be by (simpl; lia).
  - exists (128 + 127), (to_be 8 n ++ s). split; [done|]. split; [lia|]. change (128 + 127 - 128) with 127.
    change (127 <? 126) with false. change (127 =? 126) with false. cbv iota zeta.
    rewrite len_app, len_to_be, (proj2 (Z.ltb_ge _ _)) by lia.
    rewrite take_app_length', drop_app_length' by (by rewrite length_to_be).
    by rewrite from_to_be by (change (256 ^ Z.of_nat 8) with (2 ^ 64); lia).
Qed.

(** The code's length bytes are the shortest form. *)
Lemma ws_frame_shape opcode payload fin :
  0 <= opcode < 16 -> len payload < 2 ^ 64 ->
  H3.ws_frame opcode payload fin
  = Ok ((if fin then 128 else 0) + opcode
        :: Rfc.length_field 128 (len payload) ++ WS_MASK ++ mask_payload payload).
Proof.
  intros Hop Hlen. assert (H0 := len_nonneg payload). unfold H3.ws_frame.
  assert (Z.lor (if fin then 128 else 0) opcode = (if fin then 128 else 0) + opcode) as ->.
  { destruct fin; [by apply lor_128; lia|done]. }
  assert (0 <= (if fin then 128 else 0) + opcode < 256) as Hb by (destruct fin; lia).
  rewrite (proj2 (Z.leb_le 0 _)), (proj2 (Z.ltb_lt _ 256)) by lia. cbn [andb negb].
  unfold Rfc.length_field. destruct (Z.ltb_spec (len payload) 126); [by rewrite lor_128 by lia|].
  destruct (Z.ltb_spec (len payload) 65536).
  - rewrite to_be_2 by lia. cbn [mbind res_bind app]. do 3 f_equal.
    rewrite Z.shiftr_div_pow2 by lia. change (Z.land (len payload / 2 ^ 8) 255) with (Z.land (len payload / 256) (Z.ones 8)).
    rewrite Z.land_ones by lia. change (2 ^ 8) with 256. f_equal.
    + apply Z.mod_small. split; [apply Z.div_pos; lia|apply Z.div_lt_upper_bound; lia].
    + f_equal. exact (Z.land_ones (len payload) 8 ltac:(lia)).
  - rewrite (proj2 (Z.leb_gt _ _)) by lia. done.
Qed.

Lemma read_client_frame_ok opcode payload fin f rest :
  0 <= opcode < 16 -> len payload < 2 ^ 64 -> H3.ws_frame opcode payload fin = Ok f ->
  Rfc.read_client_frame (f ++ rest) = Some (fin, opcode, payload, rest).
Proof.
  intros Hop Hlen Hf. rewrite ws_frame_shape in Hf by done. injection Hf as <-.
  cbn [app]. rewrite <- !app_assoc.
  change ((33 :: 67 :: 101 :: 135 :: mask_payload payload) ++ rest) with (WS_MASK ++ mask_payload payload ++ rest).
  destruct (read_length_field (len payload) (WS_MASK ++ mask_payload payload ++ rest)) as (b1 & tl & E & Hb & Hr);
    [split; [apply len_nonneg|done]|].
  unfold Rfc.read_client_frame. rewrite E, (proj2 (Z.ltb_ge _ _)), Hr by lia. cbn [mbind option_bind].
  unfold WS_MASK at 1. cbn [app].
  assert (len (mask_payload payload) = len payload) as El by (unfold len; by rewrite length_mask).
  rewrite len_app, El, (proj2 (Z.ltb_ge _ _)) by (assert (0 <= len rest) by apply len_nonneg; lia).
  assert (Z.to_nat (len payload) = length (mask_payload payload)) as -> by (rewrite length_mask; unfold len; lia).
  rewrite take_app_length, drop_app_length. fold (mask_payload (mask_payload payload)).
  rewrite mask_involutive. do 4 f_equal.
  - destruct fin; [apply Z.leb_le; lia|apply Z.leb_gt; lia].
  - destruct fin; [|by apply Z.mod_small].
    change 128 with (8 * 16). by rewrite Z.add_comm, Z.mod_add, Z.mod_small.
Qed.

(** ** Properties *)

(** C26: every frame the stress client sends is a well-formed masked frame: for
    an opcode nibble and a payload below 2^64 bytes, [ws_frame] succeeds, and an
    RFC 6455 reader of the resulting stream recovers the FIN bit, the opcode and
    the exact payload and is left with exactly what followed, whichever of the
    three length forms applies. *)
Theorem ws_frame_decodes opcode payload fin rest :
  0 <= opcode < 16 -> len payload < 2 ^ 64 ->
  exists f, H3.ws_frame opcode payload fin = Ok f /\
            Rfc.read_client_frame (f ++ rest) = Some (fin, opcode, payload, rest).
Proof.
  intros Hop Hlen. eexists. split; [by apply ws_frame_shape|].
  eapply read_client_frame_ok; [done|done|by apply ws_frame_shape].
Qed.

Lemma ws_frame_decodes_witness :
  exists f, H3.ws_frame OP_TEXT (str "msg-0-0") true = Ok f /\
            Rfc.read_client_frame (f ++ [1; 2]) = Some (true, OP_TEXT, str "msg-0-0", [1; 2]).
Proof. apply ws_frame_decodes; vm_compute; repeat split; intros; done. Defined.

(** C17: [parse_ws] on any sequence of complete server frames followed by a
    frame cut short at any byte returns exactly those frames, in order, and has
    consumed exactly their bytes. *)
Theorem parse_ws_frames fs g k :
  Forall (fun f => Rfc.wf_frame f /\ wf_bytes f.2) fs ->
  Rfc.wf_frame g -> wf_bytes g.2 -> (k < length (Rfc.server_frame g))%nat ->
  H3.parse_ws (concat (map Rfc.server_frame fs) ++ take k (Rfc.server_frame g))
  = Ok (fs, len (concat (map Rfc.server_frame fs))).
Proof.
  intros Hfs Hg Hp Hk. rewrite parse_server_frames by (try done; by apply Forall_take, wf_server_frame).
  unfold H3.parse_ws. rewrite (parse_buf_unfold H3.ext) by (by apply Forall_take, wf_server_frame).
  rewrite parse_step_partial by done. simpl. by rewrite app_nil_r, Z.add_0_r.
Qed.

Lemma parse_ws_frames_witness :
  H3.parse_ws (concat (map Rfc.server_frame [(1, str "hi"); (9, repeat 7 300)])
               ++ take 3 (Rfc.server_frame (2, repeat 0 126)))
  = Ok ([(1, str "hi"); (9, repeat 7 300)],
        len (concat (map Rfc.server_frame [(1, str "hi"); (9, repeat 7 300)]))).
Proof.
  apply parse_ws_frames.
  - repeat constructor; vm_compute; try (intros ?; done).
    all: repeat constructor; intros ?; done.
  - vm_compute. repeat split; intros; done.
  - vm_compute. repeat constructor; intros ?; done.
  - vm_compute. lia.
Defined.

(** C25: framing does not depend on how the stream is cut into DATA events:
    parsing a prefix, dropping what it consumed and parsing the leftover with
    the next bytes gives the frames of the whole stream. *)
Theorem parse_ws_incremental buf more fs c :
  wf_bytes buf -> wf_bytes more -> H3.parse_ws buf = Ok (fs, c) ->
  H3.parse_ws (buf ++ more) = prepend fs c (H3.parse_ws (drop (Z.to_nat c) buf ++ more)).
Proof. intros. by apply (parse_buf_app H3.ext). Qed.

Lemma parse_ws_incremental_witness :
  H3.parse_ws ([129; 2; 104; 105; 129] ++ [1; 65])
  = prepend [(1, [104; 105])] 4 (H3.parse_ws (drop (Z.to_nat 4) [129; 2; 104; 105; 129] ++ [1; 65])).
Proof.
  apply parse_ws_incremental; [repeat constructor; intros ?; done|repeat constructor; intros ?; done|].
  vm_compute. reflexivity.
Defined.

(** [parse_ws] is exhaustive and stays in bounds: the count of consumed
    bytes lies within the buffer and covers at least two bytes per frame, and
    the bytes left over hold no complete frame. *)
Theorem parse_ws_exhaustive buf fs c :
  wf_bytes buf -> H3.parse_ws buf = Ok (fs, c) ->
  0 <= c <= len buf /\ Z.of_nat (2 * length fs) <= c /\ H3.parse_ws (drop (Z.to_nat c) buf) = Ok ([], 0).
Proof. intros Hwf H. destruct (parse_buf_consumed H3.ext _ buf fs c Hwf H) as (? & ? & ?). auto. Qed.

Lemma parse_ws_exhaustive_witness :
  0 <= 4 <= len [129; 2; 104; 105; 129] /\ Z.of_nat (2 * 1) <= 4 /\
  H3.parse_ws (drop (Z.to_nat 4) [129; 2; 104; 105; 129]) = Ok ([], 0).
Proof.
  apply (parse_ws_exhaustive [129; 2; 104; 105; 129] [(1, [104; 105])] 4).
  - repeat constructor; intros ?; done.
  - vm_compute. reflexivity.
Defined.

(** The conformance client's framing agrees with the stress client's on the
    sizes it is written for: it sends the same bytes for a payload below 126
    bytes (and refuses a longer one), and it parses a stream of frames below
    64 KiB, the last one cut short, to the same frames and count. *)
Theorem conf_agrees_on_short fs g k opcode payload fin :
  Forall (fun f => Rfc.wf_frame f /\ wf_bytes f.2 /\ len f.2 < 65536) fs ->
  Rfc.wf_frame g -> wf_bytes g.2 -> len g.2 < 65536 -> (k < length (Rfc.server_frame g))%nat ->
  let stream := concat (map Rfc.server_frame fs) ++ take k (Rfc.server_frame g) in
  Conf.parse_ws stream = H3.parse_ws stream /\
  (len payload < 126 -> Conf.ws_frame opcode payload fin = H3.ws_frame opcode payload fin) /\
  (126 <= len payload -> Conf.ws_frame opcode payload fin = Raise (AssertionError [])).
Proof.
  intros Hfs Hg Hp Hs Hk stream. split; [|split].
  - unfold stream. rewrite Conf_parse_short by (try done; by apply Forall_take, wf_server_frame).
    rewrite Conf_parse_partial by done.
    rewrite parse_server_frames.
    + unfold H3.parse_ws. rewrite (parse_buf_unfold H3.ext) by (by apply Forall_take, wf_server_frame).
      by rewrite parse_step_partial.
    + eapply Forall_impl; [exact Hfs|]. naive_solver.
    + by apply Forall_take, wf_server_frame.
  - intros Hlen. unfold Conf.ws_frame, H3.ws_frame. by rewrite (proj2 (Z.ltb_lt _ _)) by lia.
  - intros Hlen. unfold Conf.ws_frame. by rewrite (proj2 (Z.ltb_ge _ _)) by lia.
Qed.

Lemma conf_agrees_on_short_witness :
  let stream := concat (map Rfc.server_frame [(1, str "hello")]) ++ take 1 (Rfc.server_frame (8, [])) in
  Conf.parse_ws stream = H3.parse_ws stream /\
  (len (str "hello") < 126 -> Conf.ws_frame 1 (str "hello") true = H3.ws_frame 1 (str "hello") true) /\
  (126 <= len (str "hello") -> Conf.ws_frame 1 (str "hello") true = Raise (AssertionError [])).
Proof.
  apply conf_agrees_on_short.
  - repeat constructor; intros ?; done.
  - vm_compute. repeat split; intros; done.
  - constructor.
  - vm_compute. reflexivity.
  - vm_compute. lia.
Defined.

(** The conformance client's parser does not know the 64-bit length form: a
    server frame of 64 KiB or more is never its first parsed frame (its length
    bytes are taken for payload, with a length of 127). *)
Theorem conf_misreads_long_frames f :
  Rfc.wf_frame f -> wf_bytes f.2 -> 65536 <= len f.2 ->
  match Conf.parse_ws (Rfc.server_frame f) with
  | Ok (fs, _) => head fs <> Some f
  | Raise _ => True
  end.
Proof.
  intros Hf Hp Hl. unfold Conf.parse_ws.
  rewrite (parse_buf_unfold Conf.ext) by (by apply wf_server_frame).
  destruct Hf as [Hop Hlen]. assert (H8 := len_to_be 8 (len f.2)).
  assert (exists p, len p = 127 /\ parse_step Conf.ext (Rfc.server_frame f) = Parsed (f.1, p) 129) as (p & Hlp & E).
  { unfold Rfc.server_frame. destruct (length_field_cases (len f.2)) as [[? _]|[[? _]|[_ ->]]]; [lia|lia|lia|].
    exists (take 127 (to_be 8 (len f.2) ++ f.2)). split.
    - rewrite len_take, len_app. lia.
    - cbn [app parse_step]. change (Z.land 127 128) with 0. change (Z.land 127 127) with 127.
      cbn [Z.eqb negb]. unfold Conf.ext. cbn [Z.eqb Pos.eqb]. autorewrite with py.
      rewrite (proj2 (Z.ltb_ge _ _)) by lia. by rewrite opcode_bits. }
  rewrite E. destruct (parse_buf _ _ _) as [[fs c]|e]; simpl; [|done].
  intros [= H]. rewrite <- H in Hl. simpl in Hl. lia.
Qed.

Lemma conf_misreads_long_frames_witness :
  match Conf.parse_ws (Rfc.server_frame (2, repeat 0 (Z.to_nat 65536))) with
  | Ok (fs, _) => head fs <> Some (2, repeat 0 (Z.to_nat 65536))
  | Raise _ => True
  end.
Proof.
  assert (len (repeat 0 (Z.to_nat 65536)) = 65536) as E by (unfold len; rewrite repeat_length; lia).
  apply conf_misreads_long_frames.
  - split; cbn [fst snd]; [lia|]. rewrite E. lia.
  - apply Forall_forall. intros x Hx. apply list_elem_of_In, repeat_spec in Hx. subst x. unfold is_byte. lia.
  - cbn [snd]. rewrite E. lia.
Defined.
