(* ===== verification/H3Client.v ===== *)
(** * The HTTP/3 client of the stress soaks

    [conformance/stress/client/h3.py]: the demultiplexer [H3Client], the
    [H3Session] operations on it, the [H3Ws] tunnel and [connect_h3].

    Each stream owns an [asyncio.Queue].  The queue is an object of its own: a
    coroutine keeps it after [_queues.pop(sid)], so the store of queues and the
    [_queues] dictionary are separate.  aioquic is a parameter: its HTTP/3 layer
    is a state [H] with [handle_event], calls into it are recorded in [wire],
    and the stream ids it hands out are arguments.  So are the decompressors. *)
From S2P Require Import Prelude WsFrame.
#[local] Open Scope Z_scope.

(** ** Events and queue items *)

(** What [_queues] carries: the tuples [("h", ...)], [("d", ...)], [("end",
    None)] and [("err", ...)]. *)
Inductive item :=
| IHeaders (status : Z) (enc : option (list Z)) (ct : list Z)
| IData (d : list Z)
| IEnd
| IErr (msg : list Z).

#[export] Instance item_eq_dec : EqDecision item.
Proof. solve_decision. Defined.

(** QUIC events; [E] is the payload of those the client only passes on. *)
Inductive quic_event (E : Type) :=
| ProtocolNegotiated (alpn : option (list Z))
| StreamReset (sid code : Z)
| ConnectionTerminated (code : Z) (reason : list Z) (frame_type : option Z)
| OtherEvent (e : E).
Arguments ProtocolNegotiated {E} alpn.
Arguments StreamReset {E} sid code.
Arguments ConnectionTerminated {E} code reason frame_type.
Arguments OtherEvent {E} e.

(** HTTP/3 events of aioquic's [H3Connection]. *)
Inductive h3_event :=
| HeadersReceived (sid : Z) (headers : list (list Z * list Z)) (stream_ended : bool)
| DataReceived (sid : Z) (data : list Z) (stream_ended : bool)
| OtherH3 (sid : Z).

Definition h3_sid (e : h3_event) : Z :=
  match e with HeadersReceived sid _ _ | DataReceived sid _ _ | OtherH3 sid => sid end.

(** Calls into aioquic, in order. *)
Inductive wire_op :=
| SendHeaders (sid : Z) (headers : list (list Z * list Z)) (end_stream : bool)
| SendData (sid : Z) (data : list Z) (end_stream : bool)
| StopStream (sid code : Z)
| ResetStream (sid code : Z)
| Transmit.

Section Client.
Context {E H : Type}.
Context (new_h3 : H) (handle_event : H -> quic_event E -> list h3_event * H).

(** The [H3Client] object.  [queues] is [_queues]; [store] holds the contents of
    every queue object ever made, [nextq] the next unused one. *)
Record client := Client {
  http : option H;
  queues : gmap Z nat;
  store : gmap nat (list item);
  nextq : nat;
  authority : list Z;
  wire : list wire_op }.

Definition with_http (h : option H) (c : client) : client :=
  Client h (queues c) (store c) (nextq c) (authority c) (wire c).
Definition with_queues (qs : gmap Z nat) (c : client) : client :=
  Client (http c) qs (store c) (nextq c) (authority c) (wire c).
Definition with_store (st : gmap nat (list item)) (c : client) : client :=
  Client (http c) (queues c) st (nextq c) (authority c) (wire c).
Definition log (ops : list wire_op) (c : client) : client :=
  Client (http c) (queues c) (store c) (nextq c) (authority c) (wire c ++ ops).

(** [__init__] *)
Definition init_client : client := Client None ∅ ∅ 0 [] [].

(** [q.put_nowait(it)] *)
Definition put (q : nat) (it : item) (c : client) : client :=
  with_store (alter (fun l => l ++ [it]) q (store c)) c.

(** [_queues.pop(sid, None)] *)
Definition pop (sid : Z) (c : client) : client := with_queues (delete sid (queues c)) c.

Definition reset_item (code : Z) : item := IErr (str "stream reset (code " ++ dec code ++ str ")").

Definition closed_item (code : Z) (reason : list Z) (frame_type : option Z) : item :=
  let detail := str "code " ++ dec code in
  let detail := if decide (reason = []) then detail else detail ++ str " " ++ dq ++ reason ++ dq in
  let detail := match frame_type with
                | None => detail
                | Some ft => detail ++ str " frame_type=" ++ dec ft
                end in
  IErr (str "connection closed (" ++ detail ++ str ")").

(** The header loop of [_on_h3]: [(status, enc, ct)]. *)
Definition header_step (acc : Z * option (list Z) * list Z) (kv : list Z * list Z)
  : res (Z * option (list Z) * list Z) :=
  let '(status, enc, ct) := acc in
  let '(k, v) := kv in
  if decide (k = str ":status") then s ← int_bytes v; Ok (s, enc, ct)
  else if decide (k = str "content-encoding") then
    let e := lower_decoded (strip (decode_ascii v)) in
    Ok (status, if decide (e = []) then None else Some e, ct)
  else if decide (k = str "content-type") then Ok (status, enc, decode_ascii v)
  else Ok (status, enc, ct).

Fixpoint read_headers (hs : list (list Z * list Z)) (acc : Z * option (list Z) * list Z)
  : res (Z * option (list Z) * list Z) :=
  match hs with
  | [] => Ok acc
  | kv :: hs' => acc' ← header_step acc kv; read_headers hs' acc'
  end.

(** The items one HTTP/3 event puts into its stream's queue. *)
Definition h3_items (e : h3_event) : res (list item) :=
  match e with
  | HeadersReceived _ hs ended =>
      h ← read_headers hs (0, None, []);
      let '(status, enc, ct) := h in
      Ok (IHeaders status enc ct :: if ended then [IEnd] else [])
  | DataReceived _ data ended =>
      Ok ((if decide (data = []) then [] else [IData data]) ++ if ended then [IEnd] else [])
  | OtherH3 _ => Ok []
  end.

Definition put_all (q : nat) (its : list item) (c : client) : client :=
  fold_left (fun c it => put q it c) its c.

Definition on_h3 (c : client) (e : h3_event) : res client :=
  match queues c !! h3_sid e with
  | None => Ok c
  | Some q => its ← h3_items e; Ok (put_all q its c)
  end.

Fixpoint on_h3s (c : client) (es : list h3_event) : res client :=
  match es with
  | [] => Ok c
  | e :: es' => c' ← on_h3 c e; on_h3s c' es'
  end.

Definition negotiate (c : client) (ev : quic_event E) : res client :=
  match ev with
  | ProtocolNegotiated None =>
      Raise (AttributeError (str "'NoneType' object has no attribute 'startswith'"))
  | ProtocolNegotiated (Some alpn) =>
      Ok (if starts_with (str "h3") alpn then with_http (Some new_h3) c else c)
  | _ => Ok c
  end.

Definition quic_event_received (c : client) (ev : quic_event E) : res client :=
  c ← negotiate c ev;
  match ev with
  | StreamReset sid code =>
      Ok (match queues c !! sid with
          | Some q => put q (reset_item code) c
          | None => c
          end)
  | ConnectionTerminated code reason ft =>
      Ok (fold_left (fun c q => put q (closed_item code reason ft) c) (map_to_list (queues c)).*2 c)
  | _ =>
      match http c with
      | None => Ok c
      | Some h => let '(es, h') := handle_event h ev in on_h3s (with_http (Some h') c) es
      end
  end.

Fixpoint receive_all (c : client) (evs : list (quic_event E)) : res client :=
  match evs with
  | [] => Ok c
  | ev :: evs' => c' ← quic_event_received c ev; receive_all c' evs'
  end.

(** [_open], [sid] being the id aioquic hands out; header names are ASCII. *)
Definition open_headers (c : client) (method path : list Z) (headers : list (list Z * list Z))
  : list (list Z * list Z) :=
  [(str ":method", encode method); (str ":scheme", str "https");
   (str ":authority", encode (authority c)); (str ":path", encode path)]
  ++ map (fun kv => (encode (map lower_ascii kv.1), encode kv.2)) headers.

Definition register (sid : Z) (c : client) : client * nat :=
  let q := nextq c in
  (Client (http c) (<[sid := q]> (queues c)) (<[q := []]> (store c)) (S q) (authority c) (wire c), q).

Definition no_http : exn := AttributeError (str "'NoneType' object has no attribute 'send_headers'").

Definition open_ (c : client) (sid : Z) (method path : list Z) (headers : list (list Z * list Z))
  (end_stream : bool) : res (client * nat) :=
  let '(c', q) := register sid c in
  match http c with
  | None => Raise no_http
  | Some _ => Ok (log [SendHeaders sid (open_headers c method path headers) end_stream; Transmit] c', q)
  end.
End Client.

(** ** Readers of one stream's queue

    A coroutine that loops on [await q.get()] is a state and what each item does
    to it: go on, or leave the loop with an outcome. *)
Inductive progress (S O : Type) := Waiting (s : S) | Done (o : O).
Arguments Waiting {S O} s.
Arguments Done {S O} o.

Definition feed {S O} (on_item : S -> item -> S + O) (p : progress S O) (it : item) : progress S O :=
  match p with
  | Waiting s => match on_item s it with inl s' => Waiting s' | inr o => Done o end
  | Done o => Done o
  end.

Definition feed_all {S O} (on_item : S -> item -> S + O) (its : list item) (p : progress S O)
  : progress S O := fold_left (feed on_item) its p.

(** *** [H3Session.request] *)
Record response := Response { r_status : Z; r_enc : option (list Z); r_ct : list Z; r_body : list Z }.

Definition request_init : response := Response 0 None [] [].

Definition request_item (r : response) (it : item) : response + res response :=
  match it with
  | IHeaders status enc ct => inl (Response status enc ct (r_body r))
  | IData d => inl (Response (r_status r) (r_enc r) (r_ct r) (r_body r ++ d))
  | IErr m => inr (Raise (ConnectionError m))
  | IEnd => inr (Ok r)
  end.

(** *** [H3Session.stream]: what the generator has yielded *)
Inductive yielded := YStatus (status : Z) | YChunk (d : list Z).

Definition stream_item (out : list yielded) (it : item) : list yielded + list yielded * res unit :=
  match it with
  | IHeaders status _ _ => inl (out ++ [YStatus status])
  | IData d => inl (out ++ [YChunk d])
  | IErr m => inr (out, Raise (ConnectionError m))
  | IEnd => inr (out, Ok tt)
  end.

(** *** The reply loop of [_upload_body], and [ws_open]'s *)
Definition upload_item (status : Z) (it : item) : Z + res Z :=
  match it with
  | IHeaders status _ _ => inl status
  | IData _ => inl status
  | IErr m => inr (Raise (ConnectionError m))
  | IEnd => inr (Ok status)
  end.

Definition ws_open_item (_ : unit) (it : item) : unit + res Z :=
  match it with
  | IHeaders status _ _ => inr (Ok status)
  | IData _ => inl tt
  | IErr m => inr (Raise (ConnectionError m))
  | IEnd => inr (Raise (ConnectionError (str "ws CONNECT stream ended")))
  end.

Section Session.
Context {E H : Type}.
Context (gunzip unbrotli unzstd : list Z -> res (list Z)).

(** [decode_body] *)
Definition decode_body (data : list Z) (enc : option (list Z)) : res (list Z) :=
  match enc with
  | None => Ok data
  | Some e =>
      if decide (e = [] \/ e = str "identity") then Ok data
      else if decide (e = str "gzip") then gunzip data
      else if decide (e = str "br") then unbrotli data
      else if decide (e = str "zstd") then unzstd data
      else Raise (ValueError (str "h3: unexpected content-encoding"))
  end.

(** [request]: up to its reply loop, and from the loop's end on. *)
Definition content_headers (headers : list (list Z * list Z)) (content : list Z) : list (list Z * list Z) :=
  if decide (content = [] \/ str "content-length" ∈ map (map lower_ascii) (akeys headers)) then headers
  else aset headers (str "content-length") (dec (len content)).

Definition request_start (c : client (H:=H)) (sid : Z) (method path : list Z)
  (headers : list (list Z * list Z)) (content : list Z) : res (client * nat) :=
  '(c, q) ← open_ c sid method path (content_headers headers content) (bool_decide (content = []));
  Ok (if decide (content = []) then c else log [SendData sid content true; Transmit] c, q).

Definition request_finish (c : client (H:=H)) (sid : Z) (o : res response) : client * res (Z * list Z * list Z) :=
  let c := pop sid c in
  (c, r ← o; body ← decode_body (r_body r) (r_enc r); Ok (r_status r, r_ct r, body)).

(** [stream_open], and the [finally] of [stream] and [upload]: every exit,
    the generator's [aclose] and a cancellation included, runs it. *)
Definition stream_open (c : client (H:=H)) (sid : Z) (method path : list Z) (headers : list (list Z * list Z)) :=
  open_ c sid method path headers true.

Definition stream_finally (c : client (H:=H)) (sid : Z) : client := pop sid c.

(** [abort_stream]: [stop_raises] is aioquic's [ValueError] for a stream it has
    reaped, [sender] the stream's [is_finished] flag when it still exists. *)
Definition abort_stream (c : client (H:=H)) (sid code : Z) (stop_raises : bool) (sender : option bool) : client :=
  let c := log (if stop_raises then [] else [StopStream sid code]) c in
  let c := log (match sender with Some false => [ResetStream sid code] | _ => [] end) c in
  pop sid (log [Transmit] c).

(** The sending half of [_upload_body].  [bufs] are the successive readings of
    the stream's unacked buffer ([None] once aioquic has dropped the stream);
    running out of readings is a wait that has not ended.  The result is the
    calls made, the readings left, and whether the wait ended. *)
Definition UPLOAD_BUF_CAP : Z := 256 * 1024.

Fixpoint wait_drain (bufs : list (option Z)) : list wire_op * list (option Z) * bool :=
  match bufs with
  | [] => ([], [], false)
  | None :: bufs' => ([], bufs', true)
  | Some n :: bufs' =>
      if UPLOAD_BUF_CAP <=? n
      then let '(ops, rest, ok) := wait_drain bufs' in (Transmit :: ops, rest, ok)
      else ([], bufs', true)
  end.

Fixpoint upload_chunks (sid : Z) (chunks : list (list Z)) (bufs : list (option Z)) : list wire_op * bool :=
  match chunks with
  | [] => ([SendData sid [] true; Transmit], true)
  | ch :: chunks' =>
      let '(ops, bufs', ok) := wait_drain bufs in
      if ok : bool then
        let '(ops', ok') := upload_chunks sid chunks' bufs' in
        ([SendData sid ch false; Transmit] ++ ops ++ ops', ok')
      else ([SendData sid ch false; Transmit] ++ ops, false)
  end.

(** [ws_open]: the handshake it sends, and the exits of its loop. *)
Definition ws_headers (c : client (H:=H)) (path : list Z) (subprotocols : list (list Z)) : list (list Z * list Z) :=
  [(str ":method", str "CONNECT"); (str ":scheme", str "https"); (str ":authority", encode (authority c));
   (str ":path", encode path); (str ":protocol", str "websocket"); (str "sec-websocket-version", str "13")]
  ++ (if decide (subprotocols = []) then []
      else [(str "sec-websocket-protocol", encode (join (str ", ") subprotocols))]).

Definition ws_open_start (c : client (H:=H)) (sid : Z) (path : list Z) (subprotocols : list (list Z))
  : res (client * nat) :=
  let '(c', q) := register sid c in
  match http c with
  | None => Raise no_http
  | Some _ => Ok (log [SendHeaders sid (ws_headers c path subprotocols) false; Transmit] c', q)
  end.

(** [last] is the item that ended the loop: only the [err] arm pops the queue
    before raising, and a tunnel keeps it. *)
Definition ws_open_finish (c : client (H:=H)) (sid : Z) (last : item) : client :=
  match last with
  | IErr _ => pop sid c
  | _ => c
  end.

(** [connect_h3]: the check after the handshake. *)
Definition connect_check (c : client (H:=H)) (host port : list Z) : res (client) :=
  match http c with
  | None => Raise (ProtocolPinError (str "h3 was not negotiated (ALPN mismatch); no fallback allowed for VORTEX_PROTO=h3"))
  | Some h => Ok (Client (Some h) (queues c) (store c) (nextq c) (host ++ str ":" ++ port) (wire c))
  end.
End Session.

(** ** [H3Ws] *)

Definition ws_send {H} (c : client (H:=H)) (sid opcode : Z) (payload : list Z) : res client :=
  f ← H3.ws_frame opcode payload true;
  match http c with
  | None => Raise no_http
  | Some _ => Ok (log [SendData sid f false; Transmit] c)
  end.

(** [recv]: [buf] is [_buf]; the items still queued are consumed as needed. *)
Inductive recv_result :=
| Received (f : frame) (buf : list Z) (items : list item)
| Blocked (buf : list Z)
| RecvRaised (e : exn).

Fixpoint recv_wait (buf : list Z) (items : list item) : recv_result :=
  match items with
  | [] => Blocked buf
  | it :: items' =>
      match it with
      | IErr m => RecvRaised (ConnectionError m)
      | IEnd => RecvRaised (ConnectionError (str "ws stream ended"))
      | _ =>
          let buf := match it with IData d => buf ++ d | _ => buf end in
          match H3.parse_ws buf with
          | Raise e => RecvRaised e
          | Ok (f :: _, consumed) => Received f (drop (Z.to_nat consumed) buf) items'
          | Ok ([], _) => recv_wait buf items'
          end
      end
  end.

Definition recv (buf : list Z) (items : list item) : recv_result :=
  match H3.parse_ws buf with
  | Raise e => RecvRaised e
  | Ok (f :: _, consumed) => Received f (drop (Z.to_nat consumed) buf) items
  | Ok ([], _) => recv_wait buf items
  end.

Definition ws_close {H} (c : client (H:=H)) (sid : Z) : client := pop sid c.

(** ** The demultiplexer's invariant *)

Section Demux.
Context {H : Type}.
Implicit Types (c : client (H:=H)) (sid : Z) (q : nat).

(** No two streams share a queue, every registered queue exists, and queue
    objects are numbered without gaps. *)
Record client_ok c : Prop := {
  queues_inj sid sid' q : queues c !! sid = Some q -> queues c !! sid' = Some q -> sid = sid';
  queues_alloc sid q : queues c !! sid = Some q -> (q < nextq c)%nat;
  store_alloc q : is_Some (store c !! q) <-> (q < nextq c)%nat }.

Lemma init_ok : client_ok (init_client (H:=H)).
Proof.
  split; simpl; intros *; rewrite ?lookup_empty; [done|done|]. split; [by intros [? ?]|lia].
Qed.

Lemma register_ok c sid c' q : client_ok c -> register sid c = (c', q) -> client_ok c'.
Proof.
  intros [Hinj Hq Hs] [= <- <-]. split; simpl.
  - intros s1 s2 q. rewrite !lookup_insert. repeat case_decide; subst; [done|..]; intros; simplify_eq;
      try (exfalso; match goal with Hx : queues c !! _ = Some (nextq c) |- _ => apply Hq in Hx; lia end).
    eauto.
  - intros s q. rewrite lookup_insert. case_decide; intros; simplify_eq; [lia|].
    match goal with Hx : queues c !! _ = Some _ |- _ => apply Hq in Hx; lia end.
  - intros q. rewrite lookup_insert. case_decide; subst; [split; [lia|by eexists]|].
    rewrite Hs. lia.
Qed.

Lemma pop_ok c sid : client_ok c -> client_ok (pop sid c).
Proof.
  intros [Hinj Hq Hs]. split; simpl; [| |done].
  - intros s1 s2 q. rewrite !lookup_delete. repeat case_decide; naive_solver.
  - intros s q. rewrite lookup_delete. case_decide; naive_solver.
Qed.

Lemma put_ok c q it : client_ok c -> client_ok (put q it c).
Proof.
  intros [Hinj Hq Hs]. split; simpl; [done|done|]. intros q'. rewrite <- Hs, lookup_alter.
  case_decide; subst; [|done]. by rewrite fmap_is_Some.
Qed.

Lemma log_ok c ops : client_ok c -> client_ok (log ops c).
Proof. by intros [? ? ?]. Qed.

Lemma with_http_ok c h : client_ok c -> client_ok (with_http h c).
Proof. by intros [? ? ?]. Qed.

Lemma put_all_ok c q its : client_ok c -> client_ok (put_all q its c).
Proof.
  revert c. unfold put_all. induction its as [|it its IH]; intros c Hc; simpl; [done|]. by apply IH, put_ok.
Qed.

(** What a sequence of [put]s leaves in a queue, and what it does not touch. *)
Lemma put_all_spec c q its q' :
  store (put_all q its c) !! q' = (if decide (q = q') then (fun l => l ++ its) <$> store c !! q' else store c !! q') /\
  queues (put_all q its c) = queues c /\ http (put_all q its c) = http c /\
  nextq (put_all q its c) = nextq c.
Proof.
  unfold put_all. revert c. induction its as [|it its IH]; intros c; simpl.
  - split; [|done]. case_decide; [|done]. destruct (store c !! q'); simpl; [by rewrite app_nil_r|done].
  - destruct (IH (put q it c)) as (E1 & E2 & E3 & E4). rewrite E1, E2, E3, E4. split; [|done].
    unfold put. simpl. rewrite lookup_alter. destruct (decide (q = q')) as [<-|]; [|done].
    destruct (store c !! q) as [l|]; simpl; [|done]. by rewrite <- app_assoc.
Qed.

Lemma put_each_spec c (qs : list nat) it q :
  NoDup qs ->
  let c' := fold_left (fun c q => put q it c) qs c in
  store c' !! q = (if decide (q ∈ qs) then (fun l => l ++ [it]) <$> store c !! q else store c !! q) /\
  queues c' = queues c /\ http c' = http c /\ nextq c' = nextq c.
Proof.
  revert c. induction qs as [|q0 qs IH]; intros c Hnd; cbn [fold_left].
  - destruct (decide (q ∈ [])) as [Hd|]; [by apply not_elem_of_nil in Hd|]. auto.
  - apply NoDup_cons in Hnd as [Hq0 Hnd]. destruct (IH (put q0 it c) Hnd) as (E1 & E2 & E3 & E4).
    rewrite E1, E2, E3, E4. split; [|done]. unfold put. simpl. rewrite lookup_alter.
    destruct (decide (q0 = q)) as [->|Hne].
    + rewrite decide_False by done. by rewrite decide_True by (by left).
    + destruct (decide (q ∈ qs)).
      * by rewrite decide_True by (by right).
      * rewrite decide_False; [done|]. rewrite elem_of_cons. naive_solver.
Qed.

Lemma put_each_ok c (qs : list nat) it :
  client_ok c -> client_ok (fold_left (fun c q => put q it c) qs c).
Proof. revert c. induction qs as [|q qs IH]; intros c Hc; simpl; [done|]. by apply IH, put_ok. Qed.

Lemma registered_NoDup c : client_ok c -> NoDup (map_to_list (queues c)).*2.
Proof.
  intros [Hinj _ _]. apply NoDup_fmap_2_strong; [|apply NoDup_map_to_list].
  intros [s1 q1] [s2 q2]. rewrite !elem_of_map_to_list. simpl. intros H1 H2 ->.
  f_equal. by eapply Hinj.
Qed.

Lemma registered_elem c q : q ∈ (map_to_list (queues c)).*2 <-> exists sid, queues c !! sid = Some q.
Proof.
  rewrite list_elem_of_fmap. split.
  - intros ([sid q'] & -> & Hin). apply elem_of_map_to_list in Hin. by exists sid.
  - intros [sid Hsid]. exists (sid, q). split; [done|]. by apply elem_of_map_to_list.
Qed.

(** ** What the event stream says about one stream *)

Context {E : Type} (new_h3 : H) (handle_event : H -> quic_event E -> list h3_event * H).

Fixpoint emit_h3s (sid : Z) (es : list h3_event) : res (list item) :=
  match es with
  | [] => Ok []
  | e :: es' =>
      if decide (h3_sid e = sid)
      then its ← h3_items e; its' ← emit_h3s sid es'; Ok (its ++ its')
      else emit_h3s sid es'
  end.

(** The items a QUIC event means for [sid], and the next HTTP/3 state. *)
Definition emit (sid : Z) (h : option H) (ev : quic_event E) : res (list item * option H) :=
  match ev with
  | StreamReset sid' code => Ok (if decide (sid' = sid) then [reset_item code] else [], h)
  | ConnectionTerminated code reason ft => Ok ([closed_item code reason ft], h)
  | _ =>
      let h := match ev with
               | ProtocolNegotiated (Some a) => if starts_with (str "h3") a then Some new_h3 else h
               | _ => h
               end in
      match h with
      | None => Ok ([], None)
      | Some h => let '(es, h') := handle_event h ev in its ← emit_h3s sid es; Ok (its, Some h')
      end
  end.

Fixpoint item_stream (sid : Z) (h : option H) (evs : list (quic_event E)) : res (list item) :=
  match evs with
  | [] => Ok []
  | ev :: evs' =>
      '(its, h') ← emit sid h ev; its' ← item_stream sid h' evs'; Ok (its ++ its')
  end.

(** The view of one registered stream: its queue, what is in it, the HTTP/3
    state and the invariant. *)
Definition view c sid q (l : list item) (h : option H) : Prop :=
  client_ok c /\ queues c !! sid = Some q /\ store c !! q = Some l /\ http c = h.

Lemma on_h3_view c sid q l h e c' :
  view c sid q l h -> on_h3 c e = Ok c' ->
  exists its, (if decide (h3_sid e = sid) then h3_items e else Ok []) = Ok its /\ view c' sid q (l ++ its) h.
Proof.
  intros (Hok & Hq & Hl & Hh). unfold on_h3.
  destruct (queues c !! h3_sid e) as [q'|] eqn:Eq.
  - destruct (h3_items e) as [its|] eqn:Ei; simpl; [|done]. intros [= <-].
    destruct (put_all_spec c q' its q) as (E1 & E2 & E3 & _).
    destruct (decide (h3_sid e = sid)) as [Hs|Hs].
    + exists its. split; [done|]. assert (q' = q) as -> by congruence.
      rewrite decide_True, Hl in E1 by done. split; [by apply put_all_ok|]. by rewrite E1, E2, E3.
    + exists []. split; [done|]. rewrite app_nil_r. rewrite decide_False in E1
        by (intros ->; apply Hs; by eapply queues_inj).
      split; [by apply put_all_ok|]. by rewrite E1, E2, E3.
  - intros [= <-]. destruct (decide (h3_sid e = sid)); [congruence|].
    exists []. by rewrite app_nil_r.
Qed.

Lemma on_h3s_view es c sid q l h c' :
  view c sid q l h -> on_h3s c es = Ok c' ->
  exists its, emit_h3s sid es = Ok its /\ view c' sid q (l ++ its) h.
Proof.
  revert c l. induction es as [|e es IH]; intros c l Hv; simpl.
  - intros [= <-]. exists []. by rewrite app_nil_r.
  - destruct (on_h3 c e) as [c1|] eqn:E1; simpl; [|done]. intros Hr.
    destruct (on_h3_view _ _ _ _ _ _ _ Hv E1) as (its & Ei & Hv1).
    destruct (IH _ _ Hv1 Hr) as (its' & Ei' & Hv'). rewrite Ei'.
    destruct (decide (h3_sid e = sid)).
    + exists (its ++ its'). rewrite Ei. simpl. by rewrite app_assoc.
    + injection Ei as <-. exists its'. by rewrite app_nil_r in Hv'.
Qed.

(** Demultiplexing: an event appends to a registered queue exactly the items it
    means for that stream. *)
Lemma quic_event_view c sid q l h ev c' :
  view c sid q l h -> quic_event_received new_h3 handle_event c ev = Ok c' ->
  exists its h', emit sid h ev = Ok (its, h') /\ view c' sid q (l ++ its) h'.
Proof.
  intros (Hok & Hq & Hl & Hh). unfold quic_event_received, emit.
  destruct ev as [[a|]|sid' code|code reason ft|e]; cbn [negotiate mbind res_bind]; rewrite ?Hh; try done.
  - set (c1 := if starts_with (str "h3") a then with_http (Some new_h3) c else c).
    assert (view c1 sid q l (if starts_with (str "h3") a then Some new_h3 else h)) as Hv.
    { unfold c1. destruct (starts_with (str "h3") a); [|done]. split; [by apply with_http_ok|done]. }
    clearbody c1. destruct Hv as (Hok1 & Hq1 & Hl1 & Hh1). rewrite Hh1.
    destruct (if starts_with (str "h3") a then Some new_h3 else h) as [h1|].
    + destruct (handle_event h1 _) as [es h'] eqn:Eh. intros Hr.
      destruct (on_h3s_view es (with_http (Some h') c1) sid q l (Some h') c') as (its & Ei & Hv');
        [by split; [apply with_http_ok|]|done|]. rewrite Ei. simpl. by eexists _, _.
    + intros [= <-]. exists [], None. by rewrite app_nil_r.
  - intros [= <-]. destruct (decide (sid' = sid)) as [->|Hne].
    + rewrite Hq. eexists _, _. split; [done|]. split; [by apply put_ok|].
      destruct (put_all_spec c q [reset_item code] q) as (E1 & E2 & E3 & _).
      rewrite decide_True, Hl in E1 by done. done.
    + exists [], h. rewrite app_nil_r. split; [done|].
      destruct (queues c !! sid') as [q'|] eqn:Eq; [|done]. split; [by apply put_ok|].
      destruct (put_all_spec c q' [reset_item code] q) as (E1 & _).
      rewrite decide_False in E1 by (intros ->; apply Hne; by eapply queues_inj).
      change (put_all q' [reset_item code] c) with (put q' (reset_item code) c) in E1.
      split; [done|]. split; [by rewrite E1|done].
  - intros [= <-]. eexists _, _. split; [done|].
    destruct (put_each_spec c (map_to_list (queues c)).*2 (closed_item code reason ft) q) as (E1 & E2 & E3 & _);
      [by apply registered_NoDup|].
    split; [by apply put_each_ok|]. rewrite E1, E2, E3, decide_True, Hl by (apply registered_elem; by exists sid).
    done.
  - destruct h as [h|].
    + destruct (handle_event h _) as [es h'] eqn:Eh. intros Hr.
      destruct (on_h3s_view es (with_http (Some h') c) sid q l (Some h') c') as (its & Ei & Hv');
        [by split; [apply with_http_ok|]|done|]. rewrite Ei. simpl. by eexists _, _.
    + intros [= <-]. exists [], None. by rewrite app_nil_r.
Qed.
End Demux.

(** ** Schedules

    The event loop may run the packet handler, this reader and every other
    coroutine in any order.  [sched evs x y] is a run from [x] to [y] in which
    the QUIC events [evs] arrive: [sched_other] stands for any step of another
    coroutine, which leaves this stream's entry, queue and HTTP/3 state alone. *)
Section Schedule.
Context {E H : Type} (new_h3 : H) (handle_event : H -> quic_event E -> list h3_event * H).
Context {S O : Type} (on_item : S -> item -> S + O) (sid : Z) (q : nat).

Inductive sched : list (quic_event E) -> client (H:=H) * progress S O -> client (H:=H) * progress S O -> Prop :=
| sched_done x : sched [] x x
| sched_event c p ev c1 evs y :
    quic_event_received new_h3 handle_event c ev = Ok c1 ->
    sched evs (c1, p) y -> sched (ev :: evs) (c, p) y
| sched_get c s it its evs y :
    store c !! q = Some (it :: its) ->
    sched evs (with_store (<[q := its]> (store c)) c, feed on_item (Waiting s) it) y ->
    sched evs (c, Waiting s) y
| sched_other c p c1 evs y :
    client_ok c1 -> queues c1 !! sid = queues c !! sid -> store c1 !! q = store c !! q -> http c1 = http c ->
    sched evs (c1, p) y -> sched evs (c, p) y.

Lemma with_store_view (c : client (H:=H)) it its h :
  view c sid q (it :: its) h -> view (with_store (<[q := its]> (store c)) c) sid q its h.
Proof.
  intros (Hok & Hq & Hl & Hh). split; [|split; [done|split; [simpl; by rewrite lookup_insert_eq|done]]].
  destruct Hok as [Hinj Ha Hs]. split; simpl; [done|done|]. intros q'. rewrite <- Hs, lookup_insert.
  case_decide; subst; [|done]. rewrite Hl. split; by eexists.
Qed.

(** Whatever the schedule, the reader has consumed a prefix of the items the
    events mean for its stream, in order, and the rest is in its queue. *)
Lemma sched_prefix evs x y : sched evs x y -> forall l h,
  view x.1 sid q l h ->
  exists its consumed rest h', item_stream new_h3 handle_event sid h evs = Ok its /\
    l ++ its = consumed ++ rest /\ y.2 = feed_all on_item consumed x.2 /\ view y.1 sid q rest h'.
Proof.
  induction 1 as [x|c p ev c1 evs y Hev _ IH|c s it its evs y Hst _ IH|c p c1 evs y Hok Hq Hs Hh _ IH];
    intros l h Hv; simpl in *.
  - exists [], [], l, h. by rewrite app_nil_r.
  - destruct (quic_event_view _ _ _ _ _ _ _ _ _ Hv Hev) as (its1 & h1 & E1 & Hv1).
    destruct (IH _ _ Hv1) as (its & consumed & rest & h' & Ei & Ea & Ep & Hv').
    exists (its1 ++ its), consumed, rest, h'. rewrite E1. cbn [mbind res_bind]. rewrite Ei. simpl.
    by rewrite app_assoc.
  - assert (Hl : l = it :: its) by (destruct Hv as (_ & _ & Hl & _); congruence). subst l.
    destruct (IH its h) as (its' & consumed & rest & h' & Ei & Ea & Ep & Hv'); [by eapply with_store_view|].
    exists its', (it :: consumed), rest, h'. split; [done|].
    split; [simpl; by rewrite Ea|done].
  - destruct Hv as (Hok0 & Hq0 & Hl0 & Hh0). apply IH. split; [done|].
    rewrite Hq, Hs, Hh. done.
Qed.

Lemma feed_all_Done its o : feed_all on_item its (Done o) = Done o.
Proof. unfold feed_all. induction its; simpl; auto. Qed.

Lemma feed_all_app its its' p :
  feed_all on_item (its ++ its') p = feed_all on_item its' (feed_all on_item its p).
Proof. apply fold_left_app. Qed.

(** So its outcome does not depend on the schedule: it is that of reading all
    the items, unless it is still waiting with items to read. *)
Lemma sched_outcome evs c p c' p' l h :
  view c sid q l h -> sched evs (c, p) (c', p') ->
  exists its, item_stream new_h3 handle_event sid h evs = Ok its /\ queues c' !! sid = Some q /\
    (p' = feed_all on_item (l ++ its) p \/
     (exists s, p' = Waiting s) /\ exists it rest, store c' !! q = Some (it :: rest)).
Proof.
  intros Hv Hs. destruct (sched_prefix _ _ _ Hs l h Hv) as (its & consumed & rest & h' & Ei & Ea & Ep & Hv').
  simpl in *. exists its. split; [done|]. split; [by destruct Hv' as (_ & ? & _)|].
  rewrite Ea, feed_all_app. destruct p' as [s|o].
  - destruct rest as [|it rest]; [left; by rewrite <- Ep|]. right. split; [by eexists|].
    exists it, rest. by destruct Hv' as (_ & _ & ? & _).
  - left. by rewrite <- Ep, feed_all_Done.
Qed.
End Schedule.

(** A reader that leaves its loop on both terminal items. *)
Class StopsOnTerminal {S O} (on_item : S -> item -> S + O) : Prop := {
  stops_end s : exists o, on_item s IEnd = inr o;
  stops_err s m : exists o, on_item s (IErr m) = inr o }.

#[export] Instance request_stops : StopsOnTerminal request_item.
Proof. split; intros; by eexists. Qed.
#[export] Instance stream_stops : StopsOnTerminal stream_item.
Proof. split; intros; by eexists. Qed.
#[export] Instance upload_stops : StopsOnTerminal upload_item.
Proof. split; intros; by eexists. Qed.
#[export] Instance ws_open_stops : StopsOnTerminal ws_open_item.
Proof. split; intros; by eexists. Qed.

Definition terminal (it : item) : Prop := it = IEnd \/ exists m, it = IErr m.

Lemma feed_all_terminal {S O} (on_item : S -> item -> S + O) `{!StopsOnTerminal on_item} its p :
  Exists terminal its -> exists o, feed_all on_item its p = Done o.
Proof.
  intros Hex. apply Exists_exists in Hex as (it & Hin & Ht). apply list_elem_of_split in Hin as (l1 & l2 & ->).
  rewrite feed_all_app. destruct (feed_all on_item l1 p) as [s|o]; [|eexists; apply feed_all_Done].
  assert (exists o, feed on_item (Waiting s) it = Done o) as [o Ho].
  { destruct Ht as [->|[m ->]]; simpl.
    - destruct (stops_end (on_item := on_item) s) as [o ->]. by eexists.
    - destruct (stops_err (on_item := on_item) s m) as [o ->]. by eexists. }
  exists o. unfold feed_all. cbn [fold_left]. rewrite Ho. apply feed_all_Done.
Qed.

Section Terminal.
Context {E H : Type} (new_h3 : H) (handle_event : H -> quic_event E -> list h3_event * H).

(** An event that ends stream [sid]. *)
Definition ends_stream (sid : Z) (ev : quic_event E) : Prop :=
  match ev with
  | StreamReset sid' _ => sid' = sid
  | ConnectionTerminated _ _ _ => True
  | _ => False
  end.

Lemma item_stream_terminal sid h evs its :
  item_stream new_h3 handle_event sid h evs = Ok its -> Exists (ends_stream sid) evs -> Exists terminal its.
Proof.
  revert h its. induction evs as [|ev evs IH]; intros h its; simpl; [intros _ Hx; inversion Hx|].
  destruct (emit new_h3 handle_event sid h ev) as [[its1 h1]|] eqn:Ee; simpl; [|done].
  destruct (item_stream new_h3 handle_event sid h1 evs) as [its2|] eqn:Ei; simpl; [|done].
  intros [= <-] Hx. apply Exists_app. inversion Hx as [? ? Hev|? ? Hev]; subst; [left|right; by eapply IH].
  destruct ev as [a|sid' code|code reason ft|e]; simpl in Hev; try done.
  - subst sid'. unfold emit in Ee. rewrite decide_True in Ee by done. injection Ee as <- _.
    left. right. by eexists.
  - unfold emit in Ee. injection Ee as <- _. left. right. by eexists.
Qed.

(** Events never touch a queue that is no longer registered. *)
Lemma on_h3s_unregistered c es c' q :
  (forall sid, queues c !! sid <> Some q) -> on_h3s (H:=H) c es = Ok c' ->
  store c' !! q = store c !! q /\ queues c' = queues c.
Proof.
  revert c. induction es as [|e es IH]; intros c Hq; simpl; [by intros [= <-]|].
  unfold on_h3 at 1. destruct (queues c !! h3_sid e) as [q'|] eqn:Eq.
  - destruct (h3_items e) as [its|]; simpl; [|done]. intros Hr.
    destruct (put_all_spec c q' its q) as (E1 & E2 & _).
    apply IH in Hr as [H1 H2]; [|by rewrite E2].
    rewrite H1, H2, E1, E2, decide_False; [done|]. intros ->. by eapply Hq.
  - simpl. by apply IH.
Qed.

Lemma event_unregistered c ev c' q :
  client_ok c -> (forall sid, queues c !! sid <> Some q) ->
  quic_event_received new_h3 handle_event c ev = Ok c' ->
  store c' !! q = store c !! q /\ queues c' = queues c.
Proof.
  intros Hok Hq. unfold quic_event_received.
  destruct ev as [[a|]|sid' code|code reason ft|e]; cbn [negotiate mbind res_bind]; try done.
  - set (c1 := if starts_with (str "h3") a then with_http (Some new_h3) c else c).
    assert (store c1 = store c /\ queues c1 = queues c) as [Es Eq] by (unfold c1; by case_match).
    clearbody c1. rewrite <- Es, <- Eq. rewrite <- Eq in Hq.
    destruct (http c1) as [h|]; [|by intros [= <-]].
    destruct (handle_event h _) as [es h']. intros Hr. by apply on_h3s_unregistered with (q := q) in Hr.
  - intros [= <-]. destruct (queues c !! sid') as [q'|] eqn:Eq; [|done].
    destruct (put_all_spec c q' [reset_item code] q) as (E1 & E2 & _).
    split; [|done]. change (put q' (reset_item code) c) with (put_all q' [reset_item code] c).
    rewrite E1, decide_False; [done|]. intros ->. by eapply Hq.
  - intros [= <-].
    destruct (put_each_spec c (map_to_list (queues c)).*2 (closed_item code reason ft) q) as (E1 & E2 & _);
      [by apply registered_NoDup|]. rewrite E1, E2, decide_False; [done|].
    rewrite registered_elem. by intros [sid Hs]; eapply Hq.
  - destruct (http c) as [h|]; [|by intros [= <-]].
    destruct (handle_event h _) as [es h']. intros Hr. by apply on_h3s_unregistered with (q := q) in Hr.
Qed.
End Terminal.

(** ** Replies read in order *)

Lemma feed_data r ds rest :
  feed_all request_item (map IData ds ++ rest) (Waiting r)
  = feed_all request_item rest (Waiting (Response (r_status r) (r_enc r) (r_ct r) (r_body r ++ concat ds))).
Proof.
  revert r. induction ds as [|d ds IH]; intros r; simpl.
  - rewrite app_nil_r. by destruct r.
  - change (feed_all request_item (IData d :: map IData ds ++ rest) (Waiting r))
      with (feed_all request_item (map IData ds ++ rest)
              (Waiting (Response (r_status r) (r_enc r) (r_ct r) (r_body r ++ d)))).
    rewrite IH. simpl. by rewrite app_assoc.
Qed.

Lemma request_reads st enc ct ds :
  feed_all request_item (IHeaders st enc ct :: map IData ds ++ [IEnd]) (Waiting request_init)
  = Done (Ok (Response st enc ct (concat ds))).
Proof.
  change (feed_all request_item (IHeaders st enc ct :: map IData ds ++ [IEnd]) (Waiting request_init))
    with (feed_all request_item (map IData ds ++ [IEnd]) (Waiting (Response st enc ct []))).
  by rewrite feed_data.
Qed.

Lemma register_view {H} (c : client (H:=H)) sid c' q h :
  client_ok c -> http c = h -> register sid c = (c', q) -> view c' sid q [] h.
Proof.
  intros Hok Hh Hr. split; [by eapply register_ok|]. injection Hr as <- <-. simpl.
  by rewrite !lookup_insert_eq.
Qed.

Lemma log_view {H} (c : client (H:=H)) ops sid q l h : view c sid q l h -> view (log ops c) sid q l h.
Proof. intros (Hok & ? & ? & ?). split; [by apply log_ok|done]. Qed.

(** ** The client as a set of mailboxes

    What the demultiplexer promises, without dictionary or queue objects: every
    stream that was opened has a mailbox.  While it is open the items of its
    stream's events are appended to it, in order; a take removes its first item;
    cleanup closes it for good, and its reader keeps what is in it. *)
Record mailbox := Mailbox { mb_sid : Z; mb_open : bool; mb_items : list item }.

Definition open_for (sid : Z) (b : mailbox) : bool := mb_open b && (mb_sid b =? sid).
Definition deliver (its : list item) (b : mailbox) : mailbox := Mailbox (mb_sid b) (mb_open b) (mb_items b ++ its).
Definition push (sid : Z) (its : list item) (bs : list mailbox) : list mailbox :=
  map (fun b => if open_for sid b then deliver its b else b) bs.
Definition push_open (it : item) (bs : list mailbox) : list mailbox :=
  map (fun b => if mb_open b then deliver [it] b else b) bs.
Definition shut_box (sid : Z) (bs : list mailbox) : list mailbox :=
  map (fun b => if open_for sid b then Mailbox (mb_sid b) false (mb_items b) else b) bs.

(** HTTP/3 events in order, up to one for an open mailbox whose headers do not
    parse. *)
Fixpoint push_h3s (bs : list mailbox) (es : list h3_event) : list mailbox :=
  match es with
  | [] => bs
  | e :: es' =>
      if existsb (open_for (h3_sid e)) bs then
        match h3_items e with
        | Ok its => push_h3s (push (h3_sid e) its bs) es'
        | Raise _ => bs
        end
      else push_h3s bs es'
  end.

Section Mailboxes.
Context {E H : Type} (new_h3 : H) (handle_event : H -> quic_event E -> list h3_event * H).

Inductive mail_op :=
| Arrives (ev : quic_event E)              (** an event, also one whose handler raises *)
| Opens (sid : Z) (n : nat)                (** the [n]th mailbox *)
| Takes (n : nat) (it : item)
| Closes (sid : Z)
| Sends.                                   (** calls into aioquic only *)

Record mail := Mail { boxes : list mailbox; layer : option H }.

Definition arrive (m : mail) (ev : quic_event E) : mail :=
  match ev with
  | StreamReset sid code => Mail (push sid [reset_item code] (boxes m)) (layer m)
  | ConnectionTerminated code reason ft => Mail (push_open (closed_item code reason ft) (boxes m)) (layer m)
  | ProtocolNegotiated None => m
  | _ =>
      let h := match ev with
               | ProtocolNegotiated (Some a) => if starts_with (str "h3") a then Some new_h3 else layer m
               | _ => layer m
               end in
      match h with
      | None => m
      | Some h => let '(es, h') := handle_event h ev in Mail (push_h3s (boxes m) es) (Some h')
      end
  end.

(** [None]: the operation is not one the mailboxes allow. *)
Definition mail_do (m : mail) (o : mail_op) : option mail :=
  match o with
  | Arrives ev => Some (arrive m ev)
  | Opens sid n =>
      if decide (n = length (boxes m)) then Some (Mail (shut_box sid (boxes m) ++ [Mailbox sid true []]) (layer m)) else None
  | Takes n it =>
      match boxes m !! n with
      | Some b =>
          match mb_items b with
          | it' :: its => if decide (it' = it) then Some (Mail (<[n := Mailbox (mb_sid b) (mb_open b) its]> (boxes m)) (layer m)) else None
          | [] => None
          end
      | None => None
      end
  | Closes sid => Some (Mail (shut_box sid (boxes m)) (layer m))
  | Sends => Some m
  end.

Fixpoint mail_all (m : mail) (os : list mail_op) : option mail :=
  match os with
  | [] => Some m
  | o :: os' => m' ← mail_do m o; mail_all m' os'
  end.

(** *** The operations of the module *)

(** What a raising handler leaves behind. *)
Fixpoint on_h3s_left (c : client (H:=H)) (es : list h3_event) : client :=
  match es with
  | [] => c
  | e :: es' => match on_h3 c e with Ok c' => on_h3s_left c' es' | Raise _ => c end
  end.

Definition event_left (c : client (H:=H)) (ev : quic_event E) : client :=
  match negotiate new_h3 c ev with
  | Raise _ => c
  | Ok c =>
      match http c with
      | None => c
      | Some h => let '(es, h') := handle_event h ev in on_h3s_left (with_http (Some h') c) es
      end
  end.

(** Every state change of the module, with what it is to the mailboxes. *)
Inductive client_does : client (H:=H) -> mail_op -> client (H:=H) -> Prop :=
| does_event c ev c' : quic_event_received new_h3 handle_event c ev = Ok c' -> client_does c (Arrives ev) c'
| does_event_raise c ev e : quic_event_received new_h3 handle_event c ev = Raise e -> client_does c (Arrives ev) (event_left c ev)
| does_open c sid m p hs e c' q : open_ c sid m p hs e = Ok (c', q) -> client_does c (Opens sid q) c'
| does_stream_open c sid m p hs c' q : stream_open c sid m p hs = Ok (c', q) -> client_does c (Opens sid q) c'
| does_request c sid m p hs body c' q : request_start c sid m p hs body = Ok (c', q) -> client_does c (Opens sid q) c'
| does_ws_open c sid p subs c' q : ws_open_start c sid p subs = Ok (c', q) -> client_does c (Opens sid q) c'
| does_open_raise c sid : http c = None -> client_does c (Opens sid (nextq c)) (fst (register sid c))
| does_get c q it its : store c !! q = Some (it :: its) -> client_does c (Takes q it) (with_store (<[q := its]> (store c)) c)
| does_finish c sid gunzip unbrotli unzstd o : client_does c (Closes sid) (fst (request_finish gunzip unbrotli unzstd c sid o))
| does_finally c sid : client_does c (Closes sid) (stream_finally c sid)
| does_abort c sid code r s : client_does c (Closes sid) (abort_stream c sid code r s)
| does_ws_close c sid : client_does c (Closes sid) (ws_close c sid)
| does_ws_error c sid m : client_does c (Closes sid) (ws_open_finish c sid (IErr m))
| does_ws_tunnel c sid it : (forall m, it <> IErr m) -> client_does c Sends (ws_open_finish c sid it)
| does_ws_send c sid op pl c' : ws_send c sid op pl = Ok c' -> client_does c Sends c'
| does_connect c host port c' : connect_check c host port = Ok c' -> client_does c Sends c'
| does_send c ops : client_does c Sends (log ops c).

Inductive client_run : client (H:=H) -> list mail_op -> client (H:=H) -> Prop :=
| run_nil c : client_run c [] c
| run_cons c o c1 os c2 : client_does c o c1 -> client_run c1 os c2 -> client_run c (o :: os) c2.

(** *** The simulation *)

(** Queue object [n] is mailbox [n], registered while it is open. *)
Record represents (c : client (H:=H)) (m : mail) : Prop := {
  rep_next : nextq c = length (boxes m);
  rep_store n : store c !! n = mb_items <$> boxes m !! n;
  rep_queues sid n : queues c !! sid = Some n <-> exists b, boxes m !! n = Some b /\ open_for sid b = true;
  rep_http : http c = layer m }.

Lemma open_for_true sid b : open_for sid b = true <-> mb_open b = true /\ mb_sid b = sid.
Proof. unfold open_for. by rewrite andb_true_iff, Z.eqb_eq. Qed.

Lemma open_for_same sid b f :
  mb_sid (f b) = mb_sid b -> mb_open (f b) = mb_open b -> open_for sid (f b) = open_for sid b.
Proof. unfold open_for. by intros -> ->. Qed.

(** So the invariant of the client holds in every state that is some mailboxes. *)
Lemma represents_ok c m : represents c m -> client_ok c.
Proof.
  intros [Hn Hs Hq Hh]. split.
  - intros sid sid' q. rewrite !Hq. intros (b & Hb & Ho) (b' & Hb' & Ho'). simplify_eq.
    apply open_for_true in Ho as [_ <-]. by apply open_for_true in Ho' as [_ <-].
  - intros sid q. rewrite Hq, Hn. intros (b & Hb & _). by eapply lookup_lt_Some.
  - intros q. rewrite Hs, Hn, fmap_is_Some. apply lookup_lt_is_Some.
Qed.

(** Delivering leaves the registrations alone. *)
Lemma represents_deliver c c' m f :
  represents c m -> (forall b, mb_sid (f b) = mb_sid b /\ mb_open (f b) = mb_open b) ->
  nextq c' = nextq c -> queues c' = queues c -> http c' = http c ->
  (forall n, store c' !! n = (mb_items ∘ f) <$> boxes m !! n) ->
  represents c' (Mail (map f (boxes m)) (layer m)).
Proof.
  intros [Hn Hs Hq Hh] Hf En Eq Eh Es. split; cbn [boxes layer]; [by rewrite length_map, En|..|by rewrite Eh].
  - intros n. rewrite Es. change (map f (boxes m)) with (f <$> boxes m). by rewrite list_lookup_fmap, <- option_fmap_compose.
  - intros sid n. rewrite Eq, Hq. change (map f (boxes m)) with (f <$> boxes m). rewrite list_lookup_fmap. split.
    + intros (b & -> & Ho). exists (f b). destruct (Hf b). by rewrite open_for_same.
    + intros (b' & Hb & Ho). apply fmap_Some in Hb as (b & -> & ->). exists b. destruct (Hf b). by rewrite open_for_same in Ho.
Qed.

Lemma represents_put_all c m sid q its :
  represents c m -> queues c !! sid = Some q -> represents (put_all q its c) (Mail (push sid its (boxes m)) (layer m)).
Proof.
  intros Hr Hq. destruct (put_all_spec c q its q) as (_ & E2 & E3 & E4). eapply represents_deliver; try done.
  - intros b. by destruct (open_for sid b).
  - intros n. destruct (put_all_spec c q its n) as (-> & _). rewrite (rep_store _ _ Hr).
    apply (rep_queues _ _ Hr) in Hq as Hb. destruct Hb as (b & Hb & Ho). destruct (decide (q = n)) as [<-|Hne].
    + rewrite Hb. cbn. by rewrite Ho.
    + destruct (boxes m !! n) as [b'|] eqn:Hb'; [|done]. cbn. destruct (open_for sid b') eqn:Ho'; [|done]. exfalso. apply Hne.
      assert (queues c !! sid = Some n) as Hn by (apply (rep_queues _ _ Hr); eauto). congruence.
Qed.

(** A stream is registered when it has an open mailbox. *)
Lemma represents_existsb c m sid :
  represents c m -> existsb (open_for sid) (boxes m) = match queues c !! sid with Some _ => true | None => false end.
Proof.
  intros Hr. destruct (queues c !! sid) as [q|] eqn:Eq.
  - apply (rep_queues _ _ Hr) in Eq as (b & Hb & Ho). apply existsb_exists. exists b. split; [|done].
    by apply list_elem_of_lookup_2, list_elem_of_In in Hb.
  - apply not_true_is_false. intros Hx. apply existsb_exists in Hx as (b & Hb & Ho).
    apply list_elem_of_In, list_elem_of_lookup in Hb as [n Hn].
    assert (queues c !! sid = Some n) as Hq by (apply (rep_queues _ _ Hr); eauto). congruence.
Qed.

Lemma represents_h3s es c m : represents c m -> represents (on_h3s_left c es) (Mail (push_h3s (boxes m) es) (layer m)).
Proof.
  revert c m. induction es as [|e es IH]; intros c m Hr; cbn [on_h3s_left push_h3s]; [by destruct m|].
  unfold on_h3. rewrite (represents_existsb c m) by done.
  destruct (queues c !! h3_sid e) as [q|] eqn:Eq; [|by apply IH].
  destruct (h3_items e) as [its|x]; cbn [mbind res_bind]; [|by destruct m].
  apply (IH _ (Mail (push (h3_sid e) its (boxes m)) (layer m))). by apply represents_put_all.
Qed.

Lemma on_h3s_ok es (c c' : client (H:=H)) : on_h3s c es = Ok c' -> on_h3s_left c es = c'.
Proof.
  revert c. induction es as [|e es IH]; intros c; cbn [on_h3s on_h3s_left]; [by intros [= <-]|].
  destruct (on_h3 c e) as [c1|]; [apply IH|done].
Qed.

Lemma represents_layer c m h : represents c m -> represents (with_http h c) (Mail (boxes m) h).
Proof. by intros [Hn Hs Hq Hh]. Qed.

Lemma represents_left c m ev :
  represents c m -> (forall sid code, ev <> StreamReset sid code) -> (forall code reason ft, ev <> ConnectionTerminated code reason ft) ->
  represents (event_left c ev) (arrive m ev).
Proof.
  intros Hr H1 H2. assert (Hh := rep_http _ _ Hr). unfold event_left, arrive.
  destruct ev as [[a|]|sid code|code reason ft|e]; cbn [negotiate]; [|done|by destruct (H1 sid code)|by destruct (H2 code reason ft)|].
  - destruct (starts_with (str "h3") a).
    + cbn [http with_http]. destruct (handle_event new_h3 _) as [es h'].
      apply (represents_h3s es _ (Mail (boxes m) (Some h'))). by apply (represents_layer (with_http (Some new_h3) c) (Mail (boxes m) (Some new_h3))), represents_layer.
    + rewrite Hh. destruct (layer m) as [h|] eqn:El; [|done]. destruct (handle_event h _) as [es h'].
      apply (represents_h3s es _ (Mail (boxes m) (Some h'))). by apply represents_layer.
  - rewrite Hh. destruct (layer m) as [h|] eqn:El; [|done]. destruct (handle_event h _) as [es h'].
    apply (represents_h3s es _ (Mail (boxes m) (Some h'))). by apply represents_layer.
Qed.

Lemma event_left_ok c ev c' :
  quic_event_received new_h3 handle_event c ev = Ok c' -> (forall sid code, ev <> StreamReset sid code) ->
  (forall code reason ft, ev <> ConnectionTerminated code reason ft) -> event_left c ev = c'.
Proof.
  intros Hev H1 H2. unfold quic_event_received in Hev. unfold event_left.
  destruct (negotiate new_h3 c ev) as [c1|]; cbn [mbind res_bind] in Hev; [|done].
  destruct ev as [a|sid code|code reason ft|e]; [|by destruct (H1 sid code)|by destruct (H2 code reason ft)|];
    (destruct (http c1) as [h|]; [|by injection Hev as <-]); destruct (handle_event h _) as [es h']; by apply on_h3s_ok.
Qed.

Lemma represents_event c m ev c' :
  represents c m -> quic_event_received new_h3 handle_event c ev = Ok c' -> represents c' (arrive m ev).
Proof.
  intros Hr Hev. destruct ev as [a|sid code|code reason ft|e].
  - rewrite <- (event_left_ok _ _ _ Hev) by done. by apply represents_left.
  - injection Hev as <-. cbn [arrive]. destruct (queues c !! sid) as [q|] eqn:Eq.
    + by apply (represents_put_all c m sid q [reset_item code]).
    + assert (push sid [reset_item code] (boxes m) = boxes m) as ->; [|by destruct m].
      unfold push. rewrite <- (map_id (boxes m)) at 2. apply map_ext_in. intros b Hb. destruct (open_for sid b) eqn:Ho; [|done].
      assert (Hx := represents_existsb c m sid Hr). rewrite Eq in Hx. exfalso. eapply not_true_iff_false; [exact Hx|].
      apply existsb_exists. by exists b.
  - injection Hev as <-. cbn [arrive].
    assert (NoDup (map_to_list (queues c)).*2) as Hnd by (eapply registered_NoDup, represents_ok, Hr).
    destruct (put_each_spec c _ (closed_item code reason ft) 0%nat Hnd) as (_ & E2 & E3 & E4).
    unfold push_open. eapply represents_deliver; [done| |done..|].
    + intros b. by destruct (mb_open b) eqn:Eo; cbn; rewrite ?Eo.
    + intros n. destruct (put_each_spec c _ (closed_item code reason ft) n Hnd) as (-> & _). rewrite (rep_store _ _ Hr).
      destruct (boxes m !! n) as [b|] eqn:Hb; cbn; [|by case_decide]. destruct (decide (n ∈ _)) as [Hin|Hin].
      * apply registered_elem in Hin as [sid Hs]. apply (rep_queues _ _ Hr) in Hs as (b' & Hb' & Ho). simplify_eq.
        apply open_for_true in Ho as [-> _]. done.
      * destruct (mb_open b) eqn:Ho; [|done]. exfalso. apply Hin, registered_elem. exists (mb_sid b).
        apply (rep_queues _ _ Hr). exists b. split; [done|]. by apply open_for_true.
  - rewrite <- (event_left_ok _ _ _ Hev) by done. by apply represents_left.
Qed.

Lemma shut_box_lookup sid bs n b :
  shut_box sid bs !! n = Some b <->
  exists b0, bs !! n = Some b0 /\ b = (if open_for sid b0 then Mailbox (mb_sid b0) false (mb_items b0) else b0).
Proof.
  unfold shut_box. match goal with |- map ?f _ !! _ = _ <-> _ => change (map f bs) with (f <$> bs) end.
  rewrite list_lookup_fmap, fmap_Some. done.
Qed.

Lemma shut_box_items sid bs n : mb_items <$> shut_box sid bs !! n = mb_items <$> bs !! n.
Proof.
  unfold shut_box. match goal with |- _ <$> map ?f _ !! _ = _ => change (map f bs) with (f <$> bs) end.
  rewrite list_lookup_fmap. destruct (bs !! n) as [b|]; [|done]. cbn. by destruct (open_for sid b).
Qed.

(** A mailbox is open for a stream after [sid] was closed if it was and is not [sid]'s. *)
Lemma shut_box_open sid sid' bs n :
  (exists b, shut_box sid bs !! n = Some b /\ open_for sid' b = true) <->
  sid <> sid' /\ exists b, bs !! n = Some b /\ open_for sid' b = true.
Proof.
  split.
  - intros (b & Hb & Ho). apply shut_box_lookup in Hb as (b0 & Hb & ->). destruct (open_for sid b0) eqn:E0; [done|].
    split; [|by exists b0]. intros ->. congruence.
  - intros (Hne & b & Hb & Ho). exists b. split; [|done]. apply shut_box_lookup. exists b. split; [done|].
    destruct (open_for sid b) eqn:E0; [|done]. apply open_for_true in E0 as [_ <-], Ho as [_ <-]. done.
Qed.

Lemma represents_pop c m sid : represents c m -> represents (pop sid c) (Mail (shut_box sid (boxes m)) (layer m)).
Proof.
  intros [Hn Hs Hq Hh]. split; cbn [pop with_queues nextq store queues http boxes layer]; [|..|done].
  - unfold shut_box. by rewrite length_map.
  - intros n. by rewrite shut_box_items.
  - intros sid' n. rewrite shut_box_open, lookup_delete, <- Hq. case_decide; naive_solver.
Qed.

Lemma represents_register c m sid c' q :
  represents c m -> register sid c = (c', q) ->
  q = length (boxes m) /\ represents c' (Mail (shut_box sid (boxes m) ++ [Mailbox sid true []]) (layer m)).
Proof.
  intros [Hn Hs Hq Hh] [= <- <-]. split; [done|].
  assert (length (shut_box sid (boxes m)) = nextq c) as Hl by (unfold shut_box; by rewrite length_map).
  split; cbn [nextq store queues http boxes layer]; [by rewrite length_app, Hl; cbn; lia|..|done].
  - intros n. rewrite lookup_insert. destruct (decide (nextq c = n)) as [<-|Hne].
    + rewrite lookup_app_r, Hl, Nat.sub_diag by lia. done.
    + rewrite Hs, <- (shut_box_items sid). destruct (decide (n < nextq c)%nat).
      * by rewrite lookup_app_l by lia.
      * rewrite !lookup_ge_None_2; [done|..]; rewrite ?length_app, ?Hl; cbn; lia.
  - intros sid' n. rewrite lookup_insert. destruct (decide (sid = sid')) as [<-|Hne].
    + split.
      * intros [= <-]. eexists. rewrite lookup_app_r, Hl, Nat.sub_diag by lia. split; [done|]. by apply open_for_true.
      * intros (b & Hb & Ho). apply lookup_app_Some in Hb as [Hb|[Hge Hb]].
        -- exfalso. assert (sid <> sid /\ exists b, boxes m !! n = Some b /\ open_for sid b = true) as [? _]; [|done].
           apply shut_box_open. by exists b.
        -- apply list_lookup_singleton_Some in Hb as [Hn0 _]. f_equal. lia.
    + rewrite Hq. split.
      * intros Hb. assert (exists b, shut_box sid (boxes m) !! n = Some b /\ open_for sid' b = true) as (b & Hb' & Ho)
          by (by apply shut_box_open). exists b. split; [by apply lookup_app_l_Some|done].
      * intros (b & Hb & Ho). apply lookup_app_Some in Hb as [Hb|[_ Hb]]; [by apply (shut_box_open sid); exists b|].
        apply list_lookup_singleton_Some in Hb as [_ <-]. by apply open_for_true in Ho as [_ ?].
Qed.

Lemma represents_log c m ops : represents c m -> represents (log ops c) m.
Proof. by intros [? ? ? ?]. Qed.

Lemma represents_take c m q it its :
  represents c m -> store c !! q = Some (it :: its) ->
  exists b, boxes m !! q = Some b /\ mb_items b = it :: its /\
    represents (with_store (<[q := its]> (store c)) c) (Mail (<[q := Mailbox (mb_sid b) (mb_open b) its]> (boxes m)) (layer m)).
Proof.
  intros [Hn Hs Hq Hh] Hst. rewrite Hs in Hst. apply fmap_Some in Hst as (b & Hb & Hi). exists b. split; [done|]. split; [done|].
  assert (q < length (boxes m))%nat as Hlt by (by eapply lookup_lt_Some).
  split; cbn [with_store nextq store queues http boxes layer]; [by rewrite length_insert|..|done].
  - intros n. rewrite lookup_insert. destruct (decide (q = n)) as [<-|Hne].
    + by rewrite list_lookup_insert_eq.
    + by rewrite list_lookup_insert_ne.
  - intros sid n. rewrite Hq. destruct (decide (q = n)) as [<-|Hne].
    + rewrite list_lookup_insert_eq, Hb by done.
      split; intros (b' & [= <-] & Ho); (eexists; split; [done|]); exact Ho.
    + by rewrite list_lookup_insert_ne.
Qed.

(** Each operation is its mailbox operation. *)
Lemma client_does_mail c o c' m : represents c m -> client_does c o c' -> exists m', mail_do m o = Some m' /\ represents c' m'.
Proof.
  intros Hr Hd.
  assert (forall sid c1 q ops, register sid c = (c1, q) ->
    exists m', mail_do m (Opens sid q) = Some m' /\ represents (log ops c1) m') as Hreg.
  { intros sid c1 q ops Er. destruct (represents_register _ _ _ _ _ Hr Er) as [-> Hr1]. cbn [mail_do].
    rewrite decide_True by done. eexists. split; [done|]. by apply represents_log. }
  assert (forall sid mt p hs e c1 q, open_ c sid mt p hs e = Ok (c1, q) ->
    exists m', mail_do m (Opens sid q) = Some m' /\ represents c1 m') as Hopen.
  { intros sid mt p hs e c1 q. unfold open_. destruct (register sid c) as [c0 q0] eqn:Er. destruct (http c); [|done].
    intros [= <- <-]. by apply Hreg. }
  destruct Hd as [c ev c' Hev|c ev x Hev|c sid mt p hs e c' q Ho|c sid mt p hs c' q Ho|c sid mt p hs body c' q Ho|
    c sid p subs c' q Ho|c sid Hn|c q it its Hst|c sid g u z o|c sid|c sid code r s|c sid|c sid e|c sid it Hne|c sid op pl c' Ho|
    c host port c' Ho|c ops]; cbn [mail_do].
  - eexists. split; [done|]. by eapply represents_event.
  - eexists. split; [done|]. apply represents_left; [done|intros sid code ->; by cbn in Hev|intros code reason ft ->; by cbn in Hev].
  - by eapply Hopen.
  - by eapply Hopen.
  - unfold request_start in Ho. destruct (open_ _ _ _ _ _ _) as [[c1 q1]|] eqn:E1; [|done]. injection Ho as <- <-.
    destruct (Hopen _ _ _ _ _ _ _ E1) as (m' & Hm & Hr'). exists m'. split; [done|]. case_decide; [done|by apply represents_log].
  - unfold ws_open_start in Ho. destruct (register sid c) as [c0 q0] eqn:Er. destruct (http c); [|done].
    injection Ho as <- <-. by apply Hreg.
  - destruct (register sid c) as [c1 q] eqn:Er. destruct (represents_register _ _ _ _ _ Hr Er) as [-> Hr1].
    rewrite decide_True by (by rewrite (rep_next _ _ Hr)). by eexists.
  - destruct (represents_take _ _ _ _ _ Hr Hst) as (b & -> & -> & Hr'). rewrite decide_True by done. by eexists.
  - eexists. split; [done|]. by apply represents_pop.
  - eexists. split; [done|]. by apply represents_pop.
  - eexists. split; [done|]. by apply represents_pop, represents_log, represents_log, represents_log.
  - eexists. split; [done|]. by apply represents_pop.
  - eexists. split; [done|]. by apply represents_pop.
  - exists m. split; [done|]. destruct it as [| | |e]; try done. by destruct (Hne e).
  - exists m. split; [done|]. unfold ws_send in Ho. destruct (H3.ws_frame _ _ _); [|done]. cbn in Ho.
    destruct (http c); [|done]. injection Ho as <-. by apply represents_log.
  - exists m. split; [done|]. unfold connect_check in Ho. destruct (http c) as [h|] eqn:Eh; [|done]. injection Ho as <-.
    destruct Hr as [Hn Hs Hq Hh]. split; [done..|]. cbn. congruence.
  - exists m. split; [done|]. by apply represents_log.
Qed.

Lemma client_run_mail c os c' : client_run c os c' -> forall m, represents c m ->
  exists m', mail_all m os = Some m' /\ represents c' m'.
Proof.
  induction 1 as [c|c o c1 os c2 Hd _ IH]; intros m Hr; cbn [mail_all]; [by eexists|].
  destruct (client_does_mail _ _ _ _ Hr Hd) as (m1 & -> & Hr1). cbn. by apply IH.
Qed.
End Mailboxes.
Arguments Arrives {E} ev.
Arguments Opens {E} sid n.
Arguments Takes {E} n it.
Arguments Closes {E} sid.
Arguments Sends {E}.

Section Reach.
Context {E H : Type} (new_h3 : H) (handle_event : H -> quic_event E -> list h3_event * H).

Lemma event_ok c ev c' :
  client_ok c -> quic_event_received new_h3 handle_event c ev = Ok c' -> client_ok c'.
Proof.
  intros Hok. unfold quic_event_received.
  assert (forall es c1 c2, client_ok c1 -> on_h3s (H:=H) c1 es = Ok c2 -> client_ok c2) as Hon.
  { induction es as [|e es IH]; intros c1 c2 H1; simpl; [by intros [= <-]|].
    unfold on_h3 at 1. destruct (queues c1 !! h3_sid e) as [q|]; [|by apply IH].
    destruct (h3_items e) as [its|]; simpl; [|done]. by apply IH, put_all_ok. }
  destruct ev as [[a|]|sid' code|code reason ft|e]; cbn [negotiate mbind res_bind]; try done.
  - set (c1 := if starts_with (str "h3") a then with_http (Some new_h3) c else c).
    assert (client_ok c1) as H1 by (unfold c1; case_match; [by apply with_http_ok|done]). clearbody c1.
    destruct (http c1) as [h|]; [|by intros [= <-]]. destruct (handle_event h _) as [es h'].
    by apply Hon, with_http_ok.
  - intros [= <-]. case_match; [by apply put_ok|done].
  - intros [= <-]. by apply put_each_ok.
  - destruct (http c) as [h|]; [|by intros [= <-]]. destruct (handle_event h _) as [es h'].
    by apply Hon, with_http_ok.
Qed.

End Reach.

(** ** Upload bodies *)

Definition data_of (ops : list wire_op) : list (list Z * bool) :=
  flat_map (fun op => match op with SendData _ d e => [(d, e)] | _ => [] end) ops.

(** A reading of the unacked buffer that lets the next chunk go. *)
Definition low (r : option Z) : bool := match r with None => true | Some n => n <? UPLOAD_BUF_CAP end.

Definition count_low (bufs : list (option Z)) : nat := length (List.filter low bufs).

Lemma wait_drain_spec bufs ops rest ok :
  wait_drain bufs = (ops, rest, ok) ->
  data_of ops = [] /\ count_low bufs = ((if ok then 1 else 0) + count_low rest)%nat.
Proof.
  revert ops rest ok. induction bufs as [|[n|] bufs IH]; intros ops rest ok; simpl.
  - by intros [= <- <- <-].
  - unfold count_low. simpl. destruct (Z.leb_spec UPLOAD_BUF_CAP n).
    + destruct (wait_drain bufs) as [[ops' rest'] ok'] eqn:Ew. intros [= <- <- <-].
      rewrite (proj2 (Z.ltb_ge _ _)) by done. destruct (IH _ _ _ eq_refl) as [Hd Hc]. done.
    + intros [= <- <- <-]. by rewrite (proj2 (Z.ltb_lt _ _)) by done.
  - by intros [= <- <- <-].
Qed.

Lemma upload_chunks_spec sid chunks bufs ops ok :
  upload_chunks sid chunks bufs = (ops, ok) ->
  (if ok then data_of ops = map (fun d => (d, false)) chunks ++ [([], true)]
   else exists sent unsent, chunks = sent ++ unsent /\ data_of ops = map (fun d => (d, false)) sent) /\
  (length (List.filter (fun de => negb de.2) (data_of ops)) <= S (count_low bufs))%nat.
Proof.
  revert bufs ops ok. induction chunks as [|ch chunks IH]; intros bufs ops ok; cbn [upload_chunks].
  - intros [= <- <-]. simpl. split; [done|lia].
  - destruct (wait_drain bufs) as [[ops1 bufs'] ok1] eqn:Ew.
    destruct (wait_drain_spec _ _ _ _ Ew) as [Hd Hc]. destruct ok1.
    + destruct (upload_chunks sid chunks bufs') as [ops2 ok2] eqn:Eu. intros [= <- <-].
      destruct (IH _ _ _ Eu) as [H1 H2].
      assert (data_of (SendData sid ch false :: Transmit :: ops1 ++ ops2) = (ch, false) :: data_of ops2) as ->.
      { unfold data_of in *. simpl. rewrite flat_map_app, Hd. done. }
      split; [|simpl; lia]. destruct ok2; [by rewrite H1|].
      destruct H1 as (sent & unsent & -> & ->). by exists (ch :: sent), unsent.
    + intros [= <- <-].
      assert (data_of (SendData sid ch false :: Transmit :: ops1) = [(ch, false)]) as ->.
      { unfold data_of in *. simpl. by rewrite Hd. }
      split; [|simpl; lia]. by exists [ch], chunks.
Qed.

(** ** Receiving from a tunnel *)

Lemma parse_ws_whole f :
  Rfc.wf_frame f -> wf_bytes f.2 -> H3.parse_ws (Rfc.server_frame f) = Ok ([f], len (Rfc.server_frame f)).
Proof.
  intros Hf Hp.
  assert (E := parse_server_frames [f] [] (Forall_cons_2 _ _ _ (conj Hf Hp) (Forall_nil_2 _)) (Forall_nil_2 _)).
  cbn [map concat] in E. rewrite !app_nil_r in E. rewrite E.
  change (H3.parse_ws []) with (Ok ([] : list frame, 0)). cbn [prepend app]. by rewrite Z.add_0_r.
Qed.

Lemma parse_ws_partial f k :
  Rfc.wf_frame f -> wf_bytes f.2 -> (k < length (Rfc.server_frame f))%nat ->
  H3.parse_ws (take k (Rfc.server_frame f)) = Ok ([], 0).
Proof.
  intros Hf Hp Hk. unfold H3.parse_ws.
  rewrite (parse_buf_unfold H3.ext) by (by apply Forall_take, wf_server_frame).
  by rewrite parse_step_partial.
Qed.

Lemma recv_wait_frame f ds buf rest :
  Rfc.wf_frame f -> wf_bytes f.2 -> Forall (fun d => d <> []) ds -> ds <> [] ->
  buf ++ concat ds = Rfc.server_frame f ->
  recv_wait buf (map IData ds ++ rest) = Received f [] rest.
Proof.
  intros Hf Hp Hne. revert buf. induction Hne as [|d ds Hd Hne IH]; intros buf Hds E; [done|].
  cbn [map app recv_wait]. destruct ds as [|d' ds].
  - simpl in E. rewrite app_nil_r in E. rewrite E, parse_ws_whole by done.
    unfold len. rewrite Nat2Z.id, drop_all. done.
  - assert (buf ++ d = take (length (buf ++ d)) (Rfc.server_frame f)) as Et.
    { rewrite <- E. cbn [concat]. rewrite app_assoc, take_app_length. done. }
    assert (length (buf ++ d) < length (Rfc.server_frame f))%nat as Hlt.
    { rewrite <- E. inversion Hne as [|? ? Hd' _]; subst. destruct d'; [done|].
      rewrite !length_app. simpl. rewrite !length_app. simpl. lia. }
    rewrite Et, parse_ws_partial, <- Et by done. apply IH; [done|].
    rewrite <- E. simpl. by rewrite <- app_assoc.
Qed.

Lemma recv_first f fs buf items :
  Forall (fun f => Rfc.wf_frame f /\ wf_bytes f.2) (f :: fs) ->
  buf = concat (map Rfc.server_frame (f :: fs)) -> recv buf items = Received f [] items.
Proof.
  intros Hfs ->. unfold recv. rewrite <- (app_nil_r (concat _)).
  rewrite parse_server_frames by (try done; constructor).
  change (H3.parse_ws []) with (Ok ([] : list frame, 0)). cbn [prepend app].
  rewrite Z.add_0_r, (app_nil_r (concat _)). unfold len. by rewrite Nat2Z.id, drop_all.
Qed.

(** ** Properties *)

(** A concrete HTTP/3 layer for the examples: a QUIC event carries the HTTP/3
    events it decodes to. *)
Definition demo_handle (h : unit) (ev : quic_event (list h3_event)) : list h3_event * unit :=
  match ev with OtherEvent es => (es, h) | _ => ([], h) end.

Definition demo_client : client (H:=unit) := Client (Some tt) ∅ ∅ 0 (str "server:8443") [].

Definition demo_reply : list (quic_event (list h3_event)) :=
  [OtherEvent [HeadersReceived 4 [(str ":status", str "200"); (str "content-type", str "text/plain")] false];
   OtherEvent [DataReceived 8 [1] true; DataReceived 4 (str "Hello, ") false];
   OtherEvent [DataReceived 4 (str "World!") true]].

Definition demo_opened : client (H:=unit) :=
  match open_ (with_http (Some tt) init_client) 4 (str "GET") (str "/plaintext") [] true with
  | Ok (c, _) => c
  | Raise _ => init_client
  end.

(** C13: the demultiplexer is its mailboxes.  Take any run of the module from a new
    client: events that arrive (handlers that raise included), streams opened by
    [request], [stream], [upload] and [ws_open], items taken by their readers,
    cleanups and aborts.  The mailboxes can do exactly the same operations, with
    the same handles and the same items taken; and after them every queue object
    holds the items its mailbox holds, and a stream is registered, with that
    queue, exactly while its mailbox is open. *)
Theorem client_is_mailboxes {E H} (new_h3 : H) (handle_event : H -> quic_event E -> list h3_event * H) os c :
  client_run new_h3 handle_event init_client os c ->
  exists m, mail_all new_h3 handle_event (Mail [] None) os = Some m /\
    (forall n, store c !! n = mb_items <$> boxes m !! n) /\
    (forall sid n, queues c !! sid = Some n <->
       exists b, boxes m !! n = Some b /\ mb_open b = true /\ mb_sid b = sid) /\
    http c = layer m.
Proof.
  intros Hrun. assert (represents (init_client (H:=H)) (Mail [] None)) as Hi.
  { split; [done|done| |done]. intros sid n. cbn. rewrite lookup_empty. split; [done|]. by intros (b & ? & _). }
  destruct (client_run_mail _ _ _ _ _ Hrun _ Hi) as (m & Hm & [Hn Hs Hq Hh]). exists m. split; [done|]. split; [done|].
  split; [|done]. intros sid n. rewrite Hq. by setoid_rewrite open_for_true.
Qed.

(** Two streams; data for both, one of them reset, cleaned up and written to again. *)
Definition demo_ops : list (mail_op (E:=list h3_event)) :=
  [Arrives (ProtocolNegotiated (Some (str "h3"))); Opens 4 0; Opens 8 1;
   Arrives (OtherEvent [DataReceived 8 [7] false; DataReceived 4 [1; 2] false; DataReceived 8 [9] false]);
   Takes 1 (IData [7]); Arrives (StreamReset 8 268); Closes 8; Arrives (OtherEvent [DataReceived 8 [3] true; DataReceived 4 [5] true])].

Lemma client_is_mailboxes_witness :
  exists c, client_run tt demo_handle init_client demo_ops c /\
    store c !! 0%nat = Some [IData [1; 2]; IData [5]; IEnd] /\
    store c !! 1%nat = Some [IData [9]; reset_item 268] /\ queues c !! 8 = None.
Proof.
  eexists. match goal with |- ?R /\ _ => assert R as Hr end.
  { eapply run_cons; [apply does_event; reflexivity|].
    eapply run_cons; [eapply (does_open _ _ _ 4 (str "GET") (str "/plaintext") [] true); vm_compute; reflexivity|].
    eapply run_cons; [eapply (does_open _ _ _ 8 (str "GET") (str "/sse") [] true); vm_compute; reflexivity|].
    eapply run_cons; [apply does_event; vm_compute; reflexivity|].
    eapply run_cons; [apply does_get; vm_compute; reflexivity|].
    eapply run_cons; [apply does_event; vm_compute; reflexivity|].
    eapply run_cons; [apply does_finally|].
    eapply run_cons; [apply does_event; vm_compute; reflexivity|]. apply run_nil. }
  split; [exact Hr|]. destruct (client_is_mailboxes _ _ _ _ Hr) as (m & Hm & Hs & Hq & _).
  rewrite !Hs. vm_compute in Hm. injection Hm as <-. split; [reflexivity|]. split; [vm_compute; reflexivity|].
  apply eq_None_not_Some. intros [n Hn]. apply Hq in Hn as (b & Hb & Ho & Hsid).
  destruct n as [|[|n]]; cbn in Hb; simplify_eq.
Defined.

(** C12: a request gets its own reply whatever the interleaving.  After
    [request_start] on a connected client, run the packet handler, the reader
    and the other coroutines in any order while events arrive that mean, for
    this stream, headers, data chunks and an end.  Then the reader has either
    returned exactly that status, encoding, type and the chunks' concatenation
    (and [request_finish] unregisters the stream and returns the decoded body),
    or it is still waiting with an item in its queue to read. *)
Theorem request_any_schedule {E H} (new_h3 h : H) (handle_event : H -> quic_event E -> list h3_event * H)
  (gunzip unbrotli unzstd : list Z -> res (list Z)) c sid method path headers content :
  client_ok c -> http c = Some h ->
  exists c1 q, request_start c sid method path headers content = Ok (c1, q) /\
    forall evs c2 p2 st enc ct ds,
      sched new_h3 handle_event request_item sid q evs (c1, Waiting request_init) (c2, p2) ->
      item_stream new_h3 handle_event sid (Some h) evs = Ok (IHeaders st enc ct :: map IData ds ++ [IEnd]) ->
      (p2 = Done (Ok (Response st enc ct (concat ds))) /\
       let '(c3, r) := request_finish gunzip unbrotli unzstd c2 sid (Ok (Response st enc ct (concat ds))) in
       queues c3 !! sid = None /\
       r = (body ← decode_body gunzip unbrotli unzstd (concat ds) enc; Ok (st, ct, body))) \/
      ((exists s, p2 = Waiting s) /\ exists it rest, store c2 !! q = Some (it :: rest)).
Proof.
  intros Hok Hh. unfold request_start, open_. destruct (register sid c) as [c0 q] eqn:Er. rewrite Hh.
  eexists _, q. split; [done|]. intros evs c2 p2 st enc ct ds Hs Hi.
  assert (view (if decide (content = []) then log [SendHeaders sid
            (open_headers c method path (content_headers headers content)) (bool_decide (content = [])); Transmit] c0
          else log [SendData sid content true; Transmit] (log [SendHeaders sid
            (open_headers c method path (content_headers headers content)) (bool_decide (content = [])); Transmit] c0))
          sid q [] (Some h)) as Hv.
  { assert (Hv := register_view c sid c0 q (Some h) Hok Hh Er). case_decide; by repeat apply log_view. }
  destruct (sched_outcome _ _ _ _ _ _ _ _ _ _ _ _ Hv Hs) as (its & Ei & Hq & [->|Hw]); [|by right].
  left. assert (its = IHeaders st enc ct :: map IData ds ++ [IEnd]) as -> by congruence. rewrite app_nil_l, request_reads.
  split; [done|]. simpl. rewrite lookup_delete_eq. done.
Qed.

Definition demo_started : client (H:=unit) * nat :=
  match request_start demo_client 4 (str "GET") (str "/plaintext") [] [] with
  | Ok cq => cq
  | Raise _ => (demo_client, 0%nat)
  end.

Definition demo_read (n : nat) : client (H:=unit) * progress response (res response) :=
  let c := match receive_all tt demo_handle demo_started.1 demo_reply with Ok c => c | Raise _ => demo_client end in
  let its := default [] (store c !! demo_started.2) in
  (with_store (<[demo_started.2 := drop n its]> (store c)) c,
   feed_all request_item (take n its) (Waiting request_init)).

Lemma demo_client_ok : client_ok demo_client.
Proof. split; simpl; intros *; rewrite ?lookup_empty; [done|done|]. split; [by intros [? ?]|lia]. Qed.

Lemma request_any_schedule_witness :
  exists c1 q c2 p2, request_start demo_client 4 (str "GET") (str "/plaintext") [] [] = Ok (c1, q) /\
    sched tt demo_handle request_item 4 q demo_reply (c1, Waiting request_init) (c2, p2) /\
    ((p2 = Done (Ok (Response 200 None (str "text/plain") (concat [str "Hello, "; str "World!"]))) /\
      let '(c3, r) := request_finish Ok Ok Ok c2 4
            (Ok (Response 200 None (str "text/plain") (concat [str "Hello, "; str "World!"]))) in
      queues c3 !! 4 = None /\
      r = (body ← decode_body Ok Ok Ok (concat [str "Hello, "; str "World!"]) None;
           Ok (200, str "text/plain", body))) \/
     ((exists s, p2 = Waiting s) /\ exists it rest, store c2 !! q = Some (it :: rest))).
Proof.
  destruct (request_any_schedule tt tt demo_handle Ok Ok Ok demo_client 4 (str "GET") (str "/plaintext") [] []
              demo_client_ok eq_refl) as (c1 & q & Es & Hall).
  exists c1, q. vm_compute in Es. injection Es as <- <-.
  exists (fst (demo_read 4)), (snd (demo_read 4)).
  match goal with |- _ /\ ?S /\ _ => assert S as Hs end.
  { eapply sched_event; [vm_compute; reflexivity|]. eapply sched_get; [vm_compute; reflexivity|].
    eapply sched_event; [vm_compute; reflexivity|]. eapply sched_event; [vm_compute; reflexivity|].
    eapply sched_get; [vm_compute; reflexivity|]. eapply sched_get; [vm_compute; reflexivity|].
    eapply sched_get; [vm_compute; reflexivity|].
    match goal with |- sched _ _ _ _ _ [] ?x ?y => replace y with x; [constructor|] end.
    vm_compute. reflexivity. }
  split; [vm_compute; reflexivity|]. split; [exact Hs|].
  apply (Hall demo_reply _ _ 200 None (str "text/plain") [str "Hello, "; str "World!"] Hs).
  vm_compute. reflexivity.
Defined.

(** C14: no reader is left hanging by a dead stream.  For each of the four reply
    loops (request, stream, upload, ws_open), under any schedule: once a reset
    of the stream or the end of the connection is among the events that
    arrived, the reader has left its loop or has an item to read. *)
Theorem readers_never_hang {E H S O} (new_h3 : H) (handle_event : H -> quic_event E -> list h3_event * H)
  (on_item : S -> item -> S + O) `{!StopsOnTerminal on_item} c sid q h evs p c' p' :
  view c sid q [] h -> sched new_h3 handle_event on_item sid q evs (c, p) (c', p') ->
  Exists (ends_stream sid) evs ->
  (exists o, p' = Done o) \/ exists it rest, store c' !! q = Some (it :: rest).
Proof.
  intros Hv Hs Hx. destruct (sched_outcome _ _ _ _ _ _ _ _ _ _ _ _ Hv Hs) as (its & Ei & _ & Hor).
  destruct Hor as [-> | Hw]; [|right; exact (proj2 Hw)]. left. apply feed_all_terminal; [done|]. simpl. by eapply item_stream_terminal.
Qed.

Lemma demo_opened_view : view demo_opened 4 0%nat [] (Some tt).
Proof.
  destruct (register 4 (with_http (Some tt) (init_client (H:=unit)))) as [c q] eqn:E.
  assert (Hv := register_view _ 4 c q (Some tt) (with_http_ok _ (Some tt) init_ok) eq_refl E).
  apply (log_view _ [SendHeaders 4 (open_headers (with_http (Some tt) init_client) (str "GET") (str "/plaintext") []) true;
                     Transmit]) in Hv.
  injection E as <- <-. exact Hv.
Qed.

Lemma readers_never_hang_witness :
  exists c', sched tt demo_handle stream_item 4 0%nat [StreamReset 4 268] (demo_opened, Waiting [])
               (c', Waiting []) /\
    ((exists o, Waiting (O := list yielded * res unit) (@nil yielded) = Done o) \/
     exists it rest, store c' !! 0%nat = Some (it :: rest)).
Proof.
  eexists. assert (sched tt demo_handle stream_item 4 0%nat [StreamReset 4 268] (demo_opened, Waiting [])
    (put 0%nat (reset_item 268) demo_opened, Waiting [])) as Hs.
  { eapply sched_event; [reflexivity|]. apply sched_done. }
  split; [exact Hs|].
  apply (readers_never_hang tt demo_handle stream_item demo_opened 4 0%nat (Some tt) [StreamReset 4 268]
           (Waiting []) _ _ demo_opened_view Hs).
  left. reflexivity.
Defined.

(** C29: cleanup is final.  After the [finally] of [stream]/[upload], after
    [request]'s end and after [abort_stream], the stream is unregistered, and no
    later event changes the queue it had. *)
Theorem popped_queue_is_left_alone {E H} (new_h3 : H) (handle_event : H -> quic_event E -> list h3_event * H)
  (c c' : client (H:=H)) sid q evs (gunzip unbrotli unzstd : list Z -> res (list Z)) o code r s :
  client_ok c -> queues c !! sid = Some q ->
  c' = stream_finally c sid \/ c' = fst (request_finish gunzip unbrotli unzstd c sid o) \/
  c' = abort_stream c sid code r s ->
  queues c' !! sid = None /\
  forall c'', receive_all new_h3 handle_event c' evs = Ok c'' -> store c'' !! q = store c' !! q.
Proof.
  intros Hok Hq Hc'.
  assert (client_ok c' /\ queues c' = delete sid (queues c)) as [Hok' Hqs].
  { destruct Hc' as [-> | [-> | ->]]; (split; [|done]); simpl; repeat (apply pop_ok || apply log_ok); done. }
  split; [by rewrite Hqs, lookup_delete_eq|].
  assert (forall sid', queues c' !! sid' <> Some q) as Hno.
  { intros sid'. rewrite Hqs, lookup_delete. case_decide; [done|]. intros Hs. by eapply queues_inj in Hs. }
  clear Hqs Hc'. revert c' Hok' Hno.
  induction evs as [|ev evs IH]; intros c1 Hok1 Hno c2; simpl; [by intros [= <-]|].
  destruct (quic_event_received new_h3 handle_event c1 ev) as [c3|] eqn:E3; simpl; [|done]. intros Hr.
  destruct (event_unregistered _ _ _ _ _ _ Hok1 Hno E3) as [Es Eq].
  rewrite <- Es. apply (IH c3); [by eapply event_ok|by rewrite Eq|done].
Qed.

Lemma popped_queue_is_left_alone_witness :
  queues (stream_finally demo_opened 4) !! 4 = None /\
  forall c'', receive_all tt demo_handle (stream_finally demo_opened 4)
                [OtherEvent [DataReceived 4 [1; 2] false]; StreamReset 4 0] = Ok c'' ->
              store c'' !! 0%nat = store (stream_finally demo_opened 4) !! 0%nat.
Proof.
  apply (popped_queue_is_left_alone tt demo_handle demo_opened (stream_finally demo_opened 4) 4 0%nat _
           Ok Ok Ok (Ok request_init) 0 false None).
  - apply demo_opened_view.
  - apply demo_opened_view.
  - by left.
Defined.

(** C30: the body of an upload goes out complete and in order, closed by one
    empty end-of-stream write; stopped early (aioquic's buffer never drains) it
    is a prefix; and every chunk after the first waits for a reading of the
    unacked buffer below the cap. *)
Theorem upload_sends_body sid chunks bufs :
  let '(ops, ok) := upload_chunks sid chunks bufs in
  (if ok then data_of ops = map (fun d => (d, false)) chunks ++ [([], true)]
   else exists sent unsent, chunks = sent ++ unsent /\ data_of ops = map (fun d => (d, false)) sent) /\
  (length (List.filter (fun de => negb de.2) (data_of ops)) <= S (count_low bufs))%nat.
Proof. destruct (upload_chunks sid chunks bufs) as [ops ok] eqn:E. by eapply upload_chunks_spec. Qed.

(** C31: [recv] returns a frame however the server's bytes are cut: if the
    queued DATA items add up to one server frame (each non-empty, as [_on_h3]
    queues them), [recv] on an empty buffer returns it, leaves the buffer empty
    and the later items queued. *)
Theorem recv_reassembles f ds rest :
  Rfc.wf_frame f -> wf_bytes f.2 -> Forall (fun d => d <> []) ds ->
  concat ds = Rfc.server_frame f ->
  recv [] (map IData ds ++ rest) = Received f [] rest.
Proof.
  intros Hf Hp Hne E. unfold recv. change (H3.parse_ws []) with (Ok ([] : list frame, 0)). cbv iota beta.
  apply recv_wait_frame; [done|done|done| |done]. by intros ->.
Qed.

Lemma recv_reassembles_witness :
  recv [] (map IData [[129]; [2; 104]; [105]] ++ [IData [137; 0]]) = Received (1, [104; 105]) [] [IData [137; 0]].
Proof.
  apply recv_reassembles.
  - vm_compute. repeat split; intros; done.
  - repeat constructor; intros ?; done.
  - repeat constructor; done.
  - reflexivity.
Defined.

(** When several frames have arrived together, [recv] returns the first and
    discards the others: the buffer is empty afterwards, so the next [recv]
    waits although its frame was received. *)
Theorem recv_discards_later_frames f g fs :
  Forall (fun f => Rfc.wf_frame f /\ wf_bytes f.2) (f :: g :: fs) ->
  recv (concat (map Rfc.server_frame (f :: g :: fs))) [] = Received f [] [] /\ recv [] [] = Blocked [].
Proof. intros Hfs. split; [|reflexivity]. by apply (recv_first f (g :: fs)). Qed.

Lemma recv_discards_later_frames_witness :
  recv (concat (map Rfc.server_frame [(1, [65]); (1, [66])])) [] = Received (1, [65]) [] [] /\
  recv [] [] = Blocked [].
Proof.
  apply recv_discards_later_frames.
  repeat constructor; vm_compute; intros ?; done.
Defined.

(** A [ws_open] whose CONNECT stream ends before its headers raises
    [ConnectionError] with the stream's queue still registered, while the one
    whose stream is reset unregisters it. *)
Theorem ws_open_end_keeps_queue {H} (c c1 : client (H:=H)) sid path subs q :
  client_ok c -> ws_open_start c sid path subs = Ok (c1, q) ->
  feed ws_open_item (Waiting tt) IEnd = Done (Raise (ConnectionError (str "ws CONNECT stream ended"))) /\
  queues (ws_open_finish c1 sid IEnd) !! sid = Some q /\
  forall m, queues (ws_open_finish c1 sid (IErr m)) !! sid = None.
Proof.
  intros Hok. unfold ws_open_start. destruct (register sid c) as [c0 q0] eqn:Er.
  destruct (http c); [|done]. intros [= <- <-]. injection Er as <- <-. simpl.
  split; [done|]. rewrite lookup_insert_eq. split; [done|]. intros m. by rewrite lookup_delete_eq.
Qed.

Lemma ws_open_end_keeps_queue_witness :
  exists c1 q, ws_open_start demo_client 0 (str "/ws") [] = Ok (c1, q) /\
    feed ws_open_item (Waiting tt) IEnd = Done (Raise (ConnectionError (str "ws CONNECT stream ended"))) /\
    queues (ws_open_finish c1 0 IEnd) !! 0 = Some q /\
    forall m, queues (ws_open_finish c1 0 (IErr m)) !! 0 = None.
Proof.
  eexists _, _. split; [reflexivity|].
  eapply (ws_open_end_keeps_queue demo_client _ 0 (str "/ws") []); [apply demo_client_ok|reflexivity].
Defined.
