(* ===== verification/Transport.v ===== *)
(** * The transport layer of the stress clients

    [conformance/stress/client/transport.py]: the [VORTEX_*] configuration, the
    byte accounting, the deterministic body and its checksum, request
    compression, the protocol pin of the httpx session and the [/stats] sample.

    hashlib, the codecs and httpx's replies are parameters; [read_config] takes
    the process environment and [int] on a non-ASCII text. *)
From S2P Require Import Prelude H3Client.
#[local] Open Scope Z_scope.

(** ** Configuration *)

Record config := Config {
  WORKLOAD : list Z; PROTO : list Z; SERVER : list Z; BASE : list Z;
  SECONDS : Z; CLIENTS : Z; CONC : Z; STREAM : Z; REPORT : Z;
  REQ_COMP : list Z; RESP_COMP : list Z }.

Definition CHUNK : Z := 64 * 1024.
Definition MB : Z := 1024 * 1024.
Definition IS_H3 (cfg : config) : bool := bool_decide (PROTO cfg = str "h3").
Definition IS_MIXED (cfg : config) : bool := bool_decide (WORKLOAD cfg = str "mixed").

Definition UNITS : list (list Z * list Z) :=
  [(str "requests", str "requests"); (str "methods", str "requests"); (str "ws", str "messages");
   (str "sse", str "events"); (str "streamupload", str "transfers");
   (str "streamdownload", str "transfers"); (str "mixed", str "ops")].
Definition UNIT (cfg : config) : list Z := default (str "ok") (aget UNITS (WORKLOAD cfg)).
Definition STREAMING (cfg : config) : bool :=
  bool_decide (WORKLOAD cfg = str "streamupload" \/ WORKLOAD cfg = str "streamdownload").

(** [os.environ.get(name, default)], the module's assignments in their order. *)
Definition getenv (environ : list (list Z * list Z)) (name dflt : list Z) : list Z :=
  default dflt (aget environ name).

Definition read_config (int_uni : list Z -> res Z) (environ : list (list Z * list Z)) : res config :=
  let get := getenv environ in
  let get_int name dflt := int_str int_uni (get name dflt) in
  base ← match aget environ (str "STRESS_BASE") with
         | None => Raise (OtherException (str "KeyError") (str "'STRESS_BASE'"))
         | Some b => Ok (rstrip_with (fun c => c =? 47) b)
         end;
  seconds ← get_int (str "VORTEX_SECONDS") (str "60");
  clients ← get_int (str "VORTEX_CLIENTS") (str "3");
  conc ← get_int (str "VORTEX_CONCURRENCY") (str "32");
  stream ← get_int (str "VORTEX_STREAM_BYTES") (dec (Z.shiftl 1 30));
  report ← get_int (str "VORTEX_REPORT_SECONDS") (str "60");
  Ok (Config (get (str "VORTEX_WORKLOAD") (str "requests")) (get (str "VORTEX_PROTO") (str "h2"))
             (get (str "STRESS_SERVER") (str "sync")) base seconds clients conc stream report
             (get (str "VORTEX_REQ_COMPRESSION") (str "gzip"))
             (get (str "VORTEX_RESP_COMPRESSION") (str "gzip"))).

(** ** Bytes on the wire *)

(** [xfer] and [xfer_by]. *)
Record xfers := Xfers { xfer : Z; xfer_by : counter (list Z) }.

(** [tag] is [xfer_tag[0]()]: [None] unless the run is [mixed]. *)
Definition add_xfer (tag : option (list Z)) (n : Z) (x : xfers) : xfers :=
  Xfers (xfer x + n) (match tag with Some t => count_add t n (xfer_by x) | None => xfer_by x end).

(** ** The deterministic body: byte [i] is [i mod 256] *)

Definition PAT : list Z := seqZ 0 256.

Definition gen_chunk (start n : Z) : list Z :=
  let s := start mod 256 in
  let rot := drop (Z.to_nat s) PAT ++ take (Z.to_nat s) PAT in
  let reps := n / 256 + 1 in
  take (Z.to_nat n) (concat (repeat rot (Z.to_nat reps))).

Section Body.
Context (cfg : config).

(** The generator [body_gen]: not started, suspended at its [yield], finished. *)
Inductive body_state := BodyFresh | BodyAt (off n : Z) | BodyDone.

Definition body_yield (off : Z) : option (list Z) * body_state :=
  if off <? STREAM cfg
  then let n := Z.min CHUNK (STREAM cfg - off) in (Some (gen_chunk off n), BodyAt off n)
  else (None, BodyDone).

(** One [__anext__]: the code between two [yield]s counts the bytes of the
    chunk it comes back from, except over h3. *)
Definition body_resume (tag : option (list Z)) (st : body_state) (x : xfers)
  : option (list Z) * body_state * xfers :=
  match st with
  | BodyFresh => (body_yield 0, x)
  | BodyAt off n => (body_yield (off + n), if IS_H3 cfg then x else add_xfer tag n x)
  | BodyDone => (None, BodyDone, x)
  end.

(** The chunks of the next [k] calls. *)
Fixpoint body_pull (tag : option (list Z)) (k : nat) (st : body_state) (x : xfers)
  : list (list Z) * body_state * xfers :=
  match k with
  | O => ([], st, x)
  | S k' =>
      let '(o, st1, x1) := body_resume tag st x in
      let '(cs, st2, x2) := body_pull tag k' st1 x1 in
      (match o with Some c => c :: cs | None => cs end, st2, x2)
  end.
End Body.

(** ** Checksums *)

(** What the clients use of a [hashlib] object: [update] accumulates, so the
    digest depends only on the concatenation of the updates. *)
Class Sha1 (D : Type) := {
  sha_init : D;
  sha_update : D -> list Z -> D;
  sha_hexdigest : D -> list Z }.

Class Sha1Laws D `{!Sha1 D} : Prop := {
  sha_update_app h a b : sha_update (sha_update h a) b = sha_update h (a ++ b);
  sha_update_nil h : sha_update h [] = h }.

Section Checksum.
Context {D : Type} `{!Sha1 D}.

(** [expected_sha1]'s loop from offset [off]; [STREAM / CHUNK + 1] rounds are
    enough. *)
Fixpoint sha1_loop (cfg : config) (fuel : nat) (off : Z) (h : D) : D :=
  match fuel with
  | O => h
  | S f =>
      if off <? STREAM cfg
      then let n := Z.min CHUNK (STREAM cfg - off) in
           sha1_loop cfg f (off + n) (sha_update h (gen_chunk off n))
      else h
  end.

Definition expected_sha1 (cfg : config) : list Z :=
  sha_hexdigest (sha1_loop cfg (Z.to_nat (STREAM cfg / CHUNK + 1)) 0 sha_init).
End Checksum.

(** ** Request compression *)

Section Compression.
Context (gzip brotli zstd : list Z -> list Z).

Definition compress (cfg : config) (raw : list Z) : res (list Z * option (list Z)) :=
  if decide (REQ_COMP cfg = [] \/ REQ_COMP cfg = str "none") then Ok (raw, None)
  else if decide (REQ_COMP cfg = str "gzip") then Ok (gzip raw, Some (str "gzip"))
  else if decide (REQ_COMP cfg = str "br") then Ok (brotli raw, Some (str "br"))
  else if decide (REQ_COMP cfg = str "zstd") then Ok (zstd raw, Some (str "zstd"))
  else Raise (SystemExitMsg (str "unknown VORTEX_REQ_COMPRESSION: " ++ REQ_COMP cfg)).
End Compression.

Definition ACCEPT (cfg : config) : option (list Z) :=
  if decide (RESP_COMP cfg = [] \/ RESP_COMP cfg = str "none") then None else Some (RESP_COMP cfg).

(** ** The httpx session *)

Definition PIN_VERSION : list (list Z * list Z) :=
  [(str "h1", str "HTTP/1.1"); (str "h2", str "HTTP/2")].

Definition pin_check (cfg : config) (http_version : list Z) : res unit :=
  match aget PIN_VERSION (PROTO cfg) with
  | Some want =>
      if decide (http_version <> want)
      then Raise (ProtocolPinError (str "negotiated " ++ http_version ++ str ", want " ++ want
                    ++ str " (VORTEX_PROTO=" ++ PROTO cfg ++ str "); no fallback allowed"))
      else Ok tt
  | None => Ok tt
  end.

(** An [httpx.Response] as the session reads it. *)
Record httpx_response := HttpxResponse {
  http_version : list Z; status_code : Z; content_type : option (list Z); content : list Z }.

(** [HttpxSession.get] and [.request] once httpx has answered, and [.upload]. *)
Definition httpx_reply (cfg : config) (r : httpx_response) : res (Z * list Z * list Z) :=
  _ ← pin_check cfg (http_version r);
  Ok (status_code r, default [] (content_type r), content r).

Definition httpx_upload (cfg : config) (r : httpx_response) : res Z :=
  _ ← pin_check cfg (http_version r);
  Ok (status_code r).

(** [HttpxSession.stream]: what the generator yields for a reply whose decoded
    body arrives as [chunks]. *)
Definition httpx_stream (cfg : config) (r : httpx_response) (chunks : list (list Z)) : res (list yielded) :=
  _ ← pin_check cfg (http_version r);
  Ok (YStatus (status_code r) :: map YChunk chunks).

(** ** [get_server_stats]: from the [/stats] reply *)

Definition index (parts : list (list Z)) (i : nat) : res (list Z) :=
  match parts !! i with
  | Some p => Ok p
  | None => Raise (IndexError (str "list index out of range"))
  end.

Definition get_server_stats (reply : Z * list Z * list Z) : res (Z * Z * option Z) :=
  let '(st, _ct, body) := reply in
  if decide (st <> 200) then Raise (RuntimeError (str "/stats -> " ++ dec st))
  else
    let parts := bsplit body in
    p0 ← index parts 0; rss ← int_bytes p0;
    p1 ← index parts 1; heap ← int_bytes p1;
    if 2 <? len parts
    then p2 ← index parts 2; fds ← int_bytes p2; Ok (rss, heap, Some fds)
    else Ok (rss, heap, None).

(** ** The body stream *)

(** [n] bytes of the stream from offset [start]. *)
Definition pattern (start n : Z) : list Z := map (fun i => (start + i) mod 256) (seqZ 0 n).

Lemma pattern_app start n m :
  0 <= n -> 0 <= m -> pattern start n ++ pattern (start + n) m = pattern start (n + m).
Proof.
  intros. unfold pattern. rewrite seqZ_app by lia. rewrite map_app. f_equal.
  rewrite (Z.add_comm 0 n), <- fmap_add_seqZ.
  change (map ?f (?g <$> ?l)) with (map f (map g l)). rewrite map_map. apply map_ext. intros. f_equal. lia.
Qed.

Lemma pattern_mod start n : pattern (start mod 256) n = pattern start n.
Proof. unfold pattern. apply map_ext. intros i. by rewrite Zplus_mod_idemp_l. Qed.

Lemma pattern_shift start n : pattern (start + 256) n = pattern start n.
Proof. rewrite <- pattern_mod, <- (pattern_mod start). f_equal. rewrite <- (Z_mod_plus_full start 1). f_equal. Qed.

Lemma len_pattern start n : 0 <= n -> len (pattern start n) = n.
Proof. intros. unfold pattern. rewrite len_map. unfold len. rewrite length_seqZ. lia. Qed.

(** The rotated table is one period. *)
Lemma rot_pattern s : 0 <= s < 256 -> drop (Z.to_nat s) PAT ++ take (Z.to_nat s) PAT = pattern s 256.
Proof.
  set (P s := drop (Z.to_nat s) PAT ++ take (Z.to_nat s) PAT = pattern s 256). intros Hs.
  assert (forallb (fun s => bool_decide (P s)) (seqZ 0 256) = true) as E by (vm_compute; reflexivity).
  rewrite forallb_forall in E. apply (bool_decide_eq_true_1 (P s)), E, list_elem_of_In, elem_of_seqZ. lia.
Qed.

Lemma concat_periods s k : concat (repeat (pattern s 256) k) = pattern s (256 * Z.of_nat k).
Proof.
  induction k as [|k IH]; [done|]. cbn [repeat concat]. rewrite IH.
  rewrite <- (pattern_shift s (256 * Z.of_nat k)), pattern_app by lia. f_equal. lia.
Qed.

Lemma take_pattern start n m : 0 <= m <= n -> take (Z.to_nat m) (pattern start n) = pattern start m.
Proof.
  intros. replace n with (m + (n - m)) by lia. rewrite <- pattern_app by lia.
  rewrite take_app_le, take_ge; [done|..]; unfold pattern; rewrite length_map, length_seqZ; lia.
Qed.

(** [gen_chunk] produces byte [(start + i) mod 256] at position [i]. *)
Lemma gen_chunk_pattern start n : 0 <= n -> gen_chunk start n = pattern start n.
Proof.
  intros Hn. unfold gen_chunk. assert (Hm := Z.mod_pos_bound start 256 ltac:(lia)).
  rewrite rot_pattern, concat_periods by done.
  assert (Hd := Z.div_mod n 256 ltac:(lia)). assert (Hr := Z.mod_pos_bound n 256 ltac:(lia)).
  assert (0 <= n / 256) by (apply Z.div_pos; lia).
  rewrite take_pattern by lia. apply pattern_mod.
Qed.

Lemma len_gen_chunk start n : 0 <= n -> len (gen_chunk start n) = n.
Proof. intros. by rewrite gen_chunk_pattern, len_pattern. Qed.

Lemma gen_chunk_app start n m :
  0 <= n -> 0 <= m -> gen_chunk start n ++ gen_chunk (start + n) m = gen_chunk start (n + m).
Proof. intros. rewrite !gen_chunk_pattern by lia. by apply pattern_app. Qed.

#[export] Hint Rewrite len_gen_chunk using lia : py.

Section BodyLemmas.
Context (cfg : config) (HS : 0 <= STREAM cfg).

(** The offset a state of the generator resumes from. *)
Definition body_off (st : body_state) : Z :=
  match st with BodyFresh => 0 | BodyAt off n => off + n | BodyDone => STREAM cfg end.

(** The bytes of the chunk it is suspended on, which the next call counts. *)
Definition body_pending (st : body_state) : Z :=
  match st with BodyAt _ n => n | _ => 0 end.

Definition body_ok (st : body_state) : Prop :=
  0 <= body_off st <= STREAM cfg /\ 0 <= body_pending st.

Lemma body_resume_spec tag st x :
  body_ok st ->
  let '(o, st', x') := body_resume cfg tag st x in
  body_ok st' /\ body_off st' = Z.min (STREAM cfg) (body_off st + CHUNK) /\
  (match o with
   | Some c => c = gen_chunk (body_off st) (body_pending st') /\ 0 < body_pending st' <= CHUNK /\
               body_off st' = body_off st + body_pending st'
   | None => body_off st = STREAM cfg /\ body_pending st' = 0
   end) /\
  xfer x' = xfer x + (if IS_H3 cfg then 0 else body_pending st).
Proof.
  unfold body_ok, body_resume, body_yield. intros [Hoff Hpend].
  destruct st as [|off n|]; simpl in *; [| |unfold CHUNK; destruct (IS_H3 cfg); lia].
  - destruct (Z.ltb_spec 0 (STREAM cfg)); simpl; unfold CHUNK; destruct (IS_H3 cfg); repeat split; lia.
  - destruct (Z.ltb_spec (off + n) (STREAM cfg)); simpl; unfold CHUNK; destruct (IS_H3 cfg); simpl;
      repeat split; lia.
Qed.

Lemma body_pull_spec tag k st x :
  body_ok st ->
  let '(cs, st', x') := body_pull cfg tag k st x in
  let n := Z.min (STREAM cfg - body_off st) (Z.of_nat k * CHUNK) in
  concat cs = gen_chunk (body_off st) n /\ Forall (fun c => 0 < len c <= CHUNK) cs /\
  body_off st' = body_off st + n /\
  xfer x' + (if IS_H3 cfg then 0 else body_pending st')
  = xfer x + (if IS_H3 cfg then 0 else body_pending st + n).
Proof.
  revert st x. induction k as [|k IH]; intros st x Hok; cbn [body_pull].
  { destruct Hok as [Hoff _]. replace (Z.min _ _) with 0 by lia. rewrite gen_chunk_pattern by lia.
    repeat split; [constructor|lia|]. destruct (IS_H3 cfg); lia. }
  assert (H := body_resume_spec tag st x Hok). destruct (body_resume cfg tag st x) as [[o st1] x1].
  destruct H as (Hok1 & Hoff1 & Ho & Hx1). specialize (IH st1 x1 Hok1).
  destruct (body_pull cfg tag k st1 x1) as [[cs st2] x2]. destruct IH as (Ec & Hf & E2 & Ex2).
  destruct Hok as [Hoff Hp]. destruct Hok1 as [Hoff1' Hp1].
  set (n1 := Z.min (STREAM cfg - body_off st1) (Z.of_nat k * CHUNK)) in *.
  set (n := Z.min (STREAM cfg - body_off st) (Z.of_nat (S k) * CHUNK)).
  assert (body_off st1 + n1 = body_off st + n) as En by (unfold n, n1 in *; clear - Hoff Hoff1; unfold CHUNK in *; lia).
  assert (0 <= n1) by (unfold n1; unfold CHUNK; lia).
  destruct o as [c|].
  - destruct Ho as (-> & Hlen & Hst). split.
    { cbn [concat]. rewrite Ec, Hst, gen_chunk_app by lia. f_equal. lia. }
    split; [constructor; [by rewrite len_gen_chunk by lia|done]|]. split; [lia|].
    destruct (IS_H3 cfg); lia.
  - destruct Ho as (Ho & Hp0). assert (body_off st1 = body_off st) as Es by (unfold CHUNK in *; lia).
    rewrite Es in Ec. replace n with n1 by lia. repeat split; [done|done|lia|]. destruct (IS_H3 cfg); lia.
Qed.
End BodyLemmas.

(** ** Checksums *)

Section ChecksumLemmas.
Context {D : Type} `{!Sha1 D, !Sha1Laws D}.

(** Feeding a hash piecewise is feeding it the concatenation. *)
Lemma sha_update_concat h cs : fold_left sha_update cs h = sha_update h (concat cs).
Proof.
  revert h. induction cs as [|c cs IH]; intros h; cbn [fold_left concat]; [by rewrite sha_update_nil|].
  by rewrite IH, sha_update_app.
Qed.

Lemma sha1_loop_spec cfg fuel off h :
  0 <= off <= STREAM cfg -> STREAM cfg - off <= Z.of_nat fuel * CHUNK ->
  sha1_loop cfg fuel off h = sha_update h (gen_chunk off (STREAM cfg - off)).
Proof.
  revert off h. induction fuel as [|fuel IH]; intros off h Ho Hf; cbn [sha1_loop].
  - replace (STREAM cfg - off) with 0 by (unfold CHUNK in *; lia). symmetry. rewrite gen_chunk_pattern by lia.
    apply sha_update_nil.
  - destruct (Z.ltb_spec off (STREAM cfg)).
    + rewrite IH by (unfold CHUNK in *; lia). rewrite sha_update_app, gen_chunk_app by (unfold CHUNK; lia).
      f_equal. f_equal. lia.
    + replace (STREAM cfg - off) with 0 by lia. symmetry. rewrite gen_chunk_pattern by lia. apply sha_update_nil.
Qed.

Lemma expected_sha1_spec cfg :
  0 <= STREAM cfg -> expected_sha1 cfg = sha_hexdigest (sha_update sha_init (gen_chunk 0 (STREAM cfg))).
Proof.
  intros Hs. unfold expected_sha1. rewrite sha1_loop_spec.
  - by rewrite Z.sub_0_r.
  - lia.
  - assert (Hd := Z.div_mod (STREAM cfg) CHUNK ltac:(done)).
    assert (Hr := Z.mod_pos_bound (STREAM cfg) CHUNK ltac:(done)).
    assert (0 <= STREAM cfg / CHUNK) by (apply Z.div_pos; [lia|done]). rewrite Z2Nat.id by lia. lia.
Qed.
End ChecksumLemmas.

(** ** Properties *)

(** C28: [body_gen] streams the body.  After [k] calls it has produced the first
    [min STREAM (k * 64 KiB)] bytes of the stream in non-empty chunks of at most
    64 KiB; over h1/h2 every byte produced is counted except those of the chunk
    it is suspended on, and over h3 none is. *)
Theorem body_gen_streams cfg tag k x :
  0 <= STREAM cfg ->
  let '(cs, st, x') := body_pull cfg tag k BodyFresh x in
  let n := Z.min (STREAM cfg) (Z.of_nat k * CHUNK) in
  concat cs = map (fun i => i mod 256) (seqZ 0 n) /\ Forall (fun c => 0 < len c <= CHUNK) cs /\
  xfer x' = xfer x + (if IS_H3 cfg then 0 else n - body_pending st).
Proof.
  intros HS. assert (body_ok cfg BodyFresh) as Hok by (split; simpl; lia).
  assert (H := body_pull_spec cfg HS tag k BodyFresh x Hok).
  destruct (body_pull cfg tag k BodyFresh x) as [[cs st] x']. cbn [body_off body_pending] in H.
  rewrite Z.sub_0_r in H. destruct H as (Ec & Hf & _ & Ex). set (n := Z.min _ _) in *.
  split; [rewrite Ec, gen_chunk_pattern by (unfold n, CHUNK; lia); done|].
  split; [done|]. destruct (IS_H3 cfg); lia.
Qed.

Definition demo_cfg : config :=
  Config (str "streamupload") (str "h2") (str "sync") (str "https://server:8443") 60 3 32 100000 60
         (str "gzip") (str "gzip").

Lemma body_gen_streams_witness :
  0 <= STREAM demo_cfg /\
  let '(cs, st, x') := body_pull demo_cfg None 3 BodyFresh (Xfers 0 ∅) in
  concat cs = map (fun i => i mod 256) (seqZ 0 100000) /\ Forall (fun c => 0 < len c <= CHUNK) cs /\
  xfer x' = 0 + (if IS_H3 demo_cfg then 0 else 100000 - body_pending st).
Proof. split; [done|]. apply (body_gen_streams demo_cfg None 3 (Xfers 0 ∅)). done. Defined.

(** C27: the checksum the client announces and expects is that of the stream.
    However the stream is cut into pieces (the chunks of the upload's generator,
    the chunks a download arrives in), hashing the pieces in order gives
    [expected_sha1]. *)
Theorem checksum_of_stream {D} `{!Sha1 D, !Sha1Laws D} cfg tag k x cs :
  0 <= STREAM cfg <= Z.of_nat k * CHUNK -> concat cs = gen_chunk 0 (STREAM cfg) ->
  sha_hexdigest (fold_left sha_update cs sha_init) = expected_sha1 cfg /\
  sha_hexdigest (fold_left sha_update (fst (fst (body_pull cfg tag k BodyFresh x))) sha_init) = expected_sha1 cfg.
Proof.
  intros HS Hcs. rewrite !sha_update_concat, expected_sha1_spec, Hcs by lia. split; [done|].
  assert (H := body_pull_spec cfg ltac:(lia) tag k BodyFresh x ltac:(split; simpl; lia)).
  destruct (body_pull cfg tag k BodyFresh x) as [[cs' st] x']. cbn [body_off] in H. destruct H as (Ec & _).
  cbn [fst]. rewrite Ec, Z.sub_0_r. repeat f_equal. lia.
Qed.

(** A hash whose digest is the text itself. *)
#[export] Instance identity_sha1 : Sha1 (list Z) := {| sha_init := []; sha_update := app; sha_hexdigest h := h |}.
#[export] Instance identity_sha1_laws : Sha1Laws (list Z).
Proof. split; intros; simpl; [by rewrite <- app_assoc|by rewrite app_nil_r]. Qed.

Lemma checksum_of_stream_witness :
  let cs := [gen_chunk 0 70000; gen_chunk 70000 30000] in
  sha_hexdigest (fold_left sha_update cs sha_init) = expected_sha1 demo_cfg /\
  sha_hexdigest (fold_left sha_update (fst (fst (body_pull demo_cfg None 2 BodyFresh (Xfers 0 ∅)))) sha_init)
  = expected_sha1 demo_cfg.
Proof.
  apply (checksum_of_stream demo_cfg None 2 (Xfers 0 ∅)).
  - split; vm_compute; congruence.
  - cbn [concat]. rewrite app_nil_r. apply (gen_chunk_app 0 70000 30000); lia.
Defined.

(** C36: request compression is undone by the decoder of the same name: for every
    [VORTEX_REQ_COMPRESSION] the client accepts, [decode_body] on the compressed
    body and the content-encoding it is sent with gives the raw body back; any
    other value ends the client with the [SystemExit] that names it. *)
Theorem compress_roundtrip cfg gzip brotli zstd gunzip unbrotli unzstd :
  (forall b, gunzip (gzip b) = Ok b) -> (forall b, unbrotli (brotli b) = Ok b) ->
  (forall b, unzstd (zstd b) = Ok b) ->
  forall raw,
  match compress gzip brotli zstd cfg raw with
  | Ok (body, enc) =>
      decode_body gunzip unbrotli unzstd body enc = Ok raw /\
      REQ_COMP cfg ∈ [[]; str "none"; str "gzip"; str "br"; str "zstd"]
  | Raise e => e = SystemExitMsg (str "unknown VORTEX_REQ_COMPRESSION: " ++ REQ_COMP cfg) /\
               REQ_COMP cfg ∉ [[]; str "none"; str "gzip"; str "br"; str "zstd"]
  end.
Proof.
  intros Hg Hb Hz raw. unfold compress, decode_body.
  destruct (decide (REQ_COMP cfg = [] \/ REQ_COMP cfg = str "none")) as [H|H]; [split; [done|set_solver]|].
  destruct (decide (REQ_COMP cfg = str "gzip")); [split; [exact (Hg raw)|set_solver]|].
  destruct (decide (REQ_COMP cfg = str "br")); [split; [exact (Hb raw)|set_solver]|].
  destruct (decide (REQ_COMP cfg = str "zstd")); [split; [exact (Hz raw)|set_solver]|].
  split; [done|set_solver].
Qed.

Lemma compress_roundtrip_witness :
  let cfg := demo_cfg in
  compress (cons 1) (cons 2) (cons 3) cfg [7] = Ok ([1; 7], Some (str "gzip")) /\
  decode_body (fun b => Ok (tail b)) (fun b => Ok (tail b)) (fun b => Ok (tail b)) [1; 7] (Some (str "gzip")) = Ok [7] /\
  REQ_COMP cfg ∈ [[]; str "none"; str "gzip"; str "br"; str "zstd"].
Proof.
  split; [reflexivity|].
  exact (compress_roundtrip demo_cfg (cons 1) (cons 2) (cons 3) (fun b => Ok (tail b)) (fun b => Ok (tail b))
           (fun b => Ok (tail b)) (fun _ => eq_refl) (fun _ => eq_refl) (fun _ => eq_refl) [7]).
Defined.

(** C37: the [/stats] sample is faithful and never invented.  A three-field body
    gives its three numbers, a two-field one the first two and no fd count;
    whatever is returned was read from a 200 reply with at least two integer
    fields, the fd count from the third field and only from it. *)
Theorem server_stats_faithful :
  (forall rss heap fds ct, 0 <= rss -> 0 <= heap -> 0 <= fds ->
     len (dec_nat rss) <= max_str_digits -> len (dec_nat heap) <= max_str_digits ->
     len (dec_nat fds) <= max_str_digits ->
     get_server_stats (200, ct, dec_nat rss ++ [32] ++ dec_nat heap ++ [32] ++ dec_nat fds) = Ok (rss, heap, Some fds) /\
     get_server_stats (200, ct, dec_nat rss ++ [32] ++ dec_nat heap) = Ok (rss, heap, None)) /\
  (forall st ct body rss heap fds, get_server_stats (st, ct, body) = Ok (rss, heap, fds) ->
     st = 200 /\ exists p0 p1 ps, bsplit body = p0 :: p1 :: ps /\ int_bytes p0 = Ok rss /\ int_bytes p1 = Ok heap /\
     match ps with [] => fds = None | p2 :: _ => exists n, fds = Some n /\ int_bytes p2 = Ok n end).
Proof.
  split.
  - intros rss heap fds ct Hr Hh Hf Lr Lh Lf. unfold get_server_stats. cbn [app].
    rewrite !bsplit_app by auto with py. rewrite !bsplit_word by auto with py.
    rewrite !decide_False by congruence. split; cbn -[int_bytes dec_nat]; rewrite !int_bytes_dec by done; done.
  - intros st ct body rss heap fds. unfold get_server_stats. destruct (decide (st <> 200)) as [|Hst]; [done|].
    apply dec_stable in Hst as ->.
    unfold index. destruct (bsplit body) as [|p0 [|p1 ps]]; cbn -[int_bytes len];
      [done|destruct (int_bytes p0); done|].
    destruct (int_bytes p0) as [r0|] eqn:E0; cbn -[int_bytes len]; [|done].
    destruct (int_bytes p1) as [r1|] eqn:E1; cbn -[int_bytes len]; [|done].
    rewrite !len_cons. destruct ps as [|p2 ps]; cbn -[int_bytes len].
    + intros [= <- <- <-]. split; [done|]. by exists p0, p1, [].
    + rewrite len_cons. assert (H := len_nonneg ps). rewrite (proj2 (Z.ltb_lt 2 _)) by lia.
      destruct (int_bytes p2) as [n|] eqn:E2; cbn -[int_bytes len]; [|done]. intros [= <- <- <-].
      split; [done|]. exists p0, p1, (p2 :: ps). repeat split; try done. by exists n.
Qed.

(** No reply of another protocol reaches a workload.  When the session
    returns a reply, an upload's status or a stream, httpx negotiated exactly the
    version [VORTEX_PROTO] pins; a mismatch raises [ProtocolPinError], and
    nothing else is raised. *)
Theorem httpx_session_pinned cfg r chunks :
  let pinned := PROTO cfg = str "h1" -> http_version r = str "HTTP/1.1" in
  let pinned2 := PROTO cfg = str "h2" -> http_version r = str "HTTP/2" in
  match httpx_reply cfg r, httpx_upload cfg r, httpx_stream cfg r chunks with
  | Ok (st, ct, b), Ok st', Ok ys =>
      pinned /\ pinned2 /\ st = status_code r /\ st' = st /\ b = content r /\
      ys = YStatus st :: map YChunk chunks
  | Raise (ProtocolPinError _), Raise (ProtocolPinError _), Raise (ProtocolPinError _) =>
      ~ (pinned /\ pinned2)
  | _, _, _ => False
  end.
Proof.
  unfold httpx_reply, httpx_upload, httpx_stream, pin_check, PIN_VERSION. cbn [aget].
  assert (str "h1" <> str "h2") as Hne by done.
  destruct (decide (str "h1" = PROTO cfg)) as [E1|E1]; [|destruct (decide (str "h2" = PROTO cfg)) as [E2|E2]].
  - destruct (decide (http_version r <> str "HTTP/1.1")) as [H|H]; cbn; [intros [Hp _]; auto|].
    apply dec_stable in H. repeat split; [done|]. intros E. by destruct (Hne (eq_trans E1 E)).
  - destruct (decide (http_version r <> str "HTTP/2")) as [H|H]; cbn; [intros [_ Hp]; auto|].
    apply dec_stable in H. repeat split; [|done]. intros E. by destruct (Hne (eq_sym (eq_trans E2 E))).
  - cbn. repeat split; intros E; [by destruct (E1 (eq_sym E))|by destruct (E2 (eq_sym E))].
Qed.
