(* ===== verification/Payload.v ===== *)
(** * The request bodies and the GET contract

    [transport.payload_mix], [_multipart_body] and [expected_gets], with the
    parts of [json], [urllib.parse] and [float.__repr__] they use.  The two
    [os.urandom] bodies are arguments. *)
From S2P Require Import Prelude PyFloat H3Client Transport.
#[local] Open Scope Z_scope.

Definition CRLF : list Z := [13; 10].

(** [b * n] *)
Definition times (n : Z) (b : list Z) : list Z := concat (repeat b (Z.to_nat n)).

(** [f"{i:0{w}d}"] for a natural number. *)
Definition zero_pad (w : Z) (i : Z) : list Z :=
  let ds := dec_nat i in repeat 48 (Z.to_nat (w - len ds)) ++ ds.

(** ** [repr] of a float

    The shortest digit string that reads back as the same double, the nearest
    one to it when several are as short; for a value from [1e-4] up to [1e16],
    which [repr] writes without exponent. *)
Definition dbl_eqb (x y : dbl) : bool := negb (dbl_ltb x y) && negb (dbl_ltb y x).

(** [x = num / den] exactly. *)
Definition dbl_num (x : dbl) : Z := if 0 <=? ex x then man x * 2 ^ ex x else man x.
Definition dbl_den (x : dbl) : Z := if 0 <=? ex x then 1 else 2 ^ (- ex x).

Definition pow10_num (k : Z) : Z := if 0 <=? k then 10 ^ k else 1.
Definition pow10_den (k : Z) : Z := if 0 <=? k then 1 else 10 ^ (- k).

(** The least [k >= -3] with [x < 10^k]. *)
Fixpoint point_pos (fuel : nat) (x : dbl) (k : Z) : Z :=
  match fuel with
  | O => k
  | S f => if dbl_num x * pow10_den k <? dbl_den x * pow10_num k then k else point_pos f x (k + 1)
  end.

(** [x] to [nd] significant digits, as [q * 10^(k - nd)]. *)
Definition to_digits (x : dbl) (k nd : Z) : Z :=
  round_half_even (dbl_num x * pow10_num (nd - k)) (dbl_den x * pow10_den (nd - k)).

Definition reads_back (x : dbl) (k nd q : Z) : bool :=
  match truediv (q * pow10_num (k - nd)) (pow10_den (k - nd)) with
  | Ok y => dbl_eqb x y
  | Raise _ => false
  end.

Fixpoint shortest (fuel : nat) (x : dbl) (k nd : Z) : Z * Z :=
  let q := to_digits x k nd in
  match fuel with
  | O => (q, nd)
  | S f => if reads_back x k nd q then (q, nd) else shortest f x k (nd + 1)
  end.

Definition float_repr (x : dbl) : list Z :=
  if man x =? 0 then str "0.0"
  else
    let k := point_pos 20 x (-3) in
    let '(q, nd) := shortest 16 x k 1 in
    let ds := zero_pad nd q in
    if k <=? 0 then str "0." ++ repeat 48 (Z.to_nat (- k)) ++ ds
    else
      let int_part := take (Z.to_nat k) ds ++ repeat 48 (Z.to_nat (k - nd)) in
      let frac := drop (Z.to_nat k) ds in
      int_part ++ str "." ++ (if decide (frac = []) then str "0" else frac).

(** [i * x] on a double of negative exponent, and a decimal literal [n / d]. *)
Definition dbl_scale (i : Z) (x : dbl) : dbl :=
  match truediv (i * dbl_num x) (dbl_den x) with Ok y => y | Raise _ => Dbl 0 0 end.
Definition dbl_lit (n d : Z) : dbl := match truediv n d with Ok y => y | Raise _ => Dbl 0 0 end.

(** ** [json.dumps] with the default separators *)

Inductive json :=
| JInt (n : Z)
| JFloat (x : dbl)
| JBool (b : bool)
| JStr (s : list Z)      (** printable ASCII without quote or backslash *)
| JArr (l : list json)
| JObj (fields : list (list Z * json)).

Fixpoint dumps (j : json) : list Z :=
  match j with
  | JInt n => dec n
  | JFloat x => float_repr x
  | JBool b => if b then str "true" else str "false"
  | JStr s => dq ++ s ++ dq
  | JArr l => str "[" ++ join (str ", ") (map dumps l) ++ str "]"
  | JObj fs => str "{" ++ join (str ", ") (map (fun kv => dq ++ kv.1 ++ dq ++ str ": " ++ dumps kv.2) fs) ++ str "}"
  end.

(** ** [urllib.parse.urlencode]: [quote_plus] on every key and value *)

Definition is_unreserved (c : Z) : bool :=
  is_digit c || ((65 <=? c) && (c <=? 90)) || ((97 <=? c) && (c <=? 122))
  || (c =? 95) || (c =? 46) || (c =? 45) || (c =? 126).

Definition hex_digit (d : Z) : Z := if d <? 10 then 48 + d else 55 + d.

Definition quote_byte (c : Z) : list Z :=
  if is_unreserved c then [c] else if c =? 32 then [43] else [37; hex_digit (c / 16); hex_digit (c mod 16)].
Definition quote_plus (s : list Z) : list Z := flat_map quote_byte (encode s).
Definition urlencode (fields : list (list Z * list Z)) : list Z :=
  join (str "&") (map (fun kv => quote_plus kv.1 ++ str "=" ++ quote_plus kv.2) fields).

(** ** [_multipart_body] *)

Definition MP_BOUNDARY : list Z := str "----vortexstressBoundary7MA4YWxkTrZu0gW".

Definition quoted (s : list Z) : list Z := dq ++ s ++ dq.

Definition multipart_body (boundary : list Z) : list Z :=
  let dash := str "--" ++ encode boundary in
  concat [
    dash ++ CRLF;
    str "Content-Disposition: form-data; name=" ++ quoted (str "field1") ++ CRLF ++ CRLF;
    str "the quick brown fox" ++ CRLF;
    dash ++ CRLF;
    str "Content-Disposition: form-data; name=" ++ quoted (str "field2") ++ CRLF ++ CRLF;
    str "jumps over the lazy dog" ++ CRLF;
    dash ++ CRLF;
    str "Content-Disposition: form-data; name=" ++ quoted (str "file") ++ str "; filename=" ++ quoted (str "blob.bin") ++ CRLF;
    str "Content-Type: application/octet-stream" ++ CRLF ++ CRLF;
    gen_chunk 0 4096;
    CRLF;
    dash ++ str "--" ++ CRLF].

(** ** [payload_mix] *)

Definition fox (n : Z) : list Z := take (Z.to_nat n) (times (n / 20 + 1) (str "the quick brown fox ")).

Definition json_obj : json :=
  JObj [(str "user", JStr (str "alice")); (str "id", JInt 42); (str "active", JBool true);
        (str "score", JFloat (dbl_lit 314 100));
        (str "tags", JArr [JStr (str "a"); JStr (str "b"); JStr (str "c")]);
        (str "meta", JObj [(str "role", JStr (str "admin")); (str "seen", JInt 7)]);
        (str "note", JStr (times 180 (str "x")))].

Definition json_item (i : Z) : json :=
  JObj [(str "id", JInt i); (str "name", JStr (str "name-" ++ zero_pad 4 i));
        (str "ts", JStr (str "2026-09-21T00:" ++ zero_pad 2 (i mod 60) ++ str ":00Z"));
        (str "ratio", JFloat (dbl_scale i (dbl_lit 12345 100000)));
        (str "ok", JBool (i mod 2 =? 0))].

Definition form_fields : list (list Z * list Z) :=
  [(str "q", str "the quick & brown = fox"); (str "name", str " query with spaces");
   (str "sym", str "a&b=c d"); (str "u", str "caf" ++ [233] ++ str " na" ++ [239] ++ str "ve " ++ [10003])].

Definition xml_doc : list Z :=
  str "<?xml version=" ++ quoted (str "1.0") ++ str " encoding=" ++ quoted (str "UTF-8") ++ str "?><items>"
  ++ concat (map (fun i => str "<item id=" ++ quoted (dec i)
                           ++ str ">The quick brown fox jumps over the lazy dog</item>") (seqZ 0 40))
  ++ str "</items>".

Definition csv_doc : list Z :=
  str "id,name,value" ++ [10]
  ++ concat (map (fun i => dec i ++ str ",name-" ++ dec i ++ str "," ++ dec (i * i) ++ [10]) (seqZ 0 200)).

(** [urandom i n] is what the [i]th call of [os.urandom], for [n] bytes, returns. *)
Definition payload_mix (urandom : nat -> Z -> list Z) : list (list Z * list Z) :=
  map (fun n => (str "text/plain", fox n)) [0; 1; 13; 1280; 64 * 1024; 256 * 1024]
  ++ [(str "text/plain", urandom 0%nat (64 * 1024));
      (str "application/json", dumps json_obj);
      (str "application/json", dumps (JArr (map json_item (seqZ 0 100))));
      (str "application/x-www-form-urlencoded", urlencode form_fields);
      (str "multipart/form-data; boundary=" ++ MP_BOUNDARY, multipart_body MP_BOUNDARY);
      (str "application/octet-stream", gen_chunk 0 8192);
      (str "application/octet-stream", urandom 1%nat (64 * 1024));
      (str "application/xml", xml_doc);
      (str "text/csv", csv_doc);
      (str "text/html", str "<!doctype html><html><body><h1>hi</h1><p>The quick brown fox.</p></body></html>")].

(** ** [expected_gets] *)

Definition html_doc : list Z :=
  str "<!doctype html><html><head><title>vortex stress</title></head><body>"
  ++ times 30 (str "<p>The quick brown fox jumps over the lazy dog.</p>") ++ str "</body></html>".

Definition expected_gets : list (list Z * list Z * list Z) :=
  [(str "/plaintext", str "text/plain", str "Hello, World!");
   (str "/json", str "application/json", str "{" ++ quoted (str "message") ++ str ":" ++ quoted (str "Hello, World!") ++ str "}");
   (str "/html", str "text/html", html_doc);
   (str "/xml", str "application/xml", xml_doc);
   (str "/csv", str "text/csv", csv_doc);
   (str "/binary", str "application/octet-stream", gen_chunk 0 8192)].

(** ** A reader of multipart bodies (RFC 2046) *)

(** The text up to the first [sep], and what follows it. *)
Fixpoint cut (sep s : list Z) : option (list Z * list Z) :=
  if starts_with sep s then Some ([], drop (length sep) s)
  else match s with
       | [] => None
       | c :: s' => '(a, b) ← cut sep s'; Some (c :: a, b)
       end.

(** One part: the header lines, an empty line, the content. *)
Definition read_part (p : list Z) : option (list Z * list Z) :=
  '(hdrs, content) ← cut (CRLF ++ CRLF) p; Some (hdrs, content).

(** After a delimiter: [--] closes the body, a line break opens a part, which
    ends at the line break before the next delimiter. *)
Fixpoint read_parts (fuel : nat) (delim s : list Z) : option (list (list Z * list Z)) :=
  match fuel with
  | O => None
  | S f =>
      if starts_with (str "--" ++ CRLF) s then (if decide (s = str "--" ++ CRLF) then Some [] else None)
      else if starts_with CRLF s then
        '(p, rest) ← cut (CRLF ++ delim) (drop 2 s);
        part ← read_part p;
        parts ← read_parts f delim rest;
        Some (part :: parts)
      else None
  end.

Definition read_multipart (boundary s : list Z) : option (list (list Z * list Z)) :=
  let delim := str "--" ++ boundary in
  if starts_with delim s then read_parts (length s) delim (drop (length delim) s) else None.

(** The hand-built multipart body reads back, under the boundary its content type
    announces, as its two fields and its file. *)
Example multipart_body_reads :
  read_multipart MP_BOUNDARY (multipart_body MP_BOUNDARY) = Some [
    (str "Content-Disposition: form-data; name=" ++ quoted (str "field1"), str "the quick brown fox");
    (str "Content-Disposition: form-data; name=" ++ quoted (str "field2"), str "jumps over the lazy dog");
    (str "Content-Disposition: form-data; name=" ++ quoted (str "file") ++ str "; filename=" ++ quoted (str "blob.bin")
       ++ CRLF ++ str "Content-Type: application/octet-stream", map (fun i => i mod 256) (seqZ 0 4096))].
Proof. vm_compute. reflexivity. Qed.

(** The JSON array is 9490 bytes, where the source's comment has about 16 KiB. *)
Example json_array_size : len (dumps (JArr (map json_item (seqZ 0 100)))) = 9490.
Proof. vm_compute. reflexivity. Qed.
