(* ===== verification/Report.v ===== *)
(** * Tallies, reports and the verdict of the stress client

    The shared counters of [stress_client.py], the texts built from them, and
    [main]'s verdict. *)
From S2P Require Import Prelude PyFloat PyDouble H3Client Transport Mix.
#[local] Open Scope Z_scope.

(** ** Shared state *)

Record tallies := Tallies {
  codes : counter Z;
  ok_by : counter (list Z);
  abandoned : counter (list Z);
  moved_bytes : xfers;
  rate_ : spec_float * Z;
  ops_ : spec_float * Z;
  mix_last : counter (list Z);
  mix_at : spec_float }.

Definition no_tallies : tallies := Tallies ∅ ∅ ∅ (Xfers 0 ∅) (fzero, 0) (fzero, 0) ∅ fzero.

Definition is_2xx (status : Z) : bool := (200 <=? status) && (status <? 300).

(** [tag] is [TAG.get()]. *)
Definition bump (cfg : config) (tag : list Z) (status n : Z) (t : tallies) : tallies :=
  Tallies (count_add status n (codes t))
          (if is_2xx status && IS_MIXED cfg then count_add tag n (ok_by t) else ok_by t)
          (abandoned t) (moved_bytes t) (rate_ t) (ops_ t) (mix_last t) (mix_at t).

(** [abandoned[TAG.get()] += 1] *)
Definition abandon (tag : list Z) (t : tallies) : tallies :=
  Tallies (codes t) (ok_by t) (count_add tag 1 (abandoned t)) (moved_bytes t) (rate_ t) (ops_ t)
          (mix_last t) (mix_at t).

(** [add_xfer(n)]: [xfer_tag] is installed under [mixed] only. *)
Definition move (cfg : config) (tag : list Z) (n : Z) (t : tallies) : tallies :=
  Tallies (codes t) (ok_by t) (abandoned t)
          (add_xfer (if IS_MIXED cfg then Some tag else None) n (moved_bytes t))
          (rate_ t) (ops_ t) (mix_last t) (mix_at t).

Definition with_rate (r : spec_float * Z) (t : tallies) : tallies :=
  Tallies (codes t) (ok_by t) (abandoned t) (moved_bytes t) r (ops_ t) (mix_last t) (mix_at t).
Definition with_ops (o : spec_float * Z) (t : tallies) : tallies :=
  Tallies (codes t) (ok_by t) (abandoned t) (moved_bytes t) (rate_ t) o (mix_last t) (mix_at t).
Definition with_mix (l : counter (list Z)) (at_ : spec_float) (t : tallies) : tallies :=
  Tallies (codes t) (ok_by t) (abandoned t) (moved_bytes t) (rate_ t) (ops_ t) l at_.

Definition ok_ops (t : tallies) : Z :=
  zsum (map (fun cn => if is_2xx cn.1 then cn.2 else 0) (map_to_list (codes t))).

Definition moved (cfg : config) (t : tallies) (tag : list Z) : Z :=
  if IS_MIXED cfg then count (xfer_by (moved_bytes t)) tag else xfer (moved_bytes t).

(** ** Texts *)

(** Why [tag] completed nothing; the diagnosis apart from its wording. *)
Inductive diagnosis := NothingStarted | TooBig | Undecidable | Stalled.

Definition diagnose (cfg : config) (t : tallies) (tag : list Z) : diagnosis :=
  if count (abandoned t) tag =? 0 then NothingStarted
  else if 0 <? moved cfg t tag then TooBig
  else if bool_decide (tag = str "streamupload") && IS_H3 cfg then Undecidable
  else Stalled.

Definition no_progress (cfg : config) (t : tallies) (tag : list Z) : list Z :=
  let n := count (abandoned t) tag in
  let head := str "no transfer of " ++ dec (STREAM cfg) ++ str " bytes completed within "
              ++ dec (SECONDS cfg) ++ str " s on " ++ PROTO cfg ++ str " (" ++ dec n
              ++ str " abandoned at the deadline, " ++ dec (moved cfg t tag) ++ str " bytes moved)" in
  match diagnose cfg t tag with
  | NothingStarted => str "no successful iterations"
  | TooBig => head ++ str "; the transfers are too big for this run: lower VORTEX_STREAM_BYTES or raise VORTEX_SECONDS"
  | Undecidable =>
      head ++ str "; an h3 upload counts bytes only on completion, so the client cannot tell the two cases apart: either the transfers are too big for this run (lower VORTEX_STREAM_BYTES or raise VORTEX_SECONDS) or the server took nothing; check the server log"
  | Stalled =>
      head ++ str ": the server delivered nothing, a stall rather than a sizing problem; check the server log"
  end.

(** [sorted(codes.items())]: the keys are distinct, so they decide the order. *)
Definition code_le (a b : Z * Z) : Prop := a.1 <= b.1.
#[export] Instance code_le_dec : RelDecision code_le := fun a b => Z_le_dec a.1 b.1.

Definition sorted_codes (t : tallies) : list (Z * Z) :=
  merge_sort code_le (map_to_list (codes t)).

Definition fmt_codes (t : tallies) : list Z :=
  match sorted_codes t with
  | [] => str "0"
  | cs => join (str " ") (map (fun cn => dec cn.1 ++ str "x" ++ dec cn.2) cs)
  end.

Definition fmt_rate (cfg : config) (now : spec_float) (t : tallies) : res (list Z * tallies) :=
  let ops := ok_ops t in
  let dt := fsub now (ops_ t).1 in
  let dn := ops - (ops_ t).2 in
  let t := with_ops (now, ops) t in
  rate ← (if flt fzero dt then d ← float_of_int dn; Ok (fdiv d dt) else Ok fzero);
  Ok (str " | " ++ fixed 0 rate ++ str " " ++ UNIT cfg ++ str "/s", t).

Definition fmt_xfer (now : spec_float) (t : tallies) : res (list Z * tallies) :=
  let x := xfer (moved_bytes t) in
  let dt := fsub now (rate_ t).1 in
  let db := x - (rate_ t).2 in
  let t := with_rate (now, x) t in
  rate ← (if flt fzero dt then d ← float_of_int db; Ok (fdiv (fdiv d dt) (flit MB 0)) else Ok fzero);
  Ok (str " | " ++ dec (x / MB) ++ str "MB xfer @ " ++ fixed 0 rate ++ str "MB/s", t).

Definition fmt_mb (b : Z) : res (list Z) :=
  mb ← idiv b MB;
  Ok (if flt mb (flit 10 0) then fixed 1 mb ++ str "MB" else dec (b / MB) ++ str "MB").

(** [_MIX_SEG[t](n)] *)
Definition mix_seg (cfg : config) (tag : list Z) (n : Z) : res (list Z) :=
  if decide (tag = str "requests") then Ok (str "req " ++ dec n)
  else if decide (tag = str "ws") then Ok (str "ws " ++ dec n ++ str " msgs")
  else if decide (tag = str "sse") then Ok (str "sse " ++ dec n ++ str " ev")
  else if decide (tag = str "streamupload") then
    mb ← fmt_mb (n * STREAM cfg); Ok (str "up " ++ dec n ++ str " xfers " ++ mb)
  else if decide (tag = str "streamdownload") then
    mb ← fmt_mb (n * STREAM cfg); Ok (str "down " ++ dec n ++ str " xfers " ++ mb)
  else Raise (OtherException (str "KeyError") tag).

Definition MIX_RATE : list (list Z) := [str "requests"; str "ws"; str "sse"].

(** One slice of a report line: its text, and [_mix_last] after it. *)
Definition mix_delta (dt : spec_float) (tag : list Z) (d : Z) : res (list Z) :=
  if decide (tag ∈ MIX_RATE) then
    rate ← (if flt fzero dt then x ← float_of_int d; Ok (fdiv x dt) else Ok fzero);
    Ok (str " (+" ++ fixed 0 rate ++ str "/s)")
  else Ok (str " (+" ++ dec d ++ str ")").

Definition mix_part (cfg : config) (t : tallies) (timed : option spec_float)
  (last : counter (list Z)) (tag : list Z) : res (list Z * counter (list Z)) :=
  let n := count (ok_by t) tag in
  seg ← mix_seg cfg tag n;
  match timed with
  | None => Ok (seg, last)
  | Some dt => d ← mix_delta dt tag (n - count last tag); Ok (seg ++ d, <[tag := n]> last)
  end.

Fixpoint mix_parts (cfg : config) (t : tallies) (timed : option spec_float)
  (slices : list (list Z * Z)) (last : counter (list Z)) : res (list (list Z) * counter (list Z)) :=
  match slices with
  | [] => Ok ([], last)
  | (tag, _) :: slices' =>
      '(seg, last) ← mix_part cfg t timed last tag;
      '(segs, last) ← mix_parts cfg t timed slices' last;
      Ok (seg :: segs, last)
  end.

Definition mix_segments (cfg : config) (slices : list (list Z * Z)) (now : option spec_float) (t : tallies)
  : res (list Z * tallies) :=
  let timed := (fun now => fsub now (mix_at t)) <$> now in
  '(parts, last) ← mix_parts cfg t timed slices (mix_last t);
  Ok (join (str " | ") parts, match now with Some now => with_mix last now t | None => t end).

Definition mix_tail (cfg : config) (slices : list (list Z * Z)) (t : tallies) : res (list Z) :=
  if IS_MIXED cfg then '(s, _) ← mix_segments cfg slices None t; Ok (str " [" ++ s ++ str "]") else Ok [].

Definition na {A} (f : A -> list Z) (x : option A) : list Z :=
  match x with None => str "n/a" | Some a => f a end.

Definition report_line (cfg : config) (slices : list (list Z * Z)) (start now : spec_float)
  (prefix : list Z) (rss heap fds : option Z) (t : tallies) : res (list Z * tallies) :=
  secs ← int_of_float (fsub now start);
  '(seg, t') ← (if IS_MIXED cfg then '(s, t') ← mix_segments cfg slices (Some now) t; Ok (str " | " ++ s, t')
               else if STREAMING cfg then fmt_xfer now t else fmt_rate cfg now t);
  Ok (str "[" ++ WORKLOAD cfg ++ str " " ++ PROTO cfg ++ str " " ++ SERVER cfg ++ str "] " ++ prefix
      ++ fmt_codes t ++ seg ++ str " | RSS " ++ na (fun n => dec (n / MB) ++ str "MB") rss
      ++ str " | heap " ++ na (fun n => dec (n / MB) ++ str "MB") heap
      ++ str " | fds " ++ na dec fds ++ str " | t=" ++ dec secs ++ str "s", t').

(** ** Failures *)

(** [type(e).__name__] and [str(e)] *)
Definition type_name (e : exn) : list Z :=
  match e with
  | Fail _ => str "Fail"
  | ProtocolPinError _ => str "ProtocolPinError"
  | HttpxTransportError ty _ | WebSocketException ty _ | OSError ty _ | OtherException ty _ => ty
  | ConnectionError _ => str "ConnectionError"
  | TimeoutError _ => str "TimeoutError"
  | AttributeError _ => str "AttributeError"
  | AssertionError _ => str "AssertionError"
  | ValueError _ => str "ValueError"
  | IndexError _ => str "IndexError"
  | TypeError _ => str "TypeError"
  | OverflowError _ => str "OverflowError"
  | RuntimeError _ => str "RuntimeError"
  | CancelledError => str "CancelledError"
  | KeyboardInterrupt => str "KeyboardInterrupt"
  | SystemExit _ | SystemExitMsg _ => str "SystemExit"
  | Group base _ => if base then str "BaseExceptionGroup" else str "ExceptionGroup"
  end.

Definition exn_text (e : exn) : list Z :=
  match e with
  | Fail m | ProtocolPinError m | HttpxTransportError _ m | WebSocketException _ m | ConnectionError m
  | TimeoutError m | OSError _ m | AttributeError m | AssertionError m | ValueError m | IndexError m
  | TypeError m | OverflowError m | RuntimeError m | OtherException _ m | SystemExitMsg m => m
  | SystemExit code => dec code
  | CancelledError | KeyboardInterrupt => []
  | Group _ subs => str "(" ++ dec (len subs) ++ (if len subs =? 1 then str " sub-exception)" else str " sub-exceptions)")
  end.

Fixpoint leaf_causes (e : exn) : list exn :=
  match e with
  | Group _ subs => flat_map leaf_causes subs
  | _ => [e]
  end.

Definition is_group (e : exn) : bool := match e with Group _ _ => true | _ => false end.

Definition teardown_race (e : exn) : bool :=
  match e with
  | CancelledError => true
  | AttributeError m => contains (str "call_soon") m
  | _ => false
  end.

(** What goes to stdout: a line of text, or the traceback of an exception. *)
Inductive line := Text (s : list Z) | Traceback (e : exn).

Definition cause_text (e : exn) : list Z :=
  let leaves := leaf_causes e in
  let desc := join (str "; ") (map (fun x => type_name x ++ str ": " ++ exn_text x) (take 3 leaves)) in
  let desc := if 3 <? len leaves then desc ++ str "; (+" ++ dec (len leaves - 3) ++ str " more)" else desc in
  if is_group e then type_name e ++ str "[" ++ desc ++ str "]" else desc.

(** [print(line, flush=True)] *)
Definition print (s : list Z) : io line unit := ([Text s], Ok tt).

Section Verdict.
Context (cfg : config) (slices : list (list Z * Z)).
#[local] Open Scope py_scope.

(** [print(f"FAIL {WORKLOAD}: {cause} ({fmt_codes()}){mix_tail()}")] *)
Definition print_fail (t : tallies) (cause : list Z) : io line unit :=
  let* tail := io_res (mix_tail cfg slices t) in
  print (str "FAIL " ++ WORKLOAD cfg ++ str ": " ++ cause ++ str " (" ++ fmt_codes t ++ str ")" ++ tail).

Definition print_cause (t : tallies) (e : exn) : io line unit :=
  let* _ := print_fail t (str "unexpected " ++ cause_text e) in
  ([Traceback e], Ok tt).

(** How a task can be done, and the callback [watch_task(name)]. *)
Inductive done_task := Cancelled | Finished (r : res unit).

Definition watch_task (name : list Z) (t : done_task) : list line :=
  match t with
  | Cancelled => []
  | Finished (Ok _) => []
  | Finished (Raise e) =>
      [Text (str "WARN " ++ name ++ str " task died: " ++ type_name e ++ str ": " ++ exn_text e); Traceback e]
  end.
(** [eg.split((KeyboardInterrupt, SystemExit))]: the members that are
    interrupts, and the others; a derived group is an [ExceptionGroup] when all
    its members are [Exception]s. *)
Definition is_interrupt (e : exn) : bool :=
  match e with KeyboardInterrupt | SystemExit _ | SystemExitMsg _ => true | _ => false end.

Definition derive_group (subs : list exn) : option exn :=
  match subs with [] => None | _ => Some (Group (negb (forallb is_Exception subs)) subs) end.

Fixpoint split_interrupts (e : exn) : option exn * option exn :=
  match e with
  | Group _ subs =>
      (derive_group (flat_map (fun e => from_option (fun x => [x]) [] (split_interrupts e).1) subs),
       derive_group (flat_map (fun e => from_option (fun x => [x]) [] (split_interrupts e).2) subs))
  | _ => if is_interrupt e then (Some e, None) else (None, Some e)
  end.

(** The [except] clauses of [main], in their order: the exit code, or what
    leaves [main]. *)
Definition main_except (t : tallies) (e : exn) : io line Z :=
  match e with
  | Fail m => let* _ := print_fail t m in io_ret 1
  | TimeoutError _ =>
      let* _ := print_fail t (str "workers did not stop within deadline+60s (stall)") in io_ret 1
  | Group _ _ =>
      match split_interrupts e with
      | (_, None) => io_raise e
      | (interrupts, Some rest) =>
          let* _ := print_cause t rest in
          match interrupts with
          | Some i => io_raise i
          | None => io_ret 1
          end
      end
  | _ => if is_Exception e then let* _ := print_cause t e in io_ret 1 else io_raise e
  end.

(** After the workers have stopped: [stats] is what the closing [/stats] sample
    gave, [now] the clock at the report line. *)
Definition print_dead (t : tallies) (dead : list (list Z)) : io line unit :=
  io_fold (fun _ tag => print (str "FAIL " ++ WORKLOAD cfg ++ str ": " ++ tag ++ str ": " ++ no_progress cfg t tag))
          dead tt.

Definition dead_slices (t : tallies) : list (list Z) :=
  List.filter (fun tag => count (ok_by t) tag =? 0) (akeys slices).

Definition passed (what : list Z) : list Z :=
  str "== " ++ WORKLOAD cfg ++ str " " ++ SERVER cfg ++ str " " ++ PROTO cfg ++ str " passed (" ++ what ++ str ") ==".

Definition main_verdict (start now : spec_float) (stats : res (Z * Z * option Z)) (t : tallies) : io line Z :=
  let total := ok_ops t in
  let* (rss, heap, fds) := match stats with
                            | Ok (rss, heap, fds) => io_ret (Some rss, Some heap, fds)
                            | Raise e => if is_Exception e then io_ret (None, None, None) else io_raise e
                            end in
  let* (text, t) := io_res (report_line cfg slices start now (str "final ") rss heap fds t) in
  let* _ := print text in
  if IS_MIXED cfg then
    match dead_slices t with
    | [] =>
        let* (segs, _) := io_res (mix_segments cfg slices None t) in
        let* _ := print (passed segs) in io_ret 0
    | dead => let* _ := print_dead t dead in io_ret 1
    end
  else if total =? 0 then
    let* _ := print (str "FAIL " ++ WORKLOAD cfg ++ str ": " ++ no_progress cfg t (WORKLOAD cfg)) in io_ret 1
  else
    let* _ := print (passed (dec total ++ str " " ++ UNIT cfg)) in io_ret 0.

Definition WORKLOAD_NAMES : list (list Z) :=
  [str "requests"; str "methods"; str "ws"; str "sse"; str "streamupload"; str "streamdownload"; str "mixed"].

(** [main]: [outcome] is how the awaited workers ended, with the tallies [t]
    they left. *)
Definition main (start now : spec_float) (outcome : res unit) (stats : res (Z * Z * option Z)) (t : tallies)
  : io line Z :=
  if decide (WORKLOAD cfg ∈ WORKLOAD_NAMES) then
    match outcome with
    | Raise e => main_except t e
    | Ok tt => main_verdict start now stats t
    end
  else let* _ := print (str "unknown VORTEX_WORKLOAD: " ++ WORKLOAD cfg) in io_ret 2.
End Verdict.

(** ** Tallies under interleaving

    The workers of a run share the tallies and only ever add to them. *)
Inductive tally_op := Bump (tag : list Z) (status : Z) | Abandon (tag : list Z) | Move (tag : list Z) (n : Z).

Definition tally (cfg : config) (t : tallies) (o : tally_op) : tallies :=
  match o with
  | Bump tag status => bump cfg tag status 1 t
  | Abandon tag => abandon tag t
  | Move tag n => move cfg tag n t
  end.

Lemma zsum_map_to_list_delete `{Countable K} (f : K * Z -> Z) (c : counter K) k v :
  c !! k = Some v -> zsum (map f (map_to_list c)) = f (k, v) + zsum (map f (map_to_list (delete k c))).
Proof. intros E. by rewrite <- (zsum_Permutation _ _ (fmap_Permutation f _ _ (map_to_list_delete c k v E))). Qed.

Lemma ok_ops_bump cfg tag status n t :
  ok_ops (bump cfg tag status n t) = ok_ops t + if is_2xx status then n else 0.
Proof.
  unfold ok_ops, bump, count_add, count. cbn [codes].
  rewrite (zsum_map_to_list_delete _ (<[status:=_]> (codes t)) status _ (lookup_insert_eq _ _ _)), delete_insert_eq.
  destruct (codes t !! status) as [v|] eqn:E; cbn -[is_2xx].
  - rewrite (zsum_map_to_list_delete _ _ _ _ E). cbn -[is_2xx]. destruct (is_2xx status); lia.
  - rewrite delete_id by done. destruct (is_2xx status); lia.
Qed.

Lemma tally_comm cfg t o o' : tally cfg (tally cfg t o) o' = tally cfg (tally cfg t o') o.
Proof.
  assert (forall n m tag tag' (x : xfers),
    add_xfer tag n (add_xfer tag' m x) = add_xfer tag' m (add_xfer tag n x)) as Hx.
  { intros. unfold add_xfer. cbn. f_equal; [lia|]. destruct tag, tag'; by rewrite 1?count_add_comm. }
  destruct o as [g1 s1|g1|g1 n1], o' as [g2 s2|g2|g2 n2]; unfold tally, bump, abandon, move; cbn -[is_2xx add_xfer];
    f_equal; try apply count_add_comm; try apply Hx.
  destruct (is_2xx s1), (is_2xx s2), (IS_MIXED cfg); cbn; try done; apply count_add_comm.
Qed.

(** Two interleavings of the same operations. *)
Lemma tallies_Permutation cfg ops ops' t :
  Permutation ops ops' -> fold_left (tally cfg) ops t = fold_left (tally cfg) ops' t.
Proof.
  intros HP. revert t. induction HP; intros t; cbn [fold_left]; [done|auto|by rewrite tally_comm|].
  by rewrite IHHP1, IHHP2.
Qed.

(** Under [mixed], every completion and every byte is charged to one slice. *)
Lemma tally_charged cfg t o :
  IS_MIXED cfg = true ->
  csum (ok_by (tally cfg t o)) - ok_ops (tally cfg t o) = csum (ok_by t) - ok_ops t /\
  csum (xfer_by (moved_bytes (tally cfg t o))) - xfer (moved_bytes (tally cfg t o))
  = csum (xfer_by (moved_bytes t)) - xfer (moved_bytes t).
Proof.
  intros Hm. destruct o as [tag status|tag|tag n]; unfold tally.
  - rewrite ok_ops_bump. unfold bump. cbn -[is_2xx]. rewrite Hm, andb_true_r.
    destruct (is_2xx status); rewrite ?csum_count_add; lia.
  - done.
  - unfold move, add_xfer. cbn. rewrite Hm. rewrite csum_count_add. unfold ok_ops. cbn. lia.
Qed.

(** ** Splitting an exception group *)

Section ExnInd.
Context (P : exn -> Prop) (Hleaf : forall e, is_group e = false -> P e)
  (Hgroup : forall base subs, Forall P subs -> P (Group base subs)).

(** Induction that reaches into groups. *)
Fixpoint exn_nested_ind (e : exn) : P e :=
  match e with
  | Group base subs =>
      Hgroup base subs ((fix go subs : Forall P subs :=
        match subs with
        | [] => @List.Forall_nil exn P
        | e :: subs' => @List.Forall_cons exn P e subs' (exn_nested_ind e) (go subs')
        end) subs)
  | e => Hleaf e eq_refl
  end.
End ExnInd.

Definition opt_leaves (o : option exn) : list exn := from_option leaf_causes [] o.

Lemma derive_group_leaves subs : opt_leaves (derive_group subs) = flat_map leaf_causes subs.
Proof. by destruct subs. Qed.

(** The two halves hold the interrupts and the other leaves, in order. *)
Lemma split_interrupts_leaves e :
  opt_leaves (split_interrupts e).1 = List.filter is_interrupt (leaf_causes e) /\
  opt_leaves (split_interrupts e).2 = List.filter (fun x => negb (is_interrupt x)) (leaf_causes e).
Proof.
  induction e as [e He|base subs IH] using exn_nested_ind.
  - destruct e; cbn in *; try done.
  - cbn [split_interrupts fst snd leaf_causes]. rewrite !derive_group_leaves.
    induction IH as [|e subs [H1 H2] _ [IH1 IH2]]; [done|]. cbn [flat_map].
    rewrite !flat_map_app, !List.filter_app, IH1, IH2, <- H1, <- H2.
    split; f_equal; by destruct (split_interrupts e) as [[x|] [y|]]; cbn; rewrite ?app_nil_r.
Qed.

Lemma derive_group_nonempty subs x :
  derive_group subs = Some x -> Forall (fun e => leaf_causes e <> []) subs -> leaf_causes x <> [].
Proof.
  destruct subs as [|e subs]; [done|]. intros [= <-] H. cbn. inversion H; subst.
  by destruct (leaf_causes e).
Qed.

Lemma split_interrupts_nonempty e :
  (forall x, (split_interrupts e).1 = Some x -> leaf_causes x <> []) /\
  (forall x, (split_interrupts e).2 = Some x -> leaf_causes x <> []).
Proof.
  induction e as [e He|base subs IH] using exn_nested_ind.
  - destruct e; cbn in *; try done; split; intros x [= <-]; done.
  - cbn [split_interrupts fst snd].
    split; intros x Hx; apply (derive_group_nonempty _ _ Hx); clear Hx;
      induction IH as [|e subs [H1 H2] _ IH']; cbn [flat_map]; [constructor| |constructor|];
      apply Forall_app; (split; [|exact IH']); destruct (split_interrupts e) as [[y|] [z|]]; cbn in *;
      repeat constructor; auto.
Qed.

Definition interrupts_of (e : exn) : list exn := List.filter is_interrupt (leaf_causes e).
Definition defects_of (e : exn) : list exn := List.filter (fun x => negb (is_interrupt x)) (leaf_causes e).

(** A half is absent exactly when it would have no leaf. *)
Lemma split_interrupts_cases e :
  match split_interrupts e with
  | (i, r) =>
      match i with None => interrupts_of e = [] | Some x => leaf_causes x = interrupts_of e /\ interrupts_of e <> [] end /\
      match r with None => defects_of e = [] | Some x => leaf_causes x = defects_of e /\ defects_of e <> [] end
  end.
Proof.
  assert (H := split_interrupts_leaves e). assert (Hn := split_interrupts_nonempty e).
  unfold interrupts_of, defects_of. destruct (split_interrupts e) as [[x|] [y|]]; cbn in *;
    destruct H as [<- <-], Hn as [H1 H2]; repeat split; auto.
Qed.

(** ** What [main] prints *)

Definition fail_line (cfg : config) (cause : list Z) : line :=
  Text (str "FAIL " ++ WORKLOAD cfg ++ str ": " ++ cause).

(** [main] printed a FAIL line for [cause], with the tallies behind it. *)
Definition fails_with (cfg : config) (out : list line) (cause : list Z) : Prop :=
  exists more, In (fail_line cfg (cause ++ more)) out.

Lemma print_fail_ok cfg slices t cause tail :
  mix_tail cfg slices t = Ok tail ->
  print_fail cfg slices t cause = ([fail_line cfg (cause ++ str " (" ++ fmt_codes t ++ str ")" ++ tail)], Ok tt).
Proof. intros H. unfold print_fail. by rewrite H. Qed.

Lemma bind_Ok {A B} (m : res A) (k : A -> res B) b : m ≫= k = Ok b -> exists a, m = Ok a /\ k a = Ok b.
Proof. destruct m as [a|e]; [|done]. by exists a. Qed.

(** Tallies up to the reporter's own marks. *)
Record same_counts (t t' : tallies) : Prop := SameCounts {
  same_codes : codes t = codes t'; same_ok_by : ok_by t = ok_by t';
  same_abandoned : abandoned t = abandoned t'; same_moved : moved_bytes t = moved_bytes t' }.

#[export] Instance same_counts_equiv : Equivalence same_counts.
Proof.
  split; [by split|by intros ? ? [? ? ? ?]; split|].
  intros t1 t2 t3 [H1 H2 H3 H4] [K1 K2 K3 K4]. split; congruence.
Qed.

(** A report line moves its own marks only. *)
Lemma report_line_counts cfg slices start now prefix rss heap fds t text t' :
  report_line cfg slices start now prefix rss heap fds t = Ok (text, t') -> same_counts t' t.
Proof.
  unfold report_line. intros H. apply bind_Ok in H as (secs & _ & H). apply bind_Ok in H as ([seg t1] & Hseg & H).
  injection H as _ <-. destruct (IS_MIXED cfg); [|destruct (STREAMING cfg)].
  - apply bind_Ok in Hseg as ([s1 t2] & Hm & Hseg). injection Hseg as _ <-.
    unfold mix_segments in Hm. apply bind_Ok in Hm as ([parts last] & _ & Hm). by injection Hm as _ <-.
  - unfold fmt_xfer in Hseg. apply bind_Ok in Hseg as (rate & _ & Hseg). by injection Hseg as _ <-.
  - unfold fmt_rate in Hseg. apply bind_Ok in Hseg as (rate & _ & Hseg). by injection Hseg as _ <-.
Qed.

Lemma print_dead_out cfg t dead :
  print_dead cfg t dead = (map (fun tag => fail_line cfg (tag ++ str ": " ++ no_progress cfg t tag)) dead, Ok tt).
Proof.
  unfold print_dead. induction dead as [|tag dead IH]; [done|]. cbn [io_fold io_bind print map].
  rewrite IH. reflexivity.
Qed.

(** What an exit code of [main] vouches for. *)
Definition vouches (cfg : config) (slices : list (list Z * Z)) (outcome : res unit) (t : tallies)
  (out : list line) (n : Z) : Prop :=
  (n = 0 /\ outcome = Ok tt /\
   (if IS_MIXED cfg then Forall (fun tag => count (ok_by t) tag <> 0) (akeys slices) else ok_ops t <> 0) /\
   exists what, last out = Some (Text (passed cfg what))) \/
  (n = 1 /\ exists cause, fails_with cfg out cause).

Lemma dead_slices_nil slices t :
  dead_slices slices t = [] -> Forall (fun tag => count (ok_by t) tag <> 0) (akeys slices).
Proof.
  unfold dead_slices. intros H. apply Forall_forall. intros tag Hin Hz.
  assert (In tag (List.filter (fun tag => count (ok_by t) tag =? 0) (akeys slices))) as Hf.
  { apply filter_In. split; [by apply list_elem_of_In|]. by apply Z.eqb_eq. }
  by rewrite H in Hf.
Qed.

Lemma main_verdict_vouches cfg slices start now stats t out n :
  main_verdict cfg slices start now stats t = (out, Ok n) -> vouches cfg slices (Ok tt) t out n.
Proof.
  unfold main_verdict. set (st := match stats with Ok _ => _ | Raise _ => _ end).
  destruct st as [o0 [[[rss heap] fds]|e]]; cbn [io_bind]; [|done].
  unfold io_res at 1. destruct (report_line _ _ _ _ _ _ _ _ _) as [[text t1]|e] eqn:Er; cbn [io_bind]; [|done].
  assert (Hok := same_ok_by _ _ (report_line_counts _ _ _ _ _ _ _ _ _ _ _ Er)). cbn [print].
  assert (dead_slices slices t1 = dead_slices slices t) as -> by (unfold dead_slices; by rewrite Hok).
  unfold vouches. destruct (IS_MIXED cfg).
  - destruct (dead_slices slices t) as [|d dead] eqn:Ed.
    + unfold io_res. destruct (mix_segments _ _ _ _) as [[segs t2]|]; cbn; [|done]. intros [= <- <-]. left.
      split; [done|]. split; [done|]. split; [by apply dead_slices_nil|]. exists segs. by rewrite last_app.
    + rewrite print_dead_out. cbn. intros [= <- <-]. right. split; [done|].
      eexists d. eexists. apply in_or_app. right. right. left. reflexivity.
  - destruct (Z.eqb_spec (ok_ops t) 0) as [|Hz]; cbn; intros [= <- <-].
    + right. split; [done|]. eexists (no_progress cfg t1 (WORKLOAD cfg)). exists []. rewrite app_nil_r.
      apply in_or_app. right. right. left. reflexivity.
    + left. repeat split; [done|]. eexists. by rewrite last_app.
Qed.
Lemma print_fail_out cfg slices t cause out :
  print_fail cfg slices t cause = (out, Ok tt) -> fails_with cfg out cause.
Proof.
  unfold print_fail, io_res. destruct (mix_tail cfg slices t) as [tail|]; cbn; [|done]. intros [= <-].
  eexists. left. reflexivity.
Qed.

Lemma fails_with_app cfg out out' cause : fails_with cfg out cause -> fails_with cfg (out ++ out') cause.
Proof. intros [more H]. exists more. apply in_or_app. by left. Qed.

(** A printed failure followed by an exit code. *)
Lemma failed_exit cfg (m : io line unit) (k : io line Z) out n :
  (forall o, m = (o, Ok tt) -> exists cause, fails_with cfg o cause) -> (k = io_ret 1 \/ exists e, k = io_raise e) ->
  io_bind m (fun _ => k) = (out, Ok n) -> n = 1 /\ exists cause, fails_with cfg out cause.
Proof.
  intros Hm Hk. destruct m as [o [[]|e]]; [|done]. destruct (Hm o eq_refl) as [cause Hc].
  destruct Hk as [-> | [e ->]]; cbn; [|done]. intros [= <- <-]. split; [done|]. exists cause. by apply fails_with_app.
Qed.

Lemma print_cause_fails cfg slices t e o :
  print_cause cfg slices t e = (o, Ok tt) -> exists cause, fails_with cfg o cause.
Proof.
  unfold print_cause. destruct (print_fail _ _ _ _) as [o' [[]|e']] eqn:E; cbn; [|done].
  intros [= <-]. eexists. eapply fails_with_app, print_fail_out, E.
Qed.

Lemma main_except_fails cfg slices t e out n :
  main_except cfg slices t e = (out, Ok n) -> n = 1 /\ exists cause, fails_with cfg out cause.
Proof.
  assert (forall m o, print_fail cfg slices t m = (o, Ok tt) -> exists cause, fails_with cfg o cause) as Hf.
  { intros m o H. eexists. by eapply print_fail_out. }
  assert (forall e o, print_cause cfg slices t e = (o, Ok tt) -> exists cause, fails_with cfg o cause) as Hc.
  { intros e' o. apply print_cause_fails. }
  destruct e; cbn [main_except is_Exception]; try done; try (apply failed_exit; [|by left]; eauto).
  destruct (split_interrupts _) as [i [r|]]; [|done]. apply failed_exit; [by apply Hc|].
  destruct i; [right; by eexists|by left].
Qed.

Lemma main_vouches cfg slices start now outcome stats t out n :
  WORKLOAD cfg ∈ WORKLOAD_NAMES -> main cfg slices start now outcome stats t = (out, Ok n) ->
  vouches cfg slices outcome t out n.
Proof.
  intros Hw. unfold main. rewrite decide_True by done. destruct outcome as [[]|e]; [by apply main_verdict_vouches|].
  intros E. right. by eapply main_except_fails.
Qed.

Lemma main_known cfg slices start now outcome stats t out :
  main cfg slices start now outcome stats t = (out, Ok 0) -> WORKLOAD cfg ∈ WORKLOAD_NAMES.
Proof. unfold main. by destruct (decide _). Qed.

(** The pass line of a cell that is not [mixed] names its total. *)
Lemma main_total cfg slices start now outcome stats t out :
  IS_MIXED cfg = false -> WORKLOAD cfg ∈ WORKLOAD_NAMES -> main cfg slices start now outcome stats t = (out, Ok 0) ->
  last out = Some (Text (passed cfg (dec (ok_ops t) ++ str " " ++ UNIT cfg))).
Proof.
  intros Hm Hw. unfold main. rewrite decide_True by done. destruct outcome as [[]|e].
  2: { intros E. by destruct (main_except_fails _ _ _ _ _ _ E). }
  unfold main_verdict. set (st := match stats with Ok _ => _ | Raise _ => _ end).
  destruct st as [o0 [[[rss heap] fds]|e]]; cbn [io_bind]; [|done].
  unfold io_res. destruct (report_line _ _ _ _ _ _ _ _ _) as [[text t1]|e]; cbn [io_bind]; [|done]. cbn [print].
  rewrite Hm. destruct (ok_ops t =? 0); cbn; intros [= <-]. by rewrite last_app.
Qed.

(** ** Properties *)

(** C4: exit 0 means verified work.  [main] returns 0 only for a known workload
    whose workers all ended normally and that completed something, under [mixed]
    in every slice, and it has then printed the pass banner last; it returns 1
    only with a FAIL line printed, 2 only for an unknown workload, and no other
    code. *)
Theorem main_exit_codes cfg slices start now outcome stats t :
  let '(out, r) := main cfg slices start now outcome stats t in
  (r = Ok 0 -> WORKLOAD cfg ∈ WORKLOAD_NAMES /\ outcome = Ok tt /\
     (if IS_MIXED cfg then Forall (fun tag => count (ok_by t) tag <> 0) (akeys slices) else ok_ops t <> 0) /\
     exists what, last out = Some (Text (passed cfg what))) /\
  (r = Ok 1 -> exists cause, fails_with cfg out cause) /\
  (r = Ok 2 -> WORKLOAD cfg ∉ WORKLOAD_NAMES) /\
  (forall n, r = Ok n -> n = 0 \/ n = 1 \/ n = 2).
Proof.
  destruct (main _ _ _ _ _ _ _) as [out r] eqn:E. destruct (decide (WORKLOAD cfg ∈ WORKLOAD_NAMES)) as [Hw|Hw].
  - assert (forall n, r = Ok n -> vouches cfg slices outcome t out n) as H by (intros n ->; by eapply main_vouches).
    repeat split; intros.
    all: match goal with Hr : _ = Ok _ |- _ => destruct (H _ Hr) as [(? & ? & ? & ?)|(? & ?)]; try lia; eauto end.
  - unfold main in E. rewrite decide_False in E by done. cbn in E. injection E as <- <-.
    repeat split; intros; simplify_eq; auto.
Qed.

(** The text of the defects of a group: the first three with their types, and how
    many more there are. *)
Definition described (ds : list exn) : list Z :=
  join (str "; ") (map (fun x => type_name x ++ str ": " ++ exn_text x) (take 3 ds))
  ++ (if 3 <? len ds then str "; (+" ++ dec (len ds - 3) ++ str " more)" else []).

Definition group_text (ds : list exn) : list Z :=
  (if forallb is_Exception ds then str "ExceptionGroup" else str "BaseExceptionGroup") ++ str "[" ++ described ds ++ str "]".

(** A derived half is an [ExceptionGroup] exactly when all its leaves are
    [Exception]s. *)
Lemma derive_group_exception subs x :
  derive_group subs = Some x -> Forall (fun e => is_Exception e = forallb is_Exception (leaf_causes e)) subs ->
  is_Exception x = forallb is_Exception (leaf_causes x).
Proof.
  destruct subs as [|e subs]; [done|]. intros E.
  assert (x = Group (negb (forallb is_Exception (e :: subs))) (e :: subs)) as -> by (by injection E).
  clear E. generalize (e :: subs) as l. intros l H. cbn [is_Exception leaf_causes]. rewrite negb_involutive.
  induction H as [|e' l He _ IH]; [done|]. cbn [forallb flat_map]. by rewrite forallb_app, He, IH.
Qed.

Lemma split_rest_exception e x :
  (split_interrupts e).2 = Some x -> is_Exception x = forallb is_Exception (leaf_causes x).
Proof.
  revert x. induction e as [e He|base subs IH] using exn_nested_ind; intros x.
  - destruct e; cbn in *; try done; intros [= <-]; done.
  - cbn [split_interrupts snd]. intros Hx. apply (derive_group_exception _ _ Hx). clear Hx.
    induction IH as [|e subs H1 _ IH']; cbn [flat_map]; [constructor|].
    apply Forall_app. split; [|exact IH']. destruct (split_interrupts e) as [y [z|]]; cbn in *; repeat constructor; auto.
Qed.

Lemma split_rest_group base subs x : (split_interrupts (Group base subs)).2 = Some x -> is_group x = true.
Proof. cbn [split_interrupts snd]. destruct (flat_map _ _); [done|]. by intros [= <-]. Qed.

Lemma cause_text_rest e x :
  is_group e = true -> (split_interrupts e).2 = Some x -> leaf_causes x = defects_of e -> cause_text x = group_text (defects_of e).
Proof.
  intros Hg Hx Hl. destruct e; try done. assert (Hgx := split_rest_group _ _ _ Hx). assert (Hex := split_rest_exception _ _ Hx).
  unfold cause_text, group_text, described. rewrite Hgx, <- Hl, <- Hex. destruct x as [| | | | | | | | | | | | | | | | | | |b subs']; try done.
  cbn [type_name is_Exception]. rewrite <- !app_assoc. destruct b; cbn [negb]; destruct (3 <? _); by rewrite ?app_nil_r, <- ?app_assoc.
Qed.

(** What the tallies add to a FAIL line. *)
Definition with_tallies (cfg : config) (t : tallies) (tail cause : list Z) : line :=
  fail_line cfg (cause ++ str " (" ++ fmt_codes t ++ str ")" ++ tail).

Definition stall_text : list Z := str "workers did not stop within deadline+60s (stall)".

(** C20: how the end of the workers is reported, for every exception they can end
    with.  A [Fail] prints exactly its own text, a [TimeoutError] the stall, any
    other [Exception] its type and text with its traceback, all with exit 1.  A
    group prints its leaves that are not interrupts: the type and text of the
    first three and the number of the rest, and the traceback of a group with
    exactly those leaves; the code is 1 if it held no interrupt, and otherwise
    exactly its interrupts are raised again.  A group of interrupts only, a bare
    interrupt and a cancellation propagate unchanged and print nothing. *)
Theorem main_reports_failures cfg slices start now stats t e tail :
  WORKLOAD cfg ∈ WORKLOAD_NAMES -> mix_tail cfg slices t = Ok tail ->
  let '(out, r) := main cfg slices start now (Raise e) stats t in
  let failure := with_tallies cfg t tail in
  match e with
  | Fail m => out = [failure m] /\ r = Ok 1
  | TimeoutError _ => out = [failure stall_text] /\ r = Ok 1
  | Group _ _ =>
      if decide (defects_of e = []) then out = [] /\ r = Raise e
      else (exists rest, leaf_causes rest = defects_of e /\
              out = [failure (str "unexpected " ++ group_text (defects_of e)); Traceback rest]) /\
           if decide (interrupts_of e = []) then r = Ok 1
           else exists i, r = Raise i /\ leaf_causes i = interrupts_of e
  | _ =>
      if is_Exception e
      then out = [failure (str "unexpected " ++ type_name e ++ str ": " ++ exn_text e); Traceback e] /\ r = Ok 1
      else out = [] /\ r = Raise e
  end.
Proof.
  intros Hw Ht. unfold main. rewrite decide_True by done.
  assert (forall x, print_cause cfg slices t x
    = ([with_tallies cfg t tail (str "unexpected " ++ cause_text x); Traceback x], Ok tt)) as Hp.
  { intros x. unfold print_cause. by rewrite (print_fail_ok _ _ _ _ _ Ht). }
  destruct e; cbn [main_except is_Exception]; try done; try (rewrite Hp; done).
  1-2: rewrite (print_fail_ok _ _ _ _ _ Ht); done.
  assert (H := split_interrupts_cases (Group base subs)).
  assert (Hc := cause_text_rest (Group base subs)).
  destruct (split_interrupts _) as [i [r|]], H as [Hi Hr]; [|unfold io_raise; cbv zeta; by rewrite decide_True].
  rewrite Hp. destruct Hr as [Hr Hne], i as [i|]; cbn [io_bind io_raise io_ret app]; cbv zeta;
    rewrite (decide_False (P := defects_of _ = [])), (Hc r) by done.
  - destruct Hi as [Hi Hni]. rewrite decide_False by done. split; [by exists r|by exists i].
  - rewrite decide_True by done. split; [by exists r|done].
Qed.

Definition demo_mixed : config :=
  Config (str "mixed") (str "h2") (str "sync") (str "https://server:8443") 60 3 32 1048576 60
         (str "gzip") (str "gzip").

(** Four defects and an interrupt. *)
Lemma main_reports_failures_witness :
  let e := Group true [KeyboardInterrupt; Group false [Fail (str "ws echo mismatch"); ValueError (str "bad"); ConnectionError []];
                       RuntimeError (str "late")] in
  let '(out, r) := main demo_mixed [(str "ws", 2)] fzero fzero (Raise e) (Ok (0, 0, None)) no_tallies in
  (exists rest, leaf_causes rest = [Fail (str "ws echo mismatch"); ValueError (str "bad"); ConnectionError []; RuntimeError (str "late")] /\
     out = [with_tallies demo_mixed no_tallies (str " [ws 0 msgs]")
              (str "unexpected ExceptionGroup[Fail: ws echo mismatch; ValueError: bad; ConnectionError: ; (+1 more)]"); Traceback rest]) /\
  exists i, r = Raise i /\ leaf_causes i = [KeyboardInterrupt].
Proof.
  intros e.
  assert (H := main_reports_failures demo_mixed [(str "ws", 2)] fzero fzero (Ok (0, 0, None)) no_tallies e
    (str " [ws 0 msgs]") ltac:(vm_compute; repeat (left || right)) ltac:(vm_compute; reflexivity)).
  destruct (main _ _ _ _ _ _ _) as [out r]. exact H.
Defined.

(** C33: the shared tallies do not depend on how the workers interleave: any two
    interleavings of the same completions, abandonments and byte counts leave
    the same state.  From a fresh start under [mixed], the per-slice completions
    add up to the 2xx total and the per-slice bytes to the bytes moved. *)
Theorem tallies_interleaving cfg ops ops' :
  Permutation ops ops' ->
  fold_left (tally cfg) ops no_tallies = fold_left (tally cfg) ops' no_tallies /\
  (IS_MIXED cfg = true ->
   let t := fold_left (tally cfg) ops no_tallies in
   csum (ok_by t) = ok_ops t /\ csum (xfer_by (moved_bytes t)) = xfer (moved_bytes t)).
Proof.
  intros HP. split; [by apply tallies_Permutation|]. intros Hm. cbv zeta.
  assert (forall t, let t' := fold_left (tally cfg) ops t in
    csum (ok_by t') - ok_ops t' = csum (ok_by t) - ok_ops t /\
    csum (xfer_by (moved_bytes t')) - xfer (moved_bytes t') = csum (xfer_by (moved_bytes t)) - xfer (moved_bytes t)) as H.
  { clear HP. induction ops as [|o ops IH]; intros t; cbn [fold_left]; [done|].
    destruct (IH (tally cfg t o)) as [-> ->]. by apply tally_charged. }
  destruct (H no_tallies) as [H1 H2]. cbv zeta in *.
  change (csum (ok_by no_tallies) - ok_ops no_tallies) with 0 in H1.
  change (csum (xfer_by (moved_bytes no_tallies)) - xfer (moved_bytes no_tallies)) with 0 in H2. lia.
Qed.

Lemma tallies_interleaving_witness :
  let ops := [Bump (str "ws") 200; Move (str "streamupload") 65536; Bump (str "requests") 200] in
  let ops' := [Bump (str "requests") 200; Bump (str "ws") 200; Move (str "streamupload") 65536] in
  fold_left (tally demo_mixed) ops no_tallies = fold_left (tally demo_mixed) ops' no_tallies /\
  (IS_MIXED demo_mixed = true ->
   let t := fold_left (tally demo_mixed) ops no_tallies in
   csum (ok_by t) = ok_ops t /\ csum (xfer_by (moved_bytes t)) = xfer (moved_bytes t)).
Proof.
  apply (tallies_interleaving demo_mixed [Bump (str "ws") 200; Move (str "streamupload") 65536; Bump (str "requests") 200]
    [Bump (str "requests") 200; Bump (str "ws") 200; Move (str "streamupload") 65536]).
  apply Permutation_sym. eapply perm_trans; [apply perm_swap|apply perm_skip, perm_swap].
Defined.
