(* ===== verification/Workloads.v ===== *)
(** * The workloads of the stress client

    [stress_client.py]: [drive], [ramped] and the [once] coroutine of each
    workload, as coroutines against a scripted environment ([Coro]).  The
    session is the environment: [session()]'s entry and exit, its replies and
    its exceptions are answers, and so is the clock.  A worker reaches the
    shared tallies only by adding to them, so its run records the additions
    ([marks]) in order. *)
From S2P Require Import Prelude PyFloat PyDouble Coro Mix WsFrame H3Client Transport Payload Report.
#[local] Open Scope Z_scope.
#[local] Open Scope coro_scope.

(** ** The conversation *)

Abbreviation header_list := (list (list Z * list Z)) (only parsing).

Inductive op :=
| Monotonic                                          (** [time.monotonic()] *)
| Sleep (d : spec_float)                             (** [asyncio.sleep(d)] *)
| Connect | Disconnect                               (** entry and exit of [session()] *)
| Request (method path : list Z) (headers : header_list) (body : list Z)
| StreamStart (method path : list Z) (headers : header_list)  (** [s.stream(...)] and its first item *)
| StreamNext                                         (** the next chunk of the [async for] *)
| UploadProbe (path : list Z) (headers : header_list)   (** the upload of [wrong_sha_gen()] *)
| UploadBody (path : list Z) (headers : header_list) (timeout : spec_float)
                                                     (** [wait_for(s.upload(..., body_gen()), timeout)] *)
| WsOpen (path : list Z)                             (** [s.ws_open] *)
| WsSend (opcode : Z) (payload : list Z) | WsRecv    (** the h3 tunnel *)
| WsConnect (url : list Z) (timeout : spec_float) | WsExit  (** entry and exit of [websockets.connect] *)
| WsSendText (msg : list Z) | WsRecvMsg.

Inductive answer :=
| ATime (t : spec_float)
| ADone
| AReply (status : Z) (ct body : list Z)
| AStatus (status : Z)
| AChunk (c : list Z)
| AEnd
| AUpload (pulled : nat) (r : res Z)   (** chunks taken from [body_gen], and the result *)
| AFrame (opcode : Z) (payload : list Z)
| AText (s : list Z)
| ABinary (b : list Z)
| ARaise (e : exn).

Definition read_time (a : answer) : option (res spec_float) :=
  match a with ATime t => Some (Ok t) | _ => None end.
Definition read_done (a : answer) : option (res unit) :=
  match a with ADone => Some (Ok tt) | ARaise e => Some (Raise e) | _ => None end.
Definition read_reply (a : answer) : option (res (Z * list Z * list Z)) :=
  match a with AReply st ct b => Some (Ok (st, ct, b)) | ARaise e => Some (Raise e) | _ => None end.
Definition read_status (a : answer) : option (res Z) :=
  match a with AStatus st => Some (Ok st) | ARaise e => Some (Raise e) | _ => None end.
Definition read_chunk (a : answer) : option (res (option (list Z))) :=
  match a with AChunk c => Some (Ok (Some c)) | AEnd => Some (Ok None) | ARaise e => Some (Raise e) | _ => None end.
Definition read_upload (a : answer) : option (res (nat * res Z)) :=
  match a with AUpload k r => Some (Ok (k, r)) | _ => None end.
Definition read_frame (a : answer) : option (res (Z * list Z)) :=
  match a with AFrame o p => Some (Ok (o, p)) | ARaise e => Some (Raise e) | _ => None end.
Definition read_msg (a : answer) : option (res (list Z + list Z)) :=
  match a with AText s => Some (Ok (inl s)) | ABinary b => Some (Ok (inr b)) | ARaise e => Some (Raise e) | _ => None end.

(** What a worker keeps: the additions made to the tallies, its [slowest] cell,
    and the [counted] cell of the current upload. *)
Record wstate := WState { marks : list tally_op; slowest : spec_float; counted : bool }.

Abbreviation run := (coro op answer wstate) (only parsing).
Abbreviation wrld := (world op answer wstate) (only parsing).

Section Workloads.
Context (cfg : config) (tag : list Z) (deadline : spec_float).
(** [str.lower] and [repr] beyond ASCII, and [int] on a non-ASCII text. *)
Context (lower_uni : list Z -> list Z) (repr : list Z -> list Z) (int_uni : list Z -> res Z).

Definition clock : run spec_float := perform Monotonic read_time.
Definition sleep (d : spec_float) : run unit := perform (Sleep d) read_done.

Definition mark (o : tally_op) : run unit :=
  modify (fun s => WState (marks s ++ [o]) (slowest s) (counted s)).
Definition bump (status : Z) : run unit := mark (Bump tag status).

(** [async with session() as s: body] *)
Definition with_session {R} (body : run R) : run R :=
  perform Connect read_done;; finally body (perform Disconnect read_done).

Definition request (method path : list Z) (headers : header_list) (body : list Z) : run (Z * list Z * list Z) :=
  perform (Request method path headers body) read_reply.

(** [if bad: raise Fail(msg)] *)
Definition fail_if (bad : bool) (msg : list Z) : run unit := if bad then throw (Fail msg) else ret tt.

(** [while time.monotonic() < deadline: x = body(x)] *)
Definition until_deadline {X} (body : X -> run X) (x : X) : run X :=
  iter (fun x => let! now := clock in
                 if flt now deadline then let! x' := body x in ret (inl x') else ret (inr x)) x.

(** ** [drive] and [ramped] *)

Definition drive_except (e : exn) : option (run unit) :=
  match e with
  | ProtocolPinError m => Some (throw (Fail (str "protocol pin: " ++ m)))
  | HttpxTransportError _ _ | WebSocketException _ _ | ConnectionError _ | TimeoutError _ | OSError _ _ =>
      Some (throw (Fail (str "transport error (" ++ type_name e ++ str "): " ++ exn_text e)))
  | _ => None
  end.

Definition drive (worker : run unit) : run unit :=
  until_deadline (fun _ => catch worker drive_except) tt.

Definition WS_OPEN_TIMEOUT : spec_float :=
  fmax (flit 60 0) (fmul (fmul (flit 1 (-1)) (flit (CLIENTS cfg) 0)) (flit (CONC cfg) 0)).
Definition WS_RAMP : spec_float :=
  fmin (flit 5 0) (fmax fzero (fdiv (flit (SECONDS cfg) 0) (flit 10 0))).

Definition ws_ramp_delay (i conc : Z) : spec_float :=
  if 1 <? conc then fdiv (fmul WS_RAMP (flit i 0)) (flit conc 0) else fzero.

Definition ramped (i : Z) (worker : run unit) (conc : Z) : run unit :=
  let d := ws_ramp_delay i conc in
  (if flt fzero d then sleep d else ret tt);;
  drive worker.

(** ** [w_requests] and [w_methods] *)

Record prepared := Prepared { p_ctype : list Z; p_raw : list Z; p_body : list Z; p_headers : header_list }.

Definition accept_headers : header_list :=
  match ACCEPT cfg with Some a => [(str "accept-encoding", a)] | None => [] end.

Definition prepare (gzip brotli zstd : list Z -> list Z) (mix : list (list Z * list Z)) : res (list prepared) :=
  res_map (fun cr =>
    '(body, enc) ← compress gzip brotli zstd cfg cr.2;
    Ok (Prepared cr.1 cr.2 body
          ([(str "content-type", cr.1)]
           ++ match enc with Some e => [(str "content-encoding", e)] | None => [] end ++ accept_headers))) mix.

(** [l[k % len(l)]] *)
Definition cycle {X} (l : list X) (k : nat) : run X :=
  match l !! (k mod length l)%nat with
  | Some x => ret x
  | None => throw (OtherException (str "ZeroDivisionError") (str "integer modulo by zero"))
  end.

Definition lowered (s : list Z) : list Z := lower lower_uni s.

Definition get_step (g : list Z * list Z * list Z) : run unit :=
  let '(path, want_ct, want_body) := g in
  let! (st, ct, b) := request (str "GET") path accept_headers [] in
  fail_if (bool_decide (st <> 200)) (str "GET " ++ path ++ str " -> " ++ dec st);;
  fail_if (bool_decide (lowered ct <> lowered want_ct))
    (str "GET " ++ path ++ str " content-type: want " ++ repr want_ct ++ str " got " ++ repr ct);;
  fail_if (bool_decide (b <> want_body))
    (str "GET " ++ path ++ str " body " ++ dec (len b) ++ str "B (want " ++ dec (len want_body) ++ str "B)");;
  bump 200.

Definition echo_step (p : prepared) (meth : list Z) : run unit :=
  let! (st, ct, b) := request meth (str "/echo") (p_headers p) (p_body p) in
  fail_if (bool_decide (st <> 200 \/ b <> p_raw p))
    (meth ++ str " /echo -> " ++ dec st ++ str ", " ++ dec (len b) ++ str "B (want " ++ dec (len (p_raw p)) ++ str "B)");;
  fail_if (bool_decide (lowered ct <> lowered (p_ctype p)))
    (meth ++ str " /echo content-type: want " ++ repr (p_ctype p) ++ str " got " ++ repr ct);;
  bump 200.

Definition requests_once (gets : list (list Z * list Z * list Z)) (prep : list prepared) : run unit :=
  with_session (
    let! _ := until_deadline (fun k =>
      let! g := cycle gets k in get_step g;;
      let! p := cycle prep k in
      for_each [str "POST"; str "PUT"] (fun _ => echo_step p) tt;;
      ret (S k)) O in ret tt).

Definition methods_once (prep : list prepared) : run unit :=
  with_session (
    let! _ := until_deadline (fun k =>
      let! (st, _ct, b) := request (str "GET") (str "/plaintext") accept_headers [] in
      fail_if (bool_decide (st <> 200 \/ b <> str "Hello, World!")) (str "GET /plaintext -> " ++ dec st);;
      bump 200;;
      let! p := cycle prep k in
      for_each [str "POST"; str "PUT"; str "DELETE"; str "PATCH"] (fun _ => echo_step p) tt;;
      let! (st, _ct, b) := request (str "HEAD") (str "/echo") accept_headers [] in
      fail_if (bool_decide (st <> 200 \/ b <> []))
        (str "HEAD /echo -> " ++ dec st ++ str ", " ++ dec (len b) ++ str "B (want 0)");;
      bump 200;;
      let! (st, _ct, _) := request (str "OPTIONS") (str "/echo") [] [] in
      fail_if (bool_decide (st <> 200 /\ st <> 204)) (str "OPTIONS /echo -> " ++ dec st);;
      bump st;;
      ret (S k)) O in ret tt).

(** ** [w_ws] *)

Definition ws_msg (i n : Z) : list Z := str "msg-" ++ dec i ++ str "-" ++ dec n.

Definition ws_once_h3 (i : Z) : run unit :=
  with_session (
    let! st := perform (WsOpen (str "/ws")) read_status in
    fail_if (bool_decide (st <> 200)) (str "ws-h3 handshake " ++ dec st);;
    let! _ := until_deadline (fun n =>
      let msg := encode (ws_msg i n) in
      perform (WsSend 1 msg) read_done;;
      let! (o, payload) := perform WsRecv read_frame in
      fail_if (bool_decide (o <> 1 \/ payload <> msg))
        (str "ws-h3 echo mismatch: op=" ++ dec o ++ str " " ++ repr payload);;
      bump 200;;
      ret (n + 1)) 0 in ret tt).

(** [BASE.replace("https://", "wss://").replace("http://", "ws://") + "/ws"] *)
Definition ws_url : list Z :=
  replace (str "http://") (str "ws://") (replace (str "https://") (str "wss://") (BASE cfg)) ++ str "/ws".

Definition ws_once (i : Z) : run unit :=
  perform (WsConnect ws_url WS_OPEN_TIMEOUT) read_done;;
  finally (
    let! _ := until_deadline (fun n =>
      let msg := ws_msg i n in
      perform (WsSendText msg) read_done;;
      let! r := perform WsRecvMsg read_msg in
      fail_if (bool_decide (r <> inl msg)) (str "ws echo mismatch");;
      bump 200;;
      ret (n + 1)) 0 in ret tt) (perform WsExit read_done).

(** ** [read_lines] and [w_sse] *)

(** [b.decode("utf-8", "replace")]: one U+FFFD per maximal ill-formed prefix. *)
Definition is_cont (lo hi c : Z) : bool := (lo <=? c) && (c <=? hi).

Fixpoint decode_utf8 (s : list Z) : list Z :=
  match s with
  | [] => []
  | b0 :: s1 =>
      if b0 <? 128 then b0 :: decode_utf8 s1
      else if is_cont 194 223 b0 then
        match s1 with
        | b1 :: s2 => if is_cont 128 191 b1 then ((b0 - 192) * 64 + (b1 - 128)) :: decode_utf8 s2
                      else 65533 :: decode_utf8 s1
        | [] => [65533]
        end
      else if is_cont 224 239 b0 then
        let lo := if b0 =? 224 then 160 else 128 in
        let hi := if b0 =? 237 then 159 else 191 in
        match s1 with
        | b1 :: s2 =>
            if is_cont lo hi b1 then
              match s2 with
              | b2 :: s3 => if is_cont 128 191 b2
                            then ((b0 - 224) * 4096 + (b1 - 128) * 64 + (b2 - 128)) :: decode_utf8 s3
                            else 65533 :: decode_utf8 s2
              | [] => [65533]
              end
            else 65533 :: decode_utf8 s1
        | [] => [65533]
        end
      else if is_cont 240 244 b0 then
        let lo := if b0 =? 240 then 144 else 128 in
        let hi := if b0 =? 244 then 143 else 191 in
        match s1 with
        | b1 :: s2 =>
            if is_cont lo hi b1 then
              match s2 with
              | b2 :: s3 =>
                  if is_cont 128 191 b2 then
                    match s3 with
                    | b3 :: s4 =>
                        if is_cont 128 191 b3
                        then ((b0 - 240) * 262144 + (b1 - 128) * 4096 + (b2 - 128) * 64 + (b3 - 128)) :: decode_utf8 s4
                        else 65533 :: decode_utf8 s3
                    | [] => [65533]
                    end
                  else 65533 :: decode_utf8 s2
              | [] => [65533]
              end
            else 65533 :: decode_utf8 s1
        | [] => [65533]
        end
      else 65533 :: decode_utf8 s1
  end.

(** [read_lines] with [buf] and one more chunk: the lines it yields, and the
    new [buf].  What is left when the stream ends is never yielded. *)
Definition read_lines (buf chunk : list Z) : list (list Z) * list Z :=
  let fields := split_on 10 (buf ++ chunk) in
  (map (fun l => decode_utf8 (rstrip_with (fun c => c =? 13) l)) (removelast fields), default [] (last fields)).

Definition sse_total : Z := 100.
Definition sse_batch : Z := 20.
Definition seqs_per_conn : nat := 2000.

(** The variables of one connection: [got], [last], [cur_id], [progressed],
    [this_batch]. *)
Record sse := Sse { got : Z; last_id : option Z; cur_id : option Z; progressed : bool; this_batch : Z }.

Definition sse_line (s : sse) (line : list Z) : run sse :=
  if starts_with (str "id:") line then
    let! n := lift (int_str int_uni (strip (drop 3 line))) in
    ret (Sse (got s) (last_id s) (Some n) (progressed s) (this_batch s))
  else
    match starts_with (str "data:") line, cur_id s with
    | true, Some id =>
        fail_if (bool_decide (id <> got s)) (str "sse out of order: " ++ dec id ++ str " != " ++ dec (got s));;
        bump 200;;
        ret (Sse (got s + 1) (Some id) None true (this_batch s + 1))
    | _, _ => ret s
    end.

(** [async for line in read_lines(gen): ...] *)
Definition sse_lines (s : sse) : run sse :=
  iter (fun '(s, buf) =>
    let! c := perform StreamNext read_chunk in
    match c with
    | None => ret (inr s)
    | Some c =>
        let '(lines, buf') := read_lines buf c in
        let! s' := for_each lines sse_line s in
        ret (inl (s', buf'))
    end) (s, []).

Definition sse_headers (last : option Z) : header_list :=
  (str "accept", str "text/event-stream")
  :: match last with Some n => [(str "last-event-id", dec n)] | None => [] end.

(** One connection of the sequence, from [got] and [last]. *)
Definition sse_connection (gl : Z * option Z) : run (Z * option Z) :=
  let '(got0, last0) := gl in
  let! status := perform (StreamStart (str "GET") (str "/sse") (sse_headers last0)) read_status in
  fail_if (bool_decide (status <> 200)) (str "sse status " ++ dec status);;
  let! s := sse_lines (Sse got0 last0 None false 0) in
  fail_if (negb (progressed s)) (str "sse made no progress");;
  fail_if ((got s <? sse_total) && negb (this_batch s =? sse_batch))
    (str "sse short batch: " ++ dec (this_batch s) ++ str " events before close (want " ++ dec sse_batch
     ++ str "), got=" ++ dec (got s));;
  ret (got s, last_id s).

(** [got, last = 0, None; while got < total: ...] *)
Definition sse_sequence : run (Z * option Z) :=
  iter (fun gl => if gl.1 <? sse_total then let! gl' := sse_connection gl in ret (inl gl') else ret (inr gl)) (0, None).

(** [for _ in range(seqs_per_conn): if time.monotonic() >= deadline: break; ...] *)
Fixpoint sse_sequences (n : nat) : run unit :=
  match n with
  | O => ret tt
  | S n' =>
      let! now := clock in
      if fge now deadline then ret tt else sse_sequence;; sse_sequences n'
  end.

Definition sse_once : run unit :=
  until_deadline (fun _ => with_session (sse_sequences seqs_per_conn)) tt.

(** ** [w_streamupload] *)

Definition wrong_sha : list Z := times 40 (str "0").

Definition upload_probe : run unit :=
  with_session (
    let! st := perform (UploadProbe (str "/upload") [(str "x-sha1", wrong_sha)]) read_status in
    fail_if (bool_decide (st <> 400)) (str "upload negative probe: wrong x-sha1 accepted -> " ++ dec st)).

Definition set_slowest (t : spec_float) : run unit := modify (fun s => WState (marks s) t (counted s)).
Definition set_counted (b : bool) : run unit := modify (fun s => WState (marks s) (slowest s) b).
Definition abandon : run unit := mark (Abandon tag).

(** The bytes [body_gen] has counted after [k] pulls. *)
Definition body_counted (k : nat) : Z :=
  let '(_, _, x) := body_pull cfg None k BodyFresh (Xfers 0 ∅) in xfer x.

(** The bounded upload: the bytes of the chunks pulled count, however it ends. *)
Definition upload_bounded (sha : list Z) (timeout : spec_float) : run Z :=
  let! (k, r) := perform (UploadBody (str "/upload") [(str "x-sha1", sha)] timeout) read_upload in
  (if body_counted k =? 0 then ret tt else mark (Move tag (body_counted k)));;
  lift r.

(** [isinstance] tests of the two [except] clauses. *)
Definition is_timeout (e : exn) : bool := match e with TimeoutError _ => true | _ => false end.
Definition is_teardown_class (e : exn) : bool := match e with AttributeError _ | CancelledError => true | _ => false end.

(** The body of [async with session() as s] in [once]. *)
Definition upload_transfer (sha : list Z) : run unit :=
  let! t0 := clock in
  let! now := clock in
  let! r := catch (let! st := upload_bounded sha (fmax fzero (fsub deadline now)) in ret (Some st))
                  (fun e => if is_timeout e then Some (abandon;; set_counted true;; ret None) else None) in
  match r with
  | None => ret tt
  | Some st =>
      fail_if (bool_decide (st = 400)) (str "server rejected the SHA-1 (400)");;
      fail_if (bool_decide (st <> 200)) (str "upload -> " ++ dec st);;
      bump 200;;
      let! s := get in
      let! now := clock in
      set_slowest (fmax (slowest s) (fsub now t0));;
      if IS_H3 cfg then mark (Move tag (STREAM cfg)) else ret tt
  end.

(** [except (AttributeError, asyncio.CancelledError) as e], for both streaming
    workloads: re-raised unless it is the teardown race past the deadline. *)
Definition race_except (k : run unit) (e : exn) : option (run unit) :=
  if is_teardown_class e
  then Some (let! now := clock in if flt now deadline || negb (teardown_race e) then throw e else k)
  else None.

Definition upload_once (sha : list Z) : run unit :=
  let! now := clock in
  let left := fsub deadline now in
  let! s := get in
  if flt fzero (slowest s) && flt left (slowest s) then sleep (fmax fzero left)
  else
    set_counted false;;
    catch (with_session (upload_transfer sha))
          (race_except (let! s := get in if counted s then ret tt else abandon)).

(** ** [w_streamdownload] *)

Section Download.
Context {D : Type} `{!Sha1 D}.

(** [transfer]: [true] when abandoned at the deadline. *)
Definition download_chunks : run (option (D * Z)) :=
  iter (fun '(h, n) =>
    let! c := perform StreamNext read_chunk in
    match c with
    | None => ret (inr (Some (h, n)))
    | Some c =>
        mark (Move tag (len c));;
        let! now := clock in
        if fge now deadline then ret (inr None) else ret (inl (sha_update h c, n + len c))
    end) (sha_init, 0).

Definition download_transfer (want : list Z) : run bool :=
  with_session (
    let! st := perform (StreamStart (str "GET") (str "/download") []) read_status in
    fail_if (bool_decide (st <> 200)) (str "download status " ++ dec st);;
    let! r := download_chunks in
    match r with
    | None => ret true
    | Some (h, n) =>
        fail_if (bool_decide (n <> STREAM cfg \/ sha_hexdigest h <> want))
          (str "download mismatch: " ++ dec n ++ str " bytes, sha " ++ sha_hexdigest h ++ str " != " ++ want);;
        bump 200;;
        ret false
    end).

Definition download_once (want : list Z) : run unit :=
  catch (let! abandoned := download_transfer want in if abandoned : bool then abandon else ret tt)
        (race_except abandon).
End Download.
End Workloads.
