(* ===== verification/WorkloadProofs.v ===== *)
(** * What the workloads verify

    Theorems about the coroutines of [Workloads], for every environment: what a
    completion counted by a worker vouches for, what makes a worker fail, and
    that a server keeping its contract never does. *)
From S2P Require Import Prelude PyFloat PyDouble Coro Mix WsFrame H3Client Transport Payload Report Workloads.
#[local] Open Scope Z_scope.

(** ** A worker's marks against the conversation

    [marks_of] says which additions to the tallies a recorded exchange earns and
    [bad] which exchange a worker must not accept.  A coroutine that [abides]
    makes exactly the earned additions, and goes on only past good exchanges. *)
Section Abides.
Context (marks_of : op * answer -> list tally_op) (bad : op * answer -> bool).

Definition count_bad (tr : list (op * answer)) : nat := length (List.filter bad tr).

Definition spans (k : nat) (w w' : world op answer wstate) : Prop :=
  exists tr, trace w' = trace w ++ tr /\ marks (st w') = marks (st w) ++ flat_map marks_of tr /\ count_bad tr = k.

Definition abides {R} (m : coro op answer wstate R) : Prop := forall w,
  match m w with
  | (Ret _, w') => spans 0 w w'
  | (_, w') => spans 0 w w' \/ spans 1 w w'
  end.

Lemma spans_refl w : spans 0 w w.
Proof. exists []. by rewrite !app_nil_r. Qed.

Lemma spans_trans k1 k2 w1 w2 w3 : spans k1 w1 w2 -> spans k2 w2 w3 -> spans (k1 + k2) w1 w3.
Proof.
  intros (t1 & E1 & M1 & C1) (t2 & E2 & M2 & C2). exists (t1 ++ t2). unfold count_bad in *.
  rewrite E2, E1, M2, M1, flat_map_app, List.filter_app, length_app, <- !app_assoc. repeat split. lia.
Qed.

Lemma spans_0_trans k w1 w2 w3 : spans 0 w1 w2 -> spans k w2 w3 -> spans k w1 w3.
Proof. apply (spans_trans 0 k). Qed.

Lemma abides_ret {R} (r : R) : abides (ret r).
Proof. intros w. apply spans_refl. Qed.

Lemma abides_throw {R} e : abides (throw (R := R) e).
Proof. intros w. left. apply spans_refl. Qed.

Lemma abides_lift {R} (r : res R) : abides (lift r).
Proof. destruct r; [apply abides_ret|apply abides_throw]. Qed.

Lemma abides_bind {R R'} (m : coro op answer wstate R) (k : R -> coro op answer wstate R') :
  abides m -> (forall r, abides (k r)) -> abides (bind m k).
Proof.
  intros Hm Hk w. specialize (Hm w). unfold bind. destruct (m w) as [[r|e|] w1]; [|done|done].
  specialize (Hk r w1). destruct (k r w1) as [[r2|e|] w2]; [by eapply spans_0_trans| |];
    destruct Hk; [left|right|left|right]; by eapply spans_0_trans.
Qed.

Lemma abides_loop {X R} fuel (body : X -> coro op answer wstate (X + R)) x :
  (forall x, abides (body x)) -> abides (loop fuel body x).
Proof.
  intros Hb. revert x. induction fuel as [|f IH]; intros x; cbn [loop]; [intros w; left; apply spans_refl|].
  apply abides_bind; [done|]. intros [x'|r]; [apply IH|apply abides_ret].
Qed.

Lemma abides_iter {X R} (body : X -> coro op answer wstate (X + R)) x :
  (forall x, abides (body x)) -> abides (iter body x).
Proof. intros Hb w. by apply abides_loop. Qed.

Lemma abides_for_each {X Y} (l : list Y) (body : X -> Y -> coro op answer wstate X) x :
  (forall x y, In y l -> abides (body x y)) -> abides (for_each l body x).
Proof.
  revert x. induction l as [|y l IH]; intros x Hb; cbn [for_each]; [apply abides_ret|].
  apply abides_bind; [apply Hb; by left|]. intros x'. apply IH. intros. apply Hb. by right.
Qed.

(** An exchange that earns nothing and is never bad. *)
Definition neutral (o : op) : Prop := forall a, marks_of (o, a) = [] /\ bad (o, a) = false.

Lemma perform_neutral {R} o (read : answer -> option (res R)) w :
  neutral o -> spans 0 w (snd (perform o read w)).
Proof.
  intros Hn. unfold perform. destruct (env w) as [|a env']; [apply spans_refl|].
  destruct (Hn a) as [Hm Hb].
  destruct (read a) as [[r|e]|]; cbn; [| |apply spans_refl]; exists [(o, a)];
    (split; [done|]); cbn; rewrite Hm, app_nil_r; (split; [done|]); unfold count_bad; cbn; by rewrite Hb.
Qed.

Lemma abides_perform {R} o (read : answer -> option (res R)) : neutral o -> abides (perform o read).
Proof.
  intros Hn w. assert (H := perform_neutral o read w Hn). destruct (perform o read w) as [[] w']; cbn in H; auto.
Qed.

Lemma abides_finally {R} (m : coro op answer wstate R) o read :
  abides m -> neutral o -> abides (finally m (perform o read)).
Proof.
  intros Hm Hn w. specialize (Hm w). unfold finally. destruct (m w) as [[r|e|] w1]; [| |done].
  - assert (H := perform_neutral o read w1 Hn). destruct (perform o read w1) as [[] w2]; cbn in H;
      [|left|left]; by eapply spans_0_trans.
  - assert (H := perform_neutral o read w1 Hn). destruct (perform o read w1) as [[] w2]; cbn in H;
      (destruct Hm as [Hm|Hm]; [left; by eapply spans_0_trans|right; by apply (spans_trans 1 0 _ w1)]).
Qed.

(** Handlers that only raise something else. *)
Lemma abides_catch_throw {R} (m : coro op answer wstate R) h :
  abides m -> (forall e m', h e = Some m' -> exists e', m' = throw e') -> abides (catch m h).
Proof.
  intros Hm Hh w. specialize (Hm w). unfold catch. destruct (m w) as [[r|e|] w1]; [done| |done].
  destruct (h e) as [m'|] eqn:E; [|done]. destruct (Hh _ _ E) as [e' ->]. done.
Qed.

Lemma abides_until_deadline {X} deadline (body : X -> coro op answer wstate X) x :
  neutral Monotonic -> (forall x, abides (body x)) -> abides (until_deadline deadline body x).
Proof.
  intros Hn Hb. apply abides_iter. intros x'. apply abides_bind; [by apply abides_perform|]. intros now.
  destruct (flt now deadline); [|apply abides_ret]. apply abides_bind; [done|]. intros. apply abides_ret.
Qed.

Lemma drive_except_throws e m' : drive_except e = Some m' -> exists e', m' = throw e'.
Proof. destruct e; cbn; intros [= <-]; by eexists. Qed.

Lemma abides_drive deadline worker :
  neutral Monotonic -> abides worker -> abides (drive deadline worker).
Proof.
  intros Hn Hw. apply abides_until_deadline; [done|]. intros _. apply abides_catch_throw; [done|].
  apply drive_except_throws.
Qed.

Lemma abides_with_session {R} (body : coro op answer wstate R) :
  neutral Connect -> neutral Disconnect -> abides body -> abides (with_session body).
Proof.
  intros Hc Hd Hb. apply abides_bind; [by apply abides_perform|]. intros _. by apply abides_finally.
Qed.

(** An exchange whose reply the coroutine then judges: it earns its marks and is
    good when the judgement returns. *)
Lemma abides_exchange {R} o (k : Z * list Z * list Z -> coro op answer wstate R) :
  (forall e, marks_of (o, ARaise e) = [] /\ bad (o, ARaise e) = false) ->
  (forall st_ ct b w, let '(r, w') := k (st_, ct, b) w in
     trace w' = trace w /\ marks (st w') = marks (st w) ++ marks_of (o, AReply st_ ct b) /\
     (forall x, r = Ret x -> bad (o, AReply st_ ct b) = false)) ->
  abides (bind (perform o read_reply) k).
Proof.
  intros Hraise Hk w. unfold bind, perform. destruct (env w) as [|a env']; [left; apply spans_refl|].
  destruct a; cbn [read_reply]; try (left; apply spans_refl).
  - set (w1 := World env' _ _). specialize (Hk status ct body w1).
    destruct (k _ w1) as [r w2]. destruct Hk as (Et & Em & Hb).
    assert (spans (if bad (o, AReply status ct body) then 1 else 0) w w2) as Hs.
    { exists [(o, AReply status ct body)]. rewrite Et, Em. cbn. rewrite app_nil_r. repeat split.
      unfold count_bad. cbn. by destruct (bad _). }
    destruct r as [r|e|]; [by rewrite (Hb r eq_refl) in Hs|destruct (bad _); auto|destruct (bad _); auto].
  - left. destruct (Hraise e) as [Hm Hb]. exists [(o, ARaise e)]. cbn. rewrite Hm, app_nil_r.
    unfold count_bad. cbn. by rewrite Hb.
Qed.

(** A [Fail] comes from a bad exchange, unless the environment raised it. *)
Definition excused (e : exn) (w w' : world op answer wstate) : Prop :=
  exists tr o, trace w' = trace w ++ tr /\ In (o, ARaise e) tr.

Definition candid {R} (m : coro op answer wstate R) : Prop := forall w msg w',
  m w = (Exc (Fail msg), w') -> spans 1 w w' \/ excused (Fail msg) w w'.

Lemma excused_prefix e w1 w2 w3 : spans 0 w1 w2 -> excused e w2 w3 -> excused e w1 w3.
Proof.
  intros (t1 & E1 & _) (t2 & o & E2 & Hin). exists (t1 ++ t2), o. rewrite E2, E1, <- app_assoc.
  split; [done|]. apply in_or_app. by right.
Qed.

Lemma excused_suffix e w1 w2 w3 : excused e w1 w2 -> spans 0 w2 w3 -> excused e w1 w3.
Proof.
  intros (t1 & o & E1 & Hin) (t2 & E2 & _). exists (t1 ++ t2), o. rewrite E2, E1, <- app_assoc.
  split; [done|]. apply in_or_app. by left.
Qed.

Lemma candid_ret {R} (r : R) : candid (ret r).
Proof. by intros w m w'. Qed.

Lemma candid_bind {R R'} (m : coro op answer wstate R) (k : R -> coro op answer wstate R') :
  abides m -> candid m -> (forall r, candid (k r)) -> candid (bind m k).
Proof.
  intros Ha Hm Hk w msg w'. unfold bind. specialize (Ha w). destruct (m w) as [[r|e|] w1] eqn:E; [|..]; try done.
  - intros Ek. destruct (Hk r _ _ _ Ek) as [Hs|Hx]; [left; by eapply spans_0_trans|right; by eapply excused_prefix].
  - intros [= -> ->]. by apply Hm in E.
Qed.

Lemma candid_loop {X R} fuel (body : X -> coro op answer wstate (X + R)) x :
  (forall x, abides (body x)) -> (forall x, candid (body x)) -> candid (loop fuel body x).
Proof.
  intros Ha Hb. revert x. induction fuel as [|f IH]; intros x; cbn [loop]; [by intros w m w'|].
  apply candid_bind; [done|done|]. intros [x'|r]; [apply IH|apply candid_ret].
Qed.

Lemma candid_for_each {X Y} (l : list Y) (body : X -> Y -> coro op answer wstate X) x :
  (forall x y, In y l -> abides (body x y)) -> (forall x y, In y l -> candid (body x y)) -> candid (for_each l body x).
Proof.
  revert x. induction l as [|y l IH]; intros x Ha Hb; cbn [for_each]; [apply candid_ret|].
  apply candid_bind; [apply Ha; by left|apply Hb; by left|]. intros x'. apply IH; intros; [apply Ha|apply Hb]; by right.
Qed.

Lemma candid_perform o read : (forall a, read a = read_done a) -> candid (perform o read).
Proof.
  intros Hr w msg w'. unfold perform. destruct (env w) as [|a env']; [done|]. rewrite Hr.
  destruct a; cbn; try done. intros [= -> <-]. right. exists [(o, ARaise (Fail msg))], o. split; [done|by left].
Qed.

Lemma candid_clock : candid clock.
Proof.
  intros w msg w'. unfold clock, perform. destruct (env w) as [|a env']; [done|]. by destruct a.
Qed.

Lemma candid_finally {R} (m : coro op answer wstate R) o :
  abides m -> neutral o -> candid m -> candid (finally m (perform o read_done)).
Proof.
  intros Ha Hn Hm w msg w'. unfold finally. specialize (Ha w). destruct (m w) as [[r|e|] w1] eqn:E; [| |done].
  - destruct (perform o read_done w1) as [[[]|e|] w2] eqn:E2; try done. intros [= -> <-].
    destruct (candid_perform o read_done ltac:(done) _ _ _ E2); [left; by eapply spans_0_trans|right; by eapply excused_prefix].
  - assert (H := perform_neutral o read_done w1 Hn). assert (Hp := candid_perform o read_done ltac:(done) w1).
    destruct (perform o read_done w1) as [[[]|e'|] w2] eqn:E2; cbn in H; try done.
    + intros [= -> <-]. apply Hm in E as [E|E]; [left; by apply (spans_trans 1 0 _ w1)|right; by eapply excused_suffix].
    + intros [= -> <-]. destruct (Hp _ _ eq_refl) as [Hs|(t2 & o2 & Et & Hin)].
      { exfalso. destruct H as (t & Et & _ & C0), Hs as (t' & Et' & _ & C1). rewrite Et in Et'.
        apply app_inv_head in Et' as ->. lia. }
      destruct Ha as [Ha|Ha]; [right; eapply excused_prefix; [done|by exists t2, o2]|left; by apply (spans_trans 1 0 _ w1)].
Qed.

Lemma candid_exchange {R} o (k : Z * list Z * list Z -> coro op answer wstate R) :
  (forall e, marks_of (o, ARaise e) = [] /\ bad (o, ARaise e) = false) ->
  (forall st_ ct b w, let '(r, w') := k (st_, ct, b) w in
     trace w' = trace w /\ marks (st w') = marks (st w) ++ marks_of (o, AReply st_ ct b) /\
     (forall e, r = Exc e -> bad (o, AReply st_ ct b) = true)) ->
  candid (bind (perform o read_reply) k).
Proof.
  intros Hraise Hk w msg w'. unfold bind, perform. destruct (env w) as [|a env']; [done|].
  destruct a; cbn [read_reply]; try done.
  - set (w1 := World env' _ _). specialize (Hk status ct body w1).
    destruct (k _ w1) as [r w2]. destruct Hk as (Et & Em & Hb). intros [= -> <-]. left.
    exists [(o, AReply status ct body)]. rewrite Et, Em. cbn. rewrite app_nil_r. repeat split.
    unfold count_bad. cbn. by rewrite (Hb _ eq_refl).
  - intros [= -> <-]. right. exists [(o, ARaise (Fail msg))], o. split; [done|by left].
Qed.

(** Both, and how they compose. *)
Definition judged {R} (m : coro op answer wstate R) : Prop := abides m /\ candid m.

Lemma judged_ret {R} (r : R) : judged (ret r).
Proof. split; [apply abides_ret|apply candid_ret]. Qed.

Lemma judged_throw {R} e : (forall m, e <> Fail m) -> judged (throw (R := R) e).
Proof. intros He. split; [apply abides_throw|]. intros w m w' [= -> _]. by destruct (He m). Qed.

Lemma judged_bind {R R'} (m : coro op answer wstate R) (k : R -> coro op answer wstate R') :
  judged m -> (forall r, judged (k r)) -> judged (bind m k).
Proof.
  intros [Ha Hc] Hk. split; [apply abides_bind; [done|apply Hk]|apply candid_bind; [done|done|apply Hk]].
Qed.

Lemma judged_iter {X R} (body : X -> coro op answer wstate (X + R)) x :
  (forall x, judged (body x)) -> judged (iter body x).
Proof.
  intros Hb. split; [apply abides_iter; apply Hb|]. intros w. apply candid_loop; apply Hb.
Qed.

Lemma judged_for_each {X Y} (l : list Y) (body : X -> Y -> coro op answer wstate X) x :
  (forall x y, In y l -> judged (body x y)) -> judged (for_each l body x).
Proof. intros Hb. split; [apply abides_for_each|apply candid_for_each]; intros; by apply Hb. Qed.

Lemma judged_clock : neutral Monotonic -> judged clock.
Proof. intros Hn. split; [by apply abides_perform|apply candid_clock]. Qed.

Lemma judged_done o : neutral o -> judged (perform o read_done).
Proof. intros Hn. split; [by apply abides_perform|by apply candid_perform]. Qed.

Lemma judged_until_deadline {X} deadline (body : X -> coro op answer wstate X) x :
  neutral Monotonic -> (forall x, judged (body x)) -> judged (until_deadline deadline body x).
Proof.
  intros Hn Hb. apply judged_iter. intros x'. apply judged_bind; [by apply judged_clock|]. intros now.
  destruct (flt now deadline); [|apply judged_ret]. apply judged_bind; [done|]. intros. apply judged_ret.
Qed.

Lemma judged_with_session {R} (body : coro op answer wstate R) :
  neutral Connect -> neutral Disconnect -> judged body -> judged (with_session body).
Proof.
  intros Hc Hd Hb. apply judged_bind; [by apply judged_done|]. intros _.
  split; [apply abides_finally; [apply Hb|done]|apply candid_finally; [apply Hb|done|apply Hb]].
Qed.
End Abides.

#[export] Hint Resolve judged_ret judged_bind judged_for_each judged_done : py.

(** ** [w_requests]: the server's contract *)

Section Requests.
Context (cfg : config) (tag : list Z) (deadline : spec_float).
Context (lower_uni repr : list Z -> list Z).
Context (gzip brotli zstd : list Z -> list Z) (gunzip unbrotli unzstd : list Z -> res (list Z)).
Context (Hgzip : forall b, gunzip (gzip b) = Ok b) (Hbr : forall b, unbrotli (brotli b) = Ok b)
  (Hzstd : forall b, unzstd (zstd b) = Ok b).
Context (gets : list (list Z * list Z * list Z)).

(** The typed GET routes serve their exact document under its type; [/echo]
    answers 200 with the decoded request body and the request's content type. *)
Definition contract (x : op * answer) : bool :=
  match x with
  | (Request m path hdrs body, AReply status ct b) =>
      bool_decide (status = 200) &&
      (if decide (m = str "GET") then
         match List.find (fun g => bool_decide (g.1.1 = path)) gets with
         | Some g => bool_decide (lowered lower_uni ct = lowered lower_uni g.1.2 /\ b = g.2)
         | None => false
         end
       else
         bool_decide (path = str "/echo") &&
         match aget hdrs (str "content-type"), decode_body gunzip unbrotli unzstd body (aget hdrs (str "content-encoding")) with
         | Some want, Ok raw => bool_decide (lowered lower_uni ct = lowered lower_uni want /\ b = raw)
         | _, _ => false
         end)
  | _ => false
  end.

Definition is_reply (x : op * answer) : bool :=
  match x with (Request _ _ _ _, AReply _ _ _) => true | _ => false end.

Definition kept (x : op * answer) : list tally_op := if contract x then [Bump tag 200] else [].
Definition broken (x : op * answer) : bool := is_reply x && negb (contract x).

(** The prepared bodies decode to the raw ones. *)
Lemma prepare_decodes mix prep p :
  prepare cfg gzip brotli zstd mix = Ok prep -> In p prep ->
  aget (p_headers p) (str "content-type") = Some (p_ctype p) /\
  decode_body gunzip unbrotli unzstd (p_body p) (aget (p_headers p) (str "content-encoding")) = Ok (p_raw p).
Proof.
  unfold prepare. intros H Hin. apply res_map_Ok in H. apply list_elem_of_In in Hin.
  apply list_elem_of_lookup in Hin as [i Hi].
  destruct (Forall2_lookup_r _ _ _ _ _ H Hi) as ([ctype raw] & _ & Ep). cbn in Ep.
  apply bind_Ok in Ep as ([body enc] & Ec & Ep). injection Ep as <-. cbn [p_headers p_ctype p_body p_raw].
  split; [reflexivity|]. unfold compress in Ec.
  destruct (decide (REQ_COMP cfg = [] \/ REQ_COMP cfg = str "none")).
  { injection Ec as <- <-. unfold accept_headers. by destruct (ACCEPT cfg). }
  destruct (decide (REQ_COMP cfg = str "gzip")); [injection Ec as <- <-; exact (Hgzip raw)|].
  destruct (decide (REQ_COMP cfg = str "br")); [injection Ec as <- <-; exact (Hbr raw)|].
  destruct (decide (REQ_COMP cfg = str "zstd")); [injection Ec as <- <-; exact (Hzstd raw)|done].
Qed.

(** A judgement that marks and returns, or raises: its trace, marks and verdict. *)
Definition judges {R} (o : op) (k : Z * list Z * list Z -> coro op answer wstate R) : Prop :=
  forall status ct b w, let '(r, w') := k (status, ct, b) w in
    trace w' = trace w /\ marks (st w') = marks (st w) ++ kept (o, AReply status ct b) /\
    match r with
    | Ret _ => broken (o, AReply status ct b) = false
    | Exc _ => broken (o, AReply status ct b) = true
    | Wait => True
    end.

Lemma judges_abides {R} m path hdrs body (k : Z * list Z * list Z -> coro op answer wstate R) :
  judges (Request m path hdrs body) k ->
  judged kept broken (bind (request m path hdrs body) k).
Proof.
  intros Hj. split; [apply abides_exchange|apply candid_exchange]; try (intros; by rewrite ?andb_false_r);
    intros status ct b w; specialize (Hj status ct b w); destruct (k _ w) as [r w']; destruct Hj as (? & ? & ?);
    (split; [done|]; split; [done|]); by intros ? ->.
Qed.

Context (Hgets : forall g, In g gets -> List.find (fun g' => bool_decide (g'.1.1 = g.1.1)) gets = Some g).

Lemma get_step_judged g :
  In g gets -> judged kept broken (get_step cfg tag lower_uni repr g).
Proof.
  intros Hin. assert (Hf := Hgets g Hin). destruct g as [[path want_ct] want_body]. cbn [fst snd] in Hf.
  apply judges_abides. intros status ct b w.
  unfold kept, broken, is_reply, contract. rewrite decide_True, Hf by done. cbn [fst snd].
  unfold fail_if, bind, ret, throw, bump, mark, modify.
  destruct (decide (status = 200)) as [->|H1]; [rewrite (bool_decide_eq_false_2 (200 <> 200)) by auto|
    rewrite bool_decide_eq_true_2, (bool_decide_eq_false_2 (status = 200)) by done; cbn; by rewrite app_nil_r].
  destruct (decide (lowered lower_uni ct = lowered lower_uni want_ct)) as [H2|H2];
    [rewrite (bool_decide_eq_false_2 (_ <> _)) by auto|
     rewrite (bool_decide_eq_true_2 (lowered _ _ <> _)), (bool_decide_eq_false_2 (_ /\ _)) by naive_solver; cbn; by rewrite app_nil_r].
  destruct (decide (b = want_body)) as [H3|H3];
    [rewrite (bool_decide_eq_false_2 (_ <> _)), (bool_decide_eq_true_2 (_ /\ _)) by auto; cbn; done|
     rewrite (bool_decide_eq_true_2 (b <> _)), (bool_decide_eq_false_2 (_ /\ _)) by naive_solver; cbn; by rewrite app_nil_r].
Qed.

Lemma echo_step_judged p meth :
  aget (p_headers p) (str "content-type") = Some (p_ctype p) ->
  decode_body gunzip unbrotli unzstd (p_body p) (aget (p_headers p) (str "content-encoding")) = Ok (p_raw p) ->
  meth <> str "GET" ->
  judged kept broken (echo_step tag lower_uni repr p meth).
Proof.
  intros Hct Hdec Hm. apply judges_abides. intros status ct b w.
  unfold kept, broken, is_reply, contract. rewrite decide_False, (bool_decide_eq_true_2 (str "/echo" = str "/echo")), Hct, Hdec by done.
  unfold fail_if, bind, ret, throw, bump, mark, modify.
  destruct (decide (status = 200)) as [->|H1];
    [|rewrite (bool_decide_eq_true_2 (_ \/ _)), (bool_decide_eq_false_2 (status = 200)) by auto; cbn; by rewrite app_nil_r].
  destruct (decide (b = p_raw p)) as [H3|H3];
    [rewrite (bool_decide_eq_false_2 (_ \/ _)) by naive_solver|
     rewrite (bool_decide_eq_true_2 (_ \/ _)), (bool_decide_eq_false_2 (_ /\ _)) by naive_solver; cbn; by rewrite app_nil_r].
  destruct (decide (lowered lower_uni ct = lowered lower_uni (p_ctype p))) as [H2|H2];
    [rewrite (bool_decide_eq_false_2 (_ <> _)), (bool_decide_eq_true_2 (_ /\ _)) by auto; cbn; done|
     rewrite (bool_decide_eq_true_2 (_ <> _)), (bool_decide_eq_false_2 (_ /\ _)) by naive_solver; cbn; by rewrite app_nil_r].
Qed.

Lemma neutral_ops o : (forall m p h b, o <> Request m p h b) -> neutral kept broken o.
Proof. intros Ho a. unfold kept, broken. destruct o; try (by destruct a). by destruct (Ho method path headers body). Qed.

Lemma cycle_judged {X} (l : list X) k (f : X -> coro op answer wstate nat) :
  (forall x, In x l -> judged kept broken (f x)) -> judged kept broken (bind (cycle l k) f).
Proof.
  intros Hf. unfold cycle. destruct (l !! (k mod length l)%nat) as [x|] eqn:E.
  - apply Hf, list_elem_of_In. by apply list_elem_of_lookup_2 in E.
  - exact (judged_throw kept broken (R := nat) (OtherException _ _) ltac:(done)).
Qed.

(** Every body of the mix, cycled with the GET routes. *)
Lemma requests_once_judged mix prep :
  prepare cfg gzip brotli zstd mix = Ok prep ->
  judged kept broken (requests_once cfg tag deadline lower_uni repr gets prep).
Proof.
  intros Hprep. apply judged_with_session; [by apply neutral_ops|by apply neutral_ops|].
  apply judged_bind; [|intros; apply judged_ret]. apply judged_until_deadline; [by apply neutral_ops|]. intros k.
  apply cycle_judged. intros g Hg. apply judged_bind; [by apply get_step_judged|]. intros _.
  apply cycle_judged. intros p Hp. destruct (prepare_decodes mix prep p Hprep Hp) as [Hct Hdec].
  apply judged_bind; [|intros; apply judged_ret]. apply judged_for_each. intros _ meth Hm.
  apply echo_step_judged; [done|done|]. destruct Hm as [<-|[<-|[]]]; done.
Qed.
End Requests.

Lemma expected_gets_distinct g :
  In g expected_gets -> List.find (fun g' => bool_decide (g'.1.1 = g.1.1)) expected_gets = Some g.
Proof. intros [<-|[<-|[<-|[<-|[<-|[<-|[]]]]]]]; reflexivity. Qed.

(** The marks [kept] earns, counted. *)
Lemma kept_repeat tag lower_uni gunzip unbrotli unzstd gets tr :
  flat_map (kept tag lower_uni gunzip unbrotli unzstd gets) tr
  = repeat (Bump tag 200) (length (List.filter (contract lower_uni gunzip unbrotli unzstd gets) tr)).
Proof.
  induction tr as [|x tr IH]; [done|]. cbn. unfold kept at 1. destruct (contract _ _ _ _ _ x); cbn; by rewrite IH.
Qed.

Lemma requests_drive_abides cfg tag deadline lower_uni repr gzip brotli zstd gunzip unbrotli unzstd mix prep :
  (forall b, gunzip (gzip b) = Ok b) -> (forall b, unbrotli (brotli b) = Ok b) ->
  (forall b, unzstd (zstd b) = Ok b) -> prepare cfg gzip brotli zstd mix = Ok prep ->
  abides (kept tag lower_uni gunzip unbrotli unzstd expected_gets) (broken lower_uni gunzip unbrotli unzstd expected_gets)
    (drive deadline (requests_once cfg tag deadline lower_uni repr expected_gets prep)).
Proof.
  intros Hg Hb Hz Hp. apply abides_drive; [by apply neutral_ops|].
  eapply requests_once_judged; try done. apply expected_gets_distinct.
Qed.

(** C5: a [requests] worker counts exactly the verified replies.  Whatever the
    server answers and whenever the worker stops, it has added one completion
    per reply that keeps the server's contract (the typed GET documents, the
    echo of the decoded body under the same content type) and nothing else; it
    met at most one reply that breaks the contract, and none if it returned. *)
Theorem requests_worker_verifies cfg tag deadline lower_uni repr
  gzip brotli zstd gunzip unbrotli unzstd urandom prep w :
  (forall b, gunzip (gzip b) = Ok b) -> (forall b, unbrotli (brotli b) = Ok b) ->
  (forall b, unzstd (zstd b) = Ok b) ->
  prepare cfg gzip brotli zstd (payload_mix urandom) = Ok prep ->
  let contract := contract lower_uni gunzip unbrotli unzstd expected_gets in
  let '(o, w') := drive deadline (requests_once cfg tag deadline lower_uni repr expected_gets prep) w in
  exists tr, trace w' = trace w ++ tr /\
    marks (st w') = marks (st w) ++ repeat (Bump tag 200) (length (List.filter contract tr)) /\
    let broken := List.filter (fun x => is_reply x && negb (contract x)) tr in
    (length broken <= 1)%nat /\ (o = Ret tt -> broken = []).
Proof.
  intros Hg Hb Hz Hp. cbv zeta.
  assert (Ha := requests_drive_abides cfg tag deadline lower_uni repr _ _ _ _ _ _ _ prep Hg Hb Hz Hp w).
  set (K := kept tag lower_uni gunzip unbrotli unzstd expected_gets) in *.
  set (B := broken lower_uni gunzip unbrotli unzstd expected_gets) in *.
  destruct (drive _ _ w) as [o w'].
  assert (exists k, (k <= 1)%nat /\ (o = Ret tt -> k = 0%nat) /\ spans K B k w w') as (k & Hk & Hret & tr & Et & Em & Ec).
  { assert (spans K B 0 w w' \/ o <> Ret tt /\ spans K B 1 w w') as [?|[? ?]]
      by (destruct o as [[]|e|]; [by left|destruct Ha; [by left|by right]..]); [exists 0%nat|exists 1%nat]; repeat split; done || lia. }
  exists tr. unfold K in Em. rewrite kept_repeat in Em. unfold B, count_bad, broken in Ec. rewrite Ec.
  repeat split; [done|done|done|]. intros Ho. apply nil_length_inv. by rewrite Ec, Hret.
Qed.

(** C18: a server that keeps its contract never fails a [requests] worker: if no
    reply of the conversation breaks the contract (and the session does not
    itself raise [Fail], which is the client's own class), the worker's
    connection does not end in [Fail]. *)
Theorem requests_honest_server cfg tag deadline lower_uni repr
  gzip brotli zstd gunzip unbrotli unzstd urandom prep w :
  (forall b, gunzip (gzip b) = Ok b) -> (forall b, unbrotli (brotli b) = Ok b) ->
  (forall b, unzstd (zstd b) = Ok b) ->
  prepare cfg gzip brotli zstd (payload_mix urandom) = Ok prep ->
  let '(o, w') := requests_once cfg tag deadline lower_uni repr expected_gets prep w in
  (forall x, In x (trace w') -> is_reply x = true -> contract lower_uni gunzip unbrotli unzstd expected_gets x = true) ->
  (forall q m, ~ In (q, ARaise (Fail m)) (trace w')) ->
  forall m, o <> Exc (Fail m).
Proof.
  intros Hg Hb Hz Hp.
  set (K := kept tag lower_uni gunzip unbrotli unzstd expected_gets).
  set (B := broken lower_uni gunzip unbrotli unzstd expected_gets).
  assert (judged K B (requests_once cfg tag deadline lower_uni repr expected_gets prep)) as [_ Hc].
  { eapply requests_once_judged; try done. apply expected_gets_distinct. }
  destruct (requests_once _ _ _ _ _ _ _ w) as [o w'] eqn:E. intros Hhonest Hraise m ->.
  destruct (Hc _ _ _ E) as [(tr & Et & _ & Hk)|(tr & q & Et & Hin)].
  - unfold count_bad in Hk. assert (List.filter B tr = []) as Hnil; [|by rewrite Hnil in Hk].
    destruct (List.filter B tr) as [|x l] eqn:Ef; [done|]. exfalso.
    assert (In x tr /\ B x = true) as [Hx HBx] by (apply filter_In; rewrite Ef; by left).
    unfold B, broken in HBx. apply andb_prop in HBx as [Hr Hn].
    rewrite (Hhonest x) in Hn; [done| |done]. rewrite Et. apply in_or_app. by right.
  - apply (Hraise q m). rewrite Et. apply in_or_app. by right.
Qed.

(** A run of the worker against three good replies of one round. *)
Definition demo_plain : config :=
  Config (str "requests") (str "h2") (str "sync") (str "https://server:8443") 60 3 32 1048576 60 (str "none") (str "none").

Definition demo_prep : list prepared :=
  map (fun cr => Prepared cr.1 cr.2 cr.2 [(str "content-type", cr.1)]) (payload_mix (fun _ _ => [])).

Lemma demo_prepared : prepare demo_plain id id id (payload_mix (fun _ _ => [])) = Ok demo_prep.
Proof.
  unfold prepare, demo_prep. apply res_map_Ok. generalize (payload_mix (fun _ _ => [])).
  induction l as [|[ctype raw] l IH]; cbn [map]; constructor; [reflexivity|exact IH].
Qed.

Definition demo_script : list answer :=
  [ATime fzero; ADone; ATime fzero; AReply 200 (str "Text/Plain") (str "Hello, World!");
   AReply 200 (str "text/plain") []; AReply 200 (str "text/plain") []; ATime (flit 60 0); ADone; ATime (flit 60 0)].

Definition demo_world (script : list answer) : world op answer wstate := World script [] (WState [] fzero false).

Lemma requests_worker_verifies_witness :
  exists o w' tr,
    drive (flit 60 0) (requests_once demo_plain (str "requests") (flit 60 0) id id expected_gets demo_prep)
      (demo_world demo_script) = (o, w') /\
    trace w' = tr /\ marks (st w') = repeat (Bump (str "requests") 200) 3 /\
    length (List.filter (contract id Ok Ok Ok expected_gets) tr) = 3%nat.
Proof.
  assert (H := requests_worker_verifies demo_plain (str "requests") (flit 60 0) id id id id id Ok Ok Ok (fun _ _ => []) demo_prep
    (demo_world demo_script) (fun _ => eq_refl) (fun _ => eq_refl) (fun _ => eq_refl) demo_prepared). cbv zeta in H.
  destruct (drive _ _ _) as [o w'] eqn:E. destruct H as (tr & Et & Em & _). exists o, w', tr.
  assert (length (List.filter (contract id Ok Ok Ok expected_gets) tr) = 3%nat) as E3.
  { assert (tr = trace w') as -> by (by rewrite Et). assert (w' = snd (o, w')) as -> by done. rewrite <- E.
    vm_compute. reflexivity. }
  rewrite E3 in Em. repeat split; [exact Et|exact Em|exact E3].
Defined.

Lemma requests_honest_server_witness :
  let '(o, w') := requests_once demo_plain (str "requests") (flit 60 0) id id expected_gets demo_prep
                    (demo_world (tail demo_script)) in
  forall m, o <> Exc (Fail m).
Proof.
  assert (H := requests_honest_server demo_plain (str "requests") (flit 60 0) id id id id id Ok Ok Ok (fun _ _ => []) demo_prep
    (demo_world (tail demo_script)) (fun _ => eq_refl) (fun _ => eq_refl) (fun _ => eq_refl) demo_prepared).
  destruct (requests_once _ _ _ _ _ _ _ _) as [o w'] eqn:E. apply H.
  - assert (forallb (fun x => negb (is_reply x) || contract id Ok Ok Ok expected_gets x) (trace w') = true) as Hb.
    { assert (w' = snd (o, w')) as -> by done. rewrite <- E. vm_compute. reflexivity. }
    rewrite forallb_forall in Hb. intros x Hx Hr. apply Hb in Hx. by rewrite Hr in Hx.
  - assert (forallb (fun x => match x.2 with ARaise _ => false | _ => true end) (trace w') = true) as Hb.
    { assert (w' = snd (o, w')) as -> by done. rewrite <- E. vm_compute. reflexivity. }
    rewrite forallb_forall in Hb. intros q m Hx. by apply Hb in Hx.
Defined.

(** ** [drive] *)

Lemma until_deadline_productive {X} deadline (body : X -> coro op answer wstate X) :
  (forall x, keeps extends (body x)) ->
  productive (fun x => bind clock (fun now =>
    if flt now deadline then bind (body x) (fun x' => ret (inl x')) else ret (inr x)) : coro op answer wstate (X + X)).
Proof.
  intros Hb x w x' w'. apply bind_uses; [intros *; apply perform_uses|]. intros now.
  destruct (flt now deadline); [|apply keeps_ret, _]. apply keeps_bind; [apply _|apply Hb|]. intros. apply keeps_ret, _.
Qed.

Lemma keeps_until_deadline {X} deadline (body : X -> coro op answer wstate X) x :
  (forall x, keeps extends (body x)) -> keeps extends (until_deadline deadline body x).
Proof.
  intros Hb. apply keeps_iter; [apply _|]. intros x'. apply keeps_bind; [apply _|apply perform_extends|]. intros now.
  destruct (flt now deadline); [|apply keeps_ret, _]. apply keeps_bind; [apply _|apply Hb|]. intros. apply keeps_ret, _.
Qed.

Lemma keeps_with_session {R} (body : coro op answer wstate R) :
  keeps extends body -> keeps extends (with_session body).
Proof.
  intros Hb. apply keeps_bind; [apply _|apply perform_extends|]. intros _.
  apply keeps_finally; [apply _|done|apply perform_extends].
Qed.

(** How [drive] surfaces a worker's exception. *)
Definition surfaced (e : exn) : exn :=
  match e with
  | ProtocolPinError m => Fail (str "protocol pin: " ++ m)
  | HttpxTransportError _ _ | WebSocketException _ _ | ConnectionError _ | TimeoutError _ | OSError _ _ =>
      Fail (str "transport error (" ++ type_name e ++ str "): " ++ exn_text e)
  | _ => e
  end.

(** C19: [drive] never retries and never stops early.  It returns only after a
    clock reading at or past the deadline; the first exception of a worker call
    ends it on the spot, a pin or transport error as [Fail] with its cause, any
    other as it is. *)
Theorem drive_surfaces deadline worker w :
  keeps extends worker ->
  let '(o, w') := drive deadline worker w in
  match o with
  | Ret _ => exists t, last (trace w') = Some (Monotonic, ATime t) /\ flt t deadline = false
  | Exc e => exists w1 e0, extends w w1 /\ worker w1 = (Exc e0, w') /\ e = surfaced e0
  | Wait => True
  end.
Proof.
  intros Hk. assert (keeps extends (catch worker drive_except)) as Hc.
  { apply keeps_catch; [apply _|done|]. intros e m' Em. apply drive_except_throws in Em as [e' ->]. apply keeps_throw, _. }
  apply (iter_rule _ (fun _ w1 => extends w w1)); [by apply (until_deadline_productive deadline (fun _ : unit => _))| |reflexivity].
  intros [] w1 Hw1. unfold bind at 1, clock, perform. destruct (env w1) as [|a env'] eqn:Ee; [done|].
  destruct a; cbn [read_time]; try done. set (w2 := World env' _ _).
  assert (extends w1 w2) as Hw2 by (exists [(Monotonic, ATime t)]; by rewrite Ee).
  destruct (flt t deadline) eqn:Et; [|exists t; split; [cbn; by rewrite last_app|done]].
  assert (Hcw := Hc w2). unfold bind, catch in *. destruct (worker w2) as [[[]|e|] w3] eqn:Ew; cbn in *; [by do 2 etrans; eauto| |done].
  assert (match drive_except e with Some m' => m' w3 | None => (Exc e, w3) end = (Exc (surfaced e), w3)) as -> by (by destruct e).
  exists w2, e. split; [by etrans|done].
Qed.

Lemma drive_surfaces_witness :
  let worker := perform (WsSendText [104]) read_done : coro op answer wstate unit in
  let '(o, w') := drive (flit 60 0) worker (demo_world [ATime fzero; ADone; ATime fzero; ARaise (ConnectionError (str "reset"))]) in
  exists w1 e0, worker w1 = (Exc e0, w') /\ o = Exc (surfaced e0).
Proof.
  intros worker.
  assert (H := drive_surfaces (flit 60 0) worker
    (demo_world [ATime fzero; ADone; ATime fzero; ARaise (ConnectionError (str "reset"))]) (perform_extends _ _)).
  destruct (drive _ _ _) as [o w'] eqn:E.
  assert (o = Exc (Fail (str "transport error (ConnectionError): reset"))) as ->.
  { assert (o = fst (o, w')) as -> by done. rewrite <- E. vm_compute. reflexivity. }
  destruct H as (w1 & e0 & _ & Hw & ->). exists w1, e0. done.
Defined.

(** ** [w_streamupload] *)

Definition is_abandon (o : tally_op) : bool := match o with Abandon _ => true | _ => false end.
Definition is_bump (o : tally_op) : bool := match o with Bump _ _ => true | _ => false end.
Definition tallied (p : tally_op -> bool) (ms : list tally_op) : nat := length (List.filter p ms).

(** Everything an upload call may do to the tallies, and why. *)
Definition upload_accounted (sha : list Z) (deadline : spec_float) (o : outcome unit)
  (w w' : world op answer wstate) : Prop :=
  exists tr ms, trace w' = trace w ++ tr /\ marks (st w') = marks (st w) ++ ms /\
    (tallied is_abandon ms <= 1)%nat /\ (tallied is_bump ms <= 1)%nat /\
    (tallied is_bump ms = 1%nat ->
       exists limit k, In (UploadBody (str "/upload") [(str "x-sha1", sha)] limit, AUpload k (Ok 200)) tr) /\
    (tallied is_abandon ms = 1%nat ->
       (exists limit k m, In (UploadBody (str "/upload") [(str "x-sha1", sha)] limit, AUpload k (Raise (TimeoutError m))) tr) \/
       (exists t, last tr = Some (Monotonic, ATime t) /\ flt t deadline = false)) /\
    (forall e, o = Exc e -> teardown_race e = true ->
       (exists t, last tr = Some (Monotonic, ATime t) /\ flt t deadline = true) \/
       (exists d, last tr = Some (Sleep d, ARaise e))).

(** The same of the session block alone, with the [counted] cell. *)
Definition block_accounted (sha : list Z) (o : outcome unit) (w w' : world op answer wstate) : Prop :=
  exists tr ms, trace w' = trace w ++ tr /\ marks (st w') = marks (st w) ++ ms /\
    tallied is_abandon ms = (if counted (st w') then 1 else 0)%nat /\ (tallied is_bump ms <= 1)%nat /\
    (tallied is_bump ms = 1%nat ->
       exists limit k, In (UploadBody (str "/upload") [(str "x-sha1", sha)] limit, AUpload k (Ok 200)) tr) /\
    (counted (st w') = true ->
       exists limit k e, is_timeout e = true /\
         In (UploadBody (str "/upload") [(str "x-sha1", sha)] limit, AUpload k (Raise e)) tr).

Ltac run_step :=
  match goal with
  | |- context [match ?l with [] => _ | _ :: _ => _ end] => is_var l; destruct l as [|[] ?]
  | |- context [match ?r with Ok _ => _ | Raise _ => _ end] => is_var r; destruct r
  | |- context [if ?b then _ else _] =>
      lazymatch b with context [match _ with _ => _ end] => fail | _ => let E := fresh "B" in destruct b eqn:E end
  end; cbn -[flt fge fsub fmax body_counted bool_decide is_timeout is_teardown_class teardown_race str dec].

(** The exchanges and marks a straight run has appended. *)
Ltac account_prefix :=
  eexists _, _; split; [rewrite <- ?app_assoc; first [reflexivity | symmetry; apply app_nil_r]|];
  split; [rewrite <- ?app_assoc; first [reflexivity | symmetry; apply app_nil_r]|].

Lemma upload_block_accounted cfg tag deadline sha w :
  counted (st w) = false ->
  let '(o, w') := with_session (upload_transfer cfg tag deadline sha) w in block_accounted sha o w w'.
Proof.
  destruct w as [env0 tr0 [ms0 sl0 ct0]]. cbn. intros ->.
  unfold upload_transfer, upload_bounded, with_session, sleep, clock, abandon, bump, mark,
    set_slowest, set_counted, fail_if, bind, perform, catch, finally, ret, throw, get, modify, lift.
  cbn -[flt fge fsub fmax body_counted bool_decide is_timeout is_teardown_class teardown_race str dec].
  repeat run_step; unfold block_accounted; cbn [trace marks st counted]; account_prefix.
  all: cbn; repeat split; intros; simplify_eq; try lia; try done.
  all: repeat match goal with
       | H : bool_decide (_ <> 200) = false |- _ => apply bool_decide_eq_false in H; apply dec_stable in H; subst
       end; eauto 15 with datatypes.
Qed.

(** After a block: at most one more clock reading, and the abandonment the block
    has not counted if that reading is past the deadline. *)
Lemma block_then tag deadline sha o o' w w1 w' tr2 (extra : bool) :
  block_accounted sha o w w1 ->
  trace w' = trace w1 ++ tr2 -> marks (st w') = marks (st w1) ++ (if extra then [Abandon tag] else []) ->
  (extra = true -> counted (st w1) = false /\ exists t, tr2 = [(Monotonic, ATime t)] /\ flt t deadline = false) ->
  (forall e, o' = Exc e -> teardown_race e = true -> exists t, tr2 = [(Monotonic, ATime t)] /\ flt t deadline = true) ->
  upload_accounted sha deadline o' w w'.
Proof.
  intros (tr & ms & Et & Em & Ha & Hb & Hbump & Hab) Et' Em' Hx He.
  exists (tr ++ tr2), (ms ++ if extra then [Abandon tag] else []). unfold tallied in *.
  rewrite Et', Et, Em', Em, !List.filter_app, !length_app, <- !app_assoc.
  assert (length (List.filter is_bump (if extra then [Abandon tag] else [])) = 0%nat) as -> by (by destruct extra).
  assert (length (List.filter is_abandon (if extra then [Abandon tag] else [])) = if extra then 1%nat else 0%nat) as ->
    by (by destruct extra).
  split; [done|]. split; [done|]. split.
  { destruct extra; [destruct (Hx eq_refl) as [Hc _]; rewrite Hc in Ha|destruct (counted _)]; lia. }
  split; [lia|]. split.
  { intros H1. destruct (Hbump ltac:(lia)) as (l & k & Hin). exists l, k. apply in_or_app. by left. }
  split.
  - intros H1. destruct extra.
    + right. destruct (Hx eq_refl) as (_ & t & -> & Ht). exists t. by rewrite last_app.
    + left. destruct (counted (st w1)); [|lia]. destruct (Hab eq_refl) as (l & k & e & Hto & Hin).
      destruct e; try done. exists l, k, msg. apply in_or_app. by left.
  - intros e Ho Hr. left. destruct (He e Ho Hr) as (t & -> & Ht). exists t. by rewrite last_app.
Qed.

(** The handler of the teardown race. *)
Lemma upload_race_accounted tag deadline sha o w w1 :
  block_accounted sha o w w1 ->
  let '(o', w') := catch (fun w => (o, w)) (race_except deadline (let! s := get in if counted s then ret tt else abandon tag)%coro) w1
  in upload_accounted sha deadline o' w w'.
Proof.
  intros Hblk. assert (forall o', (forall e, o' = Exc e -> teardown_race e = false) -> upload_accounted sha deadline o' w w1) as Hplain.
  { intros o' Ho. apply (block_then tag deadline sha o o' w w1 w1 [] false Hblk); rewrite ?app_nil_r; try done.
    intros e He Hr. by rewrite (Ho _ He) in Hr. }
  unfold catch. destruct o as [[]|e|]; [by apply Hplain| |by apply Hplain].
  unfold race_except. destruct (is_teardown_class e) eqn:Ec; [|apply Hplain; intros ? [= <-]; by destruct e].
  unfold bind, clock, perform. destruct (env w1) as [|a env'] eqn:Ee; [by apply Hplain|].
  destruct a; cbn; try (by apply Hplain). destruct (flt t deadline) eqn:Ed; cbn.
  { eapply (block_then tag _ _ _ _ _ w1 _ [(Monotonic, ATime t)] false Hblk); cbn; [done|by rewrite app_nil_r|done|eauto]. }
  destruct (teardown_race e) eqn:Er; cbn.
  - destruct (counted (st w1)) eqn:Ecnt; cbn.
    + eapply (block_then tag _ _ _ _ _ w1 _ [(Monotonic, ATime t)] false Hblk); cbn; [done|by rewrite app_nil_r|done|done].
    + eapply (block_then tag _ _ _ _ _ w1 _ [(Monotonic, ATime t)] true Hblk); cbn; eauto; done.
  - eapply (block_then tag _ _ _ _ _ w1 _ [(Monotonic, ATime t)] false Hblk); cbn; [done|by rewrite app_nil_r|done|].
    intros ? [= <-]. by rewrite Er.
Qed.

Lemma accounted_prefix sha deadline o w w1 w' x :
  trace w1 = trace w ++ [x] -> marks (st w1) = marks (st w) ->
  upload_accounted sha deadline o w1 w' -> upload_accounted sha deadline o w w'.
Proof.
  intros Et Em (tr & ms & Et' & Em' & Ha & Hb & Hbump & Hab & He). exists (x :: tr), ms.
  rewrite Et', Et, Em', Em, <- app_assoc.
  assert (forall y, last tr = Some y -> last (x :: tr) = Some y) as Hl by (intros y Hy; by rewrite last_cons, Hy).
  repeat split; try done.
  - intros H1. destruct (Hbump H1) as (l & k & Hin). exists l, k. by right.
  - intros H1. destruct (Hab H1) as [(l & k & m & Hin)|(t & Ht & ?)]; [left; exists l, k, m; by right|right; eauto].
  - intros e Ho Hr. destruct (He e Ho Hr) as [(t & Ht & ?)|(d & Hd)]; [left|right]; eauto.
Qed.

(** C8: an abandoned upload is counted once, and only for a reason.  One call of
    the upload worker adds at most one abandonment and at most one completion;
    the completion follows a reply 200 to the body sent with the announced
    checksum, the abandonment a timeout of that upload or a clock reading past
    the deadline, and a teardown race is let through only before the deadline
    (or out of the worker's own final sleep). *)
Theorem upload_once_accounted cfg tag deadline sha w :
  let '(o, w') := upload_once cfg tag deadline sha w in upload_accounted sha deadline o w w'.
Proof.
  assert (forall o w1 w2, trace w2 = trace w1 -> marks (st w2) = marks (st w1) ->
    (forall e, o = Exc e -> False) -> upload_accounted sha deadline o w1 w2) as Hnil.
  { intros o w1 w2 Et Em Ho. exists [], []. rewrite Et, Em, !app_nil_r. repeat split; cbn; try lia; try done.
    intros e He. by destruct (Ho e). }
  unfold upload_once, bind at 1, clock at 1, perform at 1. destruct (env w) as [|a env'] eqn:Ee; [by apply Hnil|].
  destruct a; cbn [read_time]; try (by apply Hnil). set (w1 := World env' _ _). unfold bind at 1, get at 1.
  assert (forall o w', upload_accounted sha deadline o w1 w' -> upload_accounted sha deadline o w w') as Hpre
    by (intros; by eapply (accounted_prefix _ _ _ w w1 _ (Monotonic, ATime t))).
  destruct (flt fzero _ && flt _ _).
  - unfold sleep, perform. destruct (env w1) as [|a env2]; [by apply Hpre, Hnil|].
    destruct a; cbn [read_done]; try (by apply Hpre, Hnil); apply Hpre;
      eexists [_], []; cbn; (split; [reflexivity|]); (split; [by rewrite app_nil_r|]); repeat split; try lia; try done.
    intros ? [= <-] _. right. by eexists.
  - unfold bind at 1, set_counted at 1, modify at 1. set (w2 := World _ _ _).
    assert (Hb := upload_block_accounted cfg tag deadline sha w2 eq_refl). unfold catch.
    destruct (with_session _ w2) as [o w3]. apply (upload_race_accounted tag deadline) in Hb. unfold catch in Hb.
    destruct o as [[]|e|]; [by apply Hpre| |by apply Hpre].
    destruct (race_except _ _ e) as [m|]; [|by apply Hpre]. destruct (m w3). by apply Hpre.
Qed.

(** ** [w_streamdownload] *)

(** The chunks of a conversation. *)
Definition chunk_of (x : op * answer) : list (list Z) :=
  match x with (StreamNext, AChunk c) => [c] | _ => [] end.
Definition chunks_of (tr : list (op * answer)) : list (list Z) := flat_map chunk_of tr.

Section Download.
Context {D : Type} `{!Sha1 D} (cfg : config) (tag : list Z) (deadline : spec_float) (want : list Z).

Definition moves (cs : list (list Z)) : list tally_op := map (fun c => Move tag (len c)) cs.

(** What the read loop has seen since [w]. *)
Definition reading (hn : D * Z) (w w' : world op answer wstate) : Prop :=
  exists tr, trace w' = trace w ++ tr /\ marks (st w') = marks (st w) ++ moves (chunks_of tr) /\
    hn = (fold_left sha_update (chunks_of tr) sha_init, len (concat (chunks_of tr))).

(** ... and where it can leave: [Some] at the end of the stream, [None] at the
    deadline, or by an exception of the session. *)
Definition read_out (o : outcome (option (D * Z))) (w w' : world op answer wstate) : Prop :=
  exists tr, trace w' = trace w ++ tr /\ marks (st w') = marks (st w) ++ moves (chunks_of tr) /\
    match o with
    | Ret (Some (h, n)) => In (StreamNext, AEnd) tr /\
        h = fold_left sha_update (chunks_of tr) sha_init /\ n = len (concat (chunks_of tr))
    | Exc e => In (StreamNext, ARaise e) tr
    | _ => True
    end.

Lemma download_chunks_reads w : wp (download_chunks tag deadline (D := D)) (fun o w' => read_out o w w') w.
Proof.
  apply (wp_iter _ (fun hn w' => reading hn w w')).
  - intros [h n] w1 x' w2. apply bind_uses; [intros *; apply perform_uses|]. intros [c|]; [|apply keeps_ret, _].
    apply keeps_bind; [apply _|apply modify_extends|]. intros _.
    apply keeps_bind; [apply _|apply perform_extends|]. intros now. destruct (fge now deadline); apply keeps_ret, _.
  - exists []. rewrite !app_nil_r. done.
  - intros [h n] w1 (tr & Et & Em & Eh). unfold wp, bind, perform.
    destruct (env w1) as [|a env1]; [by exists tr|]. destruct a; cbn; try (by exists tr).
    + assert (forall x w', trace w' = trace w1 ++ [(StreamNext, AChunk c)] ++ x -> chunks_of x = [] ->
        marks (st w') = marks (st w1) ++ [Move tag (len c)] ->
        exists tr', trace w' = trace w ++ tr' /\ marks (st w') = marks (st w) ++ moves (chunks_of tr') /\
          chunks_of tr' = chunks_of tr ++ [c]) as Hc.
      { intros x w' Ex Hx Hm. exists (tr ++ [(StreamNext, AChunk c)] ++ x). rewrite Ex, Et, Hm, Em, <- !app_assoc.
        unfold chunks_of in *. rewrite !flat_map_app, Hx, app_nil_r. unfold moves. rewrite map_app. done. }
      destruct env1 as [|a env2]; cbn.
      { edestruct (Hc []) as (tr' & ? & ? & _); [..|exists tr'; done]; done. }
      destruct a; cbn; try (edestruct (Hc []) as (tr' & ? & ? & _); [..|exists tr'; done]; done).
      edestruct (Hc [(Monotonic, ATime t)]) as (tr' & Et' & Em' & Ec); [| | |].
      4: { destruct (fge t deadline); cbn; exists tr'; (split; [exact Et'|]); (split; [exact Em'|]); [done|].
           rewrite Ec, fold_left_app, concat_app, len_app. injection Eh as <- <-. cbn. rewrite ?app_nil_r. done. }
      all: cbn; rewrite <- ?app_assoc; done.
    + exists (tr ++ [(StreamNext, AEnd)]). cbn. rewrite Et, Em, <- app_assoc. unfold chunks_of in *.
      rewrite flat_map_app, app_nil_r. injection Eh as <- <-. repeat split; [|done..]. apply in_or_app. right. by left.
    + exists (tr ++ [(StreamNext, ARaise e)]). cbn. rewrite Et, Em, <- app_assoc. unfold chunks_of in *.
      rewrite flat_map_app, app_nil_r. repeat split. apply in_or_app. right. by left.
Qed.

(** What a transfer may end with: it counts every byte received, a completion
    only for [STREAM] bytes with the wanted digest, and fails only for a cause. *)
Definition transferred (o : outcome bool) (w w' : world op answer wstate) : Prop :=
  exists tr (complete : bool), trace w' = trace w ++ tr /\
    marks (st w') = marks (st w) ++ moves (chunks_of tr) ++ (if complete then [Bump tag 200] else []) /\
    (complete = true -> len (concat (chunks_of tr)) = STREAM cfg /\
       sha_hexdigest (fold_left sha_update (chunks_of tr) sha_init) = want) /\
    (forall b, o = Ret b -> complete = negb b) /\
    (forall m, o = Exc (Fail m) ->
       (exists q, In (q, ARaise (Fail m)) tr) \/
       (exists status q, In (q, AStatus status) tr /\ status <> 200) \/
       (In (StreamNext, AEnd) tr /\
        (len (concat (chunks_of tr)) <> STREAM cfg \/
         sha_hexdigest (fold_left sha_update (chunks_of tr) sha_init) <> want))).

Lemma transferred_around o o' w w0 w1 w' pre post :
  trace w0 = trace w ++ pre -> chunks_of pre = [] -> marks (st w0) = marks (st w) ->
  transferred o w0 w1 ->
  trace w' = trace w1 ++ post -> chunks_of post = [] -> marks (st w') = marks (st w1) ->
  (forall b, o' = Ret b -> o = Ret b) ->
  (forall m, o' = Exc (Fail m) -> o = Exc (Fail m) \/ exists q, In (q, ARaise (Fail m)) post) ->
  transferred o' w w'.
Proof.
  intros E0 C0 M0 (tr & complete & E1 & M1 & Hc & Hr & Hf) E2 C2 M2 Hret Hfail. exists (pre ++ tr ++ post), complete.
  assert (chunks_of (pre ++ tr ++ post) = chunks_of tr) as ->
    by (unfold chunks_of in *; rewrite !flat_map_app, C0, C2, app_nil_r; done).
  rewrite E2, E1, E0, M2, M1, M0, <- !app_assoc. repeat split; try (by apply Hc); [by intros b Hb; apply Hr, Hret|].
  assert (forall x, In x tr -> In x (pre ++ tr ++ post)) as Hin
    by (intros; apply in_or_app; right; apply in_or_app; by left).
  intros m Hm. destruct (Hfail m Hm) as [->|(q & Hq)].
  - destruct (Hf m eq_refl) as [(q & ?)|[(s & q & ? & ?)|(? & ?)]]; [left|right; left|right; right]; eauto.
  - left. exists q. apply in_or_app. right. apply in_or_app. by right.
Qed.

Lemma download_body_transfers w :
  wp (let! status := perform (StreamStart (str "GET") (str "/download") []) read_status in
      fail_if (bool_decide (status <> 200)) (str "download status " ++ dec status);;
      let! r := download_chunks tag deadline in
      match r with
      | None => ret true
      | Some (h, n) =>
          fail_if (bool_decide (n <> STREAM cfg \/ sha_hexdigest h <> want))
            (str "download mismatch: " ++ dec n ++ str " bytes, sha " ++ sha_hexdigest h ++ str " != " ++ want);;
          bump tag 200;; ret false
      end)%coro (fun o w' => transferred o w w') w.
Proof.
  assert (transferred Wait w w) as Hw.
  { exists [], false. rewrite !app_nil_r. cbn. repeat split; done. }
  unfold wp, bind at 1, perform. destruct (env w) as [|a env1]; [done|]. destruct a; cbn [read_status]; try done.
  2: { exists [(StreamStart (str "GET") (str "/download") [], ARaise e)], false. cbn. rewrite ?app_nil_r.
       repeat split; try done. intros m [= ->]. left. eexists. by left. }
  set (w1 := World env1 _ _). unfold fail_if at 1. destruct (decide (status = 200)) as [->|Hs].
  2: { rewrite bool_decide_eq_true_2 by done. exists [(StreamStart (str "GET") (str "/download") [], AStatus status)], false. cbn. rewrite ?app_nil_r.
       repeat split; try done. intros m _. right. left. exists status. eexists. by split; [left|]. }
  rewrite (bool_decide_eq_false_2 (200 <> 200)) by auto. cbn [bind ret].
  assert (Hr := download_chunks_reads w1). unfold wp in Hr. unfold bind at 1 2, ret at 1.
  set (entry := (StreamStart (str "GET") (str "/download") [], AStatus 200)) in *.
  destruct (download_chunks tag deadline w1) as [[[[h n]|]|e|] w2]; destruct Hr as (tr & Et & Em & Hr);
    unfold w1 in *; cbn [trace st] in *.
  - destruct Hr as (Hend & -> & ->). unfold fail_if.
    match goal with |- context [bool_decide ?P] => destruct (decide P) as [Hbad|Hgood] end.
    + rewrite bool_decide_eq_true_2 by done. exists (entry :: tr), false. cbn. rewrite Et, Em, <- ?app_assoc, ?app_nil_r.
      repeat split; try done. intros m _. right. right. split; [by right|done].
    + rewrite bool_decide_eq_false_2 by done. exists (entry :: tr), true. cbn. rewrite Et, Em, <- !app_assoc.
      repeat split; try done; [apply dec_stable; tauto|apply dec_stable; tauto|by intros b [= <-]].
  - exists (entry :: tr), false. cbn. rewrite Et, Em, <- ?app_assoc, ?app_nil_r. repeat split; try done. by intros b [= <-].
  - exists (entry :: tr), false. cbn. rewrite Et, Em, <- ?app_assoc, ?app_nil_r. repeat split; try done.
    intros m [= ->]. left. eexists. right. exact Hr.
  - exists (entry :: tr), false. cbn. rewrite Et, Em, <- ?app_assoc, ?app_nil_r. repeat split; done.
Qed.

Lemma download_transfer_transfers w :
  let '(o, w') := download_transfer cfg tag deadline want w in transferred o w w'.
Proof.
  assert (transferred Wait w w) as Hw.
  { exists [], false. rewrite !app_nil_r. cbn. repeat split; done. }
  unfold download_transfer, with_session, bind at 1, perform at 1. destruct (env w) as [|a env1]; [done|].
  destruct a; cbn [read_done]; try done.
  2: { exists [(Connect, ARaise e)], false. cbn. rewrite ?app_nil_r. repeat split; try done.
       intros m [= ->]. left. eexists. by left. }
  set (w1 := World env1 _ _). assert (Hb := download_body_transfers w1). unfold wp in Hb. unfold finally.
  match goal with |- context [match ?m w1 with _ => _ end] => destruct (m w1) as [o w2] end.
  assert (forall o' w' post, trace w' = trace w2 ++ post -> chunks_of post = [] -> marks (st w') = marks (st w2) ->
    (forall b, o' = Ret b -> o = Ret b) ->
    (forall m, o' = Exc (Fail m) -> o = Exc (Fail m) \/ exists q, In (q, ARaise (Fail m)) post) ->
    transferred o' w w') as Hpost.
  { intros o' w' post. intros. by eapply (transferred_around o o' w w1 w2 w' [(Connect, ADone)] post). }
  assert (forall o', (forall b, o' = Ret b -> o = Ret b) -> (forall m, o' = Exc (Fail m) -> o = Exc (Fail m)) ->
    transferred o' w w2) as Hsame by (intros o' ? Hf; apply (Hpost o' w2 []); rewrite ?app_nil_r; auto).
  unfold perform. destruct o as [b|e|]; [| |by apply Hsame];
    (destruct (env w2) as [|a env3]; [by apply Hsame|]); (destruct a; cbn; try (by apply Hsame)).
  all: match goal with |- transferred _ _ (World _ (_ ++ ?post) _) => apply (Hpost _ _ post); cbn; auto end.
  all: intros ? [= ->]; right; eexists; by left.
Qed.
End Download.

(** C6: a completed download is the stream.  A transfer counts every byte it
    receives, and completes (the status 200 tally) only when the chunks it read
    add up to [STREAM] bytes with the expected digest; so a server that sends the
    stream, in whatever chunks, is never failed: a [Fail] needs a bad status, a
    stream that ended as anything else than the expected bytes, or a [Fail]
    raised by the session itself. *)
Theorem download_verifies {D} `{!Sha1 D, !Sha1Laws D} cfg tag deadline w :
  0 <= STREAM cfg ->
  let '(o, w') := download_transfer (D := D) cfg tag deadline (expected_sha1 (D := D) cfg) w in
  exists tr (complete : bool), trace w' = trace w ++ tr /\
    marks (st w') = marks (st w) ++ moves tag (chunks_of tr) ++ (if complete then [Bump tag 200] else []) /\
    (complete = true -> len (concat (chunks_of tr)) = STREAM cfg /\
       sha_hexdigest (sha_update sha_init (concat (chunks_of tr))) = expected_sha1 (D := D) cfg) /\
    (forall b, o = Ret b -> complete = negb b) /\
    (forall m, o = Exc (Fail m) ->
       (exists q, In (q, ARaise (Fail m)) tr) \/ (exists status q, In (q, AStatus status) tr /\ status <> 200) \/
       (In (StreamNext, AEnd) tr /\ concat (chunks_of tr) <> gen_chunk 0 (STREAM cfg))).
Proof.
  intros HS. assert (H := download_transfer_transfers cfg tag deadline (expected_sha1 (D := D) cfg) w).
  destruct (download_transfer _ _ _ _ w) as [o w']. destruct H as (tr & complete & Et & Em & Hc & Hr & Hf).
  rewrite sha_update_concat in Hc. exists tr, complete. repeat split; try done; [by apply Hc|by apply Hc|].
  intros m Hm. destruct (Hf m Hm) as [?|[?|(Hend & Hbad)]]; [by left|by right; left|]. right. right. split; [done|].
  intros E. rewrite sha_update_concat, E, len_gen_chunk, <- expected_sha1_spec in Hbad by lia. by destruct Hbad.
Qed.

Lemma download_verifies_witness :
  let cfg := Config (str "streamdownload") (str "h3") (str "sync") [] 60 1 1 6 60 [] [] in
  let script := [ADone; AStatus 200; AChunk [0; 1; 2; 3]; ATime fzero; AChunk [4; 5]; ATime fzero; AEnd; ADone] in
  let '(o, w') := download_transfer (D := list Z) cfg (str "streamdownload") (flit 60 0) (expected_sha1 (D := list Z) cfg) (demo_world script) in
  exists tr (complete : bool), trace w' = tr /\ (forall b, o = Ret b -> complete = negb b) /\
    (complete = true -> len (concat (chunks_of tr)) = STREAM cfg).
Proof.
  intros cfg script.
  assert (H := download_verifies (D := list Z) cfg (str "streamdownload") (flit 60 0) (demo_world script) ltac:(done)).
  destruct (download_transfer _ _ _ _ _) as [o w']. destruct H as (tr & complete & Et & _ & Hc & Hr & _).
  exists tr, complete. split; [exact Et|]. split; [exact Hr|]. intros Hcomp. apply (Hc Hcomp).
Defined.
