(* ===== verification/SseProofs.v ===== *)
(** * What the SSE workload verifies

    The event ids a conversation delivers, read off its chunks, against the
    sequence [w_sse] accepts. *)
From S2P Require Import Prelude PyFloat PyDouble Coro Mix WsFrame H3Client Transport Payload Report Workloads WorkloadProofs.
#[local] Open Scope Z_scope.

Section Sse.
Context (tag : list Z) (int_uni : list Z -> res Z).

(** The ids of the complete events of some lines: an [id:] line names the next
    [data:] line. *)
Fixpoint events (cur : option Z) (lines : list (list Z)) : option Z * list Z :=
  match lines with
  | [] => (cur, [])
  | l :: ls =>
      if starts_with (str "id:") l then
        events (match int_str int_uni (strip (drop 3 l)) with Ok n => Some n | Raise _ => cur end) ls
      else match starts_with (str "data:") l, cur with
           | true, Some id => let '(c, ids) := events None ls in (c, id :: ids)
           | _, _ => events cur ls
           end
  end.

(** The lines of a stream of chunks, and the unfinished one. *)
Fixpoint lines_from (buf : list Z) (cs : list (list Z)) : list (list Z) * list Z :=
  match cs with
  | [] => ([], buf)
  | c :: cs' => let '(ls, b) := read_lines buf c in let '(ls', b') := lines_from b cs' in (ls ++ ls', b')
  end.

(** The ids one connection delivers. *)
Definition event_ids (cs : list (list Z)) : list Z := snd (events None (fst (lines_from [] cs))).

Lemma events_app cur l1 l2 :
  events cur (l1 ++ l2) = let '(c1, i1) := events cur l1 in let '(c2, i2) := events c1 l2 in (c2, i1 ++ i2).
Proof.
  revert cur. induction l1 as [|l l1 IH]; intros cur; cbn [app events]; [by destruct (events cur l2)|].
  destruct (starts_with (str "id:") l); [apply IH|].
  destruct (starts_with (str "data:") l), cur; try apply IH. rewrite IH. destruct (events None l1) as [c1 i1].
  by destruct (events c1 l2).
Qed.

Lemma lines_from_snoc buf cs c :
  lines_from buf (cs ++ [c]) =
  let '(ls, b) := lines_from buf cs in let '(ls', b') := read_lines b c in (ls ++ ls', b').
Proof.
  revert buf. induction cs as [|c0 cs IH]; intros buf; cbn [app lines_from].
  - destruct (read_lines buf c) as [ls b]. by rewrite app_nil_r.
  - destruct (read_lines buf c0) as [ls b]. rewrite IH. destruct (lines_from b cs) as [ls2 b2].
    destruct (read_lines b2 c) as [ls3 b3]. by rewrite app_assoc.
Qed.

(** [s'] is [s] after the events [ids], in order. *)
Definition advanced (s : sse) (ids : list Z) (cur : option Z) (s' : sse) : Prop :=
  ids = seqZ (got s) (len ids) /\
  s' = Sse (got s + len ids) (match last ids with Some i => Some i | None => last_id s end) cur
           (progressed s || negb (bool_decide (ids = []))) (this_batch s + len ids).

Lemma advanced_nil s : advanced s [] (cur_id s) s.
Proof.
  split; [done|]. destruct s. cbn -[len]. by rewrite len_nil, !Z.add_0_r, orb_false_r.
Qed.

Lemma seqZ_split_l n a b : 0 <= a -> 0 <= b -> seqZ n (a + b) = seqZ n a ++ seqZ (n + a) b.
Proof. intros. rewrite seqZ_app by lia. done. Qed.

Lemma advanced_trans s1 i1 c1 s2 i2 c2 s3 :
  advanced s1 i1 c1 s2 -> advanced s2 i2 c2 s3 -> advanced s1 (i1 ++ i2) c2 s3.
Proof.
  intros [E1 ->] [E2 ->]. cbn [got last_id progressed this_batch] in *. split.
  - rewrite len_app, seqZ_split_l by apply len_nonneg. by rewrite <- E1, <- E2.
  - rewrite len_app, last_app, !Z.add_assoc. f_equal; [by destruct (last i2)|].
    rewrite <- orb_assoc. f_equal. destruct i1, i2; done.
Qed.

Definition bumps (n : nat) : list tally_op := repeat (Bump tag 200) n.

(** One line, and the lines of one chunk. *)
Lemma for_lines_advances lines s w :
  wp (for_each lines (sse_line tag int_uni) s) (fun o w' =>
    trace w' = trace w /\ exists k, marks (st w') = marks (st w) ++ bumps k /\
    let '(cur, ids) := events (cur_id s) lines in
    match o with
    | Ret s' => advanced s ids cur s' /\ k = length ids
    | _ => (k <= length ids)%nat
    end) w.
Proof.
  assert (forall cur ls, let '(_, ids) := events cur ls in (0 <= length ids)%nat) as H0
    by (intros cur ls; destruct (events cur ls); lia).
  revert s w. induction lines as [|l ls IH]; intros s w; cbn [for_each events].
  { split; [done|]. exists 0%nat. rewrite app_nil_r. split; [done|]. split; [apply advanced_nil|done]. }
  apply wp_bind. unfold sse_line at 1, wp at 1.
  destruct (starts_with (str "id:") l).
  { destruct (int_str int_uni (strip (drop 3 l))) as [n|e]; cbn;
      [|split; [done|]; exists 0%nat; rewrite app_nil_r; split; [done|apply H0]].
    eapply wp_mono; [apply IH|]. cbn [cur_id]. intros o w' (Et & k & Em & Ho). split; [done|]. exists k. split; [done|].
    by destruct (events (Some n) ls), o. }
  destruct (starts_with (str "data:") l); [|apply IH].
  destruct (cur_id s) as [id|] eqn:Ec; [|rewrite <- Ec; apply IH].
  unfold fail_if. destruct (decide (id = got s)) as [->|Hne].
  2: { rewrite bool_decide_eq_true_2 by done. cbn. split; [done|]. exists 0%nat. rewrite app_nil_r. split; [done|].
       destruct (events None ls). cbn. lia. }
  rewrite bool_decide_eq_false_2 by auto. cbn.
  eapply wp_mono; [apply IH|]. cbn [cur_id trace st marks]. intros o w' (Et & k & Em & Ho). split; [done|].
  exists (S k). rewrite Em, <- app_assoc. split; [done|]. destruct (events None ls) as [cur ids].
  destruct o as [s'| |]; [|cbn; lia|cbn; lia]. destruct Ho as [Ha ->]. split; [|done].
  change (got s :: ids) with ([got s] ++ ids). eapply advanced_trans; [|exact Ha]. split; [done|]. cbn.
  f_equal. by rewrite orb_true_r.
Qed.

Lemma fail_if_extends b m : keeps extends (fail_if b m).
Proof. destruct b; [apply keeps_throw, _|apply keeps_ret, _]. Qed.

Lemma sse_chunk_extends s lines buf' :
  keeps extends (bind (for_each lines (sse_line tag int_uni) s) (fun s' => ret (inl (s', buf')) : coro op answer wstate (sse * list Z + sse))).
Proof.
  apply keeps_bind; [apply _| |intros; apply keeps_ret, _].
  apply keeps_for_each; [apply _|]. intros s' l. unfold sse_line, bump, mark.
  destruct (starts_with _ l); [apply keeps_bind; [apply _|apply keeps_lift, _|intros; apply keeps_ret, _]|].
  destruct (starts_with _ l), (cur_id s'); try apply keeps_ret, _.
  apply keeps_bind; [apply _|apply fail_if_extends|]. intros _.
  apply keeps_bind; [apply _|apply modify_extends|intros; apply keeps_ret, _].
Qed.

Lemma sse_lines_extends s : keeps extends (sse_lines tag int_uni s).
Proof.
  apply keeps_iter; [apply _|]. intros [s' buf]. apply keeps_bind; [apply _|apply perform_extends|].
  intros [c|]; [|apply keeps_ret, _]. destruct (read_lines buf c). apply sse_chunk_extends.
Qed.

(** The [async for] of one connection. *)
Lemma sse_lines_advances s0 w :
  cur_id s0 = None ->
  wp (sse_lines tag int_uni s0) (fun o w' =>
    exists tr k, trace w' = trace w ++ tr /\ marks (st w') = marks (st w) ++ bumps k /\
    match o with
    | Ret s' => exists cur, advanced s0 (event_ids (chunks_of tr)) cur s' /\ k = length (event_ids (chunks_of tr))
    | _ => (k <= length (event_ids (chunks_of tr)))%nat
    end) w.
Proof.
  intros Hcur. apply (wp_iter _ (fun sb w' => exists tr k, trace w' = trace w ++ tr /\
    marks (st w') = marks (st w) ++ bumps k /\ snd (lines_from [] (chunks_of tr)) = snd sb /\
    advanced s0 (event_ids (chunks_of tr)) (cur_id (fst sb)) (fst sb) /\
    fst (events None (fst (lines_from [] (chunks_of tr)))) = cur_id (fst sb) /\
    k = length (event_ids (chunks_of tr)))).
  - intros [s buf] w1 x' w2. apply bind_uses; [intros *; apply perform_uses|]. intros [c|]; [|apply keeps_ret, _].
    destruct (read_lines buf c) as [lines buf']. apply sse_chunk_extends.
  - exists [], 0%nat. rewrite !app_nil_r. cbn. rewrite Hcur. repeat split; try done.
    destruct s0. cbn in *. subst. rewrite !Z.add_0_r, orb_false_r. done.
  - intros [s buf] w1 (tr & k & Et & Em & Hbuf & Hadv & Hev & Hk). cbn [fst snd] in *. unfold wp, bind at 1, perform.
    destruct (env w1) as [|a env1]; [exists tr, k; repeat split; [done..|lia]|].
    destruct a; cbn [read_chunk]; try (exists tr, k; repeat split; [done..|lia]).
    + set (w2 := World env1 _ _). destruct (read_lines buf c) as [lines buf'] eqn:Erl.
      assert (H := for_lines_advances lines s w2). unfold wp in H. unfold bind.
      destruct (for_each lines _ s w2) as [o w3]. destruct H as (Et3 & k3 & Em3 & Ho).
      assert (trace w3 = trace w ++ tr ++ [(StreamNext, AChunk c)]) as Etr by (rewrite Et3; cbn; by rewrite Et, <- app_assoc).
      assert (marks (st w3) = marks (st w) ++ bumps (k + k3)) as Emk
        by (rewrite Em3; cbn; rewrite Em, <- app_assoc; unfold bumps; by rewrite repeat_app).
      assert (exists tr' k', trace w3 = trace w ++ tr' /\ marks (st w3) = marks (st w) ++ bumps k' /\ k' = (k + k3)%nat /\
        snd (lines_from [] (chunks_of tr')) = buf' /\
        let '(c2, i2) := events (cur_id s) lines in
        event_ids (chunks_of tr') = event_ids (chunks_of tr) ++ i2 /\
        fst (events None (fst (lines_from [] (chunks_of tr')))) = c2) as (tr' & k' & Et' & Em' & Hk' & Hbuf' & Hids).
      { exists (tr ++ [(StreamNext, AChunk c)]), (k + k3)%nat. do 3 (split; [done|]).
        unfold chunks_of, event_ids in *. rewrite flat_map_app. cbn [flat_map chunk_of app]. rewrite lines_from_snoc.
        destruct (lines_from [] (flat_map chunk_of tr)) as [ls b]. cbn [fst snd] in *. subst b. rewrite Erl. cbn [fst snd].
        rewrite events_app. destruct (events None ls) as [c1 i1]. cbn [fst snd] in *. subst c1.
        destruct (events (cur_id s) lines) as [c2 i2]. done. }
      destruct (events (cur_id s) lines) as [c2 i2]. destruct Hids as [Hids Hcur'].
      destruct o as [s'|e|]; cbn; exists tr', k'; rewrite Hids, ?length_app; (split; [done|]); (split; [done|]); [|lia|lia].
      destruct Ho as [Hadv2 ->]. assert (cur_id s' = c2) as -> by (destruct Hadv2 as [_ ->]; done).
      split; [done|]. split; [by eapply advanced_trans|]. split; [done|]. by rewrite Hk', Hk.
    + exists (tr ++ [(StreamNext, AEnd)]), k. cbn. unfold chunks_of in *. rewrite flat_map_app, app_nil_r, Et, app_assoc.
      split; [done|]. split; [done|]. eauto.
    + exists (tr ++ [(StreamNext, ARaise e)]), k. cbn. unfold chunks_of in *. rewrite flat_map_app, app_nil_r, Et, app_assoc.
      repeat split; [done..|lia].
Qed.

(** One connection that is accepted. *)
Definition accepted_connection (gl gl' : Z * option Z) (tr : list (op * answer)) : Prop :=
  let ids := event_ids (chunks_of tr) in
  head tr = Some (StreamStart (str "GET") (str "/sse") (sse_headers gl.2), AStatus 200) /\
  ids <> [] /\ ids = seqZ gl.1 (len ids) /\ gl' = (gl.1 + len ids, last ids) /\
  (gl'.1 < sse_total -> len ids = sse_batch).

Lemma sse_connection_accepted gl w :
  wp (sse_connection tag int_uni gl) (fun o w' => match o with
    | Ret gl' => exists tr, trace w' = trace w ++ tr /\ accepted_connection gl gl' tr /\
        marks (st w') = marks (st w) ++ bumps (length (event_ids (chunks_of tr)))
    | _ => True
    end) w.
Proof.
  destruct gl as [got0 last0]. unfold sse_connection. apply wp_bind. apply wp_perform; [done|].
  intros a env1 r Ee Hr. destruct a; cbn in Hr; simplify_eq; [|done]. cbn [fst snd].
  unfold fail_if at 1. destruct (decide (status = 200)) as [->|Hs]; [|by rewrite bool_decide_eq_true_2].
  rewrite bool_decide_eq_false_2 by auto. apply wp_bind. cbn [wp ret]. apply wp_bind.
  eapply wp_mono; [by apply sse_lines_advances|]. cbn [trace st]. intros o w' (tr & k & Et & Em & Ho).
  destruct o as [s|e|]; [|done|done]. destruct Ho as (cur & [Hids ->] & ->). set (ids := event_ids _) in *.
  cbn [progressed got this_batch last_id] in *. unfold fail_if.
  destruct (decide (ids = [])) as [Hn|Hn]; [rewrite bool_decide_eq_true_2 by done; done|].
  rewrite (bool_decide_eq_false_2 (ids = [])) by done. cbn [negb orb]. unfold wp, bind, ret.
  destruct ((got0 + len ids <? sse_total) && _) eqn:Eb; [done|]. cbn.
  exists ((StreamStart (str "GET") (str "/sse") (sse_headers last0), AStatus 200) :: tr). rewrite Et, <- app_assoc.
  split; [done|]. assert (exists i, last ids = Some i) as [i Hi].
  { destruct (last ids) as [i|] eqn:El; [by exists i|]. by apply last_None in El. }
  split; [|by rewrite Em]. unfold accepted_connection. change (chunks_of (_ :: tr)) with (chunks_of tr). fold ids. cbn [fst snd].
  rewrite Hi. repeat split; try done. intros Hlt. apply andb_false_iff in Eb as [Eb|Eb]; zbool; lia.
Qed.

Lemma sse_sequence_productive :
  productive (fun gl => if gl.1 <? sse_total then bind (sse_connection tag int_uni gl) (fun gl' => ret (inl gl')) else ret (inr gl)
    : coro op answer wstate (Z * option Z + Z * option Z)).
Proof.
  intros [g l] w gl' w'. cbn [fst]. destruct (g <? sse_total); [|done].
  apply bind_uses; [|intros; apply keeps_ret, _]. intros w1 r w2. apply bind_uses; [intros *; apply perform_uses|].
  intros status. apply keeps_bind; [apply _|apply fail_if_extends|]. intros _.
  apply keeps_bind; [apply _|apply sse_lines_extends|]. intros s.
  apply keeps_bind; [apply _|apply fail_if_extends|]. intros _.
  apply keeps_bind; [apply _|apply fail_if_extends|]. intros _. apply keeps_ret, _.
Qed.

(** The connections since [w], when [gl] holds at the head of the loop. *)
Definition batches_of (conns : list (list (op * answer))) : list (list Z) :=
  map (fun tr => event_ids (chunks_of tr)) conns.

Definition collected (w : world op answer wstate) (gl : Z * option Z) (w' : world op answer wstate) : Prop :=
  exists conns, trace w' = trace w ++ concat conns /\
    concat (batches_of conns) = seqZ 0 gl.1 /\ 0 <= gl.1 /\ Forall (fun b => b <> []) (batches_of conns) /\
    Forall (fun b => len b = sse_batch) (removelast (batches_of conns)) /\
    (gl.1 < sse_total -> Forall (fun b => len b = sse_batch) (batches_of conns)) /\
    marks (st w') = marks (st w) ++ concat (map (fun b => bumps (length b)) (batches_of conns)) /\
    Forall (fun tr => exists l, head tr = Some (StreamStart (str "GET") (str "/sse") (sse_headers l), AStatus 200)) conns.

Lemma collected_snoc w gl w1 gl' w2 tr :
  gl.1 < sse_total -> collected w gl w1 -> accepted_connection gl gl' tr -> trace w2 = trace w1 ++ tr ->
  marks (st w2) = marks (st w1) ++ bumps (length (event_ids (chunks_of tr))) -> collected w gl' w2.
Proof.
  intros Hlt (conns & Et & Ec & Hg & Hne & _ & Hall & Em & Hh) (Hhead & Hids & Hseq & -> & Hb) Et2 Em2.
  exists (conns ++ [tr]). unfold batches_of in *. rewrite map_app, !concat_app. cbn [map concat fst]. rewrite !app_nil_r.
  set (ids := event_ids (chunks_of tr)) in *. assert (Hl := len_nonneg ids).
  split; [by rewrite Et2, Et, app_assoc|]. split; [rewrite Ec, seqZ_split_l, Z.add_0_l, <- Hseq by lia; done|]. split; [lia|].
  split; [apply Forall_app; split; [done|by repeat constructor]|].
  split; [rewrite removelast_last; by apply Hall|].
  split; [intros Hlt'; apply Forall_app; split; [by apply Hall|by repeat constructor; apply Hb]|].
  split; [rewrite Em2, Em, map_app, concat_app; cbn; by rewrite app_nil_r, app_assoc|].
  apply Forall_app. split; [done|]. repeat constructor. by exists gl.2.
Qed.
End Sse.

Lemma event_ids_bumps tag (batches : list (list Z)) g :
  0 <= g -> concat batches = seqZ 0 g -> concat (map (fun b => bumps tag (length b)) batches) = bumps tag (Z.to_nat g).
Proof.
  intros Hg E. transitivity (bumps tag (length (concat batches))).
  - clear E. induction batches as [|b bs IH]; [done|]. cbn [map concat]. rewrite IH, length_app. unfold bumps. by rewrite repeat_app.
  - rewrite E, length_seqZ. done.
Qed.

(** C7: an accepted SSE sequence is complete and in order.  If a sequence
    returns, the event ids its connections delivered are 0, 1, 2, ... without gap
    or repetition, at least [sse_total] of them, each counted once; every
    connection delivered something, and every one but the last exactly
    [sse_batch] events. *)
Theorem sse_sequence_in_order tag int_uni w g last_ w' :
  sse_sequence tag int_uni w = (Ret (g, last_), w') ->
  exists conns, trace w' = trace w ++ concat conns /\
    let batches := map (fun tr => event_ids int_uni (chunks_of tr)) conns in
    concat batches = seqZ 0 g /\ sse_total <= g /\ Forall (fun b => b <> []) batches /\
    Forall (fun b => len b = sse_batch) (removelast batches) /\
    marks (st w') = marks (st w) ++ repeat (Bump tag 200) (Z.to_nat g) /\
    Forall (fun tr => exists l, head tr = Some (StreamStart (str "GET") (str "/sse") (sse_headers l), AStatus 200)) conns.
Proof.
  intros E.
  assert (wp (sse_sequence tag int_uni) (fun o w' => match o with
    | Ret gl => collected tag int_uni w gl w' /\ sse_total <= gl.1 | _ => True end) w) as H.
  { apply (wp_iter _ (collected tag int_uni w)); [apply sse_sequence_productive| |].
    - exists []. cbn. rewrite !app_nil_r. repeat split; try done; constructor.
    - intros gl w1 Hc. destruct (Z.ltb_spec gl.1 sse_total) as [Hlt|Hge]; [|by split].
      apply wp_bind. eapply wp_mono; [apply sse_connection_accepted|].
      intros [gl'|e|] w2; try done. intros (tr & Et & Ha & Em). by eapply collected_snoc. }
  unfold wp in H. rewrite E in H. destruct H as [(conns & Et & Ec & Hg & Hne & Hr & _ & Em & Hh) Hge]. cbn [fst] in *.
  exists conns. unfold batches_of in *. rewrite (event_ids_bumps tag _ g Hg Ec) in Em. repeat split; done.
Qed.

(** The server's side of a connection that sends the events [lo .. lo + n - 1],
    each as one chunk, and closes. *)
Definition event_text (i : Z) : list Z := str "id: " ++ dec i ++ [10] ++ str "data: tick" ++ [10; 10].
Definition no_unicode (_ : list Z) : res Z := Raise invalid_int.
Definition serve (lo n : Z) : list answer :=
  [AStatus 200] ++ map (fun i => AChunk (event_text i)) (seqZ lo n) ++ [AEnd].

Lemma sse_sequence_in_order_witness :
  exists g last_ w',
    sse_sequence (str "sse") no_unicode (demo_world (serve 0 20 ++ serve 20 20 ++ serve 40 20 ++ serve 60 20 ++ serve 80 20))
    = (Ret (g, last_), w') /\ g = 100 /\
    exists conns, trace w' = concat conns /\ concat (map (fun tr => event_ids no_unicode (chunks_of tr)) conns) = seqZ 0 100.
Proof.
  destruct (sse_sequence (str "sse") no_unicode (demo_world _)) as [o w'] eqn:E.
  assert (o = Ret (100, Some 99)) as -> by (transitivity (fst (o, w')); [done|]; rewrite <- E; vm_compute; reflexivity).
  exists 100, (Some 99), w'. split; [reflexivity|]. split; [done|].
  destruct (sse_sequence_in_order _ _ _ _ _ _ E) as (conns & Et & Ec & _).
  exists conns. split; [exact Et|exact Ec].
Defined.

(** A server that never closes a batch passes too.  The batch check is
    skipped once the total is reached, so one connection that delivers all 100
    events, or overshoots them, is an accepted sequence: the
    close-and-resume behaviour the check is there for is not verified against
    a server that does not close. *)
Theorem sse_single_connection_accepted :
  fst (sse_sequence (str "sse") no_unicode (demo_world (serve 0 100))) = Ret (100, Some 99) /\
  fst (sse_sequence (str "sse") no_unicode (demo_world (serve 0 130))) = Ret (130, Some 129) /\
  fst (sse_sequence (str "sse") no_unicode (demo_world (serve 0 20 ++ serve 20 19)))
  = Exc (Fail (str "sse short batch: 19 events before close (want 20), got=39")).
Proof. vm_compute. repeat split; reflexivity. Qed.
