(* ===== verification/Cell.v ===== *)
(** * A whole cell: the fan-outs and the verdict

    [stress_client.py] starts [CLIENTS] copies of one workload coroutine, each of
    which gathers its workers; [w_mixed] gathers one slice per workload.  This file
    models the [asyncio.gather] fan-outs of every [w_*] and of [main], runs them
    under any interleaving of the workers, and connects what the workers verified
    ([WorkloadProofs]) with what [main] reports ([Report]).

    The workers read nothing that another worker writes: they share the event loop
    and only add to the tallies.  So a worker's run is the run of its coroutine on
    the answers it gets, and an interleaving is an order of their additions. *)
From S2P Require Import Prelude PyFloat PyDouble Coro Mix WsFrame H3Client Transport Payload Report Workloads WorkloadProofs.
#[local] Open Scope Z_scope.

(** ** The fan-outs *)

(** What a coroutine that only awaits amounts to: a worker under its tag, a
    [gather] of coroutines, or a first await followed by the rest. *)
Inductive proc :=
| Work (tag : list Z) (m : coro op answer wstate unit)
| Gather (ps : list proc)
| Await (tag : list Z) (m : coro op answer wstate unit) (p : proc).

Section Plan.
Context (cfg : config) (deadline : spec_float) (slices : list (list Z * Z)).
Context (lower_uni repr : list Z -> list Z) (int_uni : list Z -> res Z).
Context {D : Type} `{!Sha1 D}.
Context (gzip brotli zstd : list Z -> list Z).

(** [range(n)] *)
Definition range (n : Z) : list Z := seqZ 0 n.

(** The bodies a client prepares before it fans out, from its own draws of
    [os.urandom]; an unknown compression ends the coroutine there. *)
Definition with_prepared (rand : nat -> Z -> list Z) (tag : list Z) (k : list prepared -> proc) : proc :=
  match prepare cfg gzip brotli zstd (payload_mix rand) with
  | Ok prep => k prep
  | Raise e => Work tag (throw e)
  end.

Definition w_requests (rand : nat -> Z -> list Z) (tag : list Z) (conc : Z) : proc :=
  with_prepared rand tag (fun prep =>
    Gather (map (fun _ => Work tag (drive deadline (requests_once cfg tag deadline lower_uni repr expected_gets prep))) (range conc))).

Definition w_methods (rand : nat -> Z -> list Z) (tag : list Z) : proc :=
  with_prepared rand tag (fun prep =>
    Gather (map (fun _ => Work tag (drive deadline (methods_once cfg tag deadline lower_uni repr prep))) (range (CONC cfg)))).

Definition w_ws (tag : list Z) (conc : Z) : proc :=
  if IS_H3 cfg
  then Gather (map (fun i => Work tag (ramped cfg deadline i (ws_once_h3 tag deadline repr i) conc)) (range conc))
  else Gather (map (fun i => Work tag (ramped cfg deadline i (ws_once cfg tag deadline i) conc)) (range conc)).

Definition w_sse (tag : list Z) (conc : Z) : proc :=
  Gather (map (fun _ => Work tag (drive deadline (sse_once tag deadline int_uni))) (range conc)).

Definition w_streamupload (tag : list Z) (conc : Z) : proc :=
  Await tag upload_probe
    (Gather (map (fun _ => Work tag (drive deadline (upload_once cfg tag deadline (expected_sha1 (D := D) cfg)))) (range conc))).

Definition w_streamdownload (tag : list Z) (conc : Z) : proc :=
  Gather (map (fun _ => Work tag (drive deadline (download_once (D := D) cfg tag deadline (expected_sha1 (D := D) cfg)))) (range conc)).

(** [MIX_FNS[tag](n)]: [None] is the [KeyError]. *)
Definition MIX_FNS (rand : nat -> Z -> list Z) (tag : list Z) (n : Z) : option proc :=
  if decide (tag = str "requests") then Some (w_requests rand tag n)
  else if decide (tag = str "ws") then Some (w_ws tag n)
  else if decide (tag = str "sse") then Some (w_sse tag n)
  else if decide (tag = str "streamupload") then Some (w_streamupload tag n)
  else if decide (tag = str "streamdownload") then Some (w_streamdownload tag n)
  else None.

Definition key_error (tag : list Z) : coro op answer wstate unit := throw (OtherException (str "KeyError") tag).

(** [run_slice], and the gather of [w_mixed]. *)
Definition run_slice (rand : nat -> Z -> list Z) (slice : list Z * Z) : proc :=
  match MIX_FNS rand slice.1 slice.2 with Some p => p | None => Work slice.1 (key_error slice.1) end.

Definition w_mixed (rand : nat -> Z -> list Z) : proc := Gather (map (run_slice rand) slices).

(** [WORKLOADS[WORKLOAD]()], with the default argument of each. *)
Definition workload (rand : nat -> Z -> list Z) : option proc :=
  let name := WORKLOAD cfg in
  if decide (name = str "requests") then Some (w_requests rand name (CONC cfg))
  else if decide (name = str "methods") then Some (w_methods rand name)
  else if decide (name = str "ws") then Some (w_ws name (CONC cfg))
  else if decide (name = str "sse") then Some (w_sse name (CONC cfg))
  else if decide (name = str "streamupload") then Some (w_streamupload name 1)
  else if decide (name = str "streamdownload") then Some (w_streamdownload name 1)
  else if decide (name = str "mixed") then Some (w_mixed rand)
  else None.

(** [asyncio.gather(star [WORKLOADS[WORKLOAD]() for _ in range(CLIENTS)])]; client
    [i] draws [urandom i]. *)
Definition cell (urandom : Z -> nat -> Z -> list Z) : option proc :=
  Gather <$> mapM (fun i => workload (urandom i)) (range (CLIENTS cfg)).
End Plan.

Lemma cell_clients cfg deadline slices lower_uni repr int_uni {D} `{!Sha1 D} gzip brotli zstd urandom p :
  cell (D := D) cfg deadline slices lower_uni repr int_uni gzip brotli zstd urandom = Some p ->
  exists ps, p = Gather ps /\
    Forall2 (fun i q => workload (D := D) cfg deadline slices lower_uni repr int_uni gzip brotli zstd (urandom i) = Some q) (range (CLIENTS cfg)) ps.
Proof. unfold cell. intros H. apply fmap_Some in H as (ps & H & ->). exists ps. split; [done|]. by apply mapM_Some. Qed.

(** The coroutines that drive in parallel. *)
Fixpoint slots (p : proc) : Z :=
  match p with
  | Work _ _ => 1
  | Gather ps => zsum (map slots ps)
  | Await _ _ p => slots p
  end.

(** ** Runs of a cell *)

(** A coroutine that has been started: the additions it has still to make and how
    it will end. *)
Inductive tree :=
| Leaf (todo : list tally_op) (o : outcome unit)
| Node (ts : list tree)
| Then (todo : list tally_op) (o : outcome unit) (t : tree).

Definition run_worker (m : coro op answer wstate unit) (script : list answer) : outcome unit * world op answer wstate :=
  m (World script [] (WState [] fzero false)).

(** Start [p]; the coroutine at [path] gets the answers [scripts path]. *)
Fixpoint spawn (scripts : list nat -> list answer) (path : list nat) (p : proc) : tree :=
  match p with
  | Work _ m => let '(o, w) := run_worker m (scripts path) in Leaf (marks (st w)) o
  | Gather ps =>
      Node ((fix children i ps :=
               match ps with
               | [] => []
               | p :: ps' => spawn scripts (path ++ [i]) p :: children (S i) ps'
               end) 0%nat ps)
  | Await _ m p => let '(o, w) := run_worker m (scripts path) in Then (marks (st w)) o (spawn scripts (path ++ [0%nat]) p)
  end.

(** One addition by one of the coroutines that can run. *)
Inductive steps : tree -> tally_op -> tree -> Prop :=
| step_leaf a todo o : steps (Leaf (a :: todo) o) a (Leaf todo o)
| step_node l t r a t' : steps t a t' -> steps (Node (l ++ t :: r)) a (Node (l ++ t' :: r))
| step_first a todo o t : steps (Then (a :: todo) o t) a (Then todo o t)
| step_rest t a t' : steps t a t' -> steps (Then [] (Ret tt) t) a (Then [] (Ret tt) t').

(** How an await of the whole can end: a gather returns when all its children
    have, and raises the exception of a child as soon as there is one. *)
Inductive ends : tree -> res unit -> Prop :=
| end_ret : ends (Leaf [] (Ret tt)) (Ok tt)
| end_exc e : ends (Leaf [] (Exc e)) (Raise e)
| end_all ts : ends_all ts -> ends (Node ts) (Ok tt)
| end_any l t r e : ends t (Raise e) -> ends (Node (l ++ t :: r)) (Raise e)
| end_first e t : ends (Then [] (Exc e) t) (Raise e)
| end_rest t r : ends t r -> ends (Then [] (Ret tt) t) r
with ends_all : list tree -> Prop :=
| all_nil : ends_all []
| all_cons t ts : ends t (Ok tt) -> ends_all ts -> ends_all (t :: ts).

Scheme ends_mut := Minimality for ends Sort Prop with ends_all_mut := Minimality for ends_all Sort Prop.

(** What happens to the tallies: an addition, or the background reporter printing
    a line, which moves its own marks only. *)
Inductive cell_steps (cfg : config) (slices : list (list Z * Z)) (start : spec_float) : tree * tallies -> tree * tallies -> Prop :=
| cells_refl c : cell_steps cfg slices start c c
| cells_tally t a t' s c : steps t a t' -> cell_steps cfg slices start (t', tally cfg s a) c -> cell_steps cfg slices start (t, s) c
| cells_report t now prefix rss heap fds text s s' c :
    report_line cfg slices start now prefix rss heap fds s = Ok (text, s') ->
    cell_steps cfg slices start (t, s') c -> cell_steps cfg slices start (t, s) c.

(** [wait_for(gather(...), timeout=SECONDS + 60)]: the gather's result, or
    [TimeoutError] while it has none. *)
Inductive awaited (t : tree) : res unit -> Prop :=
| awaited_end r : ends t r -> awaited t r
| awaited_timeout : awaited t (Raise (TimeoutError [])).

(** The tallies the workers start from: [_rate[0] = _ops[0] = _mix_at[0] = start]. *)
Definition start_tallies (start : spec_float) : tallies :=
  with_mix ∅ start (with_ops (start, 0) (with_rate (start, 0) no_tallies)).

(** A run of [main] from the start of the workers to its exit: some interleaving of
    them, what the await gave, and the verdict on the tallies they left. *)
Definition cell_run (cfg : config) (slices : list (list Z * Z)) (start now : spec_float) (stats : res (Z * Z * option Z))
  (scripts : list nat -> list answer) (p : proc) (r : res Z) : Prop :=
  exists t s outcome out, cell_steps cfg slices start (spawn scripts [] p, start_tallies start) (t, s) /\ awaited t outcome /\
    main cfg slices start now outcome stats s = (out, r).

(** ** Reasoning about trees *)

Section TreeInd.
Context (P : tree -> Prop) (Hleaf : forall todo o, P (Leaf todo o)) (Hnode : forall ts, Forall P ts -> P (Node ts))
  (Hthen : forall todo o t, P t -> P (Then todo o t)).

Fixpoint tree_nested_ind (t : tree) : P t :=
  match t with
  | Leaf todo o => Hleaf todo o
  | Node ts => Hnode ts ((fix go ts : Forall P ts :=
      match ts with
      | [] => @List.Forall_nil tree P
      | t :: ts' => @List.Forall_cons tree P t ts' (tree_nested_ind t) (go ts')
      end) ts)
  | Then todo o t => Hthen todo o t (tree_nested_ind t)
  end.
End TreeInd.

(** The additions left, and the endings. *)
Fixpoint todo_of (t : tree) : list tally_op :=
  match t with
  | Leaf todo _ => todo
  | Node ts => flat_map todo_of ts
  | Then todo _ t => todo ++ todo_of t
  end.

Fixpoint endings (t : tree) : list (outcome unit) :=
  match t with
  | Leaf _ o => [o]
  | Node ts => flat_map endings ts
  | Then _ o t => o :: endings t
  end.

Lemma steps_todo t a t' : steps t a t' -> Permutation (todo_of t) (a :: todo_of t') /\ endings t' = endings t.
Proof.
  induction 1 as [a todo o|l t r a t' _ [IH1 IH2]|a todo o t|t a t' _ [IH1 IH2]]; cbn [todo_of endings]; auto.
  - rewrite !flat_map_app. cbn [flat_map]. rewrite IH1, IH2. split; [|done]. cbn.
    apply Permutation_sym, Permutation_middle.
  - rewrite IH2. auto.
Qed.

Lemma ends_ok t r : ends t r ->
  match r with
  | Ok _ => todo_of t = [] /\ Forall (fun o => o = Ret tt) (endings t)
  | Raise e => Exc e ∈ endings t
  end.
Proof.
  revert t r. apply (ends_mut (fun t r => match r with
    | Ok _ => todo_of t = [] /\ Forall (fun o => o = Ret tt) (endings t)
    | Raise e => Exc e ∈ endings t end)
    (fun ts => flat_map todo_of ts = [] /\ Forall (fun o => o = Ret tt) (flat_map endings ts))).
  - by repeat constructor.
  - intros e. by left.
  - auto.
  - intros l t r e _ IH. cbn [endings]. rewrite flat_map_app. cbn [flat_map]. set_solver.
  - intros e t. by left.
  - intros t [[]|e] _ IH; cbn [todo_of endings]; [|by right]. destruct IH as [-> IH]. split; [done|by constructor].
  - by repeat constructor.
  - intros t ts _ [E1 H1] _ [E2 H2]. cbn [flat_map]. rewrite E1, E2. split; [done|by apply Forall_app].
Qed.

#[export] Instance tally_proper cfg : Proper (same_counts ==> eq ==> same_counts) (tally cfg).
Proof.
  intros t t' [H1 H2 H3 H4] o ? <-. destruct t, t'; cbn in *; subst. by destruct o.
Qed.

#[export] Instance fold_tally_proper cfg : Proper (eq ==> same_counts ==> same_counts) (fold_left (tally cfg)).
Proof.
  intros ops ? <-. induction ops as [|o ops IH]; intros t t' H; cbn; [done|]. apply IH. by rewrite H.
Qed.

#[export] Instance ok_ops_proper : Proper (same_counts ==> eq) ok_ops.
Proof. intros t t' [H _ _ _]. unfold ok_ops. by rewrite H. Qed.

(** However the workers and the reporter interleave, the counts are those of the
    additions made, and nothing is lost. *)
Lemma cell_steps_counts cfg slices start c c' :
  cell_steps cfg slices start c c' ->
  exists done_, Permutation (todo_of c.1) (done_ ++ todo_of c'.1) /\ endings c'.1 = endings c.1 /\
    same_counts c'.2 (fold_left (tally cfg) done_ c.2).
Proof.
  induction 1 as [c|t a t' s c Hs _ (done_ & HP & He & Hc)|t now prefix rss heap fds text s s' c Hr _ (done_ & HP & He & Hc)].
  - exists []. by cbn.
  - cbn [fst snd] in *. destruct (steps_todo _ _ _ Hs) as [H1 H2]. exists (a :: done_). cbn. rewrite H1, HP, <- H2. auto.
  - cbn [fst snd] in *. exists done_. split; [done|]. split; [done|]. rewrite Hc. by rewrite (report_line_counts _ _ _ _ _ _ _ _ _ _ _ Hr).
Qed.

(** ** A cell whose workers return can be run to its end *)

Inductive multi : tree -> list tally_op -> tree -> Prop :=
| multi_nil t : multi t [] t
| multi_cons t a t' ops t'' : steps t a t' -> multi t' ops t'' -> multi t (a :: ops) t''.

Lemma multi_trans t ops t' ops' t'' : multi t ops t' -> multi t' ops' t'' -> multi t (ops ++ ops') t''.
Proof. induction 1; [done|]. intros H'. econstructor; eauto. Qed.

Lemma multi_node l t r ops t' : multi t ops t' -> multi (Node (l ++ t :: r)) ops (Node (l ++ t' :: r)).
Proof. induction 1; econstructor; [by apply step_node|done]. Qed.

Lemma multi_rest t ops t' : multi t ops t' -> multi (Then [] (Ret tt) t) ops (Then [] (Ret tt) t').
Proof. induction 1; econstructor; [by apply step_rest|done]. Qed.

Lemma multi_leaf todo o : multi (Leaf todo o) todo (Leaf [] o).
Proof. induction todo; econstructor; [apply step_leaf|done]. Qed.

Lemma multi_first todo o t : multi (Then todo o t) todo (Then [] o t).
Proof. induction todo; econstructor; [apply step_first|done]. Qed.

Lemma multi_cell cfg slices start t ops t' s :
  multi t ops t' -> cell_steps cfg slices start (t, s) (t', fold_left (tally cfg) ops s).
Proof. intros H. revert s. induction H; intros s; [constructor|]. eapply cells_tally; eauto. Qed.

Lemma drain t :
  Forall (fun o => o = Ret tt) (endings t) -> exists t', multi t (todo_of t) t' /\ ends t' (Ok tt).
Proof.
  induction t as [todo o|ts IH|todo o t IH] using tree_nested_ind; cbn [endings todo_of]; intros H.
  - inversion H; subst. eexists. split; [apply multi_leaf|constructor].
  - assert (exists ts', (forall l, multi (Node (l ++ ts)) (flat_map todo_of ts) (Node (l ++ ts'))) /\ ends_all ts') as (ts' & Hm & He).
    { induction IH as [|t ts Ht _ IHts]; [exists []; split; [constructor|constructor]|].
      cbn [flat_map] in *. apply Forall_app in H as [H1 H2]. destruct (Ht H1) as (t' & Hm & He).
      destruct (IHts H2) as (ts' & Hms & Hes). exists (t' :: ts'). split; [|by constructor]. intros l.
      eapply multi_trans; [by apply multi_node|]. specialize (Hms (l ++ [t'])). by rewrite <- !app_assoc in Hms. }
    eexists. split; [apply (Hm [])|]. by constructor.
  - inversion H; subst. destruct (IH ltac:(done)) as (t' & Hm & He). eexists. split; [|by apply end_rest].
    eapply multi_trans; [apply multi_first|by apply multi_rest].
Qed.

(** ** The workers of a cell *)

(** A coroutine that was started: its tag, how it ended, and where. *)
Record worker := Worker { w_tag : list Z; w_out : outcome unit; w_end : world op answer wstate }.

Definition worker_of (tag : list Z) (m : coro op answer wstate unit) (script : list answer) : worker :=
  let '(o, w) := run_worker m script in Worker tag o w.

Definition w_marks (x : worker) : list tally_op := marks (st (w_end x)).

Fixpoint workers (scripts : list nat -> list answer) (path : list nat) (p : proc) : list worker :=
  match p with
  | Work tag m => [worker_of tag m (scripts path)]
  | Gather ps =>
      (fix children i ps :=
         match ps with
         | [] => []
         | p :: ps' => workers scripts (path ++ [i]) p ++ children (S i) ps'
         end) 0%nat ps
  | Await tag m p => worker_of tag m (scripts path) :: workers scripts (path ++ [0%nat]) p
  end.

Section ProcInd.
Context (P : proc -> Prop) (Hwork : forall tag m, P (Work tag m)) (Hgather : forall ps, Forall P ps -> P (Gather ps))
  (Hawait : forall tag m p, P p -> P (Await tag m p)).

Fixpoint proc_nested_ind (p : proc) : P p :=
  match p with
  | Work tag m => Hwork tag m
  | Gather ps => Hgather ps ((fix go ps : Forall P ps :=
      match ps with
      | [] => @List.Forall_nil proc P
      | p :: ps' => @List.Forall_cons proc P p ps' (proc_nested_ind p) (go ps')
      end) ps)
  | Await tag m p => Hawait tag m p (proc_nested_ind p)
  end.
End ProcInd.

Lemma spawn_workers scripts path p :
  todo_of (spawn scripts path p) = flat_map w_marks (workers scripts path p) /\
  endings (spawn scripts path p) = map w_out (workers scripts path p).
Proof.
  revert path. induction p as [tag m|ps IH|tag m p IH] using proc_nested_ind; intros path; cbn [spawn workers].
  - unfold worker_of. destruct (run_worker m (scripts path)). cbn. by rewrite app_nil_r.
  - cbn [todo_of endings]. generalize 0%nat as i. induction IH as [|p ps Hp _ IHps]; intros i; [done|].
    destruct (Hp (path ++ [i])) as [E1 E2]. destruct (IHps (S i)) as [E3 E4].
    cbn [flat_map]. by rewrite flat_map_app, map_app, E1, E2, <- E3, <- E4.
  - unfold worker_of. destruct (run_worker m (scripts path)). destruct (IH (path ++ [0%nat])) as [E1 E2].
    cbn [todo_of endings flat_map map]. by rewrite E1, E2.
Qed.

(** [Q] of every coroutine of the plan. *)
Fixpoint all_work (Q : list Z -> coro op answer wstate unit -> Prop) (p : proc) : Prop :=
  match p with
  | Work tag m => Q tag m
  | Gather ps => (fix go ps := match ps with [] => True | p :: ps' => all_work Q p /\ go ps' end) ps
  | Await tag m p => Q tag m /\ all_work Q p
  end.

Lemma all_work_gather Q ps : all_work Q (Gather ps) <-> Forall (all_work Q) ps.
Proof.
  cbn. induction ps as [|p ps IH]; [by split|]. rewrite IH. split; [by intros []; constructor|by inversion 1].
Qed.

Lemma all_work_map {X} Q (f : X -> proc) l : (forall x, x ∈ l -> all_work Q (f x)) -> all_work Q (Gather (map f l)).
Proof.
  intros H. apply all_work_gather, Forall_forall. intros p Hp. apply list_elem_of_fmap in Hp as (x & -> & Hx). auto.
Qed.

Lemma all_work_impl (Q Q' : list Z -> coro op answer wstate unit -> Prop) p :
  (forall tag m, Q tag m -> Q' tag m) -> all_work Q p -> all_work Q' p.
Proof.
  intros H. induction p as [tag m|ps IH|tag m p IH] using proc_nested_ind; [apply H| |intros []; split; auto].
  rewrite !all_work_gather. intros Hps. apply Forall_forall. rewrite Forall_forall in IH, Hps. auto.
Qed.

Lemma workers_all Q scripts path p :
  all_work Q p ->
  Forall (fun x => exists m script, Q (w_tag x) m /\ run_worker m script = (w_out x, w_end x)) (workers scripts path p).
Proof.
  revert path. induction p as [tag m|ps IH|tag m p IH] using proc_nested_ind; intros path H; cbn [workers].
  - constructor; [|constructor]. exists m, (scripts path). cbn in H. unfold worker_of. by destruct (run_worker _ _).
  - apply all_work_gather in H. generalize 0%nat as i. induction IH as [|p ps Hp _ IHps]; intros i; [constructor|].
    inversion H; subst. apply Forall_app. split; [by apply Hp|by apply IHps].
  - destruct H as [H1 H2]. constructor; [|by apply IH]. exists m, (scripts path). unfold worker_of. by destruct (run_worker _ _).
Qed.

(** When the awaited gather returns, every worker has, and the counts are those of
    all their additions. *)
Lemma cell_returned cfg slices start scripts p s0 t s :
  cell_steps cfg slices start (spawn scripts [] p, s0) (t, s) -> awaited t (Ok tt) ->
  Forall (fun x => w_out x = Ret tt) (workers scripts [] p) /\
  same_counts s (fold_left (tally cfg) (flat_map w_marks (workers scripts [] p)) s0).
Proof.
  intros Hs Ha. inversion Ha as [r He|]; subst. apply ends_ok in He as [Ht Hret].
  destruct (cell_steps_counts _ _ _ _ _ Hs) as (done_ & HP & Hend & Hc). cbn [fst snd] in *.
  destruct (spawn_workers scripts [] p) as [E1 E2]. rewrite Ht, app_nil_r, E1 in HP. rewrite Hend, E2 in Hret. split.
  - by apply Forall_map in Hret.
  - by rewrite (tallies_Permutation cfg _ _ s0 HP).
Qed.

(** If every worker returns, there is a run of the cell that does. *)
Lemma cell_runs cfg slices start now stats scripts p out r :
  Forall (fun x => w_out x = Ret tt) (workers scripts [] p) ->
  main cfg slices start now (Ok tt) stats (fold_left (tally cfg) (flat_map w_marks (workers scripts [] p)) (start_tallies start)) = (out, r) ->
  cell_run cfg slices start now stats scripts p r.
Proof.
  intros Hret Hm. destruct (spawn_workers scripts [] p) as [E1 E2]. destruct (drain (spawn scripts [] p)) as (t & Hd & He).
  { rewrite E2. by apply Forall_map. }
  rewrite <- E1 in Hm. exists t. do 3 eexists. split; [by apply multi_cell|]. split; [by constructor|exact Hm].
Qed.

(** When it raises, some worker raised that, or the safety net expired. *)
Lemma cell_raised cfg slices start scripts p s0 t s e :
  cell_steps cfg slices start (spawn scripts [] p, s0) (t, s) -> awaited t (Raise e) ->
  e = TimeoutError [] \/ exists x, x ∈ workers scripts [] p /\ w_out x = Exc e.
Proof.
  intros Hs Ha. inversion Ha as [r He|]; subst; [|by left]. right. apply ends_ok in He.
  destruct (cell_steps_counts _ _ _ _ _ Hs) as (done_ & _ & Hend & _). cbn [fst] in Hend.
  rewrite Hend, (proj2 (spawn_workers scripts [] p)) in He. apply list_elem_of_fmap in He as (x & E & Hx). by exists x.
Qed.

(** ** Counting *)

Definition is_ok_bump (a : tally_op) : bool := match a with Bump _ status => is_2xx status | _ => false end.
Definition ok_bump_of (tag : list Z) (a : tally_op) : bool :=
  match a with Bump g status => bool_decide (g = tag) && is_2xx status | _ => false end.

Lemma ok_ops_tallies cfg ops t :
  ok_ops (fold_left (tally cfg) ops t) = ok_ops t + len (List.filter is_ok_bump ops).
Proof.
  revert t. induction ops as [|a ops IH]; intros t; cbn [fold_left List.filter]; [rewrite len_nil; lia|]. rewrite IH.
  destruct a as [g s|g|g n]; cbn [is_ok_bump tally]; try done. rewrite ok_ops_bump.
  destruct (is_2xx s); rewrite ?len_cons; lia.
Qed.

Lemma ok_by_tallies cfg ops t tag :
  IS_MIXED cfg = true ->
  count (ok_by (fold_left (tally cfg) ops t)) tag = count (ok_by t) tag + len (List.filter (ok_bump_of tag) ops).
Proof.
  intros Hm. revert t. induction ops as [|a ops IH]; intros t; cbn [fold_left List.filter]; [rewrite len_nil; lia|]. rewrite IH.
  destruct a as [g s|g|g n]; cbn [ok_bump_of tally]; try done. unfold Report.bump. cbn [ok_by]. rewrite Hm, andb_true_r.
  destruct (is_2xx s); rewrite ?andb_true_r, ?andb_false_r; [|done]. rewrite count_count_add.
  destruct (decide (g = tag)) as [->|Hne].
  - rewrite bool_decide_eq_true_2 by done. rewrite len_cons. lia.
  - rewrite bool_decide_eq_false_2 by done. lia.
Qed.
