(* ===== verification/CellProofs.v ===== *)
(** * What a cell's verdict rests on

    The composition of the workers' theorems ([WorkloadProofs]) with [main]
    ([Report]) through the fan-outs ([Cell]): a worker adds to its own workload's
    tallies only, [mixed] passes only when every slice has completed something
    itself, and a passing [requests] cell reports exactly its verified replies. *)
From S2P Require Import Prelude PyFloat PyDouble Coro Mix WsFrame H3Client Transport Payload Report Workloads WorkloadProofs SseProofs Cell.
#[local] Open Scope Z_scope.

(** ** A worker adds under its own tag *)

Definition tag_of (a : tally_op) : list Z := match a with Bump g _ | Abandon g | Move g _ => g end.

Definition own (tag : list Z) (w w' : world op answer wstate) : Prop :=
  exists ms, marks (st w') = marks (st w) ++ ms /\ Forall (fun a => tag_of a = tag) ms.

#[export] Instance own_preorder tag : PreOrder (own tag).
Proof.
  split.
  - intros w. exists []. by rewrite app_nil_r.
  - intros w1 w2 w3 (m1 & E1 & H1) (m2 & E2 & H2). exists (m1 ++ m2). rewrite E2, E1, <- app_assoc.
    split; [done|by apply Forall_app].
Qed.

Section Own.
Context (tag : list Z).

Lemma perform_own {R} o (read : answer -> option (res R)) : keeps (own tag) (perform o read).
Proof.
  intros w. unfold perform. destruct (env w) as [|a env']; [cbn; reflexivity|].
  destruct (read a) as [[r|e]|]; cbn; [| |reflexivity]; exists []; by rewrite app_nil_r.
Qed.

Lemma mark_own a : tag_of a = tag -> keeps (own tag) (mark a).
Proof. intros H w. exists [a]. split; [done|by repeat constructor]. Qed.

Lemma set_slowest_own t : keeps (own tag) (set_slowest t).
Proof. intros w. exists []. by rewrite app_nil_r. Qed.

Lemma set_counted_own b : keeps (own tag) (set_counted b).
Proof. intros w. exists []. by rewrite app_nil_r. Qed.

End Own.

(** The constructs of the workloads keep any preorder that [leaf] says the
    operations and additions keep. *)
Ltac walk leaf :=
  repeat (intros; first
  [ done
  | match goal with H : forall _, keeps _ _ |- _ => exact (H _) end
  | leaf
  | match goal with
    | H : Some _ = Some _ |- _ => injection H as <-
    | H : None = Some _ |- _ => discriminate H
    | H : (if ?b then _ else _) = Some _ |- _ => destruct b
    | H : drive_except _ = Some _ |- _ => apply drive_except_throws in H as [? ->]
    | H : race_except _ _ _ = Some _ |- _ => unfold race_except in H
    | |- keeps _ (match ?x with _ => _ end) => destruct x
    | |- keeps _ (ret _) => apply keeps_ret; apply _
    | |- keeps _ (throw _) => apply keeps_throw; apply _
    | |- keeps _ (lift _) => apply keeps_lift; apply _
    | |- keeps _ get => apply keeps_get; apply _
    | |- keeps _ clock => unfold clock
    | |- keeps _ (fail_if _ _) => unfold fail_if
    | |- keeps _ (cycle _ _) => unfold cycle
    | |- keeps _ (finally _ _) => apply keeps_finally; [apply _| |]
    | |- keeps _ (catch _ _) => apply keeps_catch; [apply _| |]
    | |- keeps _ (iter _ _) => apply keeps_iter; [apply _|]
    | |- keeps _ (for_each _ _ _) => apply keeps_for_each; [apply _|]
    | |- keeps _ (bind _ _) => apply keeps_bind; [apply _| |]
    end ]).

Ltac owns := walk ltac:(idtac; match goal with
  | |- keeps _ (perform _ _) => apply perform_own
  | |- keeps _ (mark _) => apply mark_own; reflexivity
  | |- keeps _ (set_slowest _) => apply set_slowest_own
  | |- keeps _ (set_counted _) => apply set_counted_own
  end).

Section Workloads.
Context (cfg : config) (tag : list Z) (deadline : spec_float).
Context (lower_uni repr : list Z -> list Z) (int_uni : list Z -> res Z).
Context {D : Type} `{!Sha1 D}.

Lemma drive_own m : keeps (own tag) m -> keeps (own tag) (drive deadline m).
Proof. intros H. unfold drive, until_deadline, clock. owns. Qed.

Lemma ramped_own i m conc : keeps (own tag) m -> keeps (own tag) (ramped cfg deadline i m conc).
Proof. intros H. unfold ramped. apply keeps_bind; [apply _|unfold sleep; owns|]. intros _. by apply drive_own. Qed.

Lemma requests_once_own gets prep : keeps (own tag) (requests_once cfg tag deadline lower_uni repr gets prep).
Proof. unfold requests_once, with_session, until_deadline, get_step, echo_step, request, bump, clock. owns. Qed.

Lemma methods_once_own prep : keeps (own tag) (methods_once cfg tag deadline lower_uni repr prep).
Proof. unfold methods_once, with_session, until_deadline, echo_step, request, bump, clock. owns. Qed.

Lemma ws_once_own i : keeps (own tag) (ws_once cfg tag deadline i).
Proof. unfold ws_once, until_deadline, bump, clock. owns. Qed.

Lemma ws_once_h3_own i : keeps (own tag) (ws_once_h3 tag deadline repr i).
Proof. unfold ws_once_h3, with_session, until_deadline, bump, clock. owns. Qed.

Lemma sse_sequences_own n : keeps (own tag) (sse_sequences tag deadline int_uni n).
Proof.
  induction n as [|n IH]; cbn [sse_sequences]; unfold clock, sse_sequence, sse_connection, sse_lines, sse_line, bump; owns.
Qed.

Lemma sse_once_own : keeps (own tag) (sse_once tag deadline int_uni).
Proof.
  unfold sse_once. pose proof (sse_sequences_own seqs_per_conn) as H. generalize dependent (sse_sequences tag deadline int_uni seqs_per_conn).
  intros m H. unfold until_deadline, with_session, clock. owns.
Qed.

Lemma upload_probe_own : keeps (own tag) upload_probe.
Proof. unfold upload_probe, with_session. owns. Qed.

Lemma upload_once_own sha : keeps (own tag) (upload_once cfg tag deadline sha).
Proof. unfold upload_once, with_session, upload_transfer, upload_bounded, abandon, bump, clock, sleep. owns. Qed.

Lemma download_once_own want : keeps (own tag) (download_once (D := D) cfg tag deadline want).
Proof. unfold download_once, download_transfer, download_chunks, with_session, abandon, bump, clock. owns. Qed.
End Workloads.

(** ** What a completion rests on

    A piece of a conversation that a worker of the tag may count a completion
    for.  [contract] is the server's side of the request workloads
    ([WorkloadProofs]), [event_ids] the ids an SSE connection delivered. *)
Section Evidence.
Context (cfg : config) (lower_uni repr : list Z -> list Z) (int_uni : list Z -> res Z).
Context (gunzip unbrotli unzstd : list Z -> res (list Z)).
Context {D : Type} `{!Sha1 D}.

#[local] Abbreviation keeps_contract := (contract lower_uni gunzip unbrotli unzstd expected_gets).

Inductive proof_of : list Z -> list (op * answer) -> Prop :=
| proof_request x : keeps_contract x = true -> proof_of (str "requests") [x]
| proof_echo x : keeps_contract x = true -> proof_of (str "methods") [x]
| proof_plaintext hdrs ct :
    proof_of (str "methods") [(Request (str "GET") (str "/plaintext") hdrs [], AReply 200 ct (str "Hello, World!"))]
| proof_head hdrs ct : proof_of (str "methods") [(Request (str "HEAD") (str "/echo") hdrs [], AReply 200 ct [])]
| proof_options status ct b :
    status = 200 \/ status = 204 -> proof_of (str "methods") [(Request (str "OPTIONS") (str "/echo") [] [], AReply status ct b)]
| proof_ws_h3 i n :
    proof_of (str "ws") [(WsSend 1 (encode (ws_msg i n)), ADone); (WsRecv, AFrame 1 (encode (ws_msg i n)))]
| proof_ws i n : proof_of (str "ws") [(WsSendText (ws_msg i n), ADone); (WsRecvMsg, AText (ws_msg i n))]
| proof_sse last tr :
    event_ids int_uni (chunks_of tr) <> [] ->
    proof_of (str "sse") ((StreamStart (str "GET") (str "/sse") (sse_headers last), AStatus 200) :: tr)
| proof_upload limit k :
    proof_of (str "streamupload")
      [(UploadBody (str "/upload") [(str "x-sha1", expected_sha1 (D := D) cfg)] limit, AUpload k (Ok 200))]
| proof_download tr :
    len (concat (chunks_of tr)) = STREAM cfg ->
    sha_hexdigest (fold_left sha_update (chunks_of tr) sha_init) = expected_sha1 (D := D) cfg ->
    proof_of (str "streamdownload") tr.

Definition evidence (tag : list Z) (tr : list (op * answer)) : Prop :=
  exists l seg r, tr = l ++ seg ++ r /\ proof_of tag seg.

Lemma evidence_here tag l seg : proof_of tag seg -> evidence tag (l ++ seg).
Proof. intros H. exists l, seg, []. by rewrite app_nil_r. Qed.

Lemma evidence_app tag tr tr' : evidence tag tr -> evidence tag (tr ++ tr').
Proof. intros (l & seg & r & -> & H). exists l, seg, (r ++ tr'). by rewrite <- !app_assoc. Qed.

(** A worker that has counted a completion has evidence. *)
Definition backed (tag : list Z) (w : world op answer wstate) : Prop :=
  existsb is_ok_bump (marks (st w)) = true -> evidence tag (trace w).

Definition guarded (tag : list Z) (w w' : world op answer wstate) : Prop := backed tag w -> backed tag w'.

#[export] Instance guarded_preorder tag : PreOrder (guarded tag).
Proof. split; [by intros w H|]. intros w1 w2 w3 H1 H2 H. auto. Qed.

Lemma backed_extend tag w w' tr ms :
  backed tag w -> trace w' = trace w ++ tr -> marks (st w') = marks (st w) ++ ms ->
  (existsb is_ok_bump ms = true -> evidence tag (trace w')) -> backed tag w'.
Proof.
  intros Hw Et Em Hms H. rewrite Em, existsb_app in H. apply orb_prop in H as [H|H]; [|auto].
  rewrite Et. apply evidence_app. auto.
Qed.

Section Tag.
Context (tag : list Z).

Lemma perform_guarded {R} o (read : answer -> option (res R)) : keeps (guarded tag) (perform o read).
Proof.
  intros w Hw. unfold perform. destruct (env w) as [|a env']; [done|].
  destruct (read a) as [[r|e]|]; cbn; [| |done];
    (eapply (backed_extend tag w _ [(o, a)] [] Hw); cbn; [done|by rewrite app_nil_r|done]).
Qed.

Lemma mark_guarded a : is_ok_bump a = false -> keeps (guarded tag) (mark a).
Proof. intros Ha w Hw. eapply (backed_extend tag w _ [] [a] Hw); cbn; rewrite ?app_nil_r, ?Ha; done. Qed.

Lemma set_slowest_guarded t : keeps (guarded tag) (set_slowest t).
Proof. by intros w Hw. Qed.

Lemma set_counted_guarded b : keeps (guarded tag) (set_counted b).
Proof. by intros w Hw. Qed.

(** The judgement of one run, for the stretches that lead up to a completion. *)
Definition at_ {R} (w : world op answer wstate) (m : coro op answer wstate R) : Prop := backed tag w -> backed tag (snd (m w)).

Lemma keeps_at {R} (m : coro op answer wstate R) : (forall w, at_ w m) -> keeps (guarded tag) m.
Proof. intros H. exact H. Qed.

Lemma at_perform {R R'} w o (read : answer -> option (res R)) (k : R -> coro op answer wstate R') :
  (forall a env' r, read a = Some (Ok r) -> at_ (World env' (trace w ++ [(o, a)]) (st w)) (k r)) ->
  at_ w (bind (perform o read) k).
Proof.
  intros Hk Hw. assert (H := perform_guarded o read w Hw). revert H. unfold bind, perform.
  destruct (env w) as [|a env']; [done|]. destruct (read a) as [[r|e]|] eqn:Er; cbn; [|done|done].
  intros H. by apply (Hk a env' r Er).
Qed.

Lemma at_check {R'} w bad msg (k : unit -> coro op answer wstate R') :
  (bad = false -> at_ w (k tt)) -> at_ w (bind (fail_if bad msg) k).
Proof. intros Hk Hw. unfold bind, fail_if. destruct bad; cbn; [done|]. by apply Hk. Qed.

Lemma at_bump {R'} w g status (k : unit -> coro op answer wstate R') :
  evidence tag (trace w) -> (forall x, keeps (guarded tag) (k x)) -> at_ w (bind (bump g status) k).
Proof.
  intros He Hk Hw. unfold bind, bump, mark, modify. apply Hk.
  eapply (backed_extend tag w _ [] [Bump g status] Hw); cbn; by rewrite ?app_nil_r.
Qed.

(** A judged exchange counts only what keeps the contract. *)
Lemma judged_guarded {R} (m : coro op answer wstate R) :
  (forall x, keeps_contract x = true -> proof_of tag [x]) ->
  judged (kept tag lower_uni gunzip unbrotli unzstd expected_gets) (broken lower_uni gunzip unbrotli unzstd expected_gets) m ->
  keeps (guarded tag) m.
Proof.
  intros Hx [Ha _] w Hw. specialize (Ha w).
  assert (exists k, spans (kept tag lower_uni gunzip unbrotli unzstd expected_gets)
    (broken lower_uni gunzip unbrotli unzstd expected_gets) k w (snd (m w))) as (k & tr & Et & Em & _).
  { destruct (m w) as [[r|e|] w']; [|destruct Ha..]; eauto. }
  apply (backed_extend tag w _ tr _ Hw Et Em). rewrite Et. intros Hb. apply existsb_exists in Hb as (a & Ha' & _).
  apply in_flat_map in Ha' as (x & Hin & Hk). unfold kept in Hk. destruct (keeps_contract x) eqn:Ex; [|done].
  apply in_split in Hin as (l & r & ->). exists (trace w ++ l), [x], r. split; [by rewrite <- app_assoc|auto].
Qed.
End Tag.

Ltac guards := walk ltac:(idtac; match goal with
  | |- keeps _ (perform _ _) => apply perform_guarded
  | |- keeps _ (mark _) => apply mark_guarded; reflexivity
  | |- keeps _ (set_slowest _) => apply set_slowest_guarded
  | |- keeps _ (set_counted _) => apply set_counted_guarded
  end).

(** Follow one exchange up to the completion it earns. *)
Ltac follow :=
  repeat match goal with
  | |- at_ _ _ (let '(_, _) := ?p in _) => destruct p
  | |- at_ _ _ (bind (request _ _ _ _) _) => unfold request
  | |- at_ _ _ (bind (perform _ _) _) => apply at_perform; intros
  | |- at_ _ _ (bind (fail_if _ _) _) => apply at_check; intros
  | H : ?read ?a = Some (Ok _) |- _ => destruct a; try discriminate H; injection H as <-
  | H : bool_decide _ = false |- _ => apply bool_decide_eq_false in H
  | H : ~ (_ \/ _) |- _ => apply Decidable.not_or in H as [? ?]
  | H : ~ (_ <> _) |- _ => apply dec_stable in H
  end; simplify_eq.

Section Guarded.
Context (deadline : spec_float).

Lemma until_deadline_guarded tag {X} (body : X -> coro op answer wstate X) x :
  (forall x, keeps (guarded tag) (body x)) -> keeps (guarded tag) (until_deadline deadline body x).
Proof. intros H. unfold until_deadline. guards. Qed.

Lemma with_session_guarded tag {R} (m : coro op answer wstate R) :
  keeps (guarded tag) m -> keeps (guarded tag) (with_session m).
Proof. intros H. unfold with_session. guards. Qed.

Lemma drive_guarded tag m : keeps (guarded tag) m -> keeps (guarded tag) (drive deadline m).
Proof. intros H. apply until_deadline_guarded. guards. Qed.

Lemma ramped_guarded tag i m conc : keeps (guarded tag) m -> keeps (guarded tag) (ramped cfg deadline i m conc).
Proof. intros H. unfold ramped. apply keeps_bind; [apply _|unfold sleep; guards|]. intros _. by apply drive_guarded. Qed.

Lemma ws_once_guarded i : keeps (guarded (str "ws")) (ws_once cfg (str "ws") deadline i).
Proof.
  unfold ws_once. apply keeps_bind; [apply _|guards|]. intros _.
  apply keeps_finally; [apply _| |guards]. apply keeps_bind; [apply _| |guards].
  apply until_deadline_guarded. intros n. apply keeps_at. intros w. follow.
  apply at_bump; [|guards]. cbn [trace]. rewrite <- app_assoc. apply evidence_here, proof_ws.
Qed.

Lemma ws_once_h3_guarded i : keeps (guarded (str "ws")) (ws_once_h3 (str "ws") deadline repr i).
Proof.
  unfold ws_once_h3. apply with_session_guarded. apply keeps_bind; [apply _|guards|]. intros st.
  apply keeps_bind; [apply _|guards|]. intros _. apply keeps_bind; [apply _| |guards].
  apply until_deadline_guarded. intros n. apply keeps_at. intros w. follow. apply at_bump; [|guards]. cbn [trace].
  rewrite <- app_assoc. apply evidence_here, proof_ws_h3.
Qed.

Lemma upload_once_guarded : keeps (guarded (str "streamupload")) (upload_once cfg (str "streamupload") deadline (expected_sha1 (D := D) cfg)).
Proof.
  unfold upload_once. apply keeps_bind; [apply _|guards|]. intros now. apply keeps_bind; [apply _|guards|]. intros s.
  destruct (_ && _); [unfold sleep; guards|]. intros w Hw. unfold bind at 1, set_counted, modify. set (w0 := World _ _ _).
  assert (backed (str "streamupload") (snd (with_session (upload_transfer cfg (str "streamupload") deadline (expected_sha1 (D := D) cfg)) w0))) as Hb.
  { assert (H := upload_block_accounted cfg (str "streamupload") deadline (expected_sha1 (D := D) cfg) w0 eq_refl).
    destruct (with_session _ w0) as [o w1]. destruct H as (tr & ms & Et & Em & _ & Hle & Hbump & _).
    apply (backed_extend _ w _ tr ms Hw Et Em). intros He. cbn. rewrite Et. unfold tallied in *.
    assert (length (List.filter is_bump ms) = 1%nat) as H1.
    { apply existsb_exists in He as (a & Hin & Ha). destruct (List.filter is_bump ms) as [|b l] eqn:Ef; [|cbn in *; lia].
      assert (In a (List.filter is_bump ms)) as Hf by (apply filter_In; split; [done|by destruct a]). by rewrite Ef in Hf. }
    destruct (Hbump H1) as (limit & k & Hin). apply in_split in Hin as (l & r & ->).
    exists (trace w ++ l). eexists [_], r. split; [by rewrite <- app_assoc|apply proof_upload]. }
  unfold catch. destruct (with_session _ w0) as [[r|e|] w1]; [done| |done].
  destruct (race_except _ _ e) as [m|] eqn:Er; [|done]. revert Hb. cbn [snd].
  assert (keeps (guarded (str "streamupload")) m) as Hm by (unfold abandon in Er; guards). apply Hm.
Qed.

Lemma download_once_guarded : keeps (guarded (str "streamdownload"))
  (download_once (D := D) cfg (str "streamdownload") deadline (expected_sha1 (D := D) cfg)).
Proof.
  unfold download_once. apply keeps_catch; [apply _| |unfold abandon; guards].
  apply keeps_bind; [apply _| |unfold abandon; guards]. intros w Hw.
  assert (H := download_transfer_transfers cfg (str "streamdownload") deadline (expected_sha1 (D := D) cfg) w).
  destruct (download_transfer _ _ _ _ w) as [o w1]. destruct H as (tr & complete & Et & Em & Hc & _).
  apply (backed_extend _ w _ tr _ Hw Et Em). cbn [snd]. rewrite Et, existsb_app. intros He. apply evidence_here.
  assert (existsb is_ok_bump (moves (str "streamdownload") (chunks_of tr)) = false) as Hmv.
  { generalize (chunks_of tr) as cs. by induction cs. }
  rewrite Hmv in He. destruct complete; [|done]. destruct (Hc eq_refl). by apply proof_download.
Qed.

Lemma sse_connection_guarded gl : keeps (guarded (str "sse")) (sse_connection (str "sse") int_uni gl).
Proof.
  destruct gl as [got0 last0]. apply keeps_at. intros w. unfold sse_connection. follow. intros Hw.
  match goal with |- backed _ (bind _ ?k _).2 => assert (forall s, keeps (guarded (str "sse")) (k s)) as Hk by (guards) end.
  assert (H := sse_lines_advances (str "sse") int_uni (Sse got0 last0 None false 0)
    (World env' (trace w ++ [(StreamStart (str "GET") (str "/sse") (sse_headers last0), AStatus 200)]) (st w)) eq_refl).
  unfold wp in H. unfold bind. destruct (sse_lines _ _ _ _) as [o w1].
  assert (backed (str "sse") w1) as H1.
  { destruct H as (tr & k & Et & Em & Ho). apply (backed_extend _ _ _ tr _ Hw Et Em). intros Hb. rewrite Et. cbn [trace].
    rewrite <- app_assoc. apply evidence_here, proof_sse. intros Hnil.
    assert (k = 0%nat) as -> by (destruct o; [destruct Ho as (? & _ & ->)|..]; rewrite Hnil in *; cbn in *; lia). done. }
  destruct o as [s|e|]; cbn; [|done..]. by apply Hk.
Qed.

Lemma sse_once_guarded : keeps (guarded (str "sse")) (sse_once (str "sse") deadline int_uni).
Proof.
  apply until_deadline_guarded. intros _. apply with_session_guarded. generalize seqs_per_conn as n.
  assert (Hc := sse_connection_guarded). induction n as [|n IH]; cbn [sse_sequences]; [guards|]. unfold sse_sequence. guards.
Qed.

Context (gzip brotli zstd : list Z -> list Z).
Context (Hgzip : forall b, gunzip (gzip b) = Ok b) (Hbr : forall b, unbrotli (brotli b) = Ok b)
  (Hzstd : forall b, unzstd (zstd b) = Ok b).
Context (mix : list (list Z * list Z)) (prep : list prepared) (Hprep : prepare cfg gzip brotli zstd mix = Ok prep).

Lemma requests_once_guarded :
  keeps (guarded (str "requests")) (requests_once cfg (str "requests") deadline lower_uni repr expected_gets prep).
Proof.
  apply judged_guarded; [apply proof_request|]. eapply requests_once_judged; try done. apply expected_gets_distinct.
Qed.

Lemma cycle_guarded {X R} tag (l : list X) k (f : X -> coro op answer wstate R) :
  (forall x, In x l -> keeps (guarded tag) (f x)) -> keeps (guarded tag) (bind (cycle l k) f).
Proof.
  intros Hf. unfold cycle. destruct (l !! (k mod length l)%nat) as [x|] eqn:E; [|intros w Hw; exact Hw].
  apply Hf, list_elem_of_In. by apply list_elem_of_lookup_2 in E.
Qed.

Lemma echo_step_guarded p meth :
  In p prep -> meth <> str "GET" -> keeps (guarded (str "methods")) (echo_step (str "methods") lower_uni repr p meth).
Proof.
  intros Hp Hm. destruct (prepare_decodes cfg gzip brotli zstd gunzip unbrotli unzstd Hgzip Hbr Hzstd mix prep p Hprep Hp) as [Hct Hdec].
  apply judged_guarded; [apply proof_echo|]. by apply echo_step_judged.
Qed.

(** The last two exchanges of a round of [methods], and the round. *)
Lemma methods_tail_guarded (k : nat) : keeps (guarded (str "methods"))
  (let! (st, _ct, b) := request (str "HEAD") (str "/echo") (accept_headers cfg) [] in
   fail_if (bool_decide (st <> 200 \/ b <> []))
     (str "HEAD /echo -> " ++ dec st ++ str ", " ++ dec (len b) ++ str "B (want 0)");;
   bump (str "methods") 200;;
   let! (st, _ct, _) := request (str "OPTIONS") (str "/echo") [] [] in
   fail_if (bool_decide (st <> 200 /\ st <> 204)) (str "OPTIONS /echo -> " ++ dec st);;
   bump (str "methods") st;;
   ret (S k))%coro.
Proof.
  apply keeps_at. intros w. follow. apply at_bump; [apply evidence_here, proof_head|]. intros _.
  apply keeps_at. intros w'. follow. apply at_bump; [|guards]. apply evidence_here, proof_options. lia.
Qed.

Lemma methods_once_guarded :
  keeps (guarded (str "methods")) (methods_once cfg (str "methods") deadline lower_uni repr prep).
Proof.
  apply with_session_guarded. apply keeps_bind; [apply _| |guards]. apply until_deadline_guarded. intros k.
  apply keeps_at. intros w. follow. apply at_bump; [apply evidence_here, proof_plaintext|]. intros _.
  apply cycle_guarded. intros p Hp. apply keeps_bind; [apply _| |intros; apply methods_tail_guarded].
  cbn [for_each]. repeat (apply keeps_bind; [apply _|by apply echo_step_guarded|intros _]). guards. by apply echo_step_guarded.
Qed.
End Guarded.

(** ** Every coroutine of a cell *)

Definition sound_work (tag g : list Z) (m : coro op answer wstate unit) : Prop :=
  g = tag /\ keeps (own tag) m /\ keeps (guarded tag) m.

Section CellPlan.
Context (deadline : spec_float) (slices : list (list Z * Z)).
Context (gzip brotli zstd : list Z -> list Z).
Context (Hgzip : forall b, gunzip (gzip b) = Ok b) (Hbr : forall b, unbrotli (brotli b) = Ok b)
  (Hzstd : forall b, unzstd (zstd b) = Ok b).

Lemma drives_sound tag m : keeps (own tag) m -> keeps (guarded tag) m -> sound_work tag tag (drive deadline m).
Proof. intros H1 H2. split; [done|]. split; [by apply drive_own|by apply drive_guarded]. Qed.

Lemma ramps_sound tag i m conc : keeps (own tag) m -> keeps (guarded tag) m -> sound_work tag tag (ramped cfg deadline i m conc).
Proof. intros H1 H2. split; [done|]. split; [by apply ramped_own|by apply ramped_guarded]. Qed.

Lemma raises_sound tag e : sound_work tag tag (throw e).
Proof. split; [done|]. split; apply keeps_throw, _. Qed.

Lemma w_requests_sound rand n :
  all_work (sound_work (str "requests")) (w_requests cfg deadline lower_uni repr gzip brotli zstd rand (str "requests") n).
Proof.
  unfold w_requests, with_prepared. destruct (prepare _ _ _ _ _) as [prep|e] eqn:Ep; [|apply raises_sound].
  apply all_work_map. intros i _. apply drives_sound; [apply requests_once_own|by eapply requests_once_guarded].
Qed.

Lemma w_methods_sound rand :
  all_work (sound_work (str "methods")) (w_methods cfg deadline lower_uni repr gzip brotli zstd rand (str "methods")).
Proof.
  unfold w_methods, with_prepared. destruct (prepare _ _ _ _ _) as [prep|e] eqn:Ep; [|apply raises_sound].
  apply all_work_map. intros i _. apply drives_sound; [apply methods_once_own|by eapply methods_once_guarded].
Qed.

Lemma w_ws_sound n : all_work (sound_work (str "ws")) (w_ws cfg deadline repr (str "ws") n).
Proof.
  unfold w_ws. destruct (IS_H3 cfg); apply all_work_map; intros i _; apply ramps_sound;
    [apply ws_once_h3_own|apply ws_once_h3_guarded|apply ws_once_own|apply ws_once_guarded].
Qed.

Lemma w_sse_sound n : all_work (sound_work (str "sse")) (w_sse deadline int_uni (str "sse") n).
Proof. apply all_work_map. intros i _. apply drives_sound; [apply sse_once_own|apply sse_once_guarded]. Qed.

Lemma w_streamupload_sound n :
  all_work (sound_work (str "streamupload")) (w_streamupload (D := D) cfg deadline (str "streamupload") n).
Proof.
  split.
  - split; [done|]. split; [apply upload_probe_own|]. unfold upload_probe, with_session. guards.
  - apply all_work_map. intros i _. apply drives_sound; [apply upload_once_own|apply upload_once_guarded].
Qed.

Lemma w_streamdownload_sound n :
  all_work (sound_work (str "streamdownload")) (w_streamdownload (D := D) cfg deadline (str "streamdownload") n).
Proof. apply all_work_map. intros i _. apply drives_sound; [apply download_once_own|apply download_once_guarded]. Qed.

Lemma run_slice_sound rand slice :
  all_work (sound_work slice.1) (run_slice (D := D) cfg deadline lower_uni repr int_uni gzip brotli zstd rand slice).
Proof.
  destruct slice as [tag n]. unfold run_slice, MIX_FNS. cbn [fst snd].
  destruct (decide (tag = str "requests")) as [->|_]; [apply w_requests_sound|].
  destruct (decide (tag = str "ws")) as [->|_]; [apply w_ws_sound|].
  destruct (decide (tag = str "sse")) as [->|_]; [apply w_sse_sound|].
  destruct (decide (tag = str "streamupload")) as [->|_]; [apply w_streamupload_sound|].
  destruct (decide (tag = str "streamdownload")) as [->|_]; [apply w_streamdownload_sound|].
  apply raises_sound.
Qed.

(** In a cell that is not [mixed], every coroutine is of the workload. *)
Lemma workload_sound rand q :
  workload (D := D) cfg deadline slices lower_uni repr int_uni gzip brotli zstd rand = Some q ->
  all_work (fun g m => (IS_MIXED cfg = false -> g = WORKLOAD cfg) /\ sound_work g g m) q.
Proof.
  assert (forall q, all_work (sound_work (WORKLOAD cfg)) q ->
    all_work (fun g m => (IS_MIXED cfg = false -> g = WORKLOAD cfg) /\ sound_work g g m) q) as Hone.
  { intros q'. apply all_work_impl. intros g m (-> & H). split; [done|]. split; [done|exact H]. }
  unfold workload. set (name := WORKLOAD cfg) in *.
  destruct (decide (name = str "requests")) as [E|_]; [intros [= <-]; apply Hone; rewrite E; apply w_requests_sound|].
  destruct (decide (name = str "methods")) as [E|_]; [intros [= <-]; apply Hone; rewrite E; apply w_methods_sound|].
  destruct (decide (name = str "ws")) as [E|_]; [intros [= <-]; apply Hone; rewrite E; apply w_ws_sound|].
  destruct (decide (name = str "sse")) as [E|_]; [intros [= <-]; apply Hone; rewrite E; apply w_sse_sound|].
  destruct (decide (name = str "streamupload")) as [E|_]; [intros [= <-]; apply Hone; rewrite E; apply w_streamupload_sound|].
  destruct (decide (name = str "streamdownload")) as [E|_]; [intros [= <-]; apply Hone; rewrite E; apply w_streamdownload_sound|].
  destruct (decide (name = str "mixed")) as [E|_]; [|done]. intros [= <-]. apply all_work_map. intros slice _.
  eapply all_work_impl; [|apply run_slice_sound]. intros g m (-> & H). split; [|split; [done|exact H]].
  unfold IS_MIXED. fold name. by rewrite E.
Qed.

Lemma cell_sound urandom p :
  cell (D := D) cfg deadline slices lower_uni repr int_uni gzip brotli zstd urandom = Some p ->
  all_work (fun g m => (IS_MIXED cfg = false -> g = WORKLOAD cfg) /\ sound_work g g m) p.
Proof.
  intros H. apply cell_clients in H as (ps & -> & H). apply all_work_gather, Forall_forall. intros q Hq.
  apply list_elem_of_lookup in Hq as [k Hk]. destruct (Forall2_lookup_r _ _ _ _ _ H Hk) as (i & _ & E). by eapply workload_sound.
Qed.
End CellPlan.
End Evidence.

(** ** What exit 0 of a whole cell means *)

Lemma len_filter_pos {X} (f : X -> bool) l : len (List.filter f l) <> 0 -> exists a, a ∈ l /\ f a = true.
Proof.
  destruct (List.filter f l) as [|a r] eqn:E; [done|]. intros _. exists a.
  assert (In a (List.filter f l)) as H by (rewrite E; by left). apply filter_In in H as [H ?]. by apply list_elem_of_In in H.
Qed.

(** The workers of a passing cell have all returned, and its counts are theirs. *)
Lemma cell_run_passes cfg slices start now stats scripts p :
  cell_run cfg slices start now stats scripts p (Ok 0) ->
  Forall (fun x => w_out x = Ret tt) (workers scripts [] p) /\
  let done_ := flat_map w_marks (workers scripts [] p) in
  if IS_MIXED cfg then forall tag, tag ∈ akeys slices -> exists a, a ∈ done_ /\ ok_bump_of tag a = true
  else exists a, a ∈ done_ /\ is_ok_bump a = true.
Proof.
  intros (t & s & outcome & out & Hs & Ha & Hm).
  destruct (main_vouches _ _ _ _ _ _ _ _ _ (main_known _ _ _ _ _ _ _ _ Hm) Hm) as [(_ & -> & Hc & _)|(? & _)]; [|done].
  destruct (cell_returned _ _ _ _ _ _ _ _ Hs Ha) as [Hret Hcounts]. split; [done|]. cbv zeta.
  set (done_ := flat_map w_marks _) in *. destruct (IS_MIXED cfg) eqn:Emix.
  - intros tag Htag. rewrite Forall_forall in Hc. apply len_filter_pos. intros Hz. apply (Hc tag Htag).
    by rewrite (same_ok_by _ _ Hcounts), ok_by_tallies, Hz.
  - apply len_filter_pos. intros Hz. apply Hc. by rewrite Hcounts, ok_ops_tallies, Hz.
Qed.

(** A worker is where an addition came from, and it has evidence for it. *)
Lemma sound_worker cfg lower_uni int_uni gunzip unbrotli unzstd {D} `{!Sha1 D} x m script a :
  sound_work (D := D) cfg lower_uni int_uni gunzip unbrotli unzstd (w_tag x) (w_tag x) m ->
  run_worker m script = (w_out x, w_end x) -> a ∈ w_marks x -> is_ok_bump a = true ->
  tag_of a = w_tag x /\ evidence (D := D) cfg lower_uni int_uni gunzip unbrotli unzstd (w_tag x) (trace (w_end x)).
Proof.
  intros (_ & Hown & Hg) E Ha Hok. unfold run_worker in E. set (w0 := World script [] _) in E.
  assert (w_end x = snd (m w0)) as Ew by (by rewrite E). unfold w_marks in Ha. rewrite Ew in *. split.
  - destruct (Hown w0) as (ms & Em & Hall). rewrite Em in Ha. cbn in Ha. by rewrite Forall_forall in Hall; apply Hall.
  - apply Hg; [by intros ?|]. apply existsb_exists. exists a. split; [by apply list_elem_of_In|done].
Qed.

(** C1: a passing cell has evidence from every workload it ran.  However the
    workers of the whole fan-out and the reporter interleave, exit 0 means that
    every worker returned and that for each slice of [mixed] (for the workload
    itself otherwise) a worker of that very slice has in its own conversation an
    exchange that proves the server did the work: a reply that keeps the
    contract, its own message echoed, an event delivered on an accepted
    connection, the upload accepted under the announced checksum, or the whole
    stream received with the expected digest. *)
Theorem cell_pass_evidence {D} `{!Sha1 D} cfg deadline slices lower_uni repr int_uni
  gzip brotli zstd gunzip unbrotli unzstd urandom scripts start now stats p :
  (forall b, gunzip (gzip b) = Ok b) -> (forall b, unbrotli (brotli b) = Ok b) ->
  (forall b, unzstd (zstd b) = Ok b) ->
  cell (D := D) cfg deadline slices lower_uni repr int_uni gzip brotli zstd urandom = Some p ->
  cell_run cfg slices start now stats scripts p (Ok 0) ->
  Forall (fun x => w_out x = Ret tt) (workers scripts [] p) /\
  forall tag, tag ∈ (if IS_MIXED cfg then akeys slices else [WORKLOAD cfg]) ->
    exists x, x ∈ workers scripts [] p /\ w_tag x = tag /\
      evidence (D := D) cfg lower_uni int_uni gunzip unbrotli unzstd tag (trace (w_end x)).
Proof.
  intros Hg Hb Hz Hcell Hrun. destruct (cell_run_passes _ _ _ _ _ _ _ Hrun) as [Hret Hok].
  split; [done|]. assert (Hs := cell_sound cfg lower_uni repr int_uni _ _ _ deadline slices _ _ _ Hg Hb Hz urandom p Hcell).
  apply (workers_all _ scripts []) in Hs. rewrite Forall_forall in Hs.
  assert (forall a, a ∈ flat_map w_marks (workers scripts [] p) -> is_ok_bump a = true ->
    exists x, x ∈ workers scripts [] p /\ (IS_MIXED cfg = false -> w_tag x = WORKLOAD cfg) /\ w_tag x = tag_of a /\
      evidence (D := D) cfg lower_uni int_uni gunzip unbrotli unzstd (tag_of a) (trace (w_end x))) as Hfrom.
  { intros a Ha Hbump. apply list_elem_of_In, in_flat_map in Ha as (x & Hx & Ha). apply list_elem_of_In in Hx, Ha.
    destruct (Hs x Hx) as (m & script & (Hone & Hsound) & E). exists x. split; [done|]. split; [done|].
    destruct (sound_worker _ _ _ _ _ _ _ _ _ _ Hsound E Ha Hbump) as [-> He]. done. }
  cbv zeta in Hok. intros tag Htag. destruct (IS_MIXED cfg).
  - destruct (Hok tag Htag) as (a & Ha & Hb'). destruct a as [g status|g|g n]; try done. cbn in Hb'.
    apply andb_prop in Hb' as [Hgt%bool_decide_eq_true Hst]. subst g. destruct (Hfrom _ Ha Hst) as (x & ? & _ & ? & ?). by exists x.
  - apply list_elem_of_singleton in Htag as ->. destruct Hok as (a & Ha & Hb').
    destruct (Hfrom _ Ha Hb') as (x & Hx & Ht & E & He). exists x.
    rewrite <- (Ht eq_refl). split; [done|]. split; [done|]. by rewrite E.
Qed.
(** A [mixed] cell of one client with a socket and a download. *)
Definition demo_cell : config :=
  Config (str "mixed") (str "h2") (str "sync") (str "https://server:8443") 60 1 2 6 60 (str "none") (str "none").
Definition demo_slices : list (list Z * Z) := [(str "ws", 1); (str "streamdownload", 1)].

Definition demo_scripts (path : list nat) : list answer :=
  if decide (path = [0; 0; 0]%nat) then
    [ATime fzero; ADone; ATime fzero; ADone; AText (str "msg-0-0"); ATime (flit 60 0); ADone; ATime (flit 60 0)]
  else
    [ATime fzero; ADone; AStatus 200; AChunk [0; 1; 2; 3]; ATime fzero; AChunk [4; 5]; ATime fzero; AEnd; ADone; ATime (flit 60 0)].

Lemma cell_pass_evidence_witness :
  exists p x, cell (D := list Z) demo_cell (flit 60 0) demo_slices id id no_unicode id id id (fun _ _ _ => []) = Some p /\
    x ∈ workers demo_scripts [] p /\ w_tag x = str "streamdownload" /\
    evidence (D := list Z) demo_cell id no_unicode Ok Ok Ok (str "streamdownload") (trace (w_end x)).
Proof.
  destruct (cell (D := list Z) demo_cell (flit 60 0) demo_slices id id no_unicode id id id (fun _ _ _ => [])) as [p|] eqn:Ep; [|done].
  exists p.
  assert (cell_run demo_cell demo_slices fzero (flit 60 0) (Raise (ConnectionError [])) demo_scripts p (Ok 0)) as Hrun.
  { injection Ep as <-. eapply cell_runs; [vm_compute; repeat constructor|vm_compute; reflexivity]. }
  destruct (cell_pass_evidence (D := list Z) demo_cell (flit 60 0) demo_slices id id no_unicode id id id Ok Ok Ok (fun _ _ _ => [])
    demo_scripts fzero (flit 60 0) (Raise (ConnectionError [])) p (fun _ => eq_refl) (fun _ => eq_refl) (fun _ => eq_refl))
    as [_ H]; [exact Ep|exact Hrun|].
  destruct (H (str "streamdownload")) as (x & Hx & Ht & He); [right; left|]. by exists x.
Defined.

(** ** How many workers a cell has *)

Lemma slots_all ps k : Forall (fun q => slots q = k) ps -> slots (Gather ps) = len ps * k.
Proof.
  intros H. cbn [slots]. rewrite (map_ext_in _ (fun _ => k)), zsum_map_const by (intros q Hq; apply list_elem_of_In in Hq; by rewrite Forall_forall in H; apply H).
  apply Z.mul_comm.
Qed.

Lemma len_range n : 0 <= n -> len (range n) = n.
Proof. intros Hn. unfold range, len. by rewrite length_seqZ, Z2Nat.id. Qed.

Lemma prepare_ok cfg gzip brotli zstd mix :
  REQ_COMP cfg ∈ [[]; str "none"; str "gzip"; str "br"; str "zstd"] -> exists prep, prepare cfg gzip brotli zstd mix = Ok prep.
Proof.
  intros Hc. unfold prepare. induction mix as [|[ctype raw] mix [prep IH]]; [by exists []|]. cbn [res_map snd].
  assert (exists x, compress gzip brotli zstd cfg raw = Ok x) as [[body enc] E] by (unfold compress; repeat case_decide; eauto; set_solver).
  change (snd (ctype, raw)) with raw. rewrite E, IH. cbn. eauto.
Qed.

Lemma run_slice_slots {D} `{!Sha1 D} cfg deadline lower_uni repr int_uni gzip brotli zstd rand tag n :
  REQ_COMP cfg ∈ [[]; str "none"; str "gzip"; str "br"; str "zstd"] -> tag ∈ akeys MIX_DEFAULT -> 0 <= n ->
  slots (run_slice (D := D) cfg deadline lower_uni repr int_uni gzip brotli zstd rand (tag, n)) = n.
Proof.
  intros Hc Ht Hn. unfold run_slice, MIX_FNS. cbn [fst snd].
  assert (forall f : Z -> proc, (forall i, slots (f i) = 1) -> slots (Gather (map f (range n))) = n) as Hr.
  { intros f Hf. rewrite (slots_all _ 1); [|by apply Forall_map, Forall_forall]. rewrite len_map, len_range by done. lia. }
  destruct (prepare_ok cfg gzip brotli zstd (payload_mix rand) Hc) as [prep Hp].
  repeat (case_decide; [first [by apply Hr|unfold w_requests, with_prepared; rewrite Hp; by apply Hr
    |unfold w_ws; destruct (IS_H3 cfg); by apply Hr|by apply (Hr (fun _ => Work _ _))]|]).
  exfalso. revert Ht. cbn. set_solver.
Qed.

(** C23: a [mixed] cell has the workers it says.  When the mix resolves, the
    slices of every client together are exactly the worker budget, so the cell
    drives [CLIENTS * CONC] coroutines, unless every slice is a streaming one:
    those are kept at one transfer each, and the cell is smaller. *)
Theorem mixed_cell_slots {D} `{!Sha1 D} cfg deadline lower_uni repr int_uni gzip brotli zstd urandom env slices p :
  IS_MIXED cfg = true -> 0 <= CLIENTS cfg -> CONC cfg < 2 ^ 52 ->
  REQ_COMP cfg ∈ [[]; str "none"; str "gzip"; str "br"; str "zstd"] ->
  snd (MIX_SLICES true (CONC cfg) env) = Ok slices ->
  cell (D := D) cfg deadline slices lower_uni repr int_uni gzip brotli zstd urandom = Some p ->
  slots p = CLIENTS cfg * (if forallb (fun k => bool_decide (k ∈ MIX_FIXED)) (akeys slices) then len slices else CONC cfg).
Proof.
  intros Hm HC Hb Hcomp Hs Hcell. apply bool_decide_eq_true in Hm.
  destruct (MIX_SLICES_split _ _ _ Hb Hs) as (shares & [Hnames Hfloor _ Hsum] & Hknown).
  apply cell_clients in Hcell as (ps & -> & Hps).
  set (k := if forallb _ _ then _ else _). rewrite <- (len_range (CLIENTS cfg)) by done.
  assert (len (range (CLIENTS cfg)) = len ps) as -> by (unfold len; by rewrite (Forall2_length _ _ _ Hps)).
  apply slots_all, Forall_forall. intros q Hq. apply list_elem_of_lookup in Hq as [j Hj].
  destruct (Forall2_lookup_r _ _ _ _ _ Hps Hj) as (i & _ & Hq). unfold workload in Hq. rewrite Hm in Hq. injection Hq as <-.
  unfold w_mixed. cbn [slots]. rewrite map_map.
  rewrite (map_ext_in _ snd). 2: { intros [tag n] Hin. apply run_slice_slots; [done|..].
    - rewrite <- Hnames in Hknown. rewrite Forall_forall in Hknown. apply Hknown. apply list_elem_of_In, in_map_iff. by exists (tag, n).
    - rewrite Forall_forall in Hfloor. apply list_elem_of_In in Hin. specialize (Hfloor _ Hin). cbn in *. lia. }
  change (map snd slices) with (avals slices). subst k.
  rewrite Hsum, Hnames. assert (len slices = len shares) as ->.
  { transitivity (len (akeys slices)); [unfold akeys; by rewrite len_map|]. rewrite Hnames. unfold akeys. by rewrite len_map. }
  destruct (decide _) as [E|E]; destruct (forallb _ _) eqn:Ef; try done; exfalso.
  - apply not_true_iff_false in Ef. apply Ef, forallb_forall. intros k Hk. apply in_map_iff in Hk as (kw & <- & Hin).
    apply bool_decide_eq_true. apply dec_stable. intros Hn. apply list_elem_of_In in Hin.
    assert (kw ∈ request_shaped shares) as Hf by (by apply list_elem_of_filter). rewrite E in Hf. by apply not_elem_of_nil in Hf.
  - rewrite forallb_forall in Ef. apply E. destruct (request_shaped shares) as [|kw l] eqn:Er; [done|].
    assert (kw ∈ request_shaped shares) as Hin by (rewrite Er; by left). apply list_elem_of_filter in Hin as [Hn Hin]. destruct Hn.
    apply list_elem_of_In in Hin. apply (bool_decide_eq_true_1 _), Ef, in_map_iff. by exists kw.
Qed.

Lemma mixed_cell_slots_witness :
  let slices := [(Mix.requests, 15); (Mix.ws, 8); (Mix.sse, 7); (streamupload, 1); (streamdownload, 1)] in
  exists p, cell (D := list Z) demo_mixed (flit 60 0) slices id id no_unicode id id id (fun _ _ _ => []) = Some p /\ slots p = 96.
Proof.
  intros slices. eexists. split; [reflexivity|].
  rewrite (mixed_cell_slots (D := list Z) demo_mixed (flit 60 0) id id no_unicode id id id (fun _ _ _ => []) [] slices);
    [vm_compute; reflexivity|vm_compute; reflexivity|vm_compute; congruence|vm_compute; reflexivity|
     apply (bool_decide_unpack _); vm_compute; exact I|vm_compute; reflexivity|reflexivity].
Defined.

(** ** The number a [requests] cell reports *)

Lemma requests_workers_count lower_uni gunzip unbrotli unzstd tag (ws : list worker) :
  let K := kept tag lower_uni gunzip unbrotli unzstd expected_gets in
  Forall (fun x => w_marks x = flat_map K (trace (w_end x))) ws ->
  len (List.filter is_ok_bump (flat_map w_marks ws)) =
  len (List.filter (contract lower_uni gunzip unbrotli unzstd expected_gets) (flat_map (fun x => trace (w_end x)) ws)).
Proof.
  intros K. assert (forall n, List.filter is_ok_bump (repeat (Bump tag 200) n) = repeat (Bump tag 200) n) as Hf
    by (induction n as [|n IHn]; cbn; [done|by rewrite IHn]).
  induction 1 as [|x ws Hx _ IH]; [done|]. cbn [flat_map]. rewrite !List.filter_app, !len_app, IH, Hx. unfold K.
  rewrite kept_repeat, Hf. unfold len at 1. by rewrite repeat_length.
Qed.

(** The workers of a [requests] cell that have returned counted the contract's
    replies, and met no other. *)
Lemma requests_workers_kept {D} `{!Sha1 D} cfg deadline slices lower_uni repr int_uni
  gzip brotli zstd gunzip unbrotli unzstd urandom scripts p :
  (forall b, gunzip (gzip b) = Ok b) -> (forall b, unbrotli (brotli b) = Ok b) ->
  (forall b, unzstd (zstd b) = Ok b) -> WORKLOAD cfg = str "requests" ->
  cell (D := D) cfg deadline slices lower_uni repr int_uni gzip brotli zstd urandom = Some p ->
  Forall (fun x => w_out x = Ret tt ->
    w_marks x = flat_map (kept (str "requests") lower_uni gunzip unbrotli unzstd expected_gets) (trace (w_end x)) /\
    List.filter (broken lower_uni gunzip unbrotli unzstd expected_gets) (trace (w_end x)) = []) (workers scripts [] p).
Proof.
  intros Hg Hb Hz Hw Hcell. apply cell_clients in Hcell as (ps & -> & Hps).
  eapply Forall_impl; [apply (workers_all (fun _ m => abides (kept (str "requests") lower_uni gunzip unbrotli unzstd expected_gets)
    (broken lower_uni gunzip unbrotli unzstd expected_gets) m))|].
  - apply all_work_gather, Forall_forall. intros q Hq. apply list_elem_of_lookup in Hq as [j Hj].
    destruct (Forall2_lookup_r _ _ _ _ _ Hps Hj) as (i & _ & Eq). unfold workload in Eq. rewrite Hw in Eq. injection Eq as <-.
    unfold w_requests, with_prepared. destruct (prepare _ _ _ _ _) as [prep|e] eqn:Ep; [|apply abides_throw].
    apply all_work_map. intros k _. by eapply requests_drive_abides.
  - intros x (m & script & Hab & E) Hret. specialize (Hab (World script [] (WState [] fzero false))).
    unfold run_worker in E. rewrite E, Hret in Hab. destruct Hab as (tr & Et & Em & Ec). cbn in Et, Em. subst tr.
    split; [done|by apply nil_length_inv].
Qed.

(** C2: the number on a [requests] pass line is the number of verified replies.
    When the cell exits 0, no reply any of its workers got broke the server's
    contract, and the total printed on the pass line is the number of replies
    that kept it, over all the workers' conversations, and is not zero. *)
Theorem requests_cell_exact {D} `{!Sha1 D} cfg deadline slices lower_uni repr int_uni
  gzip brotli zstd gunzip unbrotli unzstd urandom scripts start now stats p t s outcome out :
  (forall b, gunzip (gzip b) = Ok b) -> (forall b, unbrotli (brotli b) = Ok b) ->
  (forall b, unzstd (zstd b) = Ok b) -> WORKLOAD cfg = str "requests" ->
  cell (D := D) cfg deadline slices lower_uni repr int_uni gzip brotli zstd urandom = Some p ->
  cell_steps cfg slices start (spawn scripts [] p, start_tallies start) (t, s) -> awaited t outcome ->
  main cfg slices start now outcome stats s = (out, Ok 0) ->
  let contract := contract lower_uni gunzip unbrotli unzstd expected_gets in
  let replies := flat_map (fun x => trace (w_end x)) (workers scripts [] p) in
  (forall x, x ∈ replies -> is_reply x = true -> contract x = true) /\
  let total := len (List.filter contract replies) in
  0 < total /\ last out = Some (Text (passed cfg (dec total ++ str " requests"))).
Proof.
  intros Hg Hb Hz Hw Hcell Hs Ha Hm. cbv zeta.
  assert (IS_MIXED cfg = false) as Hmix by (unfold IS_MIXED; by rewrite Hw).
  assert (Hknown := main_known _ _ _ _ _ _ _ _ Hm).
  assert (Hpass := main_total _ _ _ _ _ _ _ _ Hmix Hknown Hm).
  destruct (main_vouches _ _ _ _ _ _ _ _ _ Hknown Hm) as [(_ & -> & Hnz & _)|(? & _)]; [|done]. rewrite Hmix in Hnz.
  destruct (cell_returned _ _ _ _ _ _ _ _ Hs Ha) as [Hret Hcounts]. rewrite Hcounts, ok_ops_tallies in Hnz, Hpass.
  change (ok_ops (start_tallies start)) with 0 in *. rewrite Z.add_0_l in Hnz, Hpass.
  assert (Hall := requests_workers_kept cfg deadline slices lower_uni repr int_uni _ _ _ _ _ _ urandom scripts p Hg Hb Hz Hw Hcell).
  rewrite Forall_forall in Hall, Hret. assert (Hone := fun x Hx => Hall x Hx (Hret x Hx)).
  rewrite (requests_workers_count lower_uni gunzip unbrotli unzstd (str "requests")) in Hnz, Hpass
    by (apply Forall_forall; intros x Hx; by apply Hone).
  split; [|split; [assert (H0 := len_nonneg (List.filter (contract lower_uni gunzip unbrotli unzstd expected_gets)
    (flat_map (fun x => trace (w_end x)) (workers scripts [] p)))); lia|]].
  - intros x Hx Hr. apply list_elem_of_In, in_flat_map in Hx as (y & Hy & Hx). apply list_elem_of_In in Hy.
    apply not_false_iff_true. intros Hc. destruct (Hone y Hy) as [_ Hnil].
    assert (In x (List.filter (broken lower_uni gunzip unbrotli unzstd expected_gets) (trace (w_end y)))) as Hin
      by (apply filter_In; split; [done|]; unfold broken; by rewrite Hr, Hc).
    by rewrite Hnil in Hin.
  - rewrite Hpass. unfold UNIT. by rewrite Hw.
Qed.

Definition demo_pair : config :=
  Config (str "requests") (str "h2") (str "sync") (str "https://server:8443") 60 1 2 1048576 60 (str "none") (str "none").

Definition demo_plan : proc :=
  Gather [Gather (map (fun _ : Z => Work (str "requests")
    (drive (flit 60 0) (requests_once demo_pair (str "requests") (flit 60 0) id id expected_gets demo_prep))) (range 2))].

Lemma demo_pair_cell : cell (D := list Z) demo_pair (flit 60 0) [] id id no_unicode id id id (fun _ _ _ => []) = Some demo_plan.
Proof.
  unfold cell. change (range (CLIENTS demo_pair)) with [0]. cbn [mapM fmap option_fmap option_map].
  unfold workload. rewrite decide_True by done. unfold w_requests, with_prepared.
  change (prepare demo_pair) with (prepare demo_plain). cbn [fst snd]. by rewrite demo_prepared.
Qed.

Lemma requests_cell_exact_witness :
  exists out, last out = Some (Text (passed demo_pair (dec (len (List.filter (contract id Ok Ok Ok expected_gets)
    (flat_map (fun x => trace (w_end x)) (workers (fun _ => demo_script) [] demo_plan)))) ++ str " requests"))).
Proof.
  assert (cell_run demo_pair [] fzero (flit 60 0) (Raise (ConnectionError [])) (fun _ => demo_script) demo_plan (Ok 0))
    as (t & s & outcome & out & Hs & Ha & Hm).
  { eapply cell_runs; [vm_compute; repeat constructor|vm_compute; reflexivity]. }
  exists out.
  apply (requests_cell_exact (D := list Z) demo_pair (flit 60 0) [] id id no_unicode id id id Ok Ok Ok (fun _ _ _ => [])
    (fun _ => demo_script) fzero (flit 60 0) (Raise (ConnectionError [])) demo_plan t s outcome out);
    [done|done|done|reflexivity|exact demo_pair_cell|exact Hs|exact Ha|exact Hm].
Defined.
