(* ===== verification/Background.v ===== *)
(** * The background tasks of the stress client

    [stress_client.py]: [reporter], which samples [/stats] and prints a report line
    per interval, and [loop_watchdog], which warns when the client's own event loop
    was blocked.  The workers go on while these tasks are suspended: every answer
    to an await carries the additions made to the tallies meanwhile. *)
From S2P Require Import Prelude PyFloat PyDouble Coro Mix WsFrame H3Client Transport Payload Report Workloads WorkloadProofs Cell.
#[local] Open Scope Z_scope.
#[local] Open Scope coro_scope.

Inductive bop :=
| BClock                               (** [time.monotonic()] *)
| BSleep (seconds : Z)                 (** [asyncio.sleep(n)] *)
| BSample (timeout : spec_float).      (** [wait_for(sample(), timeout)] *)

Inductive banswer :=
| BTime (t : spec_float)
| BWoke (ops : list tally_op) (r : res unit)
| BStats (ops : list tally_op) (r : res (Z * Z * option Z)).

(** The additions of the other tasks during an await. *)
Definition meanwhile (a : banswer) : list tally_op :=
  match a with BTime _ => [] | BWoke ops _ => ops | BStats ops _ => ops end.

Definition read_btime (a : banswer) : option (res spec_float) := match a with BTime t => Some (Ok t) | _ => None end.
Definition read_woke (a : banswer) : option (res (list tally_op * res unit)) :=
  match a with BWoke ops r => Some (Ok (ops, r)) | _ => None end.
Definition read_stats (a : banswer) : option (res (list tally_op * res (Z * Z * option Z))) :=
  match a with BStats ops r => Some (Ok (ops, r)) | _ => None end.

(** The tallies and what has been printed. *)
Record bstate := BState { b_tallies : tallies; b_out : list line }.

Abbreviation task := (coro bop banswer bstate) (only parsing).

Section Tasks.
Context (cfg : config) (slices : list (list Z * Z)) (start deadline : spec_float).

Definition bclock : task spec_float := perform BClock read_btime.
Definition say (l : line) : task unit := modify (fun s => BState (b_tallies s) (b_out s ++ [l])).

Definition others (ops : list tally_op) : task unit :=
  modify (fun s => BState (fold_left (tally cfg) ops (b_tallies s)) (b_out s)).

(** [await]: the other tasks run, then the result. *)
Definition await {R} (o : bop) (read : banswer -> option (res (list tally_op * res R))) : task R :=
  let! (ops, r) := perform o read in others ops;; lift r.

(** [report_line(prefix, rss, heap, fds)], which reads the clock. *)
Definition report (prefix : list Z) (sample : option Z * option Z * option Z) : task unit :=
  let '(rss, heap, fds) := sample in
  let! now := bclock in
  let! s := get in
  let! (text, t) := lift (report_line cfg slices start now prefix rss heap fds (b_tallies s)) in
  modify (fun s => BState t (b_out s));;
  say (Text text).

(** The [try] of [reporter]: a failed sample is [None] everywhere. *)
Definition sample : task (option Z * option Z * option Z) :=
  catch (let! timeout := lift (idiv (REPORT cfg) 2) in
         let! (rss, heap, fds) := await (BSample timeout) read_stats in
         ret (Some rss, Some heap, fds))
        (fun e => if is_Exception e then Some (ret (None, None, None)) else None).

(** [while time.monotonic() < deadline: ...], one round and the loop. *)
Definition report_round : task (unit + unit) :=
  let! now := bclock in
  if flt now deadline then
    await (BSleep (REPORT cfg)) read_woke;;
    let! s := sample in
    report [] s;;
    ret (inl tt)
  else ret (inr tt).

Definition reporter : task unit := iter (fun _ => report_round) tt.

Definition stall_line (t0 t1 : spec_float) : res (list line) :=
  let lag := fsub (fsub t1 t0) (flit 1 0) in
  if flt (flit 2 0) lag then
    n ← int_of_float (fsub t0 start);
    Ok [Text (str "WARN client event-loop stalled " ++ fixed 1 lag ++ str "s (t=" ++ dec n ++ str "s)")]
  else Ok [].

Definition loop_watchdog : task unit :=
  iter (fun _ =>
    let! now := bclock in
    if flt now deadline then
      let! t0 := bclock in
      await (BSleep 1) read_woke;;
      let! t1 := bclock in
      let! lines := lift (stall_line t0 t1) in
      for_each lines (fun _ l => say l) tt;;
      ret (inl tt)
    else ret (inr tt)) tt.

End Tasks.

(** ** The background tasks only observe *)

Definition additions (tr : list (bop * banswer)) : list tally_op := flat_map (fun oa => meanwhile oa.2) tr.

Definition observes (cfg : config) (w w' : world bop banswer bstate) : Prop :=
  exists tr, trace w' = trace w ++ tr /\
    same_counts (b_tallies (st w')) (fold_left (tally cfg) (additions tr) (b_tallies (st w))).

#[export] Instance observes_preorder cfg : PreOrder (observes cfg).
Proof.
  split.
  - intros w. exists []. by rewrite app_nil_r.
  - intros w1 w2 w3 (t1 & E1 & H1) (t2 & E2 & H2). exists (t1 ++ t2). rewrite E2, E1, <- app_assoc. split; [done|].
    unfold additions in *. rewrite flat_map_app, fold_left_app, H2. by rewrite H1.
Qed.

Lemma bclock_observes cfg : keeps (observes cfg) bclock.
Proof.
  intros w. unfold bclock, perform. destruct (env w) as [|[] env']; cbn; try reflexivity. by exists [(BClock, BTime t)].
Qed.

Lemma await_observes cfg {R} o (read : banswer -> option (res (list tally_op * res R))) :
  (forall a x, read a = Some x -> exists r, x = Ok (meanwhile a, r)) -> keeps (observes cfg) (await cfg o read).
Proof.
  intros Hread w. unfold await, bind, perform. destruct (env w) as [|a env']; [cbn; reflexivity|].
  destruct (read a) as [x|] eqn:Er; [|cbn; reflexivity]. destruct (Hread _ _ Er) as [r ->]. cbn.
  exists [(o, a)]. unfold additions. cbn. rewrite app_nil_r. destruct r; done.
Qed.

Lemma say_observes cfg l : keeps (observes cfg) (say l).
Proof. intros w. exists []. by rewrite app_nil_r. Qed.

Lemma report_observes cfg slices start prefix s : keeps (observes cfg) (report cfg slices start prefix s).
Proof.
  destruct s as [[rss heap] fds]. unfold report. apply keeps_bind; [apply _|apply bclock_observes|]. intros now w.
  unfold bind at 1, get. unfold bind. destruct (report_line _ _ _ _ _ _ _ _ _) as [[text t]|e] eqn:Er; cbn; [|reflexivity].
  exists []. rewrite app_nil_r. split; [done|]. cbn. by eapply report_line_counts.
Qed.

Lemma sample_observes cfg : keeps (observes cfg) (sample cfg).
Proof.
  unfold sample. apply keeps_catch; [apply _| |].
  - apply keeps_bind; [apply _|apply keeps_lift, _|]. intros tm. apply keeps_bind; [apply _| |].
    + apply await_observes. intros [] ? [= <-]. by eexists.
    + intros [[rss heap] fds]. apply keeps_ret, _.
  - intros e m. destruct (is_Exception e); [|done]. intros [= <-]. apply keeps_ret, _.
Qed.

Lemma sleep_observes cfg n : keeps (observes cfg) (await cfg (BSleep n) read_woke).
Proof. apply await_observes. intros [] ? [= <-]. by eexists. Qed.

Lemma reporter_observes cfg slices start deadline : keeps (observes cfg) (reporter cfg slices start deadline).
Proof.
  apply keeps_iter; [apply _|]. intros _. unfold report_round. apply keeps_bind; [apply _|apply bclock_observes|]. intros now.
  destruct (flt now deadline); [|apply keeps_ret, _]. apply keeps_bind; [apply _|apply sleep_observes|]. intros _.
  apply keeps_bind; [apply _|apply sample_observes|]. intros s.
  apply keeps_bind; [apply _|apply report_observes|]. intros _. apply keeps_ret, _.
Qed.

(** ** One line per interval *)

Definition is_sleep (oa : bop * banswer) : bool := match oa.1 with BSleep _ => true | _ => false end.
Definition sleeps (tr : list (bop * banswer)) : nat := length (List.filter is_sleep tr).

(** Where an exception that leaves the reporter can come from: the sleep, a
    sample that is not an [Exception] (a cancellation), or the report line. *)
Definition fatal (cfg : config) (slices : list (list Z * Z)) (start : spec_float) (e : exn) (tr : list (bop * banswer)) : Prop :=
  (exists n ops, last tr = Some (BSleep n, BWoke ops (Raise e))) \/
  (exists tm ops, last tr = Some (BSample tm, BStats ops (Raise e)) /\ is_Exception e = false) \/
  (exists now rss heap fds t, last tr = Some (BClock, BTime now) /\ report_line cfg slices start now [] rss heap fds t = Raise e).

(** The conversation [tr] of a run against the [lines] it printed. *)
Definition reported (cfg : config) (slices : list (list Z * Z)) (start deadline : spec_float)
  (tr : list (bop * banswer)) (lines : list line) (o : outcome unit) : Prop :=
  match o with
  | Ret _ => length lines = sleeps tr /\ exists now, last tr = Some (BClock, BTime now) /\ flt now deadline = false
  | Exc e => sleeps tr = S (length lines) /\ fatal cfg slices start e tr
  | Wait => (length lines <= sleeps tr <= S (length lines))%nat
  end.

Lemma sleeps_app t1 t2 : sleeps (t1 ++ t2) = (sleeps t1 + sleeps t2)%nat.
Proof. unfold sleeps. by rewrite List.filter_app, length_app. Qed.

Lemma sleeps_cons x tr : sleeps (x :: tr) = ((if is_sleep x then 1 else 0) + sleeps tr)%nat.
Proof. unfold sleeps. cbn. by destruct (is_sleep x). Qed.

Lemma fatal_app cfg slices start e t1 t2 : fatal cfg slices start e t2 -> fatal cfg slices start e (t1 ++ t2).
Proof.
  assert (forall x, last t2 = Some x -> last (t1 ++ t2) = Some x) as H by (intros x E; by rewrite last_app, E).
  intros [(? & ? & E)|[(? & ? & E & ?)|(? & ? & ? & ? & ? & E & ?)]]; [left|right; left|right; right]; eauto 10.
Qed.

Lemma fatal_cons cfg slices start e x tr : fatal cfg slices start e tr -> fatal cfg slices start e (x :: tr).
Proof. apply (fatal_app _ _ _ _ [x]). Qed.

Lemma idiv_exception a b e : idiv a b = Raise e -> is_Exception e = true.
Proof. unfold idiv, truediv. repeat (case_match; cbn; try done); intros [= <-]; done. Qed.

Section Rounds.
Context (cfg : config) (slices : list (list Z * Z)) (start deadline : spec_float).

#[local] Abbreviation sees := (runs (fun _ : banswer => True)).

(** A sample prints nothing, takes no sleep, and raises only what is not an
    [Exception]. *)
Lemma sample_sees s :
  sees (sample cfg) (fun seg s' o => b_out s' = b_out s /\ sleeps seg = 0%nat /\
    forall e, o = Exc e -> exists tm ops, last seg = Some (BSample tm, BStats ops (Raise e)) /\ is_Exception e = false) s.
Proof.
  apply runs_catch. apply runs_bind, runs_lift. destruct (idiv _ _) as [tm|e] eqn:Ei.
  2: { rewrite (idiv_exception _ _ _ Ei). by apply runs_ret. }
  apply runs_bind, runs_bind, runs_perform; [done|]. intros [] ? _ [= <-]. apply runs_bind, runs_modify, runs_lift.
  destruct r as [[[rss heap] fds]|e]; [by apply runs_ret|]. cbn. destruct (is_Exception e) eqn:Ee; [by apply runs_ret|].
  split; [done|]. split; [done|]. intros ? [= <-]. eauto.
Qed.

(** One round of [reporter]: a sleep and a line. *)
Lemma report_sees smp s :
  sees (report cfg slices start [] smp) (fun seg s' o => sleeps seg = 0%nat /\
    exists lines, b_out s' = b_out s ++ lines /\
    match o with
    | Ret _ => length lines = 1%nat
    | Exc e => lines = [] /\ fatal cfg slices start e seg
    | Wait => lines = []
    end) s.
Proof.
  destruct smp as [[rss heap] fds]. unfold report. apply runs_bind, runs_perform; [split; [done|]; exists []; by rewrite app_nil_r|].
  intros [] ? _ [= <-]. apply runs_bind, runs_get. apply runs_bind, runs_lift.
  destruct (report_line _ _ _ _ _ _ _ _ _) as [[text t1]|e] eqn:Er.
  - apply runs_bind, runs_modify, runs_modify. cbn. split; [done|]. by eexists.
  - split; [done|]. exists []. rewrite app_nil_r. split; [done|]. split; [done|]. right. right. cbn. eauto 10.
Qed.

Lemma round_sees s :
  sees (report_round cfg slices start deadline) (fun seg s' o => exists lines, b_out s' = b_out s ++ lines /\
    match o with
    | Ret (inl _) => length lines = 1%nat /\ sleeps seg = 1%nat
    | Ret (inr _) => lines = [] /\ exists now, seg = [(BClock, BTime now)] /\ flt now deadline = false
    | Exc e => lines = [] /\ sleeps seg = 1%nat /\ fatal cfg slices start e seg
    | Wait => lines = [] /\ (sleeps seg <= 1)%nat
    end) s.
Proof.
  apply runs_bind, runs_perform; [exists []; rewrite app_nil_r; cbn; auto|]. intros [now| |] ? _ [= <-].
  destruct (flt now deadline) eqn:Ed; [|apply runs_ret; exists []; rewrite app_nil_r; eauto].
  apply runs_bind, runs_bind, runs_perform; [exists []; rewrite app_nil_r; cbn; auto|].
  intros [|ops r|] ? _ [= <-]. apply runs_bind, runs_modify, runs_lift.
  destruct r as [[]|e]; [|exists []; rewrite app_nil_r; repeat split; left; cbn; eauto].
  apply runs_bind. eapply runs_mono; [apply sample_sees|]. cbn [b_out app]. intros seg s2 o _ (E2 & Hs & Hexc).
  destruct o as [smp|e|].
  - apply runs_bind. eapply runs_mono; [apply report_sees|]. intros seg2 s3 o _ (Hs2 & lines & E3 & Ho). rewrite E2 in E3.
    destruct o as [[]|e|]; [apply runs_ret; rewrite app_nil_r|..]; exists lines; rewrite !sleeps_cons, sleeps_app, Hs, Hs2; [done| |auto].
    destruct Ho as [-> Hf]. repeat split; [done|]. by apply fatal_cons, fatal_cons, fatal_app.
  - exists []. rewrite app_nil_r, !sleeps_cons, Hs. repeat split; [done|]. apply fatal_cons, fatal_cons. right. left. auto.
  - exists []. by rewrite app_nil_r, !sleeps_cons, Hs.
Qed.

Lemma reporter_sees s :
  sees (reporter cfg slices start deadline)
    (fun tr s' o => exists lines, b_out s' = b_out s ++ lines /\ reported cfg slices start deadline tr lines o) s.
Proof.
  apply (runs_iter _ _ (fun _ tr s' => exists lines, b_out s' = b_out s ++ lines /\ length lines = sleeps tr)).
  { exists []. by rewrite app_nil_r. }
  { intros _ tr s' _ (lines & E & Hl). exists lines. split; [done|]. cbn. lia. }
  intros _ tr s1 _ (lines & E & Hl). eapply runs_mono; [apply round_sees|]. intros seg s2 o _ (l2 & E2 & Ho).
  rewrite E, <- app_assoc in E2. destruct o as [[[]|[]]|e|]; exists (lines ++ l2); (split; [done|]); cbn [reported];
    rewrite ?sleeps_app, ?length_app.
  - lia.
  - destruct Ho as (-> & now & -> & Ed). cbn. split; [lia|]. exists now. by rewrite last_app.
  - destruct Ho as (-> & Hs & Hf). cbn. split; [lia|by apply fatal_app].
  - destruct Ho as (-> & Hs). cbn. lia.
Qed.
End Rounds.

(** C21: reporting never depends on a sample.  Whatever the [/stats] samples do, and
    whatever the workers add meanwhile, the reporter prints one line per interval it
    slept, stops only past the deadline, and is ended early only by a cancellation,
    its sleep or the report line itself, never by a failed sample; and it leaves
    every count as the workers' additions alone make it. *)
Theorem reporter_survives cfg slices start deadline w :
  let '(o, w') := reporter cfg slices start deadline w in
  exists tr lines, trace w' = trace w ++ tr /\ b_out (st w') = b_out (st w) ++ lines /\
    reported cfg slices start deadline tr lines o /\
    same_counts (b_tallies (st w')) (fold_left (tally cfg) (additions tr) (b_tallies (st w))).
Proof.
  assert (H1 := reporter_sees cfg slices start deadline (st w) w eq_refl).
  assert (H2 := reporter_observes cfg slices start deadline w).
  destruct (reporter _ _ _ _ w) as [o w'].
  destruct H1 as (tr & Et & _ & _ & lines & El & Hr); [by apply Forall_forall|]. destruct H2 as (tr' & Et' & Hc). cbn [snd] in *.
  rewrite Et in Et'. apply app_inv_head in Et' as <-. exists tr, lines. done.
Qed.

(** Two intervals of a [requests] soak: a sample that times out, then one that
    answers, while the workers complete three requests. *)
Example reporter_demo :
  let script := [BTime fzero; BWoke [Bump (str "requests") 200] (Ok tt); BStats [] (Raise (TimeoutError [])); BTime (flit 60 0);
                 BTime (flit 60 0); BWoke [Bump (str "requests") 200; Bump (str "requests") 200] (Ok tt);
                 BStats [] (Ok (50 * MB, 8 * MB, Some 17)); BTime (flit 120 0); BTime (flit 120 0)] in
  let '(o, w') := reporter demo_plain [] fzero (flit 120 0) (World script [] (BState (start_tallies fzero) [])) in
  o = Ret tt /\ b_out (st w') =
    [Text (str "[requests h2 sync] 200x1 | 0 requests/s | RSS n/a | heap n/a | fds n/a | t=60s");
     Text (str "[requests h2 sync] 200x3 | 0 requests/s | RSS 50MB | heap 8MB | fds 17 | t=120s")].
Proof. vm_compute. split; reflexivity. Qed.

(** ** The watchdog *)

Section Watchdog.
Context (cfg : config) (start deadline : spec_float).

(** A round of the watchdog: the clock readings before and after its sleep. *)
Record lap := Lap { at_head : spec_float; before : spec_float; slept : list tally_op; after : spec_float }.

Definition lap_trace (l : lap) : list (bop * banswer) :=
  [(BClock, BTime (at_head l)); (BClock, BTime (before l)); (BSleep 1, BWoke (slept l) (Ok tt)); (BClock, BTime (after l))].

Definition stalled (l : lap) : bool := flt (flit 2 0) (fsub (fsub (after l) (before l)) (flit 1 0)).

Definition warning (l : lap) (x : line) : Prop := stalled l = true /\ stall_line start (before l) (after l) = Ok [x].

Lemma lap_warns l lines :
  stall_line start (before l) (after l) = Ok lines -> Forall2 warning (List.filter stalled [l]) lines.
Proof.
  intros E. cbn [List.filter]. destruct (stalled l) eqn:Es; assert (Ek := Es); unfold stalled in Ek; unfold stall_line in E; rewrite Ek in E.
  - apply bind_Ok in E as (n & En & [= <-]). constructor; [|constructor]. split; [done|]. unfold stall_line. by rewrite Ek, En.
  - injection E as <-. constructor.
Qed.

#[local] Abbreviation sees := (runs (fun _ : banswer => True)).

Lemma watchdog_sees s :
  sees (loop_watchdog cfg start deadline) (fun tr s' o => o = Ret tt -> exists laps now lines,
    tr = flat_map lap_trace laps ++ [(BClock, BTime now)] /\ flt now deadline = false /\
    b_out s' = b_out s ++ lines /\ Forall2 warning (List.filter stalled laps) lines) s.
Proof.
  apply (runs_iter _ _ (fun _ tr s' => exists laps lines, tr = flat_map lap_trace laps /\
    b_out s' = b_out s ++ lines /\ Forall2 warning (List.filter stalled laps) lines)).
  { exists [], []. rewrite app_nil_r. cbn. auto. }
  { done. }
  intros _ tr s1 _ (laps & lines & -> & E & Hl). apply runs_bind, runs_perform; [done|].
  intros [now| |] ? _ [= <-]. destruct (flt now deadline) eqn:Ed; [|apply runs_ret; intros _; exists laps, now, lines; done].
  apply runs_bind, runs_perform; [done|]. intros [t0| |] ? _ [= <-].
  apply runs_bind, runs_bind, runs_perform; [done|]. intros [|ops r|] ? _ [= <-]. apply runs_bind, runs_modify, runs_lift.
  destruct r as [[]|e]; [|done]. apply runs_bind, runs_perform; [done|]. intros [t1| |] ? _ [= <-].
  apply runs_bind, runs_lift. destruct (stall_line start t0 t1) as [ls|e] eqn:Es; [|done].
  assert (forall s2, b_out s2 = b_out s1 -> sees (for_each ls (fun _ : unit => say) tt) (fun seg s3 o => seg = [] /\ o = Ret tt /\ b_out s3 = b_out s1 ++ ls) s2) as Hsay.
  { intros s2 E2. apply (runs_for_each _ ls _ (fun done_ _ seg s3 => seg = [] /\ b_out s3 = b_out s1 ++ done_)).
    - by rewrite app_nil_r.
    - intros done_ y [] seg s3 _ _ [-> E3]. apply runs_modify. cbn. rewrite E3, <- app_assoc. done.
    - intros [] seg s3 _ [-> E3]. done. }
  apply runs_bind. eapply runs_mono; [by apply Hsay|]. intros seg s3 o _ (-> & -> & E3). apply runs_ret.
  exists (laps ++ [Lap now t0 ops t1]), (lines ++ ls). split; [by rewrite flat_map_app|].
  split; [by rewrite E3, E, <- app_assoc|]. rewrite List.filter_app.
  apply Forall2_app; [done|]. by apply lap_warns.
Qed.
End Watchdog.

(** C35: the watchdog warns of exactly the stalls.  When it returns, its run was a
    sequence of one-second sleeps timed on both sides, the last check past the
    deadline, and it printed one warning, in order, for each sleep that overran by
    more than two seconds and nothing else: no WARN line means the client's own
    event loop was never blocked that long. *)
Theorem watchdog_warns cfg start deadline w w' :
  loop_watchdog cfg start deadline w = (Ret tt, w') ->
  exists laps now lines, trace w' = trace w ++ flat_map lap_trace laps ++ [(BClock, BTime now)] /\
    flt now deadline = false /\ b_out (st w') = b_out (st w) ++ lines /\
    Forall2 (warning start) (List.filter stalled laps) lines.
Proof.
  intros E. assert (H := watchdog_sees cfg start deadline (st w) w eq_refl). rewrite E in H.
  destruct H as (tr & Et & _ & _ & Hr); [by apply Forall_forall|].
  destruct (Hr eq_refl) as (laps & now & lines & -> & ? & ? & ?). by exists laps, now, lines.
Qed.

Lemma watchdog_warns_witness :
  let script := [BTime fzero; BTime fzero; BWoke [] (Ok tt); BTime (flit 1 0);
                 BTime (flit 1 0); BTime (flit 1 0); BWoke [] (Ok tt); BTime (flit 7 0); BTime (flit 60 0)] in
  exists w' laps now lines,
    loop_watchdog demo_plain fzero (flit 60 0) (World script [] (BState no_tallies [])) = (Ret tt, w') /\
    trace w' = flat_map lap_trace laps ++ [(BClock, BTime now)] /\
    b_out (st w') = lines /\ Forall2 (warning fzero) (List.filter stalled laps) lines.
Proof.
  intros script. destruct (loop_watchdog demo_plain fzero (flit 60 0) (World script [] (BState no_tallies []))) as [o w'] eqn:E.
  assert (o = Ret tt) as -> by (transitivity (fst (o, w')); [done|]; rewrite <- E; vm_compute; reflexivity).
  destruct (watchdog_warns _ _ _ _ _ E) as (laps & now & lines & Et & _ & Eo & Hw).
  exists w', laps, now, lines. split; [done|]. split; [exact Et|]. split; [exact Eo|exact Hw].
Defined.
