(* ===== verification/Chaos.v ===== *)
(** * The misbehaving sidecar

    [conformance/stress/client/chaos.py]: the behaviours, the pick pool, the
    worker loop, the fd sampling and the verdict, as coroutines against a
    scripted environment.  Everything the sidecar does not decide is an answer:
    the clock, the draws of its random generators, the transports.  The script
    says of an opened transport only that it opened; [connects] is the sidecar's
    own count.  Entering [session()] dials on h3 only: on h1 and h2 it enters an
    [httpx.AsyncClient], which connects in the first request made through it. *)
From S2P Require Import Prelude PyFloat PyDouble Coro WsFrame H3Client Transport Payload Report.
#[local] Open Scope Z_scope.
#[local] Open Scope coro_scope.

(** ** The conversation *)

Inductive kind := KSession | KWebsockets (url : list Z) (tls : bool) | KRaw.

(** A key of the behaviour table: style and target. *)
Abbreviation bkey := (list Z * list Z)%type (only parsing).

(** The tasks of a [gather]: the connections of [warm_baseline], the workers of
    [run]. *)
Inductive burst := Warmup (n : Z) | Workers (n : Z) (pool : list bkey) (deadline : spec_float).

(** How the await of a [gather] ends: all tasks returned, one raised, or the
    [wait_for] around it expired. *)
Inductive ended := AllDone | Raised (i : nat) | Expired.

Inductive cop :=
| Now | Pause (d : spec_float)
| Random | Uniform (a b : spec_float) | RandInt (a b : Z) | Choice (n : nat)
| Open (k : kind)                          (** a transport is dialled *)
| Enter                                    (** an [httpx.AsyncClient] is entered: no connection is made *)
| Exit (k : kind)
| SGet (path : list Z)
| SStream (path : list Z) (headers : list (list Z * list Z)) | SNext | SAclose
| UStart (headers : list (list Z * list Z)) | UStep (chunk : option (list Z))
| QOpen (path : list Z) (headers : list (list Z * list Z)) | QGet | QAbort
| TOpen | TSend (opcode : Z) (payload : list Z) | TRecv | TClose
| WSend (text : list Z) | WRecv | WClose
| Drop                                     (** the transport closed or aborted under the library *)
| RawWrite (data : list Z) | RawRead | RawLinger (opt : list Z) | RawClose
| HStream (path : list Z) (headers : list (list Z * list Z)) | HNext | HSocket | HLinger (opt : list Z) | HExit
| TaskStart (headers : list (list Z * list Z)) | TaskAwait
| Gather (b : burst).                      (** the tasks run, concurrently *)

Inductive canswer :=
| CTime (t : spec_float)
| CFloat (x : spec_float)
| CInt (n : Z)
| CBool (b : bool)
| CDone
| CChunk (c : list Z) | CEnd
| CItem (it : item)
| CPull                                    (** the upload takes the next chunk *)
| CStatus (status : Z)
| CReply (status : Z) (ct body : list Z)
| CRan (scripts : list (list canswer)) (e : ended)  (** what each task was answered, and how the gather ended *)
| CRaise (e : exn).

Definition c_time (a : canswer) : option (res spec_float) := match a with CTime t => Some (Ok t) | _ => None end.
Definition c_float (a : canswer) : option (res spec_float) := match a with CFloat x => Some (Ok x) | _ => None end.
Definition c_int (a : canswer) : option (res Z) := match a with CInt n => Some (Ok n) | _ => None end.
Definition c_bool (a : canswer) : option (res bool) :=
  match a with CBool b => Some (Ok b) | CRaise e => Some (Raise e) | _ => None end.
Definition c_done (a : canswer) : option (res unit) :=
  match a with CDone => Some (Ok tt) | CRaise e => Some (Raise e) | _ => None end.
Definition c_chunk (a : canswer) : option (res (option (list Z))) :=
  match a with CChunk c => Some (Ok (Some c)) | CEnd => Some (Ok None) | CRaise e => Some (Raise e) | _ => None end.
Definition c_item (a : canswer) : option (res item) :=
  match a with CItem it => Some (Ok it) | CRaise e => Some (Raise e) | _ => None end.
Definition c_upload (a : canswer) : option (res (option Z)) :=
  match a with CPull => Some (Ok None) | CStatus st => Some (Ok (Some st)) | CRaise e => Some (Raise e) | _ => None end.
Definition c_reply (a : canswer) : option (res (Z * list Z * list Z)) :=
  match a with CReply st ct b => Some (Ok (st, ct, b)) | CRaise e => Some (Raise e) | _ => None end.
Definition c_ran (a : canswer) : option (res (list (list canswer) * ended)) :=
  match a with CRan scripts e => Some (Ok (scripts, e)) | _ => None end.

(** ** Configuration *)

Definition ALL : list (list Z) := [str "slowread"; str "slowwrite"; str "idle"; str "abort"; str "vanish"].

(** [sys.exit(2)] after the diagnostic that names the unknown behaviour. *)
Definition parse_name (repr : list Z -> list Z) (out : list (list Z)) (name : list Z) : io (list Z) (list (list Z)) :=
  let name := strip name in
  if decide (name = []) then io_ret out
  else if decide (name ∉ ALL)
  then print_exit (str "chaos: unknown behavior " ++ repr name ++ str " (known: " ++ join (str ",") ALL ++ str ")") 2
  else if decide (name ∉ out) then io_ret (out ++ [name]) else io_ret out.

Definition parse_behaviors (lower_uni repr : list Z -> list Z) (raw : list Z) : io (list Z) (list (list Z)) :=
  let v := lower lower_uni (strip raw) in
  if decide (v = [] \/ v = str "none") then io_ret []
  else if decide (v = str "all") then io_ret ALL
  else io_fold (parse_name repr) (split_on 44 v) [].

Definition SLACK : Z := 8.
Definition DRAIN (cfg : config) : Z := if decide (PROTO cfg = str "h3") then 40 else 15.
Definition SETTLE : Z := 60.
Definition WATCHDOG (cfg : config) : Z := SECONDS cfg + DRAIN cfg + 45.

(** The knobs of the sidecar: [_CHAOS], [CONC], [SEED] and [WARMUP_CONC]. *)
Definition read_chaos (int_uni : list Z -> res Z) (environ : list (list Z * list Z)) : res (list Z * Z * list Z * Z) :=
  conc ← int_str int_uni (getenv environ (str "VORTEX_CHAOS_CONC") (str "8"));
  warmup ← int_str int_uni (getenv environ (str "VORTEX_CHAOS_WARMUP") (str "64"));
  Ok (getenv environ (str "VORTEX_CHAOS") (str "all"), conc, getenv environ (str "VORTEX_CHAOS_SEED") (str "1"), warmup).

(** ** State: [connects], [_ok], [_err] and what was printed *)
Record cstate := CState { connects : Z; ok_ : counter bkey; err_ : counter bkey; out : list line }.

Abbreviation act := (coro cop canswer cstate) (only parsing).

Definition now : act spec_float := perform Now c_time.
Definition pause (d : spec_float) : act unit := perform (Pause d) c_done.
Definition random : act spec_float := perform Random c_float.
Definition uniform (a b : spec_float) : act spec_float := perform (Uniform a b) c_float.
Definition randint (a b : Z) : act Z := perform (RandInt a b) c_int.
Definition choice {X} (l : list X) : act X :=
  match l with
  | [] => throw (IndexError (str "Cannot choose from an empty sequence"))
  | x :: _ => let! n := perform (Choice (length l)) c_int in ret (default x (l !! Z.to_nat n))
  end.
Definition print_out (l : line) : act unit := modify (fun s => CState (connects s) (ok_ s) (err_ s) (out s ++ [l])).
Definition say (text : list Z) : act unit := print_out (Text text).
Definition connected : act unit := modify (fun s => CState (connects s + 1) (ok_ s) (err_ s) (out s)).

(** A decimal constant [n / d]. *)
Definition fdec (n d : Z) : spec_float := match idiv n d with Ok x => x | Raise _ => fzero end.

(** [try: m except Exception: pass] *)
Definition swallow (m : act unit) : act unit :=
  catch m (fun e => if is_Exception e then Some (ret tt) else None).
(** [try: m except (Exception, asyncio.CancelledError): pass] *)
Definition swallow_cancel (m : act unit) : act unit :=
  catch m (fun e => match e with CancelledError => Some (ret tt) | _ => if is_Exception e then Some (ret tt) else None end).

(** [s.upload(path, headers, gen)]: the transport pulls chunks from [gen] until
    it has its answer. *)
Definition upload {X} (gen : X -> act (option (list Z * X))) (x : X) (headers : list (list Z * list Z)) : act unit :=
  perform (UStart headers) c_done;;
  iter (fun '(x, chunk) =>
    let! r := perform (UStep chunk) c_upload in
    match r with
    | Some _status => ret (inr tt)
    | None =>
        match x with
        | None => ret (inl (None, None))
        | Some x0 =>
            let! y := gen x0 in
            match y with
            | Some (c, x') => ret (inl (Some x', Some c))
            | None => ret (inl (None, None))
            end
        end
    end) (Some x, None).

Definition sse_accept : list (list Z * list Z) := [(str "accept", str "text/event-stream")].
Definition bad_sha : list (list Z * list Z) := [(str "x-sha1", times 40 (str "0"))].

(** ** Generic behaviours *)
Section Behaviours.
Context (cfg : config) (u_scheme u_host u_port : list Z).   (** [urlparse(BASE)] *)

(** What entering [session()], [websockets.connect] and [open_connection] does. *)
Definition open_op (k : kind) : cop :=
  match k with
  | KSession => if IS_H3 cfg then Open KSession else Enter
  | k => Open k
  end.

(** [async with session() as s: connects[0] += 1; ...], the same with
    [websockets.connect], and the manual [__aenter__]. *)
Definition opened (k : kind) : act unit := perform (open_op k) c_done;; connected.
Definition with_open {R} (k : kind) (body : act R) : act R :=
  opened k;; finally body (perform (Exit k) c_done).

(** [_ws_target()]: the URL, and whether a TLS context goes with it. *)
Definition ws_target : list Z * bool :=
  let url := replace (str "http://") (str "ws://") (replace (str "https://") (str "wss://") (BASE cfg)) ++ str "/ws" in
  (url, starts_with (str "wss://") url).
Definition KWs : kind := KWebsockets ws_target.1 ws_target.2.

(** Read chunks of the open stream until [stop], dawdling between them. *)
Definition slow_chunks (deadline a b : spec_float) : act unit :=
  iter (fun _ =>
    let! c := perform SNext c_chunk in
    match c with
    | None => ret (inr tt)
    | Some _ =>
        let! t := now in
        if fge t deadline then ret (inr tt)
        else let! d := uniform a b in pause d;; ret (inl tt)
    end) tt.

(** [got] counts the chunks; leave after [want] of them. *)
Definition take_chunks (want : Z) : act unit :=
  iter (fun got =>
    let! c := perform SNext c_chunk in
    match c with
    | None => ret (inr tt)
    | Some _ => if want <=? got + 1 then ret (inr tt) else ret (inl (got + 1))
    end) 0.

(** The same off the raw queue of an h3 stream. *)
Definition take_items (want : Z) : act unit :=
  iter (fun got =>
    if want <=? got then ret (inr tt)
    else
      let! it := perform QGet c_item in
      match it with
      | IData _ => ret (inl (got + 1))
      | IEnd | IErr _ => ret (inr tt)
      | IHeaders _ _ _ => ret (inl got)
      end) 0.

Definition b_slowread : act unit :=
  let! r := random in
  let path := if flt r (fdec 1 4) then str "/sse" else str "/download" in
  let hdrs := if decide (path = str "/sse") then sse_accept else [] in
  let! budget := uniform (flit 5 0) (flit 15 0) in
  let! t := now in
  let deadline := fadd t budget in
  with_open KSession (
    perform (SStream path hdrs) c_done;;
    slow_chunks deadline (fdec 1 10) (fdec 1 2);;
    perform SAclose c_done).

Definition b_slowwrite : act unit :=
  let! budget := uniform (flit 5 0) (flit 15 0) in
  let! t := now in
  let deadline := fadd t budget in
  let drip '(off, first) :=
    (if first : bool then ret tt else let! d := uniform (fdec 5 100) (fdec 1 4) in pause d);;
    let! t := now in
    ret (if flt t deadline then Some (gen_chunk off (4 * 1024), (off + 4 * 1024, false)) else None) in
  with_open KSession (upload drip (0, true) bad_sha).

Definition b_idle : act unit :=
  let! hold := uniform (flit 10 0) (flit 30 0) in
  let! r := random in
  let want_ws := flt r (fdec 1 2) in
  if want_ws && IS_H3 cfg then
    with_open KSession (perform TOpen c_done;; finally (pause hold) (perform TClose c_done))
  else if want_ws : bool then with_open KWs (pause hold)
  else with_open KSession (let! _ := perform (SGet (str "/plaintext")) c_reply in pause hold).

(** The abandoned download of [b_abort] and of the warm-up. *)
Definition abort_download (want : Z) : act unit :=
  if IS_H3 cfg then
    with_open KSession (perform (QOpen (str "/download") []) c_done;; take_items want;; perform QAbort c_done)
  else
    with_open KSession (perform (SStream (str "/download") []) c_done;; take_chunks want;; perform SAclose c_done).

Definition b_abort : act unit :=
  let! r := random in
  if flt r (fdec 1 4) then
    let boom first :=
      if first : bool then ret (Some (gen_chunk 0 (4 * 1024), false))
      else throw (RuntimeError (str "chaos: abort upload mid-body")) in
    with_open KSession (upload boom true bad_sha)
  else let! want := randint 1 32 in abort_download want.

(** [struct.pack("ii", 1, 0)] on a little-endian machine. *)
Definition linger_zero : list Z := [1; 0; 0; 0; 0; 0; 0; 0].

(** [try: m finally: swallow the session's exit] *)
Definition then_exit {R} (m : act R) : act R := finally m (swallow (perform (Exit KSession) c_done)).

(** Run [f] only if [m] raises, then raise again. *)
Definition on_raise {R} (m : act R) (f : act unit) : act R := catch m (fun e => Some (f;; throw e)).

Definition slow_pause (slow_first : bool) : act unit :=
  if slow_first then let! d := uniform (flit 1 0) (flit 5 0) in pause d else ret tt.

Definition vanish_request (path : list Z) (headers : list (list Z * list Z)) : list Z :=
  encode (str "GET " ++ path ++ str " HTTP/1.1" ++ CRLF ++ str "Host: " ++ u_host ++ str ":" ++ u_port ++ CRLF
    ++ concat (map (fun kv => kv.1 ++ str ": " ++ kv.2 ++ CRLF) headers) ++ str "Connection: close" ++ CRLF ++ CRLF).

Definition vanish (path : list Z) (headers : list (list Z * list Z)) : act unit :=
  let! r := random in
  let slow_first := flt r (fdec 1 2) in
  if IS_H3 cfg then
    opened KSession;;
    then_exit (
      perform (QOpen path headers) c_done;;
      let! _ := perform QGet c_item in
      slow_pause slow_first;;
      perform Drop c_done)
  else if decide (u_scheme = str "http") then
    opened KRaw;;
    finally (
      perform (RawWrite (vanish_request path headers)) c_done;;
      perform RawRead c_done;;
      (if slow_first : bool then slow_pause true;; perform RawRead c_done else ret tt);;
      perform (RawLinger linger_zero) c_done)
      (swallow (perform RawClose c_done))
  else
    opened KSession;;
    let! aclose_ok := on_raise (
      perform (HStream path headers) c_done;;
      iter (fun got =>
        let! c := perform HNext c_chunk in
        match c with
        | None => ret (inr tt)
        | Some _ => let! n := randint 1 8 in if n <=? got + 1 then ret (inr tt) else ret (inl (got + 1))
        end) 0;;
      slow_pause slow_first;;
      let! sock := perform HSocket c_bool in
      if sock : bool then perform (HLinger linger_zero) c_done;; swallow (perform HExit c_done);; ret true
      else ret false) (swallow (perform (Exit KSession) c_done)) in
    if aclose_ok : bool then swallow (perform (Exit KSession) c_done) else ret tt.

Definition b_vanish : act unit := vanish (str "/download") [].

(** ** Workload-targeted behaviours *)

Definition chaos_msg (n : Z) : list Z := str "chaos-" ++ dec n.

Definition b_slowread_ws : act unit :=
  let! burst := randint 8 32 in
  let! hold := uniform (flit 3 0) (flit 10 0) in
  if IS_H3 cfg then
    with_open KSession (
      perform TOpen c_done;;
      for_each (seqZ 0 burst) (fun _ n => perform (TSend 1 (encode (chaos_msg n))) c_done) tt;;
      pause hold;;
      perform TClose c_done)
  else
    with_open KWs (
      for_each (seqZ 0 burst) (fun _ n => perform (WSend (chaos_msg n)) c_done) tt;;
      pause hold).

Definition b_abort_ws : act unit :=
  if IS_H3 cfg then
    with_open KSession (
      perform TOpen c_done;;
      let! n := randint 2 8 in
      for_each (seqZ 0 n) (fun _ _ => perform (TSend 1 (str "chaos")) c_done) tt;;
      perform TRecv c_done;;
      perform (TSend 8 []) c_done;;
      perform TClose c_done)
  else
    with_open KWs (
      let! n := randint 2 8 in
      for_each (seqZ 0 n) (fun _ _ => perform (WSend (str "chaos")) c_done) tt;;
      perform WRecv c_done;;
      perform WClose c_done).

Definition b_vanish_ws : act unit :=
  if IS_H3 cfg then
    opened KSession;;
    then_exit (
      perform TOpen c_done;;
      perform (TSend 1 (str "chaos")) c_done;;
      let! d := uniform (fdec 1 10) (flit 1 0) in pause d;;
      perform Drop c_done)
  else
    opened KWs;;
    finally (
      let! n := randint 1 6 in
      for_each (seqZ 0 n) (fun _ _ => perform (WSend (str "chaos")) c_done) tt;;
      let! d := uniform (fdec 1 10) (flit 1 0) in pause d) (perform Drop c_done).

Definition b_slowread_sse : act unit :=
  let! t := now in
  let! b := uniform (flit 5 0) (flit 20 0) in
  let budget := fadd t b in
  with_open KSession (
    perform (SStream (str "/sse") sse_accept) c_done;;
    slow_chunks budget (fdec 1 2) (flit 2 0);;
    perform SAclose c_done).

(** An open stream whose body nobody reads: [idle@sse] and [idle@streamdownload]. *)
Definition idle_stream (path : list Z) (hdrs : list (list Z * list Z)) : act unit :=
  let! hold := uniform (flit 10 0) (flit 30 0) in
  if IS_H3 cfg then
    with_open KSession (
      perform (QOpen path hdrs) c_done;;
      let! _ := perform QGet c_item in
      pause hold;;
      perform QAbort c_done)
  else
    with_open KSession (perform (SStream path hdrs) c_done;; pause hold;; perform SAclose c_done).

Definition b_idle_sse : act unit := idle_stream (str "/sse") sse_accept.

Definition b_abort_sse : act unit :=
  let! bad_id := choice [str "banana"; str "-1"; str "999999"; []] in
  with_open KSession (
    perform (SStream (str "/sse") sse_accept) c_done;;
    let! want := randint 1 3 in
    take_chunks want;;
    perform SAclose c_done;;
    perform (SStream (str "/sse") (sse_accept ++ [(str "last-event-id", bad_id)])) c_done;;
    let! _ := perform SNext c_chunk in
    perform SAclose c_done).

Definition b_vanish_sse : act unit := vanish (str "/sse") sse_accept.

Definition b_slowwrite_streamupload : act unit :=
  let! stall := uniform (flit 5 0) (flit 10 0) in
  let n := 4 * 1024 in
  let! head := randint 2 6 in
  let! tail := randint 2 6 in
  let stall_resume i :=
    (if i =? head then pause stall else ret tt);;
    ret (if i <? head + tail then Some (gen_chunk (i * n) n, i + 1) else None) in
  with_open KSession (upload stall_resume 0 bad_sha).

Definition vanish_upload_request : list Z :=
  encode (str "POST /upload HTTP/1.1" ++ CRLF ++ str "Host: " ++ u_host ++ str ":" ++ u_port ++ CRLF
    ++ str "x-sha1: " ++ times 40 (str "0") ++ CRLF ++ str "content-length: 1048576" ++ CRLF ++ CRLF)
  ++ gen_chunk 0 (16 * 1024).

Definition b_vanish_streamupload : act unit :=
  if IS_H3 cfg then
    opened KSession;;
    on_raise (perform (TaskStart bad_sha) c_done) (swallow (perform (Exit KSession) c_done));;
    finally (
      let! d := uniform (fdec 1 2) (flit 2 0) in pause d;;
      perform Drop c_done)
      (swallow_cancel (perform TaskAwait c_done);; swallow (perform (Exit KSession) c_done))
  else if decide (u_scheme = str "http") then
    opened KRaw;;
    finally (
      perform (RawWrite vanish_upload_request) c_done;;
      let! d := uniform (fdec 1 5) (flit 1 0) in pause d;;
      perform (RawLinger linger_zero) c_done)
      (swallow (perform RawClose c_done))
  else
    opened KSession;;
    perform (TaskStart bad_sha) c_done;;
    let! d := uniform (fdec 1 2) (flit 2 0) in pause d;;
    swallow_cancel (perform TaskAwait c_done).

Definition b_idle_streamdownload : act unit := idle_stream (str "/download") [].

(** ** The catalog and the pool *)

Definition generic : list Z := str "generic".

Definition BEHAVIORS : list (bkey * act unit) :=
  [((str "slowread", generic), b_slowread);
   ((str "slowwrite", generic), b_slowwrite);
   ((str "idle", generic), b_idle);
   ((str "abort", generic), b_abort);
   ((str "vanish", generic), b_vanish);
   ((str "slowread", str "ws"), b_slowread_ws);
   ((str "abort", str "ws"), b_abort_ws);
   ((str "vanish", str "ws"), b_vanish_ws);
   ((str "slowread", str "sse"), b_slowread_sse);
   ((str "idle", str "sse"), b_idle_sse);
   ((str "abort", str "sse"), b_abort_sse);
   ((str "vanish", str "sse"), b_vanish_sse);
   ((str "slowwrite", str "streamupload"), b_slowwrite_streamupload);
   ((str "vanish", str "streamupload"), b_vanish_streamupload);
   ((str "idle", str "streamdownload"), b_idle_streamdownload)].

Definition behavior (key : bkey) : option (act unit) :=
  snd <$> List.find (fun kb => bool_decide (kb.1 = key)) BEHAVIORS.

Definition style_pool (style : list Z) : list bkey :=
  (style, generic) ::
  (if decide (WORKLOAD cfg = str "mixed")
   then List.filter (fun k => bool_decide (k.1 = style /\ k.2 <> generic)) (map fst BEHAVIORS)
   else if decide ((style, WORKLOAD cfg) ∈ map fst BEHAVIORS) then [(style, WORKLOAD cfg)] else []).

Definition build_pool (enabled : list (list Z)) : list bkey := flat_map style_pool enabled.

(** ** The worker loop *)

Definition tally_ok (key : bkey) : act unit :=
  modify (fun s => CState (connects s) (count_add key 1 (ok_ s)) (err_ s) (out s)).
Definition tally_err (key : bkey) : act unit :=
  modify (fun s => CState (connects s) (ok_ s) (count_add key 1 (err_ s)) (out s)).

Definition iteration (key : bkey) : act unit :=
  catch (match behavior key with
         | Some b => b;; tally_ok key
         | None => throw (OtherException (str "KeyError") key.1)
         end)
        (fun e => if is_Exception e then Some (tally_err key) else None).

Definition worker (pool : list bkey) (deadline : spec_float) : act unit :=
  iter (fun _ =>
    let! t := now in
    if flt t deadline then
      let! key := choice pool in
      iteration key;;
      let! d := uniform fzero (fdec 1 2) in pause d;;
      ret (inl tt)
    else ret (inr tt)) tt.

(** ** Texts *)

Definition fmt_key (key : bkey) : list Z :=
  if decide (key.2 = generic) then key.1 else key.2 ++ str ":" ++ key.1.

Definition or_dash (s : list Z) : list Z := if decide (s = []) then str "-" else s.

Definition tally_line (pool : list bkey) (prefix : list Z) (s : cstate) : list Z :=
  let part (sep : list Z) (c : counter bkey) :=
    join (str " ") (map (fun k => fmt_key k ++ sep ++ dec (count c k))
                        (List.filter (fun k => negb (count c k =? 0)) pool)) in
  str "[chaos " ++ PROTO cfg ++ str "] " ++ prefix ++ str "ok: " ++ or_dash (part (str "=") (ok_ s))
  ++ str " | err: " ++ or_dash (part (str "!") (err_ s)).

Definition chaos_reporter (pool : list bkey) (start deadline : spec_float) : act unit :=
  iter (fun _ =>
    let! t := now in
    if flt t deadline then
      pause (flit (REPORT cfg) 0);;
      let! t := now in
      let! n := lift (int_of_float (fsub t start)) in
      let! s := get in
      say (tally_line pool [] s ++ str " | t=" ++ dec n ++ str "s");;
      ret (inl tt)
    else ret (inr tt)) tt.

(** [_watch_task(name)], the callback of the reporter's task. *)
Definition chaos_watch_task (name : list Z) (t : done_task) : list line :=
  match t with
  | Cancelled => []
  | Finished (Ok _) => []
  | Finished (Raise e) =>
      [Text (str "chaos: WARN " ++ name ++ str " task died (" ++ type_name e ++ str "): " ++ exn_text e); Traceback e]
  end.

(** ** fd sampling *)

(** One attempt: open a session, read [/stats]. *)
Definition sample_once : act (option Z) :=
  with_open KSession (
    let! reply := perform (SGet (str "/stats")) c_reply in
    let! (_rss, _heap, fds) := lift (get_server_stats reply) in
    ret fds).

(** The attempts left; [gap] is the pause between two. *)
Fixpoint sample_loop {R} (one : act R) (retries : nat) (gap : spec_float) : act (option R) :=
  match retries with
  | O => ret None
  | S n =>
      let! r := catch (let! x := one in ret (Some x))
                      (fun e => if is_Exception e
                                then Some ((if (0 <? Z.of_nat n) && flt fzero gap then pause gap else ret tt);; ret None)
                                else None) in
      match r with
      | Some x => ret (Some x)
      | None => sample_loop one n gap
      end
  end.

(** [None] also for a [/stats] without the field. *)
Definition sample_fds (retries : nat) (gap : spec_float) : act (option Z) :=
  let! r := sample_loop sample_once retries gap in ret (mjoin r).

(** [Some None] is [_MISSING_FD]. *)
Definition sample_fds_strict (retries : nat) (gap : spec_float) : act (option (option Z)) :=
  sample_loop sample_once retries gap.

Definition none_plus_int : exn := TypeError (str "unsupported operand type(s) for +: 'NoneType' and 'int'").

(** [final > baseline + SLACK] *)
Definition above (baseline : option Z) (final : Z) : res bool :=
  match baseline with
  | Some b => Ok (b + SLACK <? final)
  | None => Raise none_plus_int
  end.

Definition settle_fds (baseline : option Z) : act (option Z) :=
  let! t := now in
  let give_up_at := fadd t (flit SETTLE 0) in
  let! final := sample_fds 5 (flit 1 0) in
  iter (fun final =>
    match final with
    | None => ret (inr None)
    | Some f =>
        let! high := lift (above baseline f) in
        if high : bool then
          let! t := now in
          if flt t give_up_at then pause (flit 1 0);; let! final := sample_fds 5 (flit 1 0) in ret (inl final)
          else ret (inr (Some f))
        else ret (inr (Some f))
    end) final.

(** ** Warm-up *)

(** [one()] of [warm_baseline]. *)
Definition warm_one : act unit := swallow (abort_download 2).

(** The tasks share the event loop and only add to [connects], [_ok] and [_err], so
    a task's run is its coroutine's on its own answers, from counters at zero. *)
Definition tasks (b : burst) : list (act unit) :=
  match b with
  | Warmup n => map (fun _ => warm_one) (seqZ 0 n)
  | Workers n pool deadline => map (fun _ => worker pool deadline) (seqZ 0 n)
  end.

Definition run_task (m : act unit) (script : list canswer) : outcome unit * world cop canswer cstate :=
  m (World script [] (CState 0 ∅ ∅ [])).

Definition run_tasks (b : burst) (scripts : list (list canswer)) : list (outcome unit * world cop canswer cstate) :=
  zip_with run_task (tasks b) scripts.

Definition returned (r : outcome unit * world cop canswer cstate) : bool := match r.1 with Ret _ => true | _ => false end.

(** The result of the await; [None] is an end the tasks do not allow. *)
Definition gathered (b : burst) (rs : list (outcome unit * world cop canswer cstate)) (e : ended) : option (res unit) :=
  match e with
  | AllDone => if bool_decide (length rs = length (tasks b)) && forallb returned rs then Some (Ok tt) else None
  | Raised i => match rs !! i with Some (Exc x, _) => Some (Raise x) | _ => None end
  | Expired => match b with Workers _ _ _ => Some (Raise (TimeoutError [])) | Warmup _ => None end
  end.

(** What the tasks added. *)
Definition counter_sum (c d : counter bkey) : counter bkey := union_with (fun m n => Some (m + n)) c d.

Definition absorb (rs : list (outcome unit * world cop canswer cstate)) (s : cstate) : cstate :=
  CState (connects s + zsum (map (fun r => connects (st r.2)) rs))
         (fold_left counter_sum (map (fun r => ok_ (st r.2)) rs) (ok_ s))
         (fold_left counter_sum (map (fun r => err_ (st r.2)) rs) (err_ s)) (out s).

Definition gather (b : burst) : act unit :=
  let! (scripts, e) := perform (Gather b) c_ran in
  let rs := run_tasks b scripts in
  modify (absorb rs);;
  match gathered b rs e with
  | Some r => lift r
  | None => fun w => (Wait, w)
  end.

Definition warm_baseline (warmup_conc : Z) : act unit := gather (Warmup warmup_conc);; pause (flit 2 0).

Fixpoint warm_rounds (n : nat) (warmup_conc : Z) : act unit :=
  match n with
  | O => ret tt
  | S n' =>
      warm_baseline warmup_conc;;
      let! s := get in
      if 0 <? connects s then ret tt else pause (flit 1 0);; warm_rounds n' warmup_conc
  end.

(** ** [run] and [main] *)

Definition text_opt (x : option Z) : list Z := match x with Some n => dec n | None => str "None" end.

Definition int_since (start : spec_float) : act Z := let! t := now in lift (int_of_float (fsub t start)).

(** From the final sample on. *)
Definition verdict (start : spec_float) (baseline final : option Z) : act Z :=
  let! s := get in
  if connects s =? 0 then
    say (str "chaos: never connected once (no successful transport open); check STRESS_BASE / server");; ret 4
  else
    match final with
    | None => say (str "chaos: final fd sample failed (could not reach /stats)");; ret 2
    | Some f =>
        let! high := lift (above baseline f) in
        if high : bool then
          let! t := int_since start in
          say (str "FAIL chaos: fd leak at t=" ++ dec t ++ str "s (baseline " ++ text_opt baseline ++ str ", final "
               ++ dec f ++ str ", slack " ++ dec SLACK ++ str ")");; ret 1
        else say (str "== chaos sidecar passed (fds " ++ text_opt baseline ++ str " -> " ++ dec f ++ str ") ==");; ret 0
    end.

(** [run] up to the baseline: when it was launched, and the sample. *)
Definition prelude (seed : list Z) (conc warmup_conc : Z) (enabled : list (list Z)) : act (spec_float * option (option Z)) :=
  let! launched := now in
  let pool := build_pool enabled in
  say (str "chaos: behaviors=" ++ join (str ",") enabled ++ str " workload=" ++ WORKLOAD cfg ++ str " pool="
       ++ join (str ",") (map fmt_key pool) ++ str " seed=" ++ seed ++ str " conc=" ++ dec conc ++ str " proto=" ++ PROTO cfg);;
  warm_rounds 10 warmup_conc;;
  let! base := sample_fds_strict 10 (flit 1 0) in
  ret (launched, base).

(** The workers under the watchdog: whether it tripped. *)
Definition induce (conc : Z) (pool : list bkey) (start : spec_float) : act bool :=
  catch (gather (Workers conc pool (fadd start (flit (SECONDS cfg) 0)));; ret false)
        (fun e => match e with TimeoutError _ => Some (ret true) | _ => None end).

(** [run] from the baseline on. *)
Definition leak_check (conc : Z) (pool : list bkey) (launched : spec_float) (baseline : option Z) : act Z :=
  let! prelude := int_since launched in
  say (str "chaos: baseline fds=" ++ text_opt baseline ++ str " (prelude " ++ dec prelude ++ str "s)");;
  let! start := now in
  let! wedged := induce conc pool start in
  if wedged : bool then
    say (str "chaos: self-watchdog tripped (" ++ dec (WATCHDOG cfg) ++ str "s); a behavior wedged");; ret 3
  else
    let! t := int_since start in
    let! s := get in
    say (tally_line pool (str "final ") s ++ str " | t=" ++ dec t ++ str "s");;
    pause (flit (DRAIN cfg) 0);;
    let! final := settle_fds baseline in
    verdict start baseline final.

Definition run (seed : list Z) (conc warmup_conc : Z) (enabled : list (list Z)) : act Z :=
  let! (launched, base) := prelude seed conc warmup_conc enabled in
  match base with
  | Some None => say (str "chaos: /stats has no fd field (server too old); cannot leak-check");; ret 2
  | _ => leak_check conc (build_pool enabled) launched (mjoin base)
  end.

(** [main]'s handler around [asyncio.run(run(enabled))]. *)
Definition main (seed : list Z) (conc warmup_conc : Z) (enabled : list (list Z)) : act Z :=
  match enabled with
  | [] => say (str "chaos: nothing to do (VORTEX_CHAOS=none)");; ret 0
  | _ =>
      catch (run seed conc warmup_conc enabled)
            (fun e => match e with
                      | SystemExit _ | SystemExitMsg _ | KeyboardInterrupt => None
                      | _ => Some (say (str "chaos: internal error (" ++ type_name e ++ str "): " ++ exn_text e);; print_out (Traceback e);; ret 2)
                      end)
  end.
End Behaviours.
