(* ===== verification/ChaosProofs.v ===== *)
(** * What the sidecar's verdict rests on

    Theorems about [Chaos], for every environment: what [connects] counts, that
    the worker loop swallows and tallies, what each exit code of [main] means in
    terms of the conversation, and what becomes of a run that never had a
    baseline or whose server is down. *)
From S2P Require Import Prelude PyFloat PyDouble Coro WsFrame H3Client Transport Payload Report Chaos.
#[local] Open Scope Z_scope.

(** ** [connects] against the conversation *)

Abbreviation exchange := (cop * canswer)%type (only parsing).

(** The transports opened, the sessions dialled and the [httpx] clients entered by
    one exchange. *)
Definition is_gather (o : cop) : bool := match o with Gather _ => true | _ => false end.
Definition open_of (x : exchange) : Z := match x with (Open _, CDone) => 1 | _ => 0 end.
Definition dial_of (x : exchange) : Z := match x with (Open KSession, CDone) => 1 | _ => 0 end.
Definition enter_of (x : exchange) : Z := match x with (Enter, CDone) => 1 | _ => 0 end.

Definition tally (f : exchange -> Z) (tr : list exchange) : Z := zsum (map f tr).

Lemma tally_app f a b : tally f (a ++ b) = tally f a + tally f b.
Proof. unfold tally. by rewrite map_app, zsum_app. Qed.

Section Counting.
Context (cfg : config) (u_scheme u_host u_port : list Z).

(** How a session is not entered under this protocol. *)
Definition foreign (x : exchange) : Z := if IS_H3 cfg then enter_of x else dial_of x.

(** Between two points, without a [gather]: the count grows by the transports opened
    and the clients entered, and a session is dialled on h3 only. *)
Definition counted_opens (w w' : world cop canswer cstate) : Prop :=
  exists tr, trace w' = trace w ++ tr /\ env w = map snd tr ++ env w' /\
    connects (st w') = connects (st w) + (tally open_of tr + tally enter_of tr) /\ tally foreign tr = 0 /\
    Forall (fun x => is_gather x.1 = false) tr.

(** And [_ok], [_err] and the output stay as they are. *)
Definition quiet (w w' : world cop canswer cstate) : Prop :=
  counted_opens w w' /\ ok_ (st w') = ok_ (st w) /\ err_ (st w') = err_ (st w) /\ out (st w') = out (st w).

#[local] Instance counted_preorder : PreOrder counted_opens.
Proof.
  split.
  - intros w. exists []. rewrite app_nil_r. cbn. repeat split; [lia|constructor].
  - intros w1 w2 w3 (t1 & E1 & F1 & C1 & N1 & G1) (t2 & E2 & F2 & C2 & N2 & G2). exists (t1 ++ t2).
    rewrite E2, E1, F1, F2, C2, C1, map_app, !tally_app, <- !app_assoc.
    repeat split; [lia|lia|by apply Forall_app].
Qed.

#[local] Instance quiet_preorder : PreOrder quiet.
Proof.
  split.
  - intros w. split; [reflexivity|done].
  - intros w1 w2 w3 (H1 & O1 & R1 & U1) (H2 & O2 & R2 & U2). split; [by etrans|]. repeat split; congruence.
Qed.

Lemma keeps_quiet_counted {R} (m : coro cop canswer cstate R) : keeps quiet m -> keeps counted_opens m.
Proof. intros H w. apply H. Qed.

(** Operations that open nothing. *)
Definition plain (o : cop) : bool := match o with Open _ | Enter | Gather _ => false | _ => true end.

Lemma perform_quiet {R} o (read : canswer -> option (res R)) : plain o = true -> keeps quiet (perform o read).
Proof.
  intros Ho w. unfold perform. destruct (env w) as [|a env'] eqn:E; [cbn; reflexivity|].
  assert (tally open_of [(o, a)] = 0 /\ tally enter_of [(o, a)] = 0 /\ tally foreign [(o, a)] = 0 /\ is_gather o = false)
    as (Ht & He & Hf & Hg) by (unfold tally, foreign; destruct o; try done; by destruct (IS_H3 cfg)).
  destruct (read a) as [[r|e]|]; cbn -[tally]; [| |reflexivity]; (split; [|done]); exists [(o, a)];
    rewrite E, Ht, He, Hf; repeat split; [cbn; lia|by repeat constructor|cbn; lia|by repeat constructor].
Qed.

(** A successful open and its count come together. *)
Lemma opened_quiet k : keeps quiet (opened cfg k).
Proof.
  intros w. unfold opened, bind, perform. destruct (env w) as [|a env'] eqn:E; [cbn; reflexivity|].
  destruct a; cbn; try reflexivity; (split; [|done]).
  - exists [(open_op cfg k, CDone)]. rewrite E. unfold tally, foreign, open_op.
    destruct k, (IS_H3 cfg); cbn; (repeat split; by repeat constructor).
  - exists [(open_op cfg k, CRaise e)]. rewrite E. unfold tally, foreign, open_op.
    destruct k, (IS_H3 cfg); cbn; (repeat split; [lia|by repeat constructor]).
Qed.

Ltac keep_step :=
  intros;
  match goal with
  | H : keeps quiet ?m |- keeps quiet ?m => exact H
  | |- keeps quiet (bind _ _) => apply keeps_bind; [apply _| |]
  | |- keeps quiet (with_open _ _ _) => unfold with_open
  | |- keeps quiet (finally _ _) => apply keeps_finally; [apply _| |]
  | |- keeps quiet (iter _ _) => apply keeps_iter; [apply _|]
  | |- keeps quiet (for_each _ _ _) => apply keeps_for_each; [apply _|]
  | |- keeps quiet (opened _ _) => apply opened_quiet
  | |- keeps quiet (perform _ _) => apply perform_quiet; reflexivity
  | |- keeps quiet (ret _) => apply keeps_ret, _
  | |- keeps quiet (throw _) => apply keeps_throw, _
  | |- keeps quiet (lift _) => apply keeps_lift, _
  | |- keeps quiet get => apply keeps_get, _
  | |- keeps quiet (catch _ _) => apply keeps_catch; [apply _| |]
  | |- keeps quiet (match ?x with _ => _ end) => destruct x
  | H : Some _ = Some _ |- _ => injection H as <-
  | H : None = Some _ |- _ => discriminate H
  | H : (if ?b then _ else _) = Some _ |- _ => destruct b
  | H : match ?e with _ => _ end = Some _ |- _ => destruct e
  end.

Ltac keep_quiet := repeat keep_step.

Lemma swallow_quiet m : keeps quiet m -> keeps quiet (swallow m).
Proof. intros Hm. unfold swallow. keep_quiet. Qed.

Lemma swallow_cancel_quiet m : keeps quiet m -> keeps quiet (swallow_cancel m).
Proof.
  intros Hm. apply keeps_catch; [apply _|done|]. intros e m' He.
  assert (m' = ret tt) as -> by (destruct e; cbn in He; try done; repeat case_match; by simplify_eq). apply keeps_ret, _.
Qed.

Lemma on_raise_quiet {R} (m : coro cop canswer cstate R) f : keeps quiet m -> keeps quiet f -> keeps quiet (on_raise m f).
Proof. intros Hm Hf. unfold on_raise. keep_quiet. Qed.

Lemma upload_quiet {X} (gen : X -> coro cop canswer cstate (option (list Z * X))) x h :
  (forall x, keeps quiet (gen x)) -> keeps quiet (upload gen x h).
Proof.
  intros Hg. unfold upload. keep_quiet. apply Hg.
Qed.

Lemma slow_chunks_quiet d a b : keeps quiet (slow_chunks d a b).
Proof. unfold slow_chunks, now, uniform, pause. keep_quiet. Qed.

Lemma take_chunks_quiet n : keeps quiet (take_chunks n).
Proof. unfold take_chunks. keep_quiet. Qed.

Lemma take_items_quiet n : keeps quiet (take_items n).
Proof. unfold take_items. keep_quiet. Qed.

Ltac behave := repeat first
  [ keep_step
  | match goal with |- forall _, keeps _ _ => intros ? end
  | apply swallow_quiet | apply swallow_cancel_quiet | apply on_raise_quiet | apply upload_quiet
  | apply slow_chunks_quiet | apply take_chunks_quiet | apply take_items_quiet ].

Lemma vanish_quiet path hdrs : keeps quiet (vanish cfg u_scheme u_host u_port path hdrs).
Proof. unfold vanish, then_exit, slow_pause, random, uniform, randint, pause. behave. Qed.

Lemma idle_stream_quiet path hdrs : keeps quiet (idle_stream cfg path hdrs).
Proof. unfold idle_stream, uniform, pause. behave. Qed.

Lemma abort_download_quiet want : keeps quiet (abort_download cfg want).
Proof. unfold abort_download. behave. Qed.

Lemma choice_quiet {X} (l : list X) : keeps quiet (choice l).
Proof. unfold choice. behave. Qed.

(** Every behaviour of the catalog. *)
Lemma behaviors_quiet kb : In kb (BEHAVIORS cfg u_scheme u_host u_port) -> keeps quiet (snd kb).
Proof.
  unfold BEHAVIORS. intros Hin.
  repeat (destruct Hin as [<-|Hin]; [cbn [snd]|]); [..|done].
  - unfold b_slowread, random, uniform, now. behave.
  - unfold b_slowwrite, uniform, now, pause. behave.
  - unfold b_idle, random, uniform, pause. behave.
  - unfold b_abort, random, randint. behave. apply abort_download_quiet.
  - apply vanish_quiet.
  - unfold b_slowread_ws, randint, uniform, pause. behave.
  - unfold b_abort_ws, randint. behave.
  - unfold b_vanish_ws, then_exit, randint, uniform, pause. behave.
  - unfold b_slowread_sse, uniform, now. behave.
  - apply idle_stream_quiet.
  - unfold b_abort_sse, randint. behave. apply choice_quiet.
  - apply vanish_quiet.
  - unfold b_slowwrite_streamupload, uniform, randint, pause. behave.
  - unfold b_vanish_streamupload, uniform, pause. behave.
  - apply idle_stream_quiet.
Qed.

Lemma behavior_quiet key b : behavior cfg u_scheme u_host u_port key = Some b -> keeps quiet b.
Proof.
  unfold behavior. destruct (List.find _ _) as [kb|] eqn:E; [|done]. intros [= <-].
  apply List.find_some in E as [Hin _]. by apply behaviors_quiet.
Qed.

(** ** Sampling, warm-up and the run *)

Lemma sample_once_quiet : keeps quiet (sample_once cfg).
Proof. unfold sample_once. behave. Qed.

Lemma sample_loop_quiet {R} (one : coro cop canswer cstate R) n gap :
  keeps quiet one -> keeps quiet (sample_loop one n gap).
Proof.
  intros H1. induction n as [|n IH]; cbn [sample_loop]; [apply keeps_ret, _|].
  unfold pause. behave.
Qed.

Lemma sample_fds_quiet n gap : keeps quiet (sample_fds cfg n gap).
Proof. unfold sample_fds. apply keeps_bind; [apply _|apply sample_loop_quiet, sample_once_quiet|]. behave. Qed.

Lemma settle_fds_quiet baseline : keeps quiet (settle_fds cfg baseline).
Proof. unfold settle_fds, now, pause. behave; apply sample_fds_quiet. Qed.

Lemma modify_counted f : (forall s, connects (f s) = connects s) -> keeps counted_opens (modify f).
Proof. intros Hf w. exists []. rewrite app_nil_r. cbn. rewrite Hf. repeat split; [lia|constructor]. Qed.

Ltac count_step :=
  match goal with
  | |- forall _, keeps _ _ => intros ?
  | |- keeps counted_opens (bind _ _) => apply keeps_bind; [apply _| |]
  | |- keeps counted_opens (iter _ _) => apply keeps_iter; [apply _|]
  | |- keeps counted_opens (ret _) => apply keeps_ret, _
  | |- keeps counted_opens (throw _) => apply keeps_throw, _
  | |- keeps counted_opens (perform _ _) => apply keeps_quiet_counted, perform_quiet; reflexivity
  | |- keeps counted_opens (choice _) => apply keeps_quiet_counted, choice_quiet
  | |- keeps counted_opens (match ?x with _ => _ end) => destruct x
  end.

Lemma iteration_counted key : keeps counted_opens (iteration cfg u_scheme u_host u_port key).
Proof.
  unfold iteration. apply keeps_catch; [apply _| |].
  - destruct (behavior _ _ _ _ key) as [b|] eqn:E; [|apply keeps_throw, _].
    apply keeps_bind; [apply _|eapply keeps_quiet_counted, behavior_quiet, E|]. intros _. by apply modify_counted.
  - intros e m' He. destruct (is_Exception e); [|done]. injection He as <-. by apply modify_counted.
Qed.

Lemma worker_counted pool deadline : keeps counted_opens (worker cfg u_scheme u_host u_port pool deadline).
Proof.
  unfold worker, now, uniform, pause. repeat (count_step || apply iteration_counted).
Qed.

Lemma warm_one_counted : keeps counted_opens (warm_one cfg).
Proof. apply keeps_quiet_counted, swallow_quiet, abort_download_quiet. Qed.

(** *** The concurrent phases *)

(** A count over a conversation, the tasks of its gathers included. *)
Definition within (f : exchange -> Z) (x : exchange) : Z :=
  match x with
  | (Gather b, CRan scripts _) => zsum (map (fun r => tally f (trace r.2)) (run_tasks cfg u_scheme u_host u_port b scripts))
  | _ => f x
  end.
Definition total (f : exchange -> Z) (tr : list exchange) : Z := tally (within f) tr.

(** The transports that opened, the sessions dialled and the clients entered. *)
Definition opens : list exchange -> Z := total open_of.
Definition session_dials : list exchange -> Z := total dial_of.
Definition enters : list exchange -> Z := total enter_of.

Lemma total_app f a b : total f (a ++ b) = total f a + total f b.
Proof. apply tally_app. Qed.

Lemma total_direct f tr : Forall (fun x => is_gather x.1 = false) tr -> total f tr = tally f tr.
Proof.
  induction 1 as [|[o a] tr Ho _ IH]; [done|]. change (total f ((o, a) :: tr)) with (within f (o, a) + total f tr).
  change (tally f ((o, a) :: tr)) with (f (o, a) + tally f tr). rewrite IH. by destruct o.
Qed.

(** The count against everything opened, gathers included. *)
Definition counted_all (w w' : world cop canswer cstate) : Prop :=
  exists tr, trace w' = trace w ++ tr /\ connects (st w') = connects (st w) + (opens tr + enters tr) /\
             total foreign tr = 0.

#[local] Instance counted_all_preorder : PreOrder counted_all.
Proof.
  split.
  - intros w. exists []. rewrite app_nil_r. cbn. repeat split; lia.
  - intros w1 w2 w3 (t1 & E1 & C1 & N1) (t2 & E2 & C2 & N2). exists (t1 ++ t2). unfold opens, enters in *.
    rewrite E2, E1, C2, C1, !total_app, <- !app_assoc. repeat split; lia.
Qed.

Lemma counted_opens_all {R} (m : coro cop canswer cstate R) : keeps counted_opens m -> keeps counted_all m.
Proof. intros H w. destruct (H w) as (tr & ? & _ & C & N & G). exists tr. unfold opens, enters. by rewrite !total_direct. Qed.

Lemma quiet_all {R} (m : coro cop canswer cstate R) : keeps quiet m -> keeps counted_all m.
Proof. intros H. by apply counted_opens_all, keeps_quiet_counted. Qed.

(** A task's own count is that of its conversation. *)
Lemma tasks_counted b m : m ∈ tasks cfg u_scheme u_host u_port b -> keeps counted_opens m.
Proof.
  destruct b as [n|n pool deadline]; intros H; apply list_elem_of_fmap in H as (i & -> & _);
    [apply warm_one_counted|apply worker_counted].
Qed.

Lemma run_tasks_counted b scripts :
  let rs := run_tasks cfg u_scheme u_host u_port b scripts in
  zsum (map (fun r => connects (st r.2)) rs)
  = zsum (map (fun r => tally open_of (trace r.2)) rs) + zsum (map (fun r => tally enter_of (trace r.2)) rs) /\
  zsum (map (fun r => tally foreign (trace r.2)) rs) = 0.
Proof.
  cbv zeta. assert (Forall (fun r : outcome unit * world cop canswer cstate =>
      connects (st r.2) = tally open_of (trace r.2) + tally enter_of (trace r.2) /\ tally foreign (trace r.2) = 0)
    (run_tasks cfg u_scheme u_host u_port b scripts)) as H.
  { apply Forall_forall. intros r Hr. apply elem_of_lookup_zip_with in Hr as (i & m & script & -> & Hm & _).
    apply list_elem_of_lookup_2, tasks_counted in Hm.
    destruct (Hm (World script [] (CState 0 ∅ ∅ []))) as (tr & Et & _ & Ec & En & _). unfold run_task. by rewrite Et, Ec. }
  induction H as [|r rs [H1 H2] _ [IH1 IH2]]; [done|]. cbn [map zsum foldr]. unfold zsum in *. lia.
Qed.

Lemma gather_all b : keeps counted_all (gather cfg u_scheme u_host u_port b).
Proof.
  intros w. unfold gather, bind, perform. destruct (env w) as [|a env'] eqn:E; [cbn; reflexivity|].
  destruct a; cbn -[run_tasks gathered absorb opens enters total foreign]; try reflexivity.
  exists [(Gather b, CRan scripts e)]. destruct (run_tasks_counted b scripts) as [H1 H2].
  unfold opens, enters, total, tally at 1 2 3. cbn [map within]. cbn [zsum foldr]. rewrite !Z.add_0_r, H2, <- H1.
  destruct (gathered _ _ _ _ b _ e) as [[[]|x]|]; cbn -[run_tasks zsum]; done.
Qed.

Ltac count_all :=
  repeat match goal with
  | |- forall _, keeps _ _ => intros ?
  | |- keeps counted_all (bind _ _) => apply keeps_bind; [apply _| |]
  | |- keeps counted_all (ret _) => apply keeps_ret, _
  | |- keeps counted_all (throw _) => apply keeps_throw, _
  | |- keeps counted_all (lift _) => apply keeps_lift, _
  | |- keeps counted_all get => apply keeps_get, _
  | |- keeps counted_all (say _) => by apply counted_opens_all, modify_counted
  | |- keeps counted_all (print_out _) => by apply counted_opens_all, modify_counted
  | |- keeps counted_all (perform _ _) => apply quiet_all, perform_quiet; reflexivity
  | |- keeps counted_all (gather _ _ _ _ _) => apply gather_all
  | |- keeps counted_all (sample_loop _ _ _) => apply quiet_all, sample_loop_quiet, sample_once_quiet
  | |- keeps counted_all (settle_fds _ _) => apply quiet_all, settle_fds_quiet
  | |- keeps counted_all (catch _ _) => apply keeps_catch; [apply _| |intros ? ? ?]
  | |- keeps counted_all (match ?x with _ => _ end) => destruct x
  | H : Some _ = Some _ |- _ => injection H as <-
  | H : None = Some _ |- _ => discriminate H
  | H : match ?e with _ => _ end = Some _ |- _ => destruct e
  end.

Lemma warm_rounds_all n c : keeps counted_all (warm_rounds cfg u_scheme u_host u_port n c).
Proof. induction n as [|n IH]; cbn [warm_rounds]; [apply keeps_ret, _|]. unfold warm_baseline, pause. count_all. apply IH. Qed.

Lemma run_counted seed conc warmup enabled : keeps counted_all (run cfg u_scheme u_host u_port seed conc warmup enabled).
Proof.
  assert (Hw := warm_rounds_all 10 warmup). unfold run, prelude, leak_check, induce, verdict, int_since, sample_fds_strict, now, pause.
  count_all; exact Hw.
Qed.

Lemma main_counted seed conc warmup enabled : keeps counted_all (main cfg u_scheme u_host u_port seed conc warmup enabled).
Proof. unfold main. count_all. apply run_counted. Qed.
End Counting.

(** C11: what [connects] counts.  For every behaviour of the catalog, for a worker
    and for the whole of [main], wherever it stops and whatever fails on the way,
    [connects] has grown by exactly the transports that opened plus the [httpx]
    clients that were entered in its conversation (its tasks' included, for the
    concurrent phases).  On h3 no client is entered, so it is the number of
    transports opened; on h1 and h2 no session is dialled, so beside websockets
    and raw sockets it counts clients, which connect nothing by being entered. *)
Theorem connects_count_opens cfg u_scheme u_host u_port :
  let counts {R} (m : coro cop canswer cstate R) := forall w, exists tr,
    trace (snd (m w)) = trace w ++ tr /\
    connects (st (snd (m w)))
      = connects (st w) + (opens cfg u_scheme u_host u_port tr + enters cfg u_scheme u_host u_port tr) /\
    (if IS_H3 cfg then enters cfg u_scheme u_host u_port tr else session_dials cfg u_scheme u_host u_port tr) = 0 in
  Forall (fun kb => counts (snd kb)) (BEHAVIORS cfg u_scheme u_host u_port) /\
  (forall pool deadline, counts (worker cfg u_scheme u_host u_port pool deadline)) /\
  counts (warm_one cfg) /\
  (forall b, counts (gather cfg u_scheme u_host u_port b)) /\
  (forall seed conc warmup enabled, counts (main cfg u_scheme u_host u_port seed conc warmup enabled)).
Proof.
  cbv zeta. assert (forall {R} (m : coro cop canswer cstate R), keeps (counted_all cfg u_scheme u_host u_port) m ->
    forall w, exists tr, trace (snd (m w)) = trace w ++ tr /\
      connects (st (snd (m w)))
        = connects (st w) + (opens cfg u_scheme u_host u_port tr + enters cfg u_scheme u_host u_port tr) /\
      (if IS_H3 cfg then enters cfg u_scheme u_host u_port tr else session_dials cfg u_scheme u_host u_port tr) = 0) as H.
  { intros R m Hm w. destruct (Hm w) as (tr & Et & Ec & Ef). exists tr. split; [done|]. split; [done|].
    unfold foreign in Ef. by destruct (IS_H3 cfg). }
  split; [|split; [|split; [|split]]].
  - apply Forall_forall. intros kb Hin. apply H, quiet_all. by eapply behaviors_quiet, list_elem_of_In.
  - intros pool deadline. apply H, counted_opens_all, worker_counted.
  - apply H, counted_opens_all, warm_one_counted.
  - intros b. apply H, gather_all.
  - intros seed conc warmup enabled. apply H, main_counted.
Qed.

(** The worker loop swallows and tallies.  Whatever behaviour was picked, one
    iteration that returns has added one to exactly one of its two tallies and to
    nothing else; only an exception that is not an [Exception] leaves it, and it
    leaves the tallies alone. *)
Theorem iteration_tallies cfg u_scheme u_host u_port key w :
  let '(o, w') := iteration cfg u_scheme u_host u_port key w in
  out (st w') = out (st w) /\
  match o with
  | Ret _ => (ok_ (st w') = count_add key 1 (ok_ (st w)) /\ err_ (st w') = err_ (st w)) \/
             (ok_ (st w') = ok_ (st w) /\ err_ (st w') = count_add key 1 (err_ (st w)))
  | Exc e => is_Exception e = false /\ ok_ (st w') = ok_ (st w) /\ err_ (st w') = err_ (st w)
  | Wait => ok_ (st w') = ok_ (st w) /\ err_ (st w') = err_ (st w)
  end.
Proof.
  unfold iteration, catch. destruct (behavior cfg u_scheme u_host u_port key) as [b|] eqn:E; [|by cbn; auto].
  assert (Hq := behavior_quiet _ _ _ _ _ _ E w). unfold bind.
  destruct (b w) as [[[]|e|] w1]; destruct Hq as (_ & Ho & He & Hu); cbn in *.
  - rewrite Ho, He, Hu. auto.
  - destruct (is_Exception e) eqn:Ee; cbn; rewrite ?Ho, ?He, ?Hu; auto.
  - auto.
Qed.

(** ** The conversation of an fd sample *)

Definition one_second : spec_float := flit 1 0.

Section Samples.
Context (cfg : config) (u_scheme u_host u_port : list Z).
#[local] Abbreviation exchanges := (list (cop * canswer)) (only parsing).

(** An attempt that read [/stats]: the reply is a 200 whose fields parse, and [fds]
    is its third, if it has one. *)
Definition answered (fds : option Z) (seg : exchanges) : Prop :=
  exists ct body rss heap, get_server_stats (200, ct, body) = Ok (rss, heap, fds) /\
    seg = [(open_op cfg KSession, CDone); (SGet (str "/stats"), CReply 200 ct body); (Exit KSession, CDone)].

(** An attempt that failed with [e]: entering the session, the request, its reply
    or leaving the session. *)
Inductive failed (e : exn) : exchanges -> Prop :=
| failed_entry : failed e [(open_op cfg KSession, CRaise e)]
| failed_request :
    failed e [(open_op cfg KSession, CDone); (SGet (str "/stats"), CRaise e); (Exit KSession, CDone)]
| failed_reply st ct body :
    get_server_stats (st, ct, body) = Raise e ->
    failed e [(open_op cfg KSession, CDone); (SGet (str "/stats"), CReply st ct body); (Exit KSession, CDone)]
| failed_exit a :
    failed e [(open_op cfg KSession, CDone); (SGet (str "/stats"), a); (Exit KSession, CRaise e)].

(** A sample of up to [n] attempts, a second between two: the first that read
    [/stats] gives the result, and there is none when all failed. *)
Inductive sampling : nat -> exchanges -> option (option Z) -> Prop :=
| sampling_none : sampling 0 [] None
| sampling_hit n seg fds : answered fds seg -> sampling (S n) seg (Some fds)
| sampling_miss n e seg seg' r :
    failed e seg -> is_Exception e = true -> sampling n seg' r ->
    sampling (S n) (seg ++ (if n is O then [] else [(Pause one_second, CDone)]) ++ seg') r.

(** A conversation that ends with a count read off [/stats]. *)
Definition ends_sampled (seg : exchanges) : Prop := exists pre last f, seg = pre ++ last /\ answered (Some f) last.

(** One that does not, whatever went before it. *)
Definition unexited (a : exchanges) : Prop := last a <> Some (Exit KSession, CDone).
Definition shut (seg : exchanges) : Prop := forall a, unexited a -> ~ ends_sampled (a ++ seg).

Lemma ends_sampled_exit seg : ends_sampled seg -> last seg = Some (Exit KSession, CDone).
Proof. intros (pre & l & f & -> & ct & body & rss & heap & _ & ->). by rewrite last_app. Qed.

Lemma unexited_app a b : unexited a -> unexited b -> unexited (a ++ b).
Proof. unfold unexited. rewrite last_app. intros Ha Hb. destruct (last b); [exact Hb|exact Ha]. Qed.

Lemma unexited_shut seg : unexited seg -> shut seg.
Proof. intros Hs a Ha H. apply ends_sampled_exit in H. by apply (unexited_app a seg). Qed.

Lemma shut_app a b : unexited a -> shut b -> shut (a ++ b).
Proof. intros Ha Hb c Hc. rewrite app_assoc. by apply Hb, unexited_app. Qed.

(** The last three exchanges of a conversation. *)
Lemma app_three {X} (l l' : list X) (x1 x2 x3 y1 y2 y3 : X) :
  l ++ [x1; x2; x3] = l' ++ [y1; y2; y3] -> x1 = y1 /\ x2 = y2 /\ x3 = y3.
Proof.
  change [x1; x2; x3] with ([x1] ++ [x2] ++ [x3]). change [y1; y2; y3] with ([y1] ++ [y2] ++ [y3]). rewrite !app_assoc.
  intros H. apply app_inj_tail in H as [H ->]. apply app_inj_tail in H as [H ->]. by apply app_inj_tail in H as [_ ->].
Qed.

Lemma failed_shut e seg : failed e seg -> shut seg.
Proof.
  intros Hf a _ (pre & l & f & E & ct & body & rss & heap & Hst & ->). destruct Hf as [| |st0 ct0 body0 Hr|].
  - apply (f_equal last) in E. by rewrite !last_app in E.
  - by apply app_three in E as (_ & ? & _).
  - apply app_three in E as (_ & [= -> -> ->] & _). by rewrite Hst in Hr.
  - by apply app_three in E as (_ & _ & ?).
Qed.

Lemma sampling_shut n seg r : sampling n seg r -> mjoin r = None -> shut seg.
Proof.
  induction 1 as [|n seg fds (ct & body & rss & heap & Hst & ->)|n e seg seg' r Hf _ Hs IH]; intros Hj.
  - by apply unexited_shut.
  - cbn in Hj. subst fds. intros a _ (pre & l & f & E & ct' & body' & rss' & heap' & Hst' & ->).
    apply app_three in E as (_ & [= -> ->] & _). by rewrite Hst in Hst'.
  - destruct n as [|n]; [inversion Hs; subst; cbn; rewrite app_nil_r; by eapply failed_shut|].
    rewrite app_assoc. apply shut_app; [|by apply IH]. unfold unexited. by rewrite last_app.
Qed.

#[local] Abbreviation crun := (runs (fun _ : canswer => True)) (only parsing).

Lemma open_op_not_exit k : open_op cfg k <> Exit KSession.
Proof. unfold open_op. destruct k; [by destruct (IS_H3 cfg)|done..]. Qed.

Lemma sample_once_runs s :
  crun (sample_once cfg) (fun seg _ o => match o with Ret fds => answered fds seg | Exc e => failed e seg | Wait => shut seg end) s.
Proof.
  assert (Hk := open_op_not_exit KSession).
  unfold sample_once, with_open, opened. apply runs_bind, runs_bind. apply runs_perform; [by apply unexited_shut|].
  intros a r _ Ha. destruct a; cbn in Ha; simplify_eq; [|constructor]. apply runs_modify. cbn [app].
  apply runs_finally, runs_bind, runs_perform; [apply unexited_shut; unfold unexited; cbn [last app]; congruence|].
  intros a r _ Ha. destruct a; cbn in Ha; simplify_eq.
  - apply runs_bind, runs_lift. destruct (get_server_stats (status, ct, body)) as [[[rss heap] fds]|e] eqn:E.
    + apply runs_ret. cbn [app]. apply runs_perform; [by apply unexited_shut|].
      intros a r _ Ha. destruct a; cbn in Ha; simplify_eq; cbn [app]; [|constructor].
      assert (status = 200) as ->.
      { unfold get_server_stats in E. destruct (decide (status <> 200)) as [|Hs]; [done|by apply dec_stable]. }
      by exists ct, body, rss, heap.
    + cbn [app]. apply runs_perform; [by apply unexited_shut|].
      intros a r _ Ha. destruct a; cbn in Ha; simplify_eq; cbn [app]; by constructor.
  - apply runs_perform; [by apply unexited_shut|]. intros a r _ Ha. destruct a; cbn in Ha; simplify_eq; cbn [app]; by constructor.
Qed.

Lemma pause_runs (d : spec_float) (P : exchanges -> cstate -> outcome unit -> Prop) s :
  P [] s Wait -> P [(Pause d, CDone)] s (Ret tt) -> (forall e, P [(Pause d, CRaise e)] s (Exc e)) -> crun (pause d) P s.
Proof. intros HW H1 H2. apply runs_perform; [done|]. intros a r _ Ha. destruct a; cbn in Ha; simplify_eq; auto. Qed.

Lemma now_runs (P : exchanges -> cstate -> outcome spec_float -> Prop) s :
  P [] s Wait -> (forall t, P [(Now, CTime t)] s (Ret t)) -> crun now P s.
Proof. intros HW H1. apply runs_perform; [done|]. intros a r _ Ha. destruct a; cbn in Ha; simplify_eq; auto. Qed.

Lemma sample_loop_runs n s :
  crun (sample_loop (sample_once cfg) n one_second)
    (fun seg _ o => match o with Ret r => sampling n seg r | _ => shut seg end) s.
Proof.
  revert s. induction n as [|n IH]; intros s; cbn [sample_loop]; [apply runs_ret; constructor|].
  apply runs_bind, runs_catch, runs_bind. eapply runs_mono; [apply sample_once_runs|].
  intros seg s1 [fds|e|] _ H; [| |done].
  - apply runs_ret. rewrite app_nil_r. apply runs_ret. rewrite app_nil_r. by constructor.
  - destruct (is_Exception e) eqn:Ee; [|by eapply failed_shut]. apply runs_bind.
    destruct n as [|n].
    + cbn [Z.of_nat Z.ltb Z.compare andb sample_loop]. apply runs_ret, runs_ret, runs_ret. rewrite !app_nil_r.
      rewrite <- (app_nil_r seg). exact (sampling_miss 0 e seg [] None H Ee sampling_none).
    + replace (0 <? Z.of_nat (S n)) with true by (symmetry; apply Z.ltb_lt; lia).
      replace (flt fzero one_second) with true by (vm_compute; reflexivity). cbn [andb].
      assert (forall a, unexited (seg ++ [(Pause one_second, a)])) as Hp by (intros a; unfold unexited; by rewrite last_app).
      apply pause_runs; [rewrite app_nil_r; by eapply failed_shut| |by intros; apply unexited_shut].
      apply runs_ret. rewrite app_nil_r. eapply runs_mono; [apply IH|].
      intros seg' s' [r|e'|] _ Hs; [|by apply shut_app..]. rewrite <- app_assoc. exact (sampling_miss (S n) e seg seg' r H Ee Hs).
Qed.

(** ** Settling *)

(** The samples above the threshold that were taken again, each with a clock reading
    before [give_up_at]. *)
Inductive retaken (b : Z) (give_up_at : spec_float) : exchanges -> Prop :=
| retaken_nil : retaken b give_up_at []
| retaken_snoc pre seg f t :
    retaken b give_up_at pre -> sampling 5 seg (Some (Some f)) -> b + SLACK < f -> flt t give_up_at = true ->
    retaken b give_up_at (pre ++ seg ++ [(Now, CTime t); (Pause one_second, CDone)]).

(** How [settle_fds] ends with [final]: the last sample failed, passes, or is above
    the threshold with the clock past [give_up_at]. *)
Definition settled (baseline : option Z) (give_up_at : spec_float) (fin : exchanges) (final : option Z) : Prop :=
  exists pre last r tail, fin = pre ++ last ++ tail /\ sampling 5 last r /\ mjoin r = final /\
    match baseline with Some b => retaken b give_up_at pre | None => pre = [] end /\
    match baseline, final with
    | _, None => tail = []
    | Some b, Some f =>
        (f <= b + SLACK /\ tail = []) \/
        (b + SLACK < f /\ exists t, tail = [(Now, CTime t)] /\ flt t give_up_at = false)
    | None, Some _ => False
    end.

Lemma sample_fds_runs s :
  crun (sample_fds cfg 5 one_second)
    (fun seg _ o => match o with Ret f => exists r, sampling 5 seg r /\ mjoin r = f | _ => True end) s.
Proof.
  apply runs_bind. eapply runs_mono; [apply sample_loop_runs|]. intros seg s1 [r|e|] _ H; [|exact I|exact I].
  apply runs_ret. rewrite app_nil_r. eauto.
Qed.

Lemma settle_runs baseline s :
  crun (settle_fds cfg baseline)
    (fun seg _ o => match o with
                    | Ret final => exists t fin, seg = (Now, CTime t) :: fin /\ settled baseline (fadd t (flit SETTLE 0)) fin final
                    | _ => True
                    end) s.
Proof.
  unfold settle_fds. apply runs_bind. apply now_runs; [exact I|]. intros t. apply runs_bind.
  eapply runs_mono; [apply sample_fds_runs|]. intros seg0 s1 [final0|e|] _ H0; [|exact I|exact I].
  set (give_up_at := fadd t (flit SETTLE 0)).
  apply (runs_iter _ _ (fun final seg _ => exists pre last r, seg0 ++ seg = pre ++ last /\ sampling 5 last r /\
    mjoin r = final /\ match baseline with Some b => retaken b give_up_at pre | None => pre = [] end)).
  - destruct H0 as (r & Hr & Hj). exists [], seg0, r. rewrite app_nil_r. repeat split; try done. destruct baseline; [constructor|done].
  - intros; exact I.
  - intros final seg s2 _ (pre & last & r & Eseg & Hr & Hj & Hpre).
    assert (forall tail fs, settled baseline give_up_at (pre ++ last ++ tail) fs ->
      exists t0 fin, [(Now, CTime t)] ++ seg0 ++ seg ++ tail = (Now, CTime t0) :: fin /\
                     settled baseline (fadd t0 (flit SETTLE 0)) fin fs) as Hend.
    { intros tail fs Hs. exists t, (seg0 ++ seg ++ tail). split; [done|]. by rewrite app_assoc, Eseg, <- app_assoc. }
    destruct final as [f|].
    + apply runs_bind, runs_lift. destruct baseline as [b|]; [|exact I]. cbn [above].
      destruct (Z.ltb_spec (b + SLACK) f) as [Hlt|Hge].
      * apply runs_bind. apply now_runs; [exact I|]. intros t1. destruct (flt t1 give_up_at) eqn:Et.
        -- apply runs_bind. apply pause_runs; [exact I| |intros; exact I]. apply runs_bind.
           eapply runs_mono; [apply sample_fds_runs|]. intros seg1 s3 [final1|e|] _ H1; [|exact I|exact I].
           destruct H1 as (r1 & Hr1 & Hj1). apply runs_ret. rewrite app_nil_r. cbn [app].
           exists (pre ++ last ++ [(Now, CTime t1); (Pause one_second, CDone)]), seg1, r1.
           assert (r = Some (Some f)) as -> by (by destruct r as [[?|]|]; cbn in Hj; simplify_eq).
           split; [|by repeat split; try done; econstructor].
           rewrite app_assoc, Eseg, <- !app_assoc. reflexivity.
        -- apply runs_ret. rewrite app_nil_r. cbn [app]. apply (Hend [(Now, CTime t1)]).
           exists pre, last, r, [(Now, CTime t1)]. repeat split; try done. right. split; [done|]. by exists t1.
      * apply runs_ret. apply (Hend []). exists pre, last, r, []. repeat split; try done. by left.
    + apply runs_ret. apply (Hend []). exists pre, last, r, []. repeat split; try done. by destruct baseline.
Qed.
End Samples.

(** ** Exit codes *)

Definition passed_line (b f : Z) : list Z :=
  str "== chaos sidecar passed (fds " ++ dec b ++ str " -> " ++ dec f ++ str ") ==".
Definition leak_line (t b f : Z) : list Z :=
  str "FAIL chaos: fd leak at t=" ++ dec t ++ str "s (baseline " ++ dec b ++ str ", final " ++ dec f ++ str ", slack "
  ++ dec SLACK ++ str ")".
Definition too_old_line : list Z := str "chaos: /stats has no fd field (server too old); cannot leak-check".
Definition unsampled_line : list Z := str "chaos: final fd sample failed (could not reach /stats)".
Definition wedged_line (cfg : config) : list Z :=
  str "chaos: self-watchdog tripped (" ++ dec (WATCHDOG cfg) ++ str "s); a behavior wedged".
Definition unconnected_line : list Z :=
  str "chaos: never connected once (no successful transport open); check STRESS_BASE / server".
Definition internal_error (e : exn) : list line :=
  [Text (str "chaos: internal error (" ++ type_name e ++ str "): " ++ exn_text e); Traceback e].

Definition last_line (s : cstate) (text : list Z) : Prop := last (out s) = Some (Text text).

Section ExitCodes.
Context (cfg : config) (u_scheme u_host u_port : list Z) (conc : Z) (pool : list (list Z * list Z)).

Definition workers_of (start : spec_float) : burst := Workers conc pool (fadd start (flit (SECONDS cfg) 0)).
Definition worker_runs (start : spec_float) (scripts : list (list canswer)) :=
  run_tasks cfg u_scheme u_host u_port (workers_of start) scripts.

(** From the baseline to the final samples [fin]: all [conc] workers returned, the
    drain was slept, and the settling gives up at [give_up_at]. *)
Definition measured (seg : list (cop * canswer)) (give_up_at : spec_float) (fin : list (cop * canswer)) : Prop :=
  exists t1 start scripts t2 t3,
    seg = [(Now, CTime t1); (Now, CTime start); (Gather (workers_of start), CRan scripts AllDone);
           (Now, CTime t2); (Pause (flit (DRAIN cfg) 0), CDone); (Now, CTime t3)] ++ fin /\
    length (worker_runs start scripts) = Z.to_nat conc /\
    Forall (fun r => returned r = true) (worker_runs start scripts) /\ give_up_at = fadd t3 (flit SETTLE 0).

(** The [wait_for] around the workers timed out: it expired, or a worker itself
    raised a [TimeoutError]. *)
Definition timed_out (start : spec_float) (scripts : list (list canswer)) (e : ended) : Prop :=
  e = Expired \/ exists i m w, e = Raised i /\ worker_runs start scripts !! i = Some (Exc (TimeoutError m), w).

(** What an exit code vouches for, of the conversation [seg] from the baseline on. *)
Definition code_means (baseline : option Z) (n : Z) (seg : list (cop * canswer)) (s : cstate) : Prop :=
  (n = 0 /\ connects s <> 0 /\ exists b f give_up_at fin, baseline = Some b /\ measured seg give_up_at fin /\
     settled cfg baseline give_up_at fin (Some f) /\ f <= b + SLACK /\ last_line s (passed_line b f)) \/
  (n = 1 /\ connects s <> 0 /\ exists b f give_up_at fin late t u, baseline = Some b /\
     measured seg give_up_at (fin ++ [(Now, CTime late); (Now, CTime t)]) /\
     settled cfg baseline give_up_at (fin ++ [(Now, CTime late)]) (Some f) /\ b + SLACK < f /\ flt late give_up_at = false /\
     last_line s (leak_line u b f)) \/
  (n = 2 /\ connects s <> 0 /\ exists give_up_at fin, measured seg give_up_at fin /\
     settled cfg baseline give_up_at fin None /\ last_line s unsampled_line) \/
  (n = 3 /\ exists t1 start scripts e,
     seg = [(Now, CTime t1); (Now, CTime start); (Gather (workers_of start), CRan scripts e)] /\
     timed_out start scripts e /\ last_line s (wedged_line cfg)) \/
  (n = 4 /\ connects s = 0 /\ exists give_up_at fin final, measured seg give_up_at fin /\
     settled cfg baseline give_up_at fin final /\ last_line s unconnected_line).

(** What a code of [run] vouches for: a baseline sample without the field, or one
    that was compared. *)
Definition run_means (n : Z) (tr : list (cop * canswer)) (s : cstate) : Prop :=
  exists launched warm base r seg, tr = (Now, CTime launched) :: warm ++ base ++ seg /\ sampling cfg 10 base r /\
    if decide (r = Some None) then n = 2 /\ seg = [] /\ last_line s too_old_line
    else code_means (mjoin r) n seg s.

#[local] Abbreviation crun := (runs (fun _ : canswer => True)) (only parsing).

Lemma runs_grows {R} (m : coro cop canswer cstate R) s :
  keeps (counted_all cfg u_scheme u_host u_port) m -> crun m (fun _ _ _ => True) s.
Proof.
  intros H w _ _. specialize (H w). destruct (m w) as [o w']. destruct H as (tr & Et & _). exists tr.
  repeat split; [done|by apply Forall_true..].
Qed.

Lemma wait_runs {R} (P : list (cop * canswer) -> cstate -> outcome R -> Prop) s :
  P [] s Wait -> crun (fun w => (Wait, w)) P s.
Proof.
  intros H w <- _. exists []. rewrite app_nil_r. split; [done|]. split; [by constructor|]. split; [by apply Forall_true|done].
Qed.

Lemma say_runs text (P : list (cop * canswer) -> cstate -> outcome unit -> Prop) s :
  (forall s', connects s' = connects s -> last_line s' text -> P [] s' (Ret tt)) -> crun (say text) P s.
Proof. intros H. apply runs_modify, H; [done|]. unfold last_line. cbn. by rewrite last_app. Qed.

Lemma int_since_runs start (P : list (cop * canswer) -> cstate -> outcome Z -> Prop) s :
  P [] s Wait -> (forall t e, P [(Now, CTime t)] s (Exc e)) -> (forall t n, P [(Now, CTime t)] s (Ret n)) ->
  crun (int_since start) P s.
Proof.
  intros HW HE HR. apply runs_bind. apply now_runs; [done|]. intros t. apply runs_lift.
  destruct (int_of_float _); [apply HR|apply HE].
Qed.

(** A code and its last line. *)
Lemma say_code text (n : Z) (P : list (cop * canswer) -> cstate -> outcome Z -> Prop) s :
  (forall s', connects s' = connects s -> last_line s' text -> P [] s' (Ret n)) ->
  crun (bind (say text) (fun _ => ret n)) P s.
Proof. intros H. apply runs_bind, say_runs. intros s' Hc Hl. by apply runs_ret, H. Qed.

Lemma verdict_runs start baseline final give_up_at seg fin s :
  measured seg give_up_at fin -> settled cfg baseline give_up_at fin final ->
  crun (verdict start baseline final)
    (fun seg' s' o => match o with Ret n => code_means baseline n (seg ++ seg') s' | _ => True end) s.
Proof.
  intros Hm Hs. unfold verdict. apply runs_bind, runs_get.
  destruct (Z.eqb_spec (connects s) 0) as [Hz|Hz].
  { apply say_code. intros s' Hc Hl. rewrite app_nil_r. do 4 right. split; [done|]. split; [congruence|]. eauto 10. }
  destruct final as [f|].
  2:{ apply say_code. intros s' Hc Hl. rewrite app_nil_r. right. right. left. split; [done|]. split; [congruence|]. eauto 10. }
  apply runs_bind, runs_lift. destruct baseline as [b|]; [|exact I]. cbn [above].
  destruct (Z.ltb_spec (b + SLACK) f) as [Hlt|Hge].
  - apply runs_bind, int_since_runs; [done..|]. intros t u. apply say_code. intros s' Hc Hl. cbn [app].
    right. left. split; [done|]. split; [congruence|].
    assert (Hs' := Hs). destruct Hs' as (pre & last & r & tail & -> & _ & _ & _ & [[Hle _]|(_ & late & -> & Hlate)]); [lia|].
    exists b, f, give_up_at, (pre ++ last), late, t, u. rewrite <- !(app_assoc pre). split; [done|]. split; [|done].
    destruct Hm as (t1 & start' & scripts & t2 & t3 & -> & Hm). exists t1, start', scripts, t2, t3. split; [|done].
    by rewrite <- !app_assoc.
  - apply say_code. intros s' Hc Hl. rewrite app_nil_r. left. split; [done|]. split; [congruence|]. eauto 10.
Qed.

Lemma induce_runs start s :
  crun (induce cfg u_scheme u_host u_port conc pool start)
    (fun seg _ o => match o with
                    | Ret wedged => exists scripts e, seg = [(Gather (workers_of start), CRan scripts e)] /\
                        if wedged : bool then timed_out start scripts e
                        else e = AllDone /\ length (worker_runs start scripts) = Z.to_nat conc /\
                             Forall (fun r => returned r = true) (worker_runs start scripts)
                    | _ => unexited seg
                    end) s.
Proof.
  unfold induce, gather. apply runs_catch, runs_bind, runs_bind, runs_perform; [done|].
  intros a r _ Ha. destruct a; cbn in Ha; simplify_eq. apply runs_bind, runs_modify.
  change (run_tasks cfg u_scheme u_host u_port (Workers conc pool _) scripts) with (worker_runs start scripts).
  destruct e as [|i|]; cbn [gathered].
  - destruct (bool_decide _ && _) eqn:E; [|by apply wait_runs].
    apply andb_prop in E as [El Er]. apply bool_decide_eq_true in El. cbn [lift]. apply runs_ret, runs_ret. cbn [app].
    exists scripts, AllDone. split; [done|]. split; [done|]. split.
    + rewrite El. unfold tasks. by rewrite length_map, length_seqZ.
    + apply Forall_forall. intros x Hx. apply list_elem_of_In in Hx. by apply (proj1 (forallb_forall _ _) Er).
  - destruct (worker_runs start scripts !! i) as [[[u|x|] w']|] eqn:Ei; try by apply wait_runs.
    cbn [lift]. apply runs_throw. destruct x; try done. apply runs_ret. cbn [app].
    exists scripts, (Raised i). split; [done|]. right. eauto.
  - cbn [lift]. apply runs_throw, runs_ret. cbn [app]. exists scripts, Expired. split; [done|]. by left.
Qed.

Lemma leak_check_runs launched baseline s :
  crun (leak_check cfg u_scheme u_host u_port conc pool launched baseline)
    (fun seg s' o => match o with Ret n => code_means baseline n seg s' | _ => True end) s.
Proof.
  unfold leak_check. apply runs_bind, int_since_runs; [done..|]. intros t1 n1. apply runs_bind, say_runs. intros s1 _ _.
  apply runs_bind, now_runs; [exact I|]. intros start. apply runs_bind. eapply runs_mono; [apply induce_runs|].
  intros seg s2 [wedged|e|] _ H; [|exact I|exact I]. destruct H as (scripts & e & -> & H). destruct wedged.
  { apply say_code. intros s3 _ Hl. do 3 right. left. split; [done|]. by exists t1, start, scripts, e. }
  destruct H as (-> & Hn & Hr). apply runs_bind, int_since_runs; [done..|]. intros t2 n2. apply runs_bind, runs_get, runs_bind, say_runs.
  intros s3 _ _. apply runs_bind, pause_runs; [exact I| |intros; exact I]. apply runs_bind.
  eapply runs_mono; [apply settle_runs|]. intros seg' s4 [final|e|] _ H; [|exact I|exact I].
  destruct H as (t3 & fin & -> & Hs). eapply runs_mono.
  - eapply (verdict_runs start baseline final _ ([(Now, CTime t1); (Now, CTime start);
      (Gather (workers_of start), CRan scripts AllDone); (Now, CTime t2); (Pause (flit (DRAIN cfg) 0), CDone); (Now, CTime t3)] ++ fin) fin).
    + exists t1, start, scripts, t2, t3. done.
    + exact Hs.
  - intros seg'' s5 [n|e|] _ H; [|exact I|exact I]. exact H.
Qed.

(** *** Without a baseline *)

Lemma settle_none w :
  settle_fds cfg None w =
  bind now (fun _ => bind (sample_fds cfg 5 one_second)
    (fun final => match final with Some _ => throw none_plus_int | None => ret None end)) w.
Proof.
  apply bind_ext. intros t w1. apply bind_ext. intros [f|] w2; reflexivity.
Qed.

(** What the rest of a run without a baseline can end in. *)
Definition baseless_end (seg : list (cop * canswer)) (o : outcome Z) : Prop :=
  match o with
  | Ret n => (n = 2 \/ n = 3 \/ n = 4) /\ ~ ends_sampled cfg seg
  | Exc e => ends_sampled cfg seg -> e = none_plus_int
  | Wait => ~ ends_sampled cfg seg
  end.

Lemma settle_none_runs s :
  crun (settle_fds cfg None)
    (fun seg _ o => match o with
                    | Ret final => final = None /\ shut cfg seg
                    | Exc e => e = none_plus_int \/ shut cfg seg
                    | Wait => shut cfg seg
                    end) s.
Proof.
  eapply runs_ext; [apply settle_none|].
  apply runs_bind, now_runs; [by apply unexited_shut|]. intros t. apply runs_bind, runs_bind.
  eapply runs_mono; [apply sample_loop_runs|]. intros seg s1 [r|e|] _ H; [|right|]; [|by apply shut_app..].
  apply runs_ret. rewrite app_nil_r. destruct (mjoin r) as [f|] eqn:Ej; [by apply runs_throw; left|].
  apply runs_ret. rewrite app_nil_r. split; [done|]. apply shut_app; [done|]. by eapply sampling_shut.
Qed.

Lemma leak_check_none_runs launched s :
  crun (leak_check cfg u_scheme u_host u_port conc pool launched None) (fun seg _ o => baseless_end seg o) s.
Proof.
  assert (forall seg, unexited seg -> ~ ends_sampled cfg seg) as Hu.
  { intros seg Hs H. apply Hs. by eapply ends_sampled_exit. }
  assert (forall a seg, unexited a -> shut cfg seg -> ~ ends_sampled cfg (a ++ seg)) as Hs by (intros a seg Ha H; by apply H).
  unfold leak_check. apply runs_bind, int_since_runs; [by apply Hu|by intros t e He; apply Hu in He|].
  intros t1 n1. apply runs_bind, say_runs. intros s1 _ _.
  apply runs_bind, now_runs; [by apply Hu|]. intros start. apply runs_bind. eapply runs_mono; [apply induce_runs|].
  intros seg s2 o _ H. destruct o as [wedged|e|]; [|intros He; exfalso; revert He|];
    [|apply Hu; cbn [app]; by apply (unexited_app [_; _])..].
  destruct H as (scripts & e & -> & H). destruct wedged.
  { apply say_code. intros s3 _ Hl. split; [by right; left|]. by apply Hu. }
  apply runs_bind, int_since_runs; [by apply Hu|by intros t e' He; apply Hu in He|]. intros t2 n2.
  apply runs_bind, runs_get, runs_bind, say_runs. intros s3 _ _.
  apply runs_bind, pause_runs; [by apply Hu| |by intros e' He; apply Hu in He]. apply runs_bind.
  eapply runs_mono; [apply settle_none_runs|]. intros seg' s4 o _ H'. cbn [app].
  destruct o as [final|e'|].
  - destruct H' as [-> Hsh]. unfold verdict. apply runs_bind, runs_get.
    destruct (connects s4 =? 0); apply say_code; intros s5 _ _; rewrite !app_nil_r; (split; [auto|]);
      by apply (Hs [_; _; _; _; _]).
  - intros He. destruct H' as [->|Hsh]; [done|]. exfalso. revert He. by apply (Hs [_; _; _; _; _]).
  - by apply (Hs [_; _; _; _; _]).
Qed.
End ExitCodes.

(** ** What [main] reports *)

Section Main.
Context (cfg : config) (u_scheme u_host u_port : list Z) (seed : list Z) (conc warmup : Z) (enabled : list (list Z)).
#[local] Abbreviation crun := (runs (fun _ : canswer => True)) (only parsing).
#[local] Abbreviation pool := (build_pool cfg u_scheme u_host u_port enabled) (only parsing).

Lemma prelude_runs s :
  crun (prelude cfg u_scheme u_host u_port seed conc warmup enabled)
    (fun seg _ o => match o with
                    | Ret (launched, r) => exists warm base, seg = (Now, CTime launched) :: warm ++ base /\ sampling cfg 10 base r
                    | _ => True
                    end) s.
Proof.
  unfold prelude. apply runs_bind, now_runs; [exact I|]. intros launched. apply runs_bind, say_runs. intros s1 _ _.
  apply runs_bind. eapply runs_mono; [eapply runs_grows, warm_rounds_all|]. intros warm s2 [[]|e|] _ _; [|exact I|exact I].
  apply runs_bind. eapply runs_mono; [apply sample_loop_runs|]. intros base s3 [r|e|] _ H; [|exact I|exact I].
  apply runs_ret. rewrite app_nil_r. by exists warm, base.
Qed.

Lemma run_runs s :
  crun (run cfg u_scheme u_host u_port seed conc warmup enabled)
    (fun tr s' o => match o with Ret n => run_means cfg u_scheme u_host u_port conc pool n tr s' | _ => True end) s.
Proof.
  unfold run. apply runs_bind. eapply runs_mono; [apply prelude_runs|]. intros seg0 s1 [[launched r]|e|] _ H; [|exact I|exact I].
  destruct H as (warm & base & -> & Hb).
  assert (forall seg s' n, (if decide (r = Some None) then n = 2 /\ seg = [] /\ last_line s' too_old_line
      else code_means cfg u_scheme u_host u_port conc pool (mjoin r) n seg s') ->
      run_means cfg u_scheme u_host u_port conc pool n (((Now, CTime launched) :: warm ++ base) ++ seg) s') as Hm.
  { intros seg s' n Hn. exists launched, warm, base, r, seg. split; [by cbn; rewrite <- app_assoc|]. done. }
  destruct r as [[b|]|]; [|apply say_code; intros s' _ Hl; by apply Hm|];
    (eapply runs_mono; [apply leak_check_runs|]; intros seg s' [n|e|] _ H; [by apply Hm|exact I|exact I]).
Qed.

(** [main] is [run], with what it raises reported. *)
Lemma main_run w :
  enabled <> [] ->
  main cfg u_scheme u_host u_port seed conc warmup enabled w =
  match run cfg u_scheme u_host u_port seed conc warmup enabled w with
  | (Exc e, w1) =>
      if is_interrupt e then (Exc e, w1)
      else (Ret 2, World (env w1) (trace w1)
                     (CState (connects (st w1)) (ok_ (st w1)) (err_ (st w1)) (out (st w1) ++ internal_error e)))
  | ow => ow
  end.
Proof.
  intros Hen. unfold main. destruct enabled as [|style l]; [done|]. unfold catch.
  destruct (run _ _ _ _ _ _ _ _ w) as [[n|e|] w1]; [done| |done].
  assert (forall e, bind (say (str "chaos: internal error (" ++ type_name e ++ str "): " ++ exn_text e))
      (fun _ => bind (print_out (Traceback e)) (fun _ => ret 2)) w1
    = (Ret 2, World (env w1) (trace w1)
        (CState (connects (st w1)) (ok_ (st w1)) (err_ (st w1)) (out (st w1) ++ internal_error e)))) as Hb.
  { intros e'. unfold bind, say, print_out, modify, ret, internal_error. cbn [st env trace out connects ok_ err_].
    by rewrite <- app_assoc. }
  destruct e; first [exact (Hb _)|reflexivity].
Qed.

Lemma main_means w :
  enabled <> [] ->
  let '(o, w') := main cfg u_scheme u_host u_port seed conc warmup enabled w in
  exists tr, trace w' = trace w ++ tr /\
  match o with
  | Ret n => run_means cfg u_scheme u_host u_port conc pool n tr (st w') \/
             (n = 2 /\ exists e before, fst (run cfg u_scheme u_host u_port seed conc warmup enabled w) = Exc e /\
                is_interrupt e = false /\ out (st w') = before ++ internal_error e)
  | Exc e => is_interrupt e = true
  | Wait => True
  end.
Proof.
  intros Hen. rewrite main_run by done. assert (H := run_runs (st w) w eq_refl ltac:(by apply Forall_true)).
  destruct (run _ _ _ _ _ _ _ _ w) as [[n|e|] w1]; destruct H as (tr & Et & _ & _ & H); [|destruct (is_interrupt e) eqn:Ei|];
    exists tr; (split; [done|]); [by left|done| |done].
  right. split; [done|]. by exists e, (out (st w1)).
Qed.
End Main.

Section Counts.
Context (cfg : config) (u_scheme u_host u_port : list Z).

Lemma tally_nonneg f tr : (forall x, 0 <= f x) -> 0 <= tally f tr.
Proof. intros Hf. induction tr as [|x tr IH]; [done|]. cbn. specialize (Hf x). unfold tally, zsum in *. lia. Qed.

Lemma within_nonneg f x : (forall x, 0 <= f x) -> 0 <= within cfg u_scheme u_host u_port f x.
Proof.
  intros Hf. destruct x as [o a]. destruct o; cbn -[zsum]; try apply Hf. destruct a; cbn -[zsum]; try apply Hf.
  induction (run_tasks _ _ _ _ b scripts) as [|r rs IH]; [done|]. cbn. assert (H := tally_nonneg f (trace r.2) Hf).
  unfold zsum in *. lia.
Qed.

Lemma total_nonneg f tr : (forall x, 0 <= f x) -> 0 <= total cfg u_scheme u_host u_port f tr.
Proof. intros Hf. apply tally_nonneg. intros x. by apply within_nonneg. Qed.

Lemma opens_nonneg tr : 0 <= opens cfg u_scheme u_host u_port tr.
Proof. apply total_nonneg. intros [o a]. by destruct o, a. Qed.

Lemma enters_nonneg tr : 0 <= enters cfg u_scheme u_host u_port tr.
Proof. apply total_nonneg. intros [o a]. by destruct o, a. Qed.

(** Entering an [httpx] client does no I/O, so it does not fail. *)
Definition entries_succeed (tr : list (cop * canswer)) : Prop := Forall (fun x => x.1 = Enter -> x.2 = CDone) tr.

(** A sample enters a session. *)
Lemma sampling_enters n seg r :
  IS_H3 cfg = false -> entries_succeed seg -> sampling cfg (S n) seg r -> 0 < enters cfg u_scheme u_host u_port seg.
Proof.
  intros Hp Hen Hs. assert (open_op cfg KSession = Enter) as Ho by (unfold open_op; by rewrite Hp).
  assert (exists rest, seg = (Enter, CDone) :: rest) as (rest & ->).
  { inversion Hs as [|? ? ? (ct & body & rss & heap & _ & ->)|? e s1 s2 ? Hf]; subst; [rewrite Ho; by eexists|].
    destruct Hf; rewrite Ho in *; try by eexists. inversion Hen as [|? ? He _]; subst. by specialize (He eq_refl). }
  change ((Enter, CDone) :: rest) with ([(Enter, CDone)] ++ rest). unfold enters at 1. rewrite total_app.
  assert (H := enters_nonneg rest). unfold enters in H. change (total _ _ _ _ enter_of [(Enter, CDone)]) with 1. lia.
Qed.

(** A count is read off a reply to [/stats]. *)
Definition stats_unanswered (tr : list (cop * canswer)) : Prop :=
  Forall (fun x => x.1 = SGet (str "/stats") -> exists e, x.2 = CRaise e) tr.

Lemma sampling_unanswered n seg r : stats_unanswered seg -> sampling cfg n seg r -> r = None.
Proof.
  intros Hu. induction 1 as [|n seg fds (ct & body & rss & heap & _ & ->)|n e seg seg' r _ _ _ IH]; [done| |].
  - inversion Hu as [|? ? _ H]; subst. inversion H as [|? ? H1 _]; subst. destruct (H1 eq_refl) as [? [=]].
  - apply IH. unfold stats_unanswered in *. rewrite !Forall_app in Hu. tauto.
Qed.
End Counts.

(** ** Properties of [main] *)

(** C9: what the sidecar's exit codes mean, of the conversation.  With something
    enabled, [main] returns 0 only when a baseline [b] was read off a 200 of
    [/stats], then all [conc] workers returned, then a last sample [f] was read
    that is at most [SLACK] above [b], every earlier one having been above it and
    taken again before [SETTLE] seconds were over; the same for 1, with [f] above
    and the clock past the settling; 3 only when the wait for the workers timed
    out; 4 only when nothing was opened or entered at all; 2 only for a [/stats]
    without the field, a last sample whose five attempts gave no count, or an
    exception of [run], printed with its traceback.  Each has its line, with those
    numbers, last on the output; there is no other code, and only an interrupt
    leaves [main]. *)
Theorem chaos_exit_codes cfg u_scheme u_host u_port seed conc warmup style enabled w :
  connects (st w) = 0 ->
  let run_w := run cfg u_scheme u_host u_port seed conc warmup (style :: enabled) w in
  let pool := build_pool cfg u_scheme u_host u_port (style :: enabled) in
  let '(o, w') := main cfg u_scheme u_host u_port seed conc warmup (style :: enabled) w in
  exists tr, trace w' = trace w ++ tr /\
  (forall n, o = Ret n ->
     run_means cfg u_scheme u_host u_port conc pool n tr (st w') \/
     (n = 2 /\ exists e before, fst run_w = Exc e /\ is_interrupt e = false /\ out (st w') = before ++ internal_error e)) /\
  (forall e, o = Exc e -> is_interrupt e = true) /\
  (o = Ret 4 -> opens cfg u_scheme u_host u_port tr = 0 /\ enters cfg u_scheme u_host u_port tr = 0).
Proof.
  intros H0 run_w pool. assert (Hc := main_counted cfg u_scheme u_host u_port seed conc warmup (style :: enabled) w).
  assert (Hm := main_means cfg u_scheme u_host u_port seed conc warmup (style :: enabled) w ltac:(done)).
  destruct (main _ _ _ _ _ _ _ _ w) as [o w']. destruct Hc as (tr & Et & Ec & _), Hm as (tr' & Et' & Hm). cbn [snd] in *.
  rewrite Et in Et'. apply app_inv_head in Et' as <-. exists tr. split; [done|].
  split; [by intros n ->|]. split; [by intros e ->|]. intros ->. assert (H1 := opens_nonneg cfg u_scheme u_host u_port tr).
  assert (H2 := enters_nonneg cfg u_scheme u_host u_port tr). assert (connects (st w') = 0); [|lia].
  destruct Hm as [(l & warm & base & r & seg & _ & _ & Hm)|(? & _)]; [|done]. destruct (decide (r = Some None)).
  - by destruct Hm.
  - unfold code_means in Hm. destruct Hm as [(? & _)|[(? & _)|[(? & _)|[(? & _)|(_ & ? & _)]]]]; done.
Qed.

(** C39: a server that is down is not told apart on h1 and h2.  There a session is an
    [httpx] client, entered without connecting: since no entry fails, [main] never
    returns 4, the code of a run that never connected, whatever the server does;
    and when no request for [/stats] was answered the code is 2 or 3. *)
Theorem dead_server_not_reported cfg u_scheme u_host u_port seed conc warmup style enabled w :
  IS_H3 cfg = false -> connects (st w) = 0 ->
  let '(o, w') := main cfg u_scheme u_host u_port seed conc warmup (style :: enabled) w in
  forall tr, trace w' = trace w ++ tr -> entries_succeed tr ->
  o <> Ret 4 /\ (stats_unanswered tr -> forall n, o = Ret n -> n = 2 \/ n = 3).
Proof.
  intros Hp H0. assert (Hc := main_counted cfg u_scheme u_host u_port seed conc warmup (style :: enabled) w).
  assert (Hm := main_means cfg u_scheme u_host u_port seed conc warmup (style :: enabled) w ltac:(done)).
  destruct (main _ _ _ _ _ _ _ _ w) as [o w']. destruct Hc as (tr & Et & Ec & _), Hm as (tr' & Et' & Hm). cbn [snd] in *.
  rewrite Et in Et'. apply app_inv_head in Et' as <-. intros tr' Et' Hen. rewrite Et in Et'. apply app_inv_head in Et' as <-.
  assert (forall n, o = Ret n -> n <> 4 /\ (stats_unanswered tr -> n = 2 \/ n = 3)) as H.
  { intros n ->. destruct Hm as [(l & warm & base & r & seg & -> & Hs & Hm)|(-> & _)]; [|auto].
    destruct (decide (r = Some None)); [destruct Hm as (-> & _); auto|].
    assert (entries_succeed base) as Hb by (unfold entries_succeed in *; inversion Hen; rewrite !Forall_app in *; tauto).
    apply (sampling_enters cfg u_scheme u_host u_port 9 base r Hp Hb) in Hs as Hpos.
    assert (connects (st w') <> 0) as Hne.
    { change ((Now, CTime l) :: warm ++ base ++ seg) with ([(Now, CTime l)] ++ warm ++ base ++ seg) in Ec.
      assert (H1 := opens_nonneg cfg u_scheme u_host u_port ([(Now, CTime l)] ++ warm ++ base ++ seg)).
      unfold enters in Ec, Hpos. rewrite !total_app in Ec.
      assert (H2 := enters_nonneg cfg u_scheme u_host u_port [(Now, CTime l)]).
      assert (H3 := enters_nonneg cfg u_scheme u_host u_port warm). assert (H4 := enters_nonneg cfg u_scheme u_host u_port seg).
      unfold enters in *. lia. }
    split.
    - intros ->. unfold code_means in Hm. by destruct Hm as [(? & _)|[(? & _)|[(? & _)|[(? & _)|(_ & ? & _)]]]].
    - intros Hu. assert (r = None) as ->.
      { apply (sampling_unanswered cfg 10 base); [|done]. unfold stats_unanswered in *. inversion Hu. rewrite !Forall_app in *. tauto. }
      unfold code_means in Hm. cbn [mjoin option_join] in Hm.
      destruct Hm as [(_ & _ & ? & ? & ? & ? & ? & _)|[(_ & _ & ? & ? & ? & ? & ? & ? & ? & ? & _)|[(-> & _)|[(-> & _)|(_ & ? & _)]]]];
        first [done|auto]. }
  split; [intros Ho; by apply (H 4)|]. intros Hu n Hn. by apply (H n).
Qed.

(** C40: a run without a baseline cannot be judged.  When the warm-up and the ten
    baseline attempts gave no count, [main] returns neither 0 nor 1 whatever
    happens after; and once a final [/stats] reply does carry a count, comparing
    it raises, and [main] ends with 2, the internal error of [None + SLACK] and
    its traceback, however often the run connected. *)
Theorem chaos_without_baseline cfg u_scheme u_host u_port seed conc warmup style enabled launched w w1 :
  prelude cfg u_scheme u_host u_port seed conc warmup (style :: enabled) w = (Ret (launched, None), w1) ->
  let '(o, w') := main cfg u_scheme u_host u_port seed conc warmup (style :: enabled) w in
  exists seg, trace w' = trace w1 ++ seg /\
  (forall n, o = Ret n -> n = 2 \/ n = 3 \/ n = 4) /\
  (ends_sampled cfg seg -> o = Ret 2 /\ exists before, out (st w') = before ++ internal_error none_plus_int).
Proof.
  intros Hp. rewrite main_run by done. unfold run. unfold bind at 1. rewrite Hp.
  assert (H := leak_check_none_runs cfg u_scheme u_host u_port conc (build_pool cfg u_scheme u_host u_port (style :: enabled))
    launched (st w1) w1 eq_refl ltac:(by apply Forall_true)). cbn [mjoin option_join].
  destruct (leak_check _ _ _ _ _ _ _ None w1) as [[n|e|] w2]; destruct H as (seg & Et & _ & _ & H); cbn [baseless_end] in H.
  - exists seg. split; [done|]. destruct H as [Hn Hs]. split; [by intros ? [= <-]|done].
  - destruct (is_interrupt e) eqn:Ei; exists seg; (split; [done|]).
    + split; [done|]. intros Hs. by rewrite (H Hs) in Ei.
    + split; [intros ? [= <-]; by left|]. intros Hs. split; [done|]. exists (out (st w2)). by rewrite <- (H Hs).
  - exists seg. split; [done|]. split; [done|]. done.
Qed.

(** ** Runs of the sidecar *)

Definition demo_chaos : config :=
  Config (str "mixed") (str "h2") (str "sync") (str "https://server:8443") 60 3 32 1048576 60 (str "gzip") (str "gzip").
Definition fresh (script : list canswer) : world cop canswer cstate := World script [] (CState 0 ∅ ∅ []).
Definition stats_reply (fds : Z) : list canswer := [CDone; CReply 200 [] (str "100 200 " ++ dec fds); CDone].
(** A client entered, whose first request fails, and left. *)
Definition refused : list canswer := [CDone; CRaise (ConnectionError (str "refused")); CDone].
(** [n] attempts at a sample, a second apart, all refused. *)
Fixpoint refusals (n : nat) : list canswer :=
  match n with O => [] | S O => refused | S n' => refused ++ [CDone] ++ refusals n' end.
Definition warmed : list canswer := [CTime fzero; CRan (replicate 64 refused) AllDone; CDone].
(** The workers find the deadline passed; the drain. *)
Definition idled : list canswer :=
  [CTime (flit 3 0); CTime (flit 3 0); CRan (replicate 8 [CTime (flit 63 0)]) AllDone; CTime (flit 63 0); CDone; CTime (flit 78 0)].
Definition demo_main (script : list canswer) : outcome Z * world cop canswer cstate :=
  main demo_chaos (str "https") (str "server") (str "8443") (str "1") 8 64 [str "idle"] (fresh script).

(** A leak that is still there when the settling gives up, and one that is gone in
    the second sample. *)
Example demo_leak :
  let '(o, w') := demo_main (warmed ++ stats_reply 50 ++ idled ++ stats_reply 59 ++ [CTime (flit 138 0); CTime (flit 139 0)]) in
  o = Ret 1 /\ last_line (st w') (leak_line 136 50 59).
Proof. vm_compute. done. Qed.

Example demo_settles :
  let '(o, w') := demo_main (warmed ++ stats_reply 50 ++ idled ++ stats_reply 59 ++ [CTime (flit 137 0); CDone] ++ stats_reply 58) in
  o = Ret 0 /\ last_line (st w') (passed_line 50 58).
Proof. vm_compute. done. Qed.

Lemma chaos_exit_codes_witness :
  let pool := build_pool demo_chaos (str "https") (str "server") (str "8443") [str "idle"] in
  let '(o, w') := demo_main (warmed ++ stats_reply 50 ++ idled ++ stats_reply 58) in
  o = Ret 0 /\ exists tr, trace w' = tr /\
    (run_means demo_chaos (str "https") (str "server") (str "8443") 8 pool 0 tr (st w') \/ 0 = 2).
Proof.
  intros pool. unfold demo_main. set (w := fresh _).
  assert (H := chaos_exit_codes demo_chaos (str "https") (str "server") (str "8443") (str "1") 8 64 (str "idle") [] w eq_refl).
  cbv zeta in H. destruct (main _ _ _ _ _ _ _ _ w) as [o w'] eqn:E. destruct H as (tr & Et & Hn & _).
  assert (o = Ret 0) as Ho by (transitivity (fst (o, w')); [done|]; rewrite <- E; vm_compute; reflexivity).
  split; [exact Ho|]. exists tr. split; [exact Et|]. destruct (Hn 0 Ho) as [H|[H _]]; [by left|by right].
Defined.

(** Nothing listens: every entry succeeds, every request is refused, and the run
    ends with 2 and 79 connections counted. *)
Lemma dead_server_not_reported_witness :
  let '(o, w') := demo_main (warmed ++ refusals 10 ++ idled ++ refusals 5) in
  (o = Ret 2 /\ connects (st w') = 79 /\ last_line (st w') unsampled_line) /\ o <> Ret 4.
Proof.
  unfold demo_main. set (w := fresh _).
  assert (H := dead_server_not_reported demo_chaos (str "https") (str "server") (str "8443") (str "1") 8 64 (str "idle") [] w
    eq_refl eq_refl).
  destruct (main _ _ _ _ _ _ _ _ w) as [o w'] eqn:E.
  assert (fst (o, w') = Ret 2 /\ connects (st (snd (o, w'))) = 79 /\ last_line (st (snd (o, w'))) unsampled_line) as Ho
    by (rewrite <- E; clear; vm_compute; repeat split).
  split; [exact Ho|]. apply (H (trace w') eq_refl).
  assert (forallb (fun x : cop * canswer => match x with (Enter, CDone) => true | (Enter, _) => false | _ => true end)
    (trace (snd (o, w'))) = true) as Hb by (rewrite <- E; vm_compute; reflexivity).
  apply Forall_forall. intros [op a] Hx He. apply list_elem_of_In in Hx. cbn in He. subst op.
  apply (proj1 (forallb_forall _ _) Hb) in Hx. by destruct a.
Defined.

(** The server comes up after the baseline attempts: the run connects, reads 50 and
    ends with the [TypeError]. *)
Lemma chaos_without_baseline_witness :
  let '(o, w') := demo_main (warmed ++ refusals 10 ++ idled ++ stats_reply 50) in
  o = Ret 2 /\ exists before, out (st w') = before ++ internal_error none_plus_int.
Proof.
  unfold demo_main. set (w := fresh _).
  assert (exists w1, prelude demo_chaos (str "https") (str "server") (str "8443") (str "1") 8 64 [str "idle"] w = (Ret (fzero, None), w1))
    as [w1 Hp] by (eexists; vm_compute; reflexivity).
  assert (H := chaos_without_baseline demo_chaos (str "https") (str "server") (str "8443") (str "1") 8 64 (str "idle") [] fzero w w1 Hp).
  destruct (main _ _ _ _ _ _ _ _ w) as [o w'] eqn:E. destruct H as (seg & Et & _ & H). apply H.
  assert (length (trace w1) = 42%nat) as Hl.
  { change w1 with (snd (@Ret (spec_float * option (option Z)) (fzero, None), w1)). rewrite <- Hp. vm_compute. reflexivity. }
  assert (seg = skipn 42 (trace w')) as ->.
  { rewrite Et, <- Hl. by rewrite drop_app_length. }
  exists (firstn 6 (skipn 42 (trace w'))), (skipn 6 (skipn 42 (trace w'))), 50.
  split; [by rewrite firstn_skipn|]. exists [], (str "100 200 50"), 100, 200. split; [vm_compute; reflexivity|].
  change w' with (snd (o, w')). rewrite <- E. vm_compute. reflexivity.
Defined.

(** ** The pool *)

Lemma parse_name_ok repr l acc lines enabled :
  io_fold (parse_name repr) l acc = (lines, Ok enabled) -> NoDup acc -> Forall (fun s => s ∈ ALL) acc ->
  lines = [] /\ NoDup enabled /\ Forall (fun s => s ∈ ALL) enabled.
Proof.
  revert acc lines. induction l as [|name l IH]; intros acc lines; cbn [io_fold]; [by intros [= <- <-]|].
  unfold parse_name at 1. destruct (decide (strip name = [])); [|destruct (decide (strip name ∉ ALL)) as [|Hin]; [done|]].
  - unfold io_bind, io_ret. destruct (io_fold _ l acc) as [ls r] eqn:E. intros [= <- ->] ? ?. by eapply IH.
  - apply dec_stable in Hin. destruct (decide (strip name ∉ acc)) as [Hnew|].
    + unfold io_bind, io_ret. destruct (io_fold _ l _) as [ls r] eqn:E. intros [= <- ->] Hnd Hall.
      eapply IH; [done|apply NoDup_app|apply Forall_app; split; [done|by apply Forall_singleton]].
      split; [done|]. split; [set_solver|apply NoDup_singleton].
    + unfold io_bind, io_ret. destruct (io_fold _ l acc) as [ls r] eqn:E. intros [= <- ->] ? ?. by eapply IH.
Qed.

(** Two lists of distinct elements that contain each other. *)
Lemma Permutation_check {A} `{EqDecision A} (l r : list A) :
  bool_decide (NoDup l /\ NoDup r) && forallb (fun x => bool_decide (x ∈ r)) l && forallb (fun x => bool_decide (x ∈ l)) r = true ->
  Permutation l r.
Proof.
  intros H. apply andb_prop in H as [H Hr]. apply andb_prop in H as [Hn Hl]. apply bool_decide_eq_true in Hn as [Hnl Hnr].
  rewrite forallb_forall in Hl, Hr. apply NoDup_Permutation; [done|done|]. intros x. rewrite !list_elem_of_In.
  split; intros Hx; [apply Hl in Hx|apply Hr in Hx]; by apply bool_decide_eq_true, list_elem_of_In in Hx.
Qed.

(** C34: every enabled style can be picked and run.  A [VORTEX_CHAOS] that parses
    prints nothing and gives distinct styles of the catalog; every entry of the
    pool built from them, whatever the workload, is a behaviour of the table; and
    the [mixed] pool of all styles is the whole table, each entry once. *)
Theorem pool_is_runnable lower_uni repr raw lines enabled cfg u_scheme u_host u_port :
  parse_behaviors lower_uni repr raw = (lines, Ok enabled) ->
  lines = [] /\ NoDup enabled /\ Forall (fun s => s ∈ ALL) enabled /\
  Forall (fun key => is_Some (behavior cfg u_scheme u_host u_port key)) (build_pool cfg u_scheme u_host u_port enabled) /\
  (WORKLOAD cfg = str "mixed" ->
   Permutation (build_pool cfg u_scheme u_host u_port ALL) (map fst (BEHAVIORS cfg u_scheme u_host u_port))).
Proof.
  intros Hp.
  assert (lines = [] /\ NoDup enabled /\ Forall (fun s => s ∈ ALL) enabled) as (-> & Hnd & Hall).
  { unfold parse_behaviors in Hp. destruct (decide (_ \/ _)); [by injection Hp as <- <-; repeat constructor|].
    destruct (decide (_ = str "all")).
    - injection Hp as <- <-. split; [done|]. split; [by apply (bool_decide_unpack _); vm_compute|].
      apply Forall_forall. auto.
    - eapply parse_name_ok; [exact Hp|constructor|constructor]. }
  split; [done|]. split; [done|]. split; [done|].
  assert (forall key, key ∈ map fst (BEHAVIORS cfg u_scheme u_host u_port) -> is_Some (behavior cfg u_scheme u_host u_port key)) as Hb.
  { intros key Hk. unfold behavior. destruct (List.find _ _) as [kb|] eqn:E; [by eexists|].
    exfalso. apply list_elem_of_In, in_map_iff in Hk as (kb & <- & Hin).
    apply (List.find_none _ _ E) in Hin. by rewrite bool_decide_eq_true_2 in Hin. }
  split.
  - apply Forall_forall. intros key Hin. apply Hb. unfold build_pool in Hin. apply list_elem_of_In, in_flat_map in Hin as (style & Hs & Hk).
    rewrite Forall_forall in Hall. apply list_elem_of_In, Hall in Hs. unfold style_pool in Hk. destruct Hk as [<-|Hk].
    + unfold ALL in Hs. apply list_elem_of_In in Hs.
      repeat (destruct Hs as [<-|Hs]; [apply list_elem_of_In; cbn; tauto|]). done.
    + destruct (decide (WORKLOAD cfg = str "mixed")); [apply filter_In in Hk as [Hk _]; by apply list_elem_of_In|].
      destruct (decide ((style, WORKLOAD cfg) ∈ _)) as [Hd|]; [|done]. destruct Hk as [<-|[]]. exact Hd.
  - intros Hm. unfold build_pool, style_pool. rewrite Hm. apply Permutation_check. vm_compute. reflexivity.
Qed.

Lemma pool_is_runnable_witness :
  let '(lines, r) := parse_behaviors id id (str " Vanish, idle,,vanish") in
  r = Ok [str "vanish"; str "idle"] /\ lines = [] /\
  Forall (fun key => is_Some (behavior demo_chaos (str "https") [] [] key))
    (build_pool demo_chaos (str "https") [] [] [str "vanish"; str "idle"]).
Proof.
  destruct (pool_is_runnable id id (str " Vanish, idle,,vanish") [] [str "vanish"; str "idle"] demo_chaos (str "https") [] []
    ltac:(vm_compute; reflexivity)) as (_ & _ & _ & H & _).
  split; [reflexivity|]. split; [reflexivity|exact H].
Defined.
