(* ===== verification/ConfClient.v ===== *)
(** * The WebSocket-over-HTTP/3 conformance client

    [conformance/h3websocket/client.py]: the protocol object [WsClient], its
    methods, the [run*] cases and [main], as coroutines against a scripted
    environment ([Coro]).

    The object is a record and the state of the coroutine.  It changes in two
    ways: by the methods, and by the QUIC events the event loop hands to
    [quic_event_received] while a method awaits.  So the answer to an await
    carries the events delivered meanwhile, each with the HTTP/3 events aioquic's
    [handle_event] made of it; everything else aioquic does is an answer too. *)
From S2P Require Import Prelude PyFloat PyDouble Coro WsFrame H3Client.
#[local] Open Scope Z_scope.
#[local] Open Scope coro_scope.

Definition H3_NO_ERROR : Z := 256.

(** ** Events *)

(** QUIC events: the one kind the client looks at, and the rest. *)
Inductive quic_ev := StopSendingReceived (sid code : Z) | OtherQuic.

(** One call of [quic_event_received]: the event, and what
    [self._http.handle_event(event)] returned. *)
Abbreviation delivery := (quic_ev * list h3_event)%type (only parsing).

(** [b.decode()]: strict UTF-8; [None] is the [UnicodeDecodeError]. *)
Definition in_range (lo hi c : Z) : bool := (lo <=? c) && (c <=? hi).
Definition cont (c : Z) : bool := in_range 128 191 c.

Fixpoint decode_strict (s : list Z) : option (list Z) :=
  match s with
  | [] => Some []
  | b0 :: s1 =>
      if b0 <? 128 then cons b0 <$> decode_strict s1
      else if in_range 194 223 b0 then
        match s1 with
        | b1 :: s2 => if cont b1 then cons ((b0 - 192) * 64 + (b1 - 128)) <$> decode_strict s2 else None
        | _ => None
        end
      else if in_range 224 239 b0 then
        match s1 with
        | b1 :: b2 :: s3 =>
            if in_range (if b0 =? 224 then 160 else 128) (if b0 =? 237 then 159 else 191) b1 && cont b2
            then cons ((b0 - 224) * 4096 + (b1 - 128) * 64 + (b2 - 128)) <$> decode_strict s3 else None
        | _ => None
        end
      else if in_range 240 244 b0 then
        match s1 with
        | b1 :: b2 :: b3 :: s4 =>
            if in_range (if b0 =? 240 then 144 else 128) (if b0 =? 244 then 143 else 191) b1 && cont b2 && cont b3
            then cons ((b0 - 240) * 262144 + (b1 - 128) * 4096 + (b2 - 128) * 64 + (b3 - 128)) <$> decode_strict s4
            else None
        | _ => None
        end
      else None
  end.

(** ** The object *)

Record wsclient := WsClient {
  c_http : bool;                          (** [_http is not None] *)
  c_sid : option Z;
  c_status : option (list Z);
  c_headers : list (list Z * list Z);
  c_data : list Z;
  c_got_headers : bool;
  c_got_data : bool;
  c_stops : gmap Z Z;
  c_got_stop : bool }.

(** [__init__] *)
Definition new_client : wsclient := WsClient false None None [] [] false false ∅ false.

Definition ensure_http (c : wsclient) : wsclient :=
  WsClient true (c_sid c) (c_status c) (c_headers c) (c_data c) (c_got_headers c) (c_got_data c) (c_stops c) (c_got_stop c).
Definition with_headers (hs : list (list Z * list Z)) (status : option (list Z)) (got : bool) (c : wsclient) : wsclient :=
  WsClient (c_http c) (c_sid c) status hs (c_data c) got (c_got_data c) (c_stops c) (c_got_stop c).
Definition with_data (d : list Z) (got : bool) (c : wsclient) : wsclient :=
  WsClient (c_http c) (c_sid c) (c_status c) (c_headers c) d (c_got_headers c) got (c_stops c) (c_got_stop c).
Definition with_stops (stops : gmap Z Z) (got : bool) (c : wsclient) : wsclient :=
  WsClient (c_http c) (c_sid c) (c_status c) (c_headers c) (c_data c) (c_got_headers c) (c_got_data c) stops got.
(** The assignments of [open_ws] for a new stream. *)
Definition reset_stream (sid : Z) (c : wsclient) : wsclient :=
  WsClient (c_http c) (Some sid) None [] [] false false (c_stops c) (c_got_stop c).

(** [for k, v in e.headers: if k == b":status": self._status = v.decode()]: the
    status it leaves, and whether the loop ended (a [decode] may raise). *)
Fixpoint read_status_fields (hs : list (list Z * list Z)) (status : option (list Z)) : option (list Z) * bool :=
  match hs with
  | [] => (status, true)
  | (k, v) :: hs' =>
      if decide (k = str ":status")
      then match decode_strict v with
           | Some s => read_status_fields hs' (Some s)
           | None => (status, false)
           end
      else read_status_fields hs' status
  end.

(** The body of the loop over the HTTP/3 events; [false] when it raised. *)
Definition on_h3_event (c : wsclient) (e : h3_event) : wsclient * bool :=
  match e with
  | HeadersReceived sid hs _ =>
      if decide (c_sid c = Some sid) then
        let '(status, ok) := read_status_fields hs (c_status c) in
        (with_headers (aupdate [] hs) status (ok || c_got_headers c) c, ok)
      else (c, true)
  | DataReceived sid d _ =>
      if decide (c_sid c = Some sid) then (with_data (c_data c ++ d) true c, true) else (c, true)
  | OtherH3 _ => (c, true)
  end.

Fixpoint on_h3_events (c : wsclient) (es : list h3_event) : wsclient * bool :=
  match es with
  | [] => (c, true)
  | e :: es' => let '(c', ok) := on_h3_event c e in if ok : bool then on_h3_events c' es' else (c', false)
  end.

Definition quic_event_received (c : wsclient) (d : delivery) : wsclient * bool :=
  let c := ensure_http c in
  let c := match d.1 with
           | StopSendingReceived sid code => with_stops (<[sid := code]> (c_stops c)) true c
           | OtherQuic => c
           end in
  on_h3_events c d.2.

(** The event loop logs an exception of the callback and goes on with the next
    event. *)
Definition deliver (evs : list delivery) (c : wsclient) : wsclient :=
  fold_left (fun c d => (quic_event_received c d).1) evs c.

(** ** The conversation *)

Inductive latch := GotHeaders | GotData | GotStop.

Definition is_set (l : latch) (c : wsclient) : bool :=
  match l with GotHeaders => c_got_headers c | GotData => c_got_data c | GotStop => c_got_stop c end.

Inductive cop :=
| Connect (host : list Z) (port : Z)         (** entry of [client_ctx(host, port)] *)
| Disconnect                                 (** its exit *)
| NextStreamId
| SendHeaders (sid : Z) (headers : list (list Z * list Z))
| SendData (sid : option Z) (data : list Z)
| SendFin (sid : Z)                          (** [send_stream_data(sid, b"", end_stream=True)] *)
| Transmit
| LoopTime
| WaitFor (l : latch) (timeout : spec_float). (** [wait_for(l.wait(), timeout)] *)

Inductive canswer :=
| AConnected (evs : list delivery)
| ASid (sid : Z)
| ADone
| ATime (t : spec_float)
| AWoken (evs : list delivery)               (** events delivered, then the latch woke the waiter *)
| ATimeout (evs : list delivery)             (** events delivered, then [TimeoutError] *)
| ARaise (e : exn).

Definition read_connected (a : canswer) : option (res (list delivery)) :=
  match a with AConnected evs => Some (Ok evs) | ARaise e => Some (Raise e) | _ => None end.
Definition read_sid (a : canswer) : option (res Z) := match a with ASid n => Some (Ok n) | _ => None end.
Definition read_done (a : canswer) : option (res unit) :=
  match a with ADone => Some (Ok tt) | ARaise e => Some (Raise e) | _ => None end.
Definition read_time (a : canswer) : option (res spec_float) := match a with ATime t => Some (Ok t) | _ => None end.
Definition read_wait (a : canswer) : option (res (list delivery * bool)) :=
  match a with
  | AWoken evs => Some (Ok (evs, true))
  | ATimeout evs => Some (Ok (evs, false))
  | ARaise e => Some (Raise e)
  | _ => None
  end.

(** The state of a run: the connection's object, and what was printed. *)
Record cstate := CState { cl : wsclient; out : list (list Z); err : list (list Z) }.

Abbreviation conf := (coro cop canswer cstate) (only parsing).

Definition update (f : wsclient -> wsclient) : conf unit := modify (fun s => CState (f (cl s)) (out s) (err s)).
Definition self : conf wsclient := let! s := get in ret (cl s).
Definition say (line : list Z) : conf unit := modify (fun s => CState (cl s) (out s ++ [line]) (err s)).
Definition say_err (line : list Z) : conf unit := modify (fun s => CState (cl s) (out s) (err s ++ [line])).
Definition loop_time : conf spec_float := perform LoopTime read_time.

(** A script that wakes a waiter whose latch is not set is not a run. *)
Definition stuck {R} : conf R := fun w => (Wait, w).

Definition wait_for (l : latch) (timeout : spec_float) : conf unit :=
  let! (evs, woken) := perform (WaitFor l timeout) read_wait in
  update (deliver evs);;
  let! c := self in
  if woken : bool then if is_set l c then ret tt else stuck else throw (TimeoutError []).

(** ** The methods *)

Definition ws_handshake (authority path : list Z) (subprotocols : list (list Z)) (version : list Z)
  : list (list Z * list Z) :=
  [(str ":method", str "CONNECT"); (str ":scheme", str "https"); (str ":authority", encode authority);
   (str ":path", encode path); (str ":protocol", str "websocket")]
  ++ (if decide (version = []) then [] else [(str "sec-websocket-version", version)])
  ++ (if decide (subprotocols = []) then []
      else [(str "sec-websocket-protocol", encode (join (str ", ") subprotocols))]).

Definition open_ws (authority path : list Z) (subprotocols : list (list Z)) (pipelined : list Z) (fin : bool)
  (version : list Z) : conf (option (list Z)) :=
  update ensure_http;;
  let! sid := perform NextStreamId read_sid in
  update (reset_stream sid);;
  perform (SendHeaders sid (ws_handshake authority path subprotocols version)) read_done;;
  (if decide (pipelined = []) then ret tt else perform (SendData (Some sid) pipelined) read_done);;
  (if fin then perform (SendFin sid) read_done else ret tt);;
  perform Transmit read_done;;
  wait_for GotHeaders (flit 5 0);;
  let! c := self in
  ret (c_status c).

Definition option_text (n : option Z) : list Z := match n with Some n => dec n | None => str "None" end.

(** One round of the [while] loop of [stop_sending]. *)
Definition stop_round (sid : option Z) (deadline : spec_float) : conf (unit + Z) :=
  let! c := self in
  match sid ≫= (fun s => c_stops c !! s) with
  | Some code => ret (inr code)
  | None =>
      update (fun c => with_stops (c_stops c) false c);;
      let! now := loop_time in
      let remaining := fsub deadline now in
      if fge fzero remaining then throw (TimeoutError (str "no STOP_SENDING on stream " ++ option_text sid))
      else wait_for GotStop remaining;; ret (inl tt)
  end.

Definition stop_sending (sid : option Z) (timeout : Z) : conf Z :=
  let! now := loop_time in
  iter (fun _ => stop_round sid (fadd now (flit timeout 0))) tt.

Definition resp_header (name : list Z) : conf (list Z) :=
  let! c := self in ret (default [] (aget (c_headers c) name)).

Definition send_raw (data : list Z) : conf unit :=
  let! c := self in
  perform (SendData (c_sid c) data) read_done;;
  perform Transmit read_done.

Definition send_ws (opcode : Z) (payload : list Z) : conf unit :=
  let! f := lift (Conf.ws_frame opcode payload true) in send_raw f.

(** One round of the [while] loop of [recv_ws]. *)
Definition recv_round (want : Z) (deadline : spec_float) : conf (unit + list frame) :=
  let! c := self in
  let! (frames, consumed) := lift (Conf.parse_ws (c_data c)) in
  if want <=? len frames then
    update (fun c => with_data (drop (Z.to_nat consumed) (c_data c)) (c_got_data c) c);;
    ret (inr frames)
  else
    update (fun c => with_data (c_data c) false c);;
    let! now := loop_time in
    let remaining := fsub deadline now in
    if fge fzero remaining
    then throw (TimeoutError (str "recv_ws: got " ++ dec (len frames) ++ str "/" ++ dec want))
    else wait_for GotData remaining;; ret (inl tt).

Definition recv_ws (want : Z) (timeout : Z) : conf (list frame) :=
  let! now := loop_time in
  iter (fun _ => recv_round want (fadd now (flit timeout 0))) tt.

(** ** Texts of the failure messages *)

Definition hex_digit (n : Z) : Z := if n <? 10 then 48 + n else 87 + n.

(** [repr(b)] for [bytes] *)
Definition bytes_repr (b : list Z) : list Z :=
  let q := if bool_decide (39 ∈ b) && negb (bool_decide (34 ∈ b)) then 34 else 39 in
  [98; q] ++ flat_map (fun c =>
    if (c =? q) || (c =? 92) then [92; c]
    else if c =? 9 then str "\t" else if c =? 10 then str "\n" else if c =? 13 then str "\r"
    else if (32 <=? c) && (c <? 127) then [c]
    else str "\x" ++ [hex_digit (c / 16); hex_digit (c mod 16)]) b ++ [q].

(** [str((opcode, payload))] *)
Definition frame_text (f : frame) : list Z := str "(" ++ dec f.1 ++ str ", " ++ bytes_repr f.2 ++ str ")".

(** [f"{n:#x}"] *)
Fixpoint hex_digits (fuel : nat) (n : Z) (acc : list Z) : list Z :=
  match fuel with
  | O => acc
  | S f => let acc' := hex_digit (n mod 16) :: acc in if n <? 16 then acc' else hex_digits f (n / 16) acc'
  end.
Definition hex (n : Z) : list Z :=
  (if n <? 0 then [45] else []) ++ str "0x" ++ hex_digits (S (Z.to_nat (Z.log2 (Z.abs n)))) (Z.abs n) [].

(** ** The cases *)

Section Cases.
(** [repr] of a [str] and of an exception, and the command line. *)
Context (repr : list Z -> list Z) (repr_exn : exn -> list Z) (host : list Z) (port : Z).

Definition status_repr (s : option (list Z)) : list Z := match s with Some s => repr s | None => str "None" end.

(** [assert ok, msg] *)
Definition assert_ (ok : bool) (msg : list Z) : conf unit := if ok then ret tt else throw (AssertionError msg).

(** [async with client_ctx(host, port) as client: body] *)
Definition with_client {R} (body : conf R) : conf R :=
  let! evs := perform (Connect host port) read_connected in
  update (fun _ => deliver evs new_client);;
  finally body (perform Disconnect read_done).

(** [(await client.recv_ws())[0]] *)
Definition recv_first : conf frame :=
  let! frames := recv_ws 1 5 in
  match frames with
  | f :: _ => ret f
  | [] => throw (IndexError (str "list index out of range"))
  end.

Definition expect_status (want : list Z) (status : option (list Z)) (label : list Z) : conf unit :=
  assert_ (bool_decide (status = Some want)) (label ++ status_repr status).

Definition run_coalesced : conf unit :=
  with_client (
    let! pipelined := lift (Conf.ws_frame OP_TEXT (str "coalesced") true) in
    let! status := open_ws (str "server") (str "/") [] pipelined false (str "13") in
    expect_status (str "200") status (str "handshake status ");;
    let! fr := recv_first in
    assert_ (bool_decide (fr = (OP_TEXT, str "coalesced"))) (str "coalesced echo: " ++ frame_text fr);;
    say (str "coalesced handshake + frame OK")).

Definition run_early_fin : conf unit :=
  with_client (
    let! status := open_ws (str "server") (str "/") [] [] true (str "13") in
    expect_status (str "200") status (str "handshake status ");;
    let! fr := recv_first in
    assert_ (fr.1 =? OP_CLOSE) (str "close after pre-accept FIN: " ++ frame_text fr);;
    say (str "half-close before accept OK")).

(** [0.7] *)
Definition f0_7 : spec_float := flit 3152519739159347 (-52).

Definition run_async_send : conf unit :=
  with_client (
    let! status := open_ws (str "server") (str "/") [] [] false (str "13") in
    expect_status (str "200") status (str "handshake status ");;
    let! started := loop_time in
    send_ws OP_TEXT (str "later");;
    let! fr := recv_first in
    let! now := loop_time in
    let elapsed := fsub now started in
    assert_ (bool_decide (fr = (OP_TEXT, str "later"))) (str "deferred reply: " ++ frame_text fr);;
    assert_ (flt elapsed f0_7) (str "deferred reply stalled " ++ fixed 2 elapsed ++ str "s on the wire");;
    say (str "deferred (async) send OK in " ++ fixed 2 elapsed ++ str "s")).

(** One of the 600 further refusals. *)
Definition refusal (i : Z) : conf unit :=
  let! status := open_ws (str "server") (str "/") [] [] false [] in
  expect_status (str "426") status (str "refusal " ++ dec i ++ str ": status ");;
  let! c := self in
  stop_sending (c_sid c) 5;;
  ret tt.

Definition run_bad_version : conf unit :=
  with_client (
    let! pipelined := lift (Conf.ws_frame OP_TEXT (str "early") true) in
    let! status := open_ws (str "server") (str "/") [] pipelined false [] in
    expect_status (str "426") status (str "version-less handshake status ");;
    let! offered := resp_header (str "sec-websocket-version") in
    assert_ (bool_decide (offered = str "13")) (str "426 must name the version: " ++ bytes_repr offered);;
    let! c := self in
    let! code := stop_sending (c_sid c) 5 in
    assert_ (code =? H3_NO_ERROR) (str "STOP_SENDING code " ++ hex code ++ str " after a 426");;
    for_each (seqZ 0 600) (fun _ i => refusal i) tt;;
    let! status := open_ws (str "server") (str "/") [] [] false (str "13") in
    expect_status (str "200") status (str "handshake after a refusal: ");;
    send_ws OP_TEXT (str "after-426");;
    let! fr := recv_first in
    assert_ (bool_decide (fr = (OP_TEXT, str "after-426"))) (str "echo after a refusal: " ++ frame_text fr);;
    say (str "version-less Extended CONNECT refused 426 + STOP_SENDING(H3_NO_ERROR), 600 more refusals, connection OK")).

(** [client.send_ws(op, p); assert (await client.recv_ws())[0] == want, ...] *)
Definition echo_case (opcode : Z) (payload : list Z) (want : frame) (msg : frame -> list Z) (line : list Z) : conf unit :=
  send_ws opcode payload;;
  let! fr := recv_first in
  assert_ (bool_decide (fr = want)) (msg fr);;
  say line.

(** The [async with] block of [run]. *)
Definition run_session : conf unit :=
  with_client (
    let! status := open_ws (str "server") (str "/") [str "chat"; str "json"] [] false (str "13") in
    expect_status (str "200") status (str "handshake status ");;
    say (str "handshake 200 OK");;
    echo_case OP_TEXT (str "hello") (OP_TEXT, str "hello") (fun _ => str "text echo") (str "text echo OK");;
    echo_case OP_BINARY [0; 1; 2; 255] (OP_BINARY, [0; 1; 2; 255]) (fun _ => str "binary echo") (str "binary echo OK");;
    echo_case OP_PING (str "pingpayload") (OP_PONG, str "pingpayload")
      (fun fr => str "ping/pong: " ++ frame_text fr) (str "ping/pong OK");;
    echo_case OP_TEXT (str "proto?") (OP_TEXT, str "chat") (fun _ => str "subprotocol") (str "subprotocol OK");;
    let! f1 := lift (Conf.ws_frame OP_TEXT (str "Hel") false) in
    let! f2 := lift (Conf.ws_frame 0 (str "lo!") true) in
    send_raw (f1 ++ f2);;
    let! fr := recv_first in
    assert_ (bool_decide (fr = (OP_TEXT, str "Hello!"))) (str "fragmented");;
    say (str "fragmented message OK");;
    send_ws OP_CLOSE [3; 232];;
    let! fr := recv_first in
    assert_ (fr.1 =? OP_CLOSE) (str "close echo: " ++ frame_text fr);;
    say (str "close handshake OK")).

Definition run : conf unit :=
  run_session;;
  run_coalesced;;
  run_early_fin;;
  run_async_send;;
  run_bad_version;;
  say (str "RESULT: all HTTP/3 WebSocket cases passed.").

(** [main], from the parsed command line on. *)
Definition main : conf unit :=
  catch run (fun e =>
    if is_Exception e
    then Some (say_err (str "RESULT: FAILED: " ++ repr_exn e);; throw (SystemExit 1))
    else None).
End Cases.
