(* ===== verification/ConfProofs.v ===== *)
(** * What the conformance client's verdict rests on

    Theorems about [ConfClient].  The reference is the conversation itself: from
    the trace of a run one reads off which streams were opened ([opened]), what
    was written on each ([written]), and which events arrived ([arrived]), hence
    the bytes, statuses, header fields and STOP_SENDING codes the server sent.
    The object's buffer, dictionaries and latches must implement that. *)
From S2P Require Import Prelude PyFloat PyDouble Coro WsFrame H3Client ConfClient.
#[local] Open Scope Z_scope.
#[local] Open Scope coro_scope.

(** ** The conversation as the specification *)

Abbreviation talk := (list (cop * canswer)) (only parsing).

Definition arrived (tr : talk) : list (quic_ev * list h3_event) :=
  flat_map (fun oa => match oa.2 with AConnected evs | AWoken evs | ATimeout evs => evs | _ => [] end) tr.

Definition opened (tr : talk) : list Z :=
  flat_map (fun oa => match oa with (NextStreamId, ASid sid) => [sid] | _ => [] end) tr.

(** What was sent on one stream, in order. *)
Inductive outgoing := OHeaders (hs : list (list Z * list Z)) | OData (d : list Z) | OFin.

Definition written (sid : Z) (tr : talk) : list outgoing :=
  flat_map (fun oa => match oa with
                      | (SendHeaders s hs, ADone) => if decide (s = sid) then [OHeaders hs] else []
                      | (SendData (Some s) d, ADone) => if decide (s = sid) then [OData d] else []
                      | (SendFin s, ADone) => if decide (s = sid) then [OFin] else []
                      | _ => []
                      end) tr.

(** A response whose [:status] is not UTF-8 stops the handling of its event. *)
Definition decodable (hs : list (list Z * list Z)) : bool := (read_status_fields hs None).2.

Definition accepts (sid : Z) (e : h3_event) : bool :=
  match e with HeadersReceived s hs _ => negb (bool_decide (s = sid)) || decodable hs | _ => true end.

Fixpoint accepted (sid : Z) (es : list h3_event) : list h3_event :=
  match es with
  | [] => []
  | e :: es' => if accepts sid e then e :: accepted sid es' else []
  end.

Definition event_bytes (sid : Z) (e : h3_event) : list Z :=
  match e with DataReceived s d _ => if decide (s = sid) then d else [] | _ => [] end.

(** The DATA of one stream, in order. *)
Definition stream_bytes (sid : Z) (evs : list (quic_ev * list h3_event)) : list Z :=
  flat_map (fun d => flat_map (event_bytes sid) (accepted sid d.2)) evs.

(** A HEADERS event on [sid] with these fields arrived. *)
Definition headers_sent (sid : Z) (hs : list (list Z * list Z)) (evs : list (quic_ev * list h3_event)) : Prop :=
  exists d ended, d ∈ evs /\ HeadersReceived sid hs ended ∈ d.2.

Definition status_sent (sid : Z) (s : list Z) (evs : list (quic_ev * list h3_event)) : Prop :=
  exists hs v, headers_sent sid hs evs /\ (str ":status", v) ∈ hs /\ decode_strict v = Some s.

Definition stop_sent (sid code : Z) (evs : list (quic_ev * list h3_event)) : Prop :=
  StopSendingReceived sid code ∈ map fst evs.

(** The code of the last STOP_SENDING of each stream. *)
Definition stops_after (evs : list (quic_ev * list h3_event)) (stops : gmap Z Z) : gmap Z Z :=
  fold_left (fun m d => match d.1 with StopSendingReceived sid code => <[sid := code]> m | OtherQuic => m end) evs stops.

Lemma stops_after_app e1 e2 m : stops_after (e1 ++ e2) m = stops_after e2 (stops_after e1 m).
Proof. apply fold_left_app. Qed.

Lemma stops_after_sent evs m sid code :
  stops_after evs m !! sid = Some code -> m !! sid = Some code \/ stop_sent sid code evs.
Proof.
  unfold stop_sent. revert m. induction evs as [|[q es] evs IH]; intros m; cbn; [auto|].
  intros [H|H]%IH; [|right; by right]. destruct q as [s c|]; cbn in H; [|auto].
  apply lookup_insert_Some in H as [[-> ->]|[_ H]]; [right; by left|auto].
Qed.

Lemma arrived_app t1 t2 : arrived (t1 ++ t2) = arrived t1 ++ arrived t2.
Proof. apply flat_map_app. Qed.

Lemma opened_app t1 t2 : opened (t1 ++ t2) = opened t1 ++ opened t2.
Proof. apply flat_map_app. Qed.

Lemma written_app sid t1 t2 : written sid (t1 ++ t2) = written sid t1 ++ written sid t2.
Proof. apply flat_map_app. Qed.

Lemma stream_bytes_app sid e1 e2 : stream_bytes sid (e1 ++ e2) = stream_bytes sid e1 ++ stream_bytes sid e2.
Proof. apply flat_map_app. Qed.

Lemma headers_sent_mono sid hs e1 e2 : e1 ⊆ e2 -> headers_sent sid hs e1 -> headers_sent sid hs e2.
Proof. intros Hs (d & en & Hd & He). exists d, en. auto. Qed.

Lemma status_sent_mono sid s e1 e2 : e1 ⊆ e2 -> status_sent sid s e1 -> status_sent sid s e2.
Proof. intros Hs (hs & v & Hh & Hv). exists hs, v. split; [by eapply headers_sent_mono|done]. Qed.

Lemma stop_sent_mono sid code e1 e2 : e1 ⊆ e2 -> stop_sent sid code e1 -> stop_sent sid code e2.
Proof.
  unfold stop_sent. intros Hs H. apply list_elem_of_fmap in H as (d & E & Hd).
  apply list_elem_of_fmap. exists d. auto.
Qed.

Lemma sub_l {A} (l k : list A) : l ⊆ l ++ k.
Proof. intros x Hx. apply elem_of_app. auto. Qed.

Lemma sub_r {A} (l k : list A) : k ⊆ l ++ k.
Proof. intros x Hx. apply elem_of_app. auto. Qed.

Create HintDb talk.
Create Rewrite HintDb talk.
#[local] Hint Rewrite arrived_app opened_app written_app stream_bytes_app : talk.
#[local] Hint Resolve sub_l sub_r headers_sent_mono status_sent_mono stop_sent_mono : talk.

(** ** The events implement the specification *)

(** What a stretch of the conversation does to the object, while the stream
    [sid] is the current one and [b] is what was taken from the buffer. *)
Record effect (sid : Z) (c : wsclient) (b : list Z) (evs : list (quic_ev * list h3_event)) (c' : wsclient) : Prop := Effect {
  eff_sid : c_sid c' = Some sid;
  eff_data : c_data c ++ stream_bytes sid evs = b ++ c_data c';
  eff_status : c_status c' = c_status c \/ exists s, c_status c' = Some s /\ status_sent sid s evs;
  eff_headers : c_headers c' = c_headers c \/ exists hs, c_headers c' = aupdate [] hs /\ headers_sent sid hs evs;
  eff_stops : c_stops c' = stops_after evs (c_stops c) }.

Lemma effect_refl sid c : c_sid c = Some sid -> effect sid c [] [] c.
Proof. intros H. split; auto. cbn. by rewrite app_nil_r. Qed.

Lemma effect_trans sid c b e c' b' e' c'' :
  effect sid c b e c' -> effect sid c' b' e' c'' -> effect sid c (b ++ b') (e ++ e') c''.
Proof.
  intros [H1 H2 H3 H4 H5] [K1 K2 K3 K4 K5]. split.
  - done.
  - rewrite stream_bytes_app, app_assoc, H2, <- app_assoc, K2, app_assoc. done.
  - destruct K3 as [-> |(s & Es & Hs)]; [|right; eauto with talk].
    destruct H3 as [|(s & Es & Hs)]; [by left|right; eauto with talk].
  - destruct K4 as [-> |(s & Es & Hs)]; [|right; eauto with talk].
    destruct H4 as [|(s & Es & Hs)]; [by left|right; eauto with talk].
  - by rewrite K5, H5, stops_after_app.
Qed.

(** A status the loop over the header fields leaves comes from a field. *)
Lemma read_status_spec hs st :
  let '(s, ok) := read_status_fields hs st in
  ok = decodable hs /\
  (s = st \/ exists v s', s = Some s' /\ (str ":status", v) ∈ hs /\ decode_strict v = Some s').
Proof.
  unfold decodable. revert st. assert (forall st st', (read_status_fields hs st).2 = (read_status_fields hs st').2) as Hind.
  { induction hs as [|[k v] hs IH]; intros st st'; cbn [read_status_fields]; [done|].
    destruct (decide _); [|apply IH]. destruct (decode_strict v); [apply IH|done]. }
  intros st. destruct (read_status_fields hs st) as [s ok] eqn:E. split; [by rewrite (Hind None st), E|].
  clear Hind. revert st E. induction hs as [|[k v] hs IH]; intros st; cbn [read_status_fields].
  - intros [= <- <-]. by left.
  - destruct (decide (k = str ":status")) as [-> |_].
    + destruct (decode_strict v) as [s0|] eqn:Ed; [|intros [= <- <-]; by left].
      intros [-> |(v' & s' & -> & Hv & Hs)]%IH; right.
      * exists v, s0. split; [done|]. split; [by left|done].
      * exists v', s'. split; [done|]. split; [by right|done].
    + intros [-> |(v' & s' & -> & Hv & Hs)]%IH; [by left|right].
      exists v', s'. split; [done|]. split; [by right|done].
Qed.

(** One HTTP/3 event of a delivery [d]. *)
Lemma on_h3_event_effect sid c d e :
  c_sid c = Some sid -> e ∈ d.2 ->
  let '(c', ok) := on_h3_event c e in
  c_sid c' = Some sid /\ c_stops c' = c_stops c /\
  c_data c' = c_data c ++ event_bytes sid e /\
  ok = accepts sid e /\
  (c_status c' = c_status c \/ exists s, c_status c' = Some s /\ status_sent sid s [d]) /\
  (c_headers c' = c_headers c \/ exists hs, c_headers c' = aupdate [] hs /\ headers_sent sid hs [d]).
Proof.
  intros Hs He. destruct e as [s hs en|s bs en|s]; cbn [on_h3_event event_bytes accepts].
  - rewrite Hs. destruct (decide (Some sid = Some s)) as [[= ->]|Hne].
    + assert (H := read_status_spec hs (c_status c)). destruct (read_status_fields hs (c_status c)) as [st ok].
      destruct H as [-> Hst]. cbn. assert (headers_sent s hs [d]) as Hh by (exists d, en; split; [by left|done]).
      repeat split; try done.
      * by rewrite app_nil_r.
      * by rewrite bool_decide_eq_true_2.
      * destruct Hst as [-> |(v & s' & -> & Hv & Hd)]; [by left|]. right. exists s'. split; [done|]. by exists hs, v.
      * right. by exists hs.
    + rewrite (bool_decide_eq_false_2 (s = sid)) by congruence. cbn.
      rewrite app_nil_r. auto 10.
  - rewrite Hs.
    destruct (decide (Some sid = Some s)) as [[= ->]|Hne].
    + rewrite decide_True by done. cbn. auto 10.
    + rewrite decide_False by congruence. cbn. rewrite app_nil_r. auto 10.
  - rewrite app_nil_r. auto 10.
Qed.

Lemma event_bytes_rejected sid e : accepts sid e = false -> event_bytes sid e = [].
Proof. by destruct e. Qed.

Lemma on_h3_events_effect sid c d es :
  c_sid c = Some sid -> es ⊆ d.2 ->
  let '(c', _) := on_h3_events c es in
  c_sid c' = Some sid /\ c_stops c' = c_stops c /\
  c_data c' = c_data c ++ flat_map (event_bytes sid) (accepted sid es) /\
  (c_status c' = c_status c \/ exists s, c_status c' = Some s /\ status_sent sid s [d]) /\
  (c_headers c' = c_headers c \/ exists hs, c_headers c' = aupdate [] hs /\ headers_sent sid hs [d]).
Proof.
  revert c. induction es as [|e es IH]; intros c Hs Hsub; cbn [on_h3_events accepted].
  - cbn. rewrite app_nil_r. auto 10.
  - assert (He : e ∈ d.2) by (apply Hsub; by left).
    assert (H := on_h3_event_effect sid c d e Hs He). destruct (on_h3_event c e) as [c1 ok].
    destruct H as (H1 & H2 & H3 & Hok & H4 & H5). rewrite <- Hok. destruct ok.
    + assert (H := IH c1 H1 ltac:(intros x Hx; apply Hsub; by right)).
      destruct (on_h3_events c1 es) as [c2 ok2]. destruct H as (K1 & K2 & K3 & K4 & K5). cbn [flat_map].
      split; [done|]. split; [congruence|]. split; [by rewrite K3, H3, app_assoc|]. split.
      * destruct K4 as [-> |]; auto.
      * destruct K5 as [-> |]; auto.
    + cbn [flat_map]. rewrite (event_bytes_rejected sid e) in H3 by done. auto 10.
Qed.

Lemma quic_event_effect sid c d :
  c_sid c = Some sid -> effect sid c [] [d] (quic_event_received c d).1.
Proof.
  intros Hs. unfold quic_event_received.
  set (c1 := match d.1 with StopSendingReceived _ _ => _ | OtherQuic => _ end).
  assert (H := on_h3_events_effect sid c1 d d.2).
  assert (c_sid c1 = Some sid /\ c_data c1 = c_data c /\ c_status c1 = c_status c /\ c_headers c1 = c_headers c)
    as (H1 & H2 & H3 & H4) by (unfold c1; by destruct d.1).
  specialize (H H1 ltac:(done)). destruct (on_h3_events c1 d.2) as [c2 ok]. destruct H as (K1 & K2 & K3 & K4 & K5).
  rewrite H2 in K3. rewrite H3 in K4. rewrite H4 in K5. cbn. split; try done.
  - cbn. rewrite app_nil_r. by rewrite K3.
  - rewrite K2. unfold c1. by destruct d as [[s' code'|] es].
Qed.

Lemma deliver_effect sid c evs : c_sid c = Some sid -> effect sid c [] evs (deliver evs c).
Proof.
  revert c. induction evs as [|d evs IH]; intros c Hs; [by apply effect_refl|].
  assert (H := quic_event_effect sid c d Hs). change (d :: evs) with ([d] ++ evs).
  exact (effect_trans _ _ [] _ _ [] _ _ H (IH _ (eff_sid _ _ _ _ _ H))).
Qed.

(** ** Typed scripts: what arrives as DATA is bytes *)

Definition wf_event (e : h3_event) : Prop := match e with DataReceived _ d _ => wf_bytes d | _ => True end.

Definition typed (a : canswer) : Prop :=
  match a with AConnected evs | AWoken evs | ATimeout evs => Forall (fun d => Forall wf_event d.2) evs | _ => True end.

#[local] Instance wf_event_dec e : Decision (wf_event e).
Proof. destruct e; cbn; apply _. Defined.

#[local] Instance typed_dec a : Decision (typed a).
Proof. destruct a; cbn; apply _. Defined.

Lemma accepted_sub sid es : accepted sid es ⊆ es.
Proof.
  induction es as [|e es IH]; cbn [accepted]; [done|]. destruct (accepts sid e); [|set_solver].
  intros x [-> |H]%elem_of_cons; [by left|right; auto].
Qed.

Lemma wf_flat_map {X} (f : X -> list Z) l : Forall (fun x => wf_bytes (f x)) l -> wf_bytes (flat_map f l).
Proof. induction 1; cbn [flat_map]; [constructor|by apply Forall_app]. Qed.

Lemma wf_stream_bytes sid seg : Forall typed (map snd seg) -> wf_bytes (stream_bytes sid (arrived seg)).
Proof.
  intros H. apply wf_flat_map, Forall_forall. intros d Hd. apply wf_flat_map, Forall_forall. intros e He.
  apply accepted_sub in He. apply list_elem_of_In, in_flat_map in Hd as ([o a] & Hin & Hd).
  assert (typed a) as Ha.
  { rewrite Forall_forall in H. apply H, list_elem_of_In, in_map_iff. by exists (o, a). }
  assert (wf_event e) as Hw.
  { destruct a; cbn in Hd, Ha; try done; rewrite Forall_forall in Ha;
      specialize (Ha d ltac:(by apply list_elem_of_In)); rewrite Forall_forall in Ha; by apply Ha. }
  destruct e; cbn; [constructor| |constructor]. destruct (decide _); [exact Hw|constructor].
Qed.

(** ** The methods *)

(** A stretch of conversation that opens no stream. *)
Record stretch (sid : Z) (s : cstate) (b : list Z) (seg : talk) (s' : cstate) : Prop := Stretch {
  str_effect : effect sid (cl s) b (arrived seg) (cl s');
  str_opened : opened seg = [] }.

Lemma stretch_refl sid s : c_sid (cl s) = Some sid -> stretch sid s [] [] s.
Proof. intros H. split; [by apply effect_refl|done]. Qed.

Lemma stretch_trans sid s b seg s' b' seg' s'' :
  stretch sid s b seg s' -> stretch sid s' b' seg' s'' -> stretch sid s (b ++ b') (seg ++ seg') s''.
Proof.
  intros [H1 H2] [K1 K2]. split; [rewrite arrived_app; by eapply effect_trans|].
  by rewrite opened_app, H2, K2.
Qed.

Lemma stretch_sid sid s b seg s' : stretch sid s b seg s' -> c_sid (cl s') = Some sid.
Proof. intros [[H _ _ _ _] _]. exact H. Qed.

Lemma stretch_wf sid s b seg s' :
  stretch sid s b seg s' -> Forall typed (map snd seg) -> wf_bytes (c_data (cl s)) -> wf_bytes (c_data (cl s')).
Proof.
  intros [[_ H _ _ _] _] Ht Hw. assert (wf_bytes (b ++ c_data (cl s'))) as Hb.
  { rewrite <- H. apply Forall_app. split; [done|by apply wf_stream_bytes]. }
  by apply Forall_app in Hb as [_ Hb].
Qed.

(** An operation that brings no event and opens no stream. *)
Lemma stretch_one sid s o a :
  c_sid (cl s) = Some sid -> arrived [(o, a)] = [] -> opened [(o, a)] = [] -> stretch sid s [] [(o, a)] s.
Proof. intros Hs Ha Ho. split; [rewrite Ha; by apply effect_refl|done]. Qed.

Lemma runs_self P s : P [] s (Ret (cl s)) -> runs typed self P s.
Proof. intros H. unfold self. apply runs_bind, runs_get, runs_ret. exact H. Qed.

Lemma runs_update f P s : P [] (CState (f (cl s)) (out s) (err s)) (Ret tt) -> runs typed (update f) P s.
Proof. intros H. unfold update. apply (runs_modify typed (fun s => CState (f (cl s)) (out s) (err s))). exact H. Qed.

(** Nothing is written while waiting or reading. *)
Definition silent (seg : talk) : Prop := forall sid, written sid seg = [].

Lemma silent_app t1 t2 : silent t1 -> silent t2 -> silent (t1 ++ t2).
Proof. intros H1 H2 sid. by rewrite written_app, H1, H2. Qed.

Lemma silent_nil : silent [].
Proof. done. Qed.

#[local] Hint Resolve silent_app silent_nil stretch_refl stretch_trans stretch_sid : talk.

Lemma loop_time_runs (P : talk -> cstate -> outcome spec_float -> Prop) s :
  P [] s Wait -> (forall t, P [(LoopTime, ATime t)] s (Ret t)) -> runs typed loop_time P s.
Proof.
  intros HW HP. apply runs_perform; [done|]. intros a r _ E. destruct a; cbn in E; try done. injection E as <-. apply HP.
Qed.

Lemma wait_for_runs l timeout s sid :
  c_sid (cl s) = Some sid ->
  runs typed (wait_for l timeout) (fun seg s' o =>
    stretch sid s [] seg s' /\ silent seg /\ out s' = out s /\ err s' = err s /\
    match o with
    | Ret _ => is_set l (cl s') = true
    | Exc e => (exists evs, seg = [(WaitFor l timeout, ATimeout evs)] /\ e = TimeoutError []) \/ seg = [(WaitFor l timeout, ARaise e)]
    | Wait => True
    end) s.
Proof.
  intros Hs. unfold wait_for. apply runs_bind, runs_perform; [by eauto 8 with talk|].
  intros a r _ Er. destruct a as [evs|n| |t|evs|evs|e]; cbn in Er; simplify_eq.
  - apply runs_bind, runs_update, runs_bind, runs_self. cbn [app].
    assert (stretch sid s [] [(WaitFor l timeout, AWoken evs)] (CState (deliver evs (cl s)) (out s) (err s))) as H.
    { split; [|done]. cbn. rewrite app_nil_r. by apply deliver_effect. }
    destruct (is_set l _) eqn:El; [by apply runs_ret; cbn [app]|].
    intros w Ew L. exists []. cbn. by rewrite app_nil_r, Ew.
  - apply runs_bind, runs_update, runs_bind, runs_self, runs_throw. cbn [app].
    assert (stretch sid s [] [(WaitFor l timeout, ATimeout evs)] (CState (deliver evs (cl s)) (out s) (err s))) as H.
    { split; [|done]. cbn. rewrite app_nil_r. by apply deliver_effect. }
    split; [done|]. split; [done|]. split; [done|]. split; [done|]. left. by exists evs.
  - split; [by apply stretch_one|]. repeat (split; [done|]). by right.
Qed.

(** The tail of a round of both polling loops: clear the latch, read the clock,
    give up or wait for the latch. *)
Lemma poll_round {R} (clear : wsclient -> wsclient) l deadline e s sid :
  c_sid (cl s) = Some sid -> effect sid (cl s) [] [] (clear (cl s)) ->
  runs typed (update clear;; let! now := loop_time in
              if fge fzero (fsub deadline now) then throw e
              else wait_for l (fsub deadline now);; ret (inl tt : unit + R)) (fun seg s' o =>
    silent seg /\ out s' = out s /\ err s' = err s /\ stretch sid s [] seg s' /\
    match o with Ret (inr _) => False | _ => True end) s.
Proof.
  intros Hs Hc. apply runs_bind, runs_update. set (s1 := CState (clear (cl s)) (out s) (err s)).
  assert (stretch sid s [] [] s1) as H0 by done.
  apply runs_bind, loop_time_runs; [done|]. intros t. cbn [app].
  assert (stretch sid s [] [(LoopTime, ATime t)] s1) as H1.
  { exact (stretch_trans _ _ _ _ _ [] _ _ H0 (stretch_one _ _ LoopTime (ATime t) (stretch_sid _ _ _ _ _ H0) eq_refl eq_refl)). }
  destruct (fge fzero (fsub deadline t)); [by apply runs_throw|].
  apply runs_bind. eapply runs_mono; [apply (wait_for_runs l _ s1 sid); by eauto with talk|].
  intros seg2 s3 o _ (K1 & K2 & K3 & K4 & _).
  assert (H2 := stretch_trans _ _ _ _ _ _ _ _ H1 K1). assert (silent ([(LoopTime, ATime t)] ++ seg2)) by (by apply silent_app).
  destruct o; [apply runs_ret| |]; rewrite ?app_nil_r; auto 10.
Qed.

(** A polling loop: [done] leaves it, on a state reached by a silent stretch. *)
Lemma poll_loop {R} (body : spec_float -> unit -> conf (unit + R)) (P : talk -> cstate -> outcome R -> Prop) s sid :
  c_sid (cl s) = Some sid ->
  (forall seg s' o, match o with Ret _ => False | _ => True end ->
     silent seg -> out s' = out s -> err s' = err s -> stretch sid s [] seg s' -> P seg s' o) ->
  (forall t0 seg s1, Forall typed (map snd seg) -> silent seg -> out s1 = out s -> err s1 = err s -> stretch sid s [] seg s1 ->
     runs typed (body t0 tt) (fun seg' s' o =>
       match o with
       | Ret (inr r) => P (seg ++ seg') s' (Ret r)
       | _ => silent seg' /\ out s' = out s1 /\ err s' = err s1 /\ stretch sid s1 [] seg' s'
       end) s1) ->
  runs typed (let! t0 := loop_time in iter (body t0) tt) P s.
Proof.
  intros Hs HE Hb. apply runs_bind, loop_time_runs; [apply HE; auto with talk; done|]. intros t0.
  apply runs_iter with (I := fun _ seg s' =>
    silent ([(LoopTime, ATime t0)] ++ seg) /\ out s' = out s /\ err s' = err s /\
    stretch sid s [] ([(LoopTime, ATime t0)] ++ seg) s').
  - repeat (split; [done|]). by apply stretch_one.
  - intros x seg s1 Ht (H1 & H2 & H3 & H4). by apply HE.
  - intros [] seg s1 Ht (H1 & H2 & H3 & H4). eapply runs_mono; [apply Hb; [|exact H1|done..]|].
    { by constructor. }
    intros seg' s' o _ H. rewrite app_assoc in *.
    assert (silent seg' /\ out s' = out s1 /\ err s' = err s1 /\ stretch sid s1 [] seg' s' ->
      silent (([(LoopTime, ATime t0)] ++ seg) ++ seg') /\ out s' = out s /\ err s' = err s /\
      stretch sid s [] (([(LoopTime, ATime t0)] ++ seg) ++ seg') s') as Hstep.
    { intros (K1 & K2 & K3 & K4). split; [by apply silent_app|]. split; [congruence|]. split; [congruence|].
      exact (stretch_trans _ _ _ _ _ _ _ _ H4 K4). }
    destruct o as [[[]|r]|e|]; [by rewrite ?app_assoc; apply Hstep|exact H| |];
      apply Hstep in H as (K1 & K2 & K3 & K4); by apply HE.
Qed.

(** The buffer is a queue of bytes: [recv_ws] takes all complete frames from its
    front, at least [want] of them, or leaves it alone. *)
Lemma recv_ws_runs want timeout s sid :
  c_sid (cl s) = Some sid -> wf_bytes (c_data (cl s)) ->
  runs typed (recv_ws want timeout) (fun seg s' o =>
    silent seg /\ out s' = out s /\ err s' = err s /\
    match o with
    | Ret fs => exists b, stretch sid s b seg s' /\ Conf.parse_ws b = Ok (fs, len b) /\
                          Conf.parse_ws (c_data (cl s')) = Ok ([], 0) /\ want <= len fs
    | _ => stretch sid s [] seg s'
    end) s.
Proof.
  intros Hs Hw. eapply (poll_loop (fun now _ => recv_round want (fadd now (flit timeout 0)))); [exact Hs|by intros ? ? [] |].
  intros t0 seg s1 Ht Hq Ho He H4. unfold recv_round.
  assert (wf_bytes (c_data (cl s1))) as Hw1 by (by eapply stretch_wf).
  apply runs_bind, runs_self, runs_bind, runs_lift.
  destruct (Conf.parse_ws (c_data (cl s1))) as [[fs n]|e] eqn:Ep; [|cbn [app]; by eauto 10 with talk].
  assert (Hn := parse_buf_consumed Conf.ext _ _ _ _ Hw1 Ep). destruct Hn as (Hn & Hrest & _).
  destruct (Z.leb_spec want (len fs)) as [Hle|Hlt].
  - apply runs_bind, runs_update, runs_ret. rewrite !app_nil_r. cbn [cl out err].
    repeat (split; [done|]). exists (take (Z.to_nat n) (c_data (cl s1))).
    split; [|split; [|split; [exact Hrest|done]]].
    + destruct H4 as [[E1 E2 E3 E4 E5] Hop]. split; [|done]. split; try done.
      cbn [c_data with_data cl]. rewrite E2. cbn [app]. by rewrite take_drop.
    + rewrite len_take. rewrite Z2Nat.id, Z.min_l by lia. by apply (parse_buf_take Conf.ext).
  - eapply runs_mono; [apply (poll_round _ GotData _ _ s1 sid); [by eauto with talk|]|].
    + split; auto; [exact (stretch_sid _ _ _ _ _ H4)|]. cbn. by rewrite app_nil_r.
    + intros seg' s' o _ (K1 & K2 & K3 & K4 & K5). destruct o as [[|]|e'|]; done.
Qed.

Lemma stop_sending_runs want timeout s sid :
  c_sid (cl s) = Some sid ->
  runs typed (stop_sending want timeout) (fun seg s' o =>
    silent seg /\ out s' = out s /\ err s' = err s /\ stretch sid s [] seg s' /\
    match o with
    | Ret code => exists n, want = Some n /\ c_stops (cl s') !! n = Some code
    | _ => True
    end) s.
Proof.
  intros Hs. eapply (poll_loop (fun now _ => stop_round want (fadd now (flit timeout 0)))); [exact Hs|by intros ? ? [] |].
  intros t0 seg s1 Ht Hq Ho He H4. unfold stop_round.
  apply runs_bind, runs_self. destruct (want ≫= (fun n => c_stops (cl s1) !! n)) as [code|] eqn:Ec.
  { apply runs_ret. rewrite !app_nil_r. destruct want as [n|]; [|done]. eauto 10. }
  eapply runs_mono; [apply (poll_round _ GotStop _ _ s1 sid); [by eauto with talk|]|].
  - split; auto; [exact (stretch_sid _ _ _ _ _ H4)|]. cbn. by rewrite app_nil_r.
  - intros seg' s' o _ (K1 & K2 & K3 & K4 & K5). destruct o as [[|]|e'|]; done.
Qed.

(** ** Runs that return *)

Definition passing {R} (m : conf R) (P : talk -> cstate -> R -> Prop) (s : cstate) : Prop :=
  runs typed m (fun seg s' o => match o with Ret r => Forall typed (map snd seg) -> P seg s' r | _ => True end) s.

Lemma passing_bind {R R'} (m : conf R) (k : R -> conf R') P s :
  passing m (fun seg s1 r => passing (k r) (fun seg' => P (seg ++ seg')) s1) s -> passing (bind m k) P s.
Proof.
  intros H. apply runs_bind. eapply runs_mono; [exact H|]. intros seg s1 [r|e|] Ht H1; [|done|done].
  eapply runs_mono; [exact (H1 Ht)|]. intros seg2 s2 [r2|e|] Ht2 H2; [|done|done]. intros _. by apply H2.
Qed.

Lemma passing_mono {R} (m : conf R) (P Q : talk -> cstate -> R -> Prop) s :
  passing m P s -> (forall seg s' r, Forall typed (map snd seg) -> P seg s' r -> Q seg s' r) -> passing m Q s.
Proof.
  intros H HPQ. eapply runs_mono; [exact H|]. intros seg s' [r|e|] Ht; [|done|done]. auto.
Qed.

Lemma passing_ret {R} (r : R) P s : P [] s r -> passing (ret r) P s.
Proof. intros H. by apply runs_ret. Qed.

Lemma passing_lift {R} (x : res R) (P : talk -> cstate -> R -> Prop) s :
  (forall r, x = Ok r -> P [] s r) -> passing (lift x) P s.
Proof. intros H. apply runs_lift. destruct x; [intros _; by apply H|done]. Qed.

Lemma passing_done o P s : (P [(o, ADone)] s tt) -> passing (perform o read_done) P s.
Proof.
  intros H. apply runs_perform; [done|]. intros a r _ E. destruct a; cbn in E; simplify_eq; auto.
Qed.

Lemma passing_update f P s : P [] (CState (f (cl s)) (out s) (err s)) tt -> passing (update f) P s.
Proof. intros H. by apply runs_update. Qed.

Lemma passing_self P s : P [] s (cl s) -> passing self P s.
Proof. intros H. by apply runs_self. Qed.

Lemma passing_say line P s : P [] (CState (cl s) (out s ++ [line]) (err s)) tt -> passing (say line) P s.
Proof.
  intros H. apply (runs_modify typed (fun s => CState (cl s) (out s ++ [line]) (err s))). auto.
Qed.

Lemma passing_assert ok msg P s : (ok = true -> P [] s tt) -> passing (assert_ ok msg) P s.
Proof. intros H. destruct ok; [apply runs_ret; auto|by apply runs_throw]. Qed.

(** ** Dialogues on one stream *)

(** A batch of received bytes whose first frame is as the case wants it. *)
Definition batch_ok (b : list Z) (chk : frame -> Prop) : Prop :=
  exists f fs, Conf.parse_ws b = Ok (f :: fs, len b) /\ chk f.

(** [seg] is the conversation since the stream [sid] was opened on [c0]: the
    status seen, the checks its reads passed and what it sent. *)
Record dialog (sid : Z) (c0 : wsclient) (status : option (list Z)) (chks : list (frame -> Prop)) (wr : list outgoing)
  (seg : talk) (c : wsclient) : Prop := Dialog {
  dia_typed : Forall typed (map snd seg);
  dia_opened : opened seg = [];
  dia_batches : exists bs, effect sid c0 (concat bs) (arrived seg) c /\ Forall2 batch_ok bs chks;
  dia_written : written sid seg = wr;
  dia_status : forall s, status = Some s -> status_sent sid s (arrived seg) }.

Lemma dialog_sid sid c0 st chks wr seg c : dialog sid c0 st chks wr seg c -> c_sid c = Some sid.
Proof. intros [_ _ (bs & [H _ _ _ _] & _) _ _]. exact H. Qed.

(** The same dialogue, extended. *)
Lemma dialog_extend sid c0 st chks wr seg c bs seg' c' chks' wr' :
  dialog sid c0 st chks wr seg c -> effect sid c (concat bs) (arrived seg') c' -> opened seg' = [] ->
  Forall typed (map snd seg') -> Forall2 batch_ok bs chks' -> written sid seg' = wr' ->
  dialog sid c0 st (chks ++ chks') (wr ++ wr') (seg ++ seg') c'.
Proof.
  intros [H1 H2 (bs0 & H3 & H4) H5 H6] He Ho Ht Hc <-. split.
  - rewrite map_app. by apply Forall_app.
  - by rewrite opened_app, H2, Ho.
  - exists (bs0 ++ bs). rewrite concat_app, arrived_app. split; [by eapply effect_trans|by apply Forall2_app].
  - by rewrite written_app, H5.
  - intros s Es. rewrite arrived_app. eauto with talk.
Qed.

Lemma dialog_quiet sid c0 st chks wr seg c seg' c' :
  dialog sid c0 st chks wr seg c -> effect sid c [] (arrived seg') c' -> opened seg' = [] ->
  Forall typed (map snd seg') -> written sid seg' = [] -> dialog sid c0 st chks wr (seg ++ seg') c'.
Proof.
  intros Hd He Ho Ht Hw. rewrite <- (app_nil_r chks), <- (app_nil_r wr).
  by apply (dialog_extend _ _ _ _ _ _ _ [] _ _ [] [] Hd).
Qed.

Lemma dialog_wf sid c0 st chks wr seg c :
  dialog sid c0 st chks wr seg c -> wf_bytes (c_data c0) -> wf_bytes (c_data c).
Proof.
  intros [H1 H2 (bs & H3 & _) _ _] Hw. eapply (stretch_wf sid (CState c0 [] []) (concat bs) seg (CState c [] [])); [by split|done|done].
Qed.

Lemma expect_200 sid c0 chks wr seg c s :
  dialog sid c0 None chks wr seg c -> c_status c0 = None -> c_status c = Some s -> dialog sid c0 (Some s) chks wr seg c.
Proof.
  intros [H1 H2 (bs & H3 & H4) H5 _] H0 Hs. split; [done|done|by exists bs|done|]. intros s' [= <-].
  destruct H3 as [_ _ [E|(s' & E & Hst)] _ _]; congruence.
Qed.

Lemma send_raw_passes sid c0 st chks wr seg s d :
  dialog sid c0 st chks wr seg (cl s) ->
  passing (send_raw d) (fun seg' s' _ => dialog sid c0 st chks (wr ++ [OData d]) (seg ++ seg') (cl s')) s.
Proof.
  intros Hd. assert (Hs := dialog_sid _ _ _ _ _ _ _ Hd). unfold send_raw.
  apply passing_bind, passing_self, passing_bind, passing_done, passing_done. cbn [app]. rewrite Hs.
  rewrite <- (app_nil_r chks). apply (dialog_extend _ _ _ _ _ _ _ [] _ _ [] _ Hd); try done.
  - by apply effect_refl.
  - repeat constructor.
  - cbn. by rewrite decide_True.
Qed.

Lemma recv_first_passes sid c0 st chks wr seg s :
  dialog sid c0 st chks wr seg (cl s) -> wf_bytes (c_data c0) ->
  passing recv_first (fun seg' s' f =>
    forall chk : frame -> Prop, chk f -> dialog sid c0 st (chks ++ [chk]) wr (seg ++ seg') (cl s')) s.
Proof.
  intros Hd Hw. assert (Hs := dialog_sid _ _ _ _ _ _ _ Hd). unfold recv_first. apply runs_bind.
  eapply runs_mono; [apply (recv_ws_runs 1 5 s sid Hs); by eapply dialog_wf|].
  intros seg' s' o Ht (Hq & _ & _ & H). destruct o as [fs|e|]; [|done|done].
  destruct H as (b & [He Ho] & Hp & _ & Hle). destruct fs as [|f fs]; [by apply runs_throw|]. apply runs_ret.
  rewrite app_nil_r. intros _ chk Hchk. rewrite <- (app_nil_r wr).
  apply (dialog_extend _ _ _ _ _ _ _ [b] _ _ [chk] [] Hd); try done.
  - cbn. by rewrite app_nil_r.
  - repeat constructor. by exists f, fs.
Qed.

(** What [open_ws] sends before it waits. *)
Definition opening (authority path : list Z) (subprotocols : list (list Z)) (pipelined : list Z) (fin : bool)
  (version : list Z) : list outgoing :=
  [OHeaders (ws_handshake authority path subprotocols version)]
  ++ (if decide (pipelined = []) then [] else [OData pipelined]) ++ (if fin then [OFin] else []).

Lemma dialog_start sid c : c_sid c = Some sid -> dialog sid c None [] [] [] c.
Proof. intros H. split; try done. exists []. split; [by apply effect_refl|constructor]. Qed.

(** One answered call that brings no event. *)
Lemma dialog_call sid c0 st chks wr seg c o :
  dialog sid c0 st chks wr seg c -> opened [(o, ADone)] = [] ->
  dialog sid c0 st chks (wr ++ written sid [(o, ADone)]) (seg ++ [(o, ADone)]) c.
Proof.
  intros Hd Ho. rewrite <- (app_nil_r chks). apply (dialog_extend _ _ _ _ _ _ _ [] _ _ [] _ Hd); try done.
  - by apply effect_refl, (dialog_sid _ _ _ _ _ _ _ Hd).
  - by repeat constructor.
Qed.

Lemma written_headers sid hs : written sid [(SendHeaders sid hs, ADone)] = [OHeaders hs].
Proof. cbn. by rewrite decide_True. Qed.

Lemma written_data sid d : written sid [(SendData (Some sid) d, ADone)] = [OData d].
Proof. cbn. by rewrite decide_True. Qed.

Lemma written_fin sid : written sid [(SendFin sid, ADone)] = [OFin].
Proof. cbn. by rewrite decide_True. Qed.

Lemma open_ws_passes authority path subprotocols pipelined fin version s :
  passing (open_ws authority path subprotocols pipelined fin version) (fun seg s' r =>
    exists sid seg', seg = (NextStreamId, ASid sid) :: seg' /\ r = c_status (cl s') /\
      dialog sid (reset_stream sid (ensure_http (cl s))) None [] (opening authority path subprotocols pipelined fin version)
        seg' (cl s')) s.
Proof.
  unfold open_ws, opening. generalize (ws_handshake authority path subprotocols version) as hs. intros hs.
  apply passing_bind, passing_update, passing_bind.
  apply runs_perform; [done|]. intros a r _ E. destruct a as [|sid| | | | |]; cbn in E; simplify_eq. intros _.
  apply passing_bind, passing_update. cbn [cl out err]. set (c0 := reset_stream sid (ensure_http (cl s))).
  assert (Hd := dialog_start sid c0 eq_refl). apply passing_bind, passing_done.
  apply (dialog_call _ _ _ _ _ _ _ (SendHeaders sid hs)) in Hd; [|done]. rewrite written_headers in Hd. cbn [app] in Hd.
  apply passing_bind. apply (passing_mono _ (fun seg1 s1 _ => s1 = CState c0 (out s) (err s) /\
    dialog sid c0 None [] ([OHeaders hs] ++ if decide (pipelined = []) then [] else [OData pipelined])
      ([(SendHeaders sid hs, ADone)] ++ seg1) c0)).
  { destruct (decide (pipelined = [])).
    - apply passing_ret. by rewrite !app_nil_r.
    - apply passing_done. split; [done|]. rewrite <- written_data with (sid := sid). by apply dialog_call. }
  clear Hd. intros seg1 s1 _ _ (-> & Hd). apply passing_bind.
  apply (passing_mono _ (fun seg2 s2 _ => s2 = CState c0 (out s) (err s) /\
    dialog sid c0 None [] ([OHeaders hs] ++ (if decide (pipelined = []) then [] else [OData pipelined]) ++ if fin then [OFin] else [])
      (([(SendHeaders sid hs, ADone)] ++ seg1) ++ seg2) c0)).
  { rewrite app_assoc. destruct fin.
    - apply passing_done. split; [done|]. rewrite <- (written_fin sid). by apply dialog_call.
    - apply passing_ret. by rewrite !app_nil_r. }
  clear Hd. intros seg2 s2 _ _ (-> & Hd). apply passing_bind, passing_done.
  apply (dialog_call _ _ _ _ _ _ _ Transmit) in Hd; [|done]. cbn [written flat_map app] in Hd. rewrite app_nil_r in Hd.
  apply passing_bind. eapply runs_mono; [apply (wait_for_runs GotHeaders _ _ sid); done|].
  intros seg3 s3 o Ht (K1 & K2 & _). destruct o as [r|e|]; [|done|done]. intros _.
  apply passing_bind, passing_self, passing_ret. cbn [app]. rewrite app_nil_r.
  eexists sid, _. split; [reflexivity|]. split; [done|]. destruct K1 as [He Ho].
  assert (H := dialog_quiet _ _ _ _ _ _ _ seg3 (cl s3) Hd He Ho Ht (K2 sid)).
  cbn [app] in H |- *. rewrite <- !app_assoc in H. exact H.
Qed.

Lemma aupdate_In (d items : list (list Z * list Z)) kv : In kv (aupdate d items) -> In kv d \/ In kv items.
Proof.
  revert d. induction items as [|[k v] items IH]; intros d; cbn; [auto|]. unfold aupdate in *. intros [H|H]%IH; [|auto].
  apply aset_In_or in H as [H| ->]; auto.
Qed.

Lemma aget_In (d : list (list Z * list Z)) k v : aget d k = Some v -> In (k, v) d.
Proof.
  induction d as [|[k' v'] d IH]; cbn; [done|]. destruct (decide (k' = k)) as [-> |]; [intros [= ->]; auto|auto].
Qed.

(** A non-empty header field the object knows was sent by the server. *)
Lemma dialog_header sid c0 st chks wr seg c name v :
  dialog sid c0 st chks wr seg c -> c_headers c0 = [] -> default [] (aget (c_headers c) name) = v -> v <> [] ->
  exists hs, headers_sent sid hs (arrived seg) /\ (name, v) ∈ hs.
Proof.
  intros [_ _ (bs & [_ _ _ H _] & _) _ _] H0 Hv Hne. destruct (aget (c_headers c) name) as [v'|] eqn:E; cbn in Hv; [|congruence].
  subst v'. destruct H as [H|(hs & H & Hs)]; [by rewrite H, H0 in E|]. exists hs. split; [done|].
  rewrite H in E. apply aget_In, aupdate_In in E as [[]|E]. by apply list_elem_of_In.
Qed.

Lemma on_h3_events_stops c es : c_stops (on_h3_events c es).1 = c_stops c.
Proof.
  revert c. induction es as [|e es IH]; intros c; cbn [on_h3_events]; [done|].
  assert (c_stops (on_h3_event c e).1 = c_stops c) as H.
  { destruct e; cbn; [|by destruct (decide _)|done]. destruct (decide _); [|done].
    by destruct (read_status_fields _ _). }
  destruct (on_h3_event c e) as [c1 []]; [by rewrite IH|done].
Qed.

Lemma deliver_stops evs c : c_stops (deliver evs c) = stops_after evs (c_stops c).
Proof.
  revert c. induction evs as [|d evs IH]; intros c; [done|]. cbn. unfold deliver in IH. rewrite IH. f_equal.
  unfold quic_event_received. rewrite on_h3_events_stops. by destruct d.1.
Qed.

Lemma stops_known evs stops sid code :
  stops_after evs stops !! sid = Some code -> stops = ∅ -> stop_sent sid code evs.
Proof. intros [H|H]%stops_after_sent; [|done]. by intros ->. Qed.

(** ** The cases, as the conversation shows them *)

(** [chks] are passed, in order, by the first frames of consecutive batches of
    what the server sent on [sid]; [wr] is all the client sent there. *)
Definition conversed (sid : Z) (seg : talk) (status : list Z) (chks : list (frame -> Prop)) (wr : list outgoing) : Prop :=
  opened seg = [] /\ status_sent sid status (arrived seg) /\ written sid seg = wr /\
  exists batches rest, stream_bytes sid (arrived seg) = concat batches ++ rest /\ Forall2 batch_ok batches chks.

Lemma dialog_conversed sid c0 s chks wr seg c :
  dialog sid c0 (Some s) chks wr seg c -> c_data c0 = [] -> conversed sid seg s chks wr.
Proof.
  intros [_ H1 (bs & [_ E _ _ _] & H2) H3 H4] H0. split; [done|]. split; [by apply H4|]. split; [done|].
  exists bs, (c_data c). rewrite H0 in E. by split.
Qed.

Definition client_frame (opcode : Z) (payload : list Z) (fin : bool) : list Z :=
  match Conf.ws_frame opcode payload fin with Ok f => f | Raise _ => [] end.

Definition is_frame (want : frame) (f : frame) : Prop := f = want.
Definition is_close (f : frame) : Prop := f.1 = OP_CLOSE.

Section Cases.
Context (repr : list Z -> list Z) (repr_exn : exn -> list Z) (host : list Z) (port : Z).

(** One connection: its handshake events and what was said on it. *)
Definition connection (t : talk) (evs : list (quic_ev * list h3_event)) (body : talk) : Prop :=
  t = (Connect host port, AConnected evs) :: body ++ [(Disconnect, ADone)].

Definition one_stream (t : talk) (chks : list (frame -> Prop)) (wr : list outgoing) : Prop :=
  exists evs sid seg, connection t evs ((NextStreamId, ASid sid) :: seg) /\ conversed sid seg (str "200") chks wr.

Definition main_case (t : talk) : Prop :=
  one_stream t
    [is_frame (OP_TEXT, str "hello"); is_frame (OP_BINARY, [0; 1; 2; 255]); is_frame (OP_PONG, str "pingpayload");
     is_frame (OP_TEXT, str "chat"); is_frame (OP_TEXT, str "Hello!"); is_close]
    (opening (str "server") (str "/") [str "chat"; str "json"] [] false (str "13")
     ++ [OData (client_frame OP_TEXT (str "hello") true); OData (client_frame OP_BINARY [0; 1; 2; 255] true);
         OData (client_frame OP_PING (str "pingpayload") true); OData (client_frame OP_TEXT (str "proto?") true);
         OData (client_frame OP_TEXT (str "Hel") false ++ client_frame 0 (str "lo!") true);
         OData (client_frame OP_CLOSE [3; 232] true)]).

Definition coalesced_case (t : talk) : Prop :=
  one_stream t [is_frame (OP_TEXT, str "coalesced")]
    (opening (str "server") (str "/") [] (client_frame OP_TEXT (str "coalesced") true) false (str "13")).

Definition early_fin_case (t : talk) : Prop :=
  one_stream t [is_close] (opening (str "server") (str "/") [] [] true (str "13")).

(** The reply arrived within 0.7 s of the clock reading before the send. *)
Definition async_case (t : talk) : Prop :=
  exists evs sid g1 g2 t0 t1,
    connection t evs ((NextStreamId, ASid sid) :: g1 ++ (LoopTime, ATime t0) :: g2 ++ [(LoopTime, ATime t1)]) /\
    conversed sid (g1 ++ (LoopTime, ATime t0) :: g2) (str "200") [is_frame (OP_TEXT, str "later")]
      (opening (str "server") (str "/") [] [] false (str "13") ++ [OData (client_frame OP_TEXT (str "later") true)]) /\
    written sid g1 = opening (str "server") (str "/") [] [] false (str "13") /\
    flt (fsub t1 t0) f0_7 = true.

(** A stream refused with 426 and STOP_SENDING. *)
Definition refused (evs : list (quic_ev * list h3_event)) (sid : Z) : Prop :=
  status_sent sid (str "426") evs /\ exists code, stop_sent sid code evs.

Definition bad_version_case (t : talk) : Prop :=
  exists evs g1 g2 sid0 sids sid1,
    connection t evs (g1 ++ (NextStreamId, ASid sid1) :: g2) /\
    opened g1 = sid0 :: sids /\ length sids = 600%nat /\ Forall (refused (evs ++ arrived g1)) (sid0 :: sids) /\
    stop_sent sid0 H3_NO_ERROR (evs ++ arrived g1) /\
    (exists hs, headers_sent sid0 hs (evs ++ arrived g1) /\ (str "sec-websocket-version", str "13") ∈ hs) /\
    conversed sid1 g2 (str "200") [is_frame (OP_TEXT, str "after-426")]
      (opening (str "server") (str "/") [] [] false (str "13") ++ [OData (client_frame OP_TEXT (str "after-426") true)]).

Definition all_cases (t : talk) : Prop :=
  exists t1 t2 t3 t4 t5, t = t1 ++ t2 ++ t3 ++ t4 ++ t5 /\
    main_case t1 /\ coalesced_case t2 /\ early_fin_case t3 /\ async_case t4 /\ bad_version_case t5.

Lemma passing_with_client {R} (body : conf R) P s :
  (forall evs, passing body (fun seg s' r => P ((Connect host port, AConnected evs) :: seg ++ [(Disconnect, ADone)]) s' r)
                 (CState (deliver evs new_client) (out s) (err s))) ->
  passing (with_client host port body) P s.
Proof.
  intros H. unfold with_client. apply passing_bind, runs_perform; [done|]. intros a r _ E.
  destruct a as [evs| | | | | |]; cbn in E; simplify_eq; [|done]. intros _. apply passing_bind, passing_update. cbn [app].
  apply runs_finally. eapply runs_mono; [exact (H evs)|]. intros seg s' [r|e|] Ht HP; [| |done].
  - apply (runs_mono _ _ (fun seg' s2 o2 => match o2 with Ret _ => seg' = [(Disconnect, ADone)] /\ s2 = s' | _ => True end)).
    + apply runs_perform; [done|]. intros a r0 _ Ea. destruct a; cbn in Ea; simplify_eq; done.
    + intros seg' s2 [[]|e|] Ht2; [|done|done]. intros [-> ->] _. by apply HP.
  - apply (runs_mono _ _ (fun _ _ _ => True)); [apply runs_perform; [done|intros ? [] _ _; done]|]. by intros ? ? [].
Qed.

(** Steps of a case, [g] being the conversation since the stream was opened. *)
Lemma step_open {R} subprotocols pipelined fin version want label (k : conf R) Q s :
  (forall sid g s', dialog sid (reset_stream sid (ensure_http (cl s))) (Some want) []
                      (opening (str "server") (str "/") subprotocols pipelined fin version) g (cl s') ->
     passing k (fun seg => Q ((NextStreamId, ASid sid) :: g ++ seg)) s') ->
  passing (let! status := open_ws (str "server") (str "/") subprotocols pipelined fin version in
           expect_status repr want status label;; k) Q s.
Proof.
  intros H. apply passing_bind. eapply passing_mono; [apply open_ws_passes|].
  intros seg s' r _ (sid & g & -> & -> & Hd). apply passing_bind, passing_assert. intros Hs%bool_decide_eq_true.
  cbn [app]. apply H. by apply expect_200.
Qed.

Lemma step_send {R} sid c0 st chks wr g d (k : unit -> conf R) Q s :
  dialog sid c0 st chks wr g (cl s) ->
  (forall g' s', g `prefix_of` g' -> dialog sid c0 st chks (wr ++ [OData d]) g' (cl s') -> passing (k tt) (fun seg => Q (g' ++ seg)) s') ->
  passing (bind (send_raw d) k) (fun seg => Q (g ++ seg)) s.
Proof.
  intros Hd H. apply passing_bind. eapply passing_mono; [by apply send_raw_passes|].
  intros seg s' [] _ Hd'. eapply passing_mono; [apply H; [by apply prefix_app_r|done]|]. intros seg2 s2 r _. by rewrite app_assoc.
Qed.

Lemma step_send_ws {R} sid c0 st chks wr g opcode payload (k : unit -> conf R) Q s :
  dialog sid c0 st chks wr g (cl s) -> Conf.ws_frame opcode payload true = Ok (client_frame opcode payload true) ->
  (forall g' s', g `prefix_of` g' -> dialog sid c0 st chks (wr ++ [OData (client_frame opcode payload true)]) g' (cl s') ->
     passing (k tt) (fun seg => Q (g' ++ seg)) s') ->
  passing (bind (send_ws opcode payload) k) (fun seg => Q (g ++ seg)) s.
Proof.
  intros Hd Hf H. unfold send_ws. rewrite Hf. cbn [lift].
  exact (step_send _ _ _ _ _ _ _ k Q s Hd H).
Qed.

Lemma step_recv {R} sid c0 st chks wr g (k : frame -> conf R) Q s :
  dialog sid c0 st chks wr g (cl s) -> c_data c0 = [] ->
  (forall g' s' f, g `prefix_of` g' -> (forall chk : frame -> Prop, chk f -> dialog sid c0 st (chks ++ [chk]) wr g' (cl s')) ->
     passing (k f) (fun seg => Q (g' ++ seg)) s') ->
  passing (bind recv_first k) (fun seg => Q (g ++ seg)) s.
Proof.
  intros Hd H0 H. apply passing_bind. eapply passing_mono; [apply (recv_first_passes _ _ _ _ _ _ _ Hd); rewrite H0; constructor|].
  intros seg s' f _ Hd'. eapply passing_mono; [apply (H (g ++ seg) s' f); [by apply prefix_app_r|exact Hd']|]. intros seg2 s2 r _. by rewrite app_assoc.
Qed.

Lemma step_say {R} line (k : unit -> conf R) (Q : talk -> cstate -> R -> Prop) s :
  (forall s', cl s' = cl s -> passing (k tt) Q s') -> passing (bind (say line) k) Q s.
Proof. intros H. apply passing_bind, passing_say. by apply H. Qed.

Lemma step_assert {R} ok msg (k : unit -> conf R) (Q : talk -> cstate -> R -> Prop) s :
  (ok = true -> passing (k tt) Q s) -> passing (bind (assert_ ok msg) k) Q s.
Proof. intros H. apply passing_bind, passing_assert. intros E. by apply H. Qed.

Lemma step_echo {R} sid c0 st chks wr g opcode payload want msg line (k : unit -> conf R) Q s :
  dialog sid c0 st chks wr g (cl s) -> c_data c0 = [] ->
  Conf.ws_frame opcode payload true = Ok (client_frame opcode payload true) ->
  (forall g' s', dialog sid c0 st (chks ++ [is_frame want]) (wr ++ [OData (client_frame opcode payload true)]) g' (cl s') ->
     passing (k tt) (fun seg => Q (g' ++ seg)) s') ->
  passing (bind (echo_case opcode payload want msg line) k) (fun seg => Q (g ++ seg)) s.
Proof.
  intros Hd H0 Hf H. apply passing_bind. unfold echo_case.
  eapply (step_send_ws _ _ _ _ _ _ _ _ _ (fun tot s1 r => passing (k r) (fun seg' => Q (tot ++ seg')) s1)) in Hd; [|exact Hf|].
  - eapply passing_mono; [exact Hd|]. intros seg s1 r _ H1. eapply passing_mono; [exact H1|].
    intros seg2 s2 r2 _. by rewrite app_assoc.
  - clear Hd. intros g1 s1 _ Hd. eapply (step_recv _ _ _ _ _ _ _ (fun tot s1 r => passing (k r) (fun seg' => Q (tot ++ seg')) s1) _ Hd H0).
    clear Hd. intros g2 s2 f _ Hd. apply step_assert. intros Hf2%bool_decide_eq_true. apply passing_say.
    rewrite app_nil_r. apply H. cbn [cl]. by apply Hd.
Qed.

Lemma one_stream_intro evs sid c0 chks wr g c :
  dialog sid c0 (Some (str "200")) chks wr g c -> c_data c0 = [] ->
  one_stream ((Connect host port, AConnected evs) :: ((NextStreamId, ASid sid) :: g) ++ [(Disconnect, ADone)]) chks wr.
Proof. intros Hd H0. exists evs, sid, g. split; [done|]. by eapply dialog_conversed. Qed.

Lemma run_coalesced_passes s : passing (run_coalesced repr host port) (fun t _ _ => coalesced_case t) s.
Proof.
  unfold run_coalesced. apply passing_with_client. intros evs. apply passing_bind, passing_lift. intros pip Hp.
  apply step_open. intros sid g s1 Hd.
  apply (step_recv _ _ _ _ _ _ _ (fun g _ _ => coalesced_case
    ((Connect host port, AConnected evs) :: ((NextStreamId, ASid sid) :: g) ++ [(Disconnect, ADone)])) _ Hd); [done|].
  clear Hd. intros g2 s2 f _ Hd. apply step_assert. intros Hf%bool_decide_eq_true. apply passing_say. rewrite app_nil_r.
  unfold coalesced_case, client_frame. rewrite Hp. by eapply one_stream_intro; [exact (Hd (is_frame _) Hf)|].
Qed.

Lemma run_early_fin_passes s : passing (run_early_fin repr host port) (fun t _ _ => early_fin_case t) s.
Proof.
  unfold run_early_fin. apply passing_with_client. intros evs. apply step_open. intros sid g s1 Hd.
  apply (step_recv _ _ _ _ _ _ _ (fun g _ _ => early_fin_case
    ((Connect host port, AConnected evs) :: ((NextStreamId, ASid sid) :: g) ++ [(Disconnect, ADone)])) _ Hd); [done|].
  clear Hd. intros g2 s2 f _ Hd. apply step_assert. intros Hf%Z.eqb_eq. apply passing_say. rewrite app_nil_r.
  by eapply one_stream_intro; [exact (Hd is_close Hf)|].
Qed.

Lemma run_session_passes s : passing (run_session repr host port) (fun t _ _ => main_case t) s.
Proof.
  unfold run_session. apply passing_with_client. intros evs. apply step_open. intros sid g0 s0 Hd. apply step_say. intros s1 E1. rewrite <- E1 in Hd.
  set (Q := fun (g : talk) (_ : cstate) (_ : unit) => main_case
    ((Connect host port, AConnected evs) :: ((NextStreamId, ASid sid) :: g) ++ [(Disconnect, ADone)])).
  match goal with |- passing ?m _ _ => change (passing m (fun seg => Q (g0 ++ seg)) s1) end.
  eapply (step_echo _ _ _ _ _ _ _ _ _ _ _ _ Q _ Hd); [done|reflexivity|]. clear Hd. intros g2 s2 Hd.
  eapply (step_echo _ _ _ _ _ _ _ _ _ _ _ _ Q _ Hd); [done|reflexivity|]. clear Hd. intros g3 s3 Hd.
  eapply (step_echo _ _ _ _ _ _ _ _ _ _ _ _ Q _ Hd); [done|reflexivity|]. clear Hd. intros g4 s4 Hd.
  eapply (step_echo _ _ _ _ _ _ _ _ _ _ _ _ Q _ Hd); [done|reflexivity|]. clear Hd. intros g5 s5 Hd.
  apply passing_bind, passing_lift. intros f1 Hf1. apply passing_bind, passing_lift. intros f2 Hf2.
  eapply (step_send _ _ _ _ _ _ _ _ Q _ Hd). clear Hd. intros g6 s6 _ Hd.
  eapply (step_recv _ _ _ _ _ _ _ Q _ Hd); [done|]. clear Hd. intros g7 s7 f _ Hd.
  apply step_assert. intros Hf%bool_decide_eq_true. apply (Hd (is_frame (OP_TEXT, str "Hello!"))) in Hf. clear Hd.
  apply step_say. intros s8 E8. rewrite <- E8 in Hf.
  eapply (step_send_ws _ _ _ _ _ _ _ _ _ Q _ Hf); [reflexivity|]. clear Hf. intros g9 s9 _ Hd.
  eapply (step_recv _ _ _ _ _ _ _ Q _ Hd); [done|]. clear Hd. intros g10 s10 f' _ Hd.
  apply step_assert. intros Hf%Z.eqb_eq. apply (Hd is_close) in Hf. clear Hd. apply passing_say. rewrite app_nil_r.
  unfold Q, main_case. rewrite <- !app_assoc in Hf. cbn [app] in Hf.
  assert (f1 = client_frame OP_TEXT (str "Hel") false) as -> by (unfold client_frame; by rewrite Hf1).
  assert (f2 = client_frame 0 (str "lo!") true) as -> by (unfold client_frame; by rewrite Hf2).
  by eapply one_stream_intro.
Qed.

Lemma step_time {R} sid c0 st chks wr g (k : spec_float -> conf R) Q s :
  dialog sid c0 st chks wr g (cl s) ->
  (forall t, dialog sid c0 st chks wr (g ++ [(LoopTime, ATime t)]) (cl s) ->
     passing (k t) (fun seg => Q ((g ++ [(LoopTime, ATime t)]) ++ seg)) s) ->
  passing (bind loop_time k) (fun seg => Q (g ++ seg)) s.
Proof.
  intros Hd H. apply passing_bind, loop_time_runs; [done|]. intros t _.
  apply (passing_mono _ (fun seg => Q ((g ++ [(LoopTime, ATime t)]) ++ seg))).
  - apply H. apply (dialog_quiet _ _ _ _ _ _ _ _ _ Hd); try done.
    + by apply effect_refl, (dialog_sid _ _ _ _ _ _ _ Hd).
    + by repeat constructor.
  - intros seg s' r _. by rewrite <- app_assoc.
Qed.

Lemma run_async_send_passes s : passing (run_async_send repr host port) (fun t _ _ => async_case t) s.
Proof.
  unfold run_async_send. apply passing_with_client. intros evs. apply step_open. intros sid g1 s1 Hd.
  set (Q := fun (g : talk) (_ : cstate) (_ : unit) => async_case
    ((Connect host port, AConnected evs) :: ((NextStreamId, ASid sid) :: g) ++ [(Disconnect, ADone)])).
  match goal with |- passing ?m _ _ => change (passing m (fun seg => Q (g1 ++ seg)) s1) end.
  assert (written sid g1 = opening (str "server") (str "/") [] [] false (str "13")) as Hg1 by apply Hd.
  eapply (step_time _ _ _ _ _ _ _ Q _ Hd). clear Hd. intros t0 Hd.
  eapply (step_send_ws _ _ _ _ _ _ _ _ _ Q _ Hd); [reflexivity|]. clear Hd. intros g2 s2 P2 Hd.
  eapply (step_recv _ _ _ _ _ _ _ Q _ Hd); [done|]. clear Hd. intros g3 s3 f P3 Hd.
  apply passing_bind, loop_time_runs; [done|]. intros t1 _.
  apply step_assert. intros Hf%bool_decide_eq_true. apply step_assert. intros He. apply passing_say. rewrite app_nil_r.
  assert (P4 : g1 ++ [(LoopTime, ATime t0)] `prefix_of` g3) by (by etrans). destruct P4 as [g4 ->].
  unfold Q. apply (Hd (is_frame (OP_TEXT, str "later"))) in Hf.
  exists evs, sid, g1, g4, t0, t1. rewrite <- !app_assoc in Hf |- *. cbn [app] in Hf |- *. split; [|split; [|done]].
  - unfold connection. cbn [app]. do 2 f_equal. rewrite <- !app_assoc. cbn [app]. by rewrite <- !app_assoc.
  - by eapply dialog_conversed.
Qed.

(** *** Refusals *)

Lemma dialog_stops sid c0 st chks wr g c :
  dialog sid c0 st chks wr g c -> c_stops c = stops_after (arrived g) (c_stops c0).
Proof. intros [_ _ (bs & [_ _ _ _ H] & _) _ _]. exact H. Qed.

Lemma step_stop {R} sid c0 st chks wr g (k : Z -> conf R) Q s :
  dialog sid c0 st chks wr g (cl s) ->
  (forall g' s' code, g `prefix_of` g' -> dialog sid c0 st chks wr g' (cl s') -> c_stops (cl s') !! sid = Some code ->
     passing (k code) (fun seg => Q (g' ++ seg)) s') ->
  passing (bind (stop_sending (c_sid (cl s)) 5) k) (fun seg => Q (g ++ seg)) s.
Proof.
  intros Hd H. assert (Hs := dialog_sid _ _ _ _ _ _ _ Hd). rewrite Hs. apply passing_bind.
  eapply runs_mono; [apply (stop_sending_runs (Some sid) 5 s sid Hs)|].
  intros seg s' o Ht (Hq & _ & _ & [He Ho] & Hc). destruct o as [code|e|]; [|done|done]. intros _.
  destruct Hc as (n & [= <-] & Hc).
  apply (passing_mono _ (fun seg' => Q ((g ++ seg) ++ seg'))); [|intros ? ? ? _; by rewrite app_assoc].
  apply H; [by apply prefix_app_r| |done]. by apply (dialog_quiet _ _ _ _ _ _ _ _ _ Hd).
Qed.

(** The streams opened so far on the connection were all refused, and the object
    knows exactly the STOP_SENDINGs that arrived. *)
Definition refusals (evs : list (quic_ev * list h3_event)) (G : talk) (n : nat) (s : cstate) : Prop :=
  length (opened G) = n /\ Forall (refused (evs ++ arrived G)) (opened G) /\
  c_stops (cl s) = stops_after (evs ++ arrived G) ∅.

(** One more refused stream. *)
Lemma refusals_snoc evs G n s sid g wr s' code :
  refusals evs G n s ->
  dialog sid (reset_stream sid (ensure_http (cl s))) (Some (str "426")) [] wr g (cl s') ->
  c_stops (cl s') !! sid = Some code -> refusals evs (G ++ (NextStreamId, ASid sid) :: g) (S n) s'.
Proof.
  intros (H1 & H2 & H3) Hd Hc. assert (Hst := dialog_stops _ _ _ _ _ _ _ Hd). cbn in Hst. rewrite H3 in Hst.
  rewrite <- stops_after_app, <- app_assoc in Hst.
  change ((NextStreamId, ASid sid) :: g) with ([(NextStreamId, ASid sid)] ++ g).
  unfold refusals. rewrite !opened_app, !arrived_app, (dia_opened _ _ _ _ _ _ _ Hd). cbn [app opened flat_map arrived].
  rewrite length_app. cbn. split; [lia|]. split; [|done]. apply Forall_app. split.
  - eapply Forall_impl; [exact H2|]. intros sid' (Hs & code' & Hc'). split.
    + eapply status_sent_mono; [|exact Hs]. set_solver.
    + exists code'. eapply stop_sent_mono; [|exact Hc']. set_solver.
  - repeat constructor.
    + eapply status_sent_mono; [|exact (dia_status _ _ _ _ _ _ _ Hd _ eq_refl)]. set_solver.
    + exists code. rewrite Hst in Hc. by eapply stops_known.
Qed.

Lemma refusal_passes evs G n i s :
  refusals evs G n s -> passing (refusal repr i) (fun seg s' _ => refusals evs (G ++ seg) (S n) s') s.
Proof.
  intros HG. unfold refusal. apply step_open. intros sid g s1 Hd. apply passing_bind, passing_self.
  apply (step_stop _ _ _ _ _ _ _ (fun g s' _ => refusals evs (G ++ (NextStreamId, ASid sid) :: g) (S n) s') _ Hd).
  clear Hd. intros g' s' code _ Hd Hc. apply passing_ret. rewrite app_nil_r. by eapply refusals_snoc.
Qed.

Lemma run_bad_version_passes s : passing (run_bad_version repr host port) (fun t _ _ => bad_version_case t) s.
Proof.
  unfold run_bad_version. apply passing_with_client. intros evs. apply passing_bind, passing_lift. intros pip _.
  apply step_open. intros sid0 g s1 Hd. apply passing_bind. unfold resp_header at 1. apply passing_bind, passing_self, passing_ret.
  apply step_assert. intros Hv%bool_decide_eq_true. apply passing_bind, passing_self.
  set (Q := fun (body : talk) (_ : cstate) (_ : unit) => bad_version_case
    ((Connect host port, AConnected evs) :: body ++ [(Disconnect, ADone)])).
  apply (step_stop _ _ _ _ _ _ _ (fun g => Q ((NextStreamId, ASid sid0) :: g)) _ Hd). intros g' s2 code Hpre Hd2 Hc.
  apply step_assert. intros ->%Z.eqb_eq. set (G := (NextStreamId, ASid sid0) :: g').
  assert (refusals evs G 1 s2) as HG.
  { eapply (refusals_snoc evs [] 0 (CState (deliver evs new_client) (out s) (err s))); [|exact Hd2|exact Hc].
    split; [done|]. split; [constructor|]. cbn. by rewrite deliver_stops, app_nil_r. }
  assert (stop_sent sid0 H3_NO_ERROR (evs ++ arrived G)) as Hstop.
  { destruct HG as (_ & _ & HG). rewrite HG in Hc. by eapply stops_known. }
  assert (exists hs, headers_sent sid0 hs (evs ++ arrived G) /\ (str "sec-websocket-version", str "13") ∈ hs) as Hver.
  { eapply dialog_header in Hd as (hs & Hh & Hin); [|done|exact Hv|done]. exists hs. split; [|done].
    eapply headers_sent_mono; [|exact Hh]. destruct Hpre as [d ->]. unfold G.
    change ((NextStreamId, ASid sid0) :: g ++ d) with ([(NextStreamId, ASid sid0)] ++ g ++ d). rewrite !arrived_app. set_solver. }
  clear Hd Hd2 Hv Hc Hpre. apply passing_bind.
  apply (passing_mono _ (fun seg s' _ => refusals evs (G ++ seg) 601 s')).
  { apply (runs_for_each typed _ _ (fun done _ seg s' => refusals evs (G ++ seg) (S (length done)) s')); [by rewrite app_nil_r| |].
    - intros l i [] seg s' _ _ HI. eapply runs_mono; [apply (refusal_passes _ _ _ i _ HI)|].
      intros seg' s'' [[]|e|] Ht H; [|done|done]. rewrite length_app, app_assoc. cbn. rewrite Nat.add_1_r. by apply H.
    - intros [] seg s' _ HI _. exact HI. }
  intros seg s3 [] _ (HG1 & HG2 & HG3).
  apply step_open. intros sid1 g2 s4 Hd.
  set (Q2 := fun (g : talk) => Q ((G ++ seg) ++ (NextStreamId, ASid sid1) :: g)).
  apply (passing_mono _ (fun seg2 => Q2 (g2 ++ seg2))).
  2:{ intros seg2 s5 r _. unfold Q2, Q, G. cbn [app]. rewrite <- !app_assoc. cbn [app]. by rewrite <- ?app_assoc. }
  eapply (step_send_ws _ _ _ _ _ _ _ _ _ Q2 _ Hd); [reflexivity|]. clear Hd. intros g3 s5 _ Hd.
  eapply (step_recv _ _ _ _ _ _ _ Q2 _ Hd); [done|]. clear Hd. intros g4 s6 f _ Hd.
  apply step_assert. intros Hf%bool_decide_eq_true. apply passing_say. rewrite app_nil_r.
  apply (Hd (is_frame (OP_TEXT, str "after-426"))) in Hf. clear Hd.
  destruct (opened (G ++ seg)) as [|sid' sids] eqn:Eo; [done|].
  assert (sid' = sid0) as -> by (unfold G in Eo; cbn in Eo; congruence).
  assert (arrived G ⊆ arrived (G ++ seg)) as Hsub by (rewrite arrived_app; set_solver).
  exists evs, (G ++ seg), g4, sid0, sids, sid1. split; [done|]. split; [done|]. split; [cbn in HG1; lia|]. split; [done|].
  split; [eapply stop_sent_mono; [|exact Hstop]; set_solver|]. split; [|by eapply dialog_conversed].
  destruct Hver as (hs & Hh & Hin). exists hs. split; [|done]. eapply headers_sent_mono; [|exact Hh]. set_solver.
Qed.

(** *** The whole run *)

Lemma run_passes s : passing (run repr host port) (fun t _ _ => all_cases t) s.
Proof.
  unfold run. apply passing_bind. eapply passing_mono; [apply run_session_passes|]. intros t1 s1 [] _ H1.
  apply passing_bind. eapply passing_mono; [apply run_coalesced_passes|]. intros t2 s2 [] _ H2.
  apply passing_bind. eapply passing_mono; [apply run_early_fin_passes|]. intros t3 s3 [] _ H3.
  apply passing_bind. eapply passing_mono; [apply run_async_send_passes|]. intros t4 s4 [] _ H4.
  apply passing_bind. eapply passing_mono; [apply run_bad_version_passes|]. intros t5 s5 [] _ H5.
  apply passing_say. rewrite app_nil_r. by exists t1, t2, t3, t4, t5.
Qed.
End Cases.

(** C3: exit status 0 of the conformance client means conformance.  Whatever the
    server, the clock and the network do, [main] returns (and the process exits 0)
    only after the five connections on which the server did what the cases ask:
    each handshake answered 200 on the stream the client opened for it, the bytes
    received there starting, batch by batch, with the expected frames after
    exactly the expected frames were sent, the deferred reply within 0.7 s, and
    601 version-less handshakes refused with 426, the first naming version 13 and
    stopped with H3_NO_ERROR, each stopped, before a last echo on the same
    connection.  Any [Exception] ends in exit status 1 after the FAILED line. *)
Theorem conf_verdict repr repr_exn host port w :
  Forall typed (env w) ->
  let '(o, w') := main repr repr_exn host port w in
  exists t, trace w' = trace w ++ t /\
  match o with
  | Ret _ => all_cases host port t
  | Exc e => (exists e', is_Exception e' = true /\ e = SystemExit 1 /\
                         last (err (st w')) = Some (str "RESULT: FAILED: " ++ repr_exn e')) \/
             is_Exception e = false
  | Wait => True
  end.
Proof.
  intros Ht. assert (H := run_passes repr host port (st w) w eq_refl Ht). unfold main, catch.
  destruct (run repr host port w) as [[[]|e|] w1] eqn:E; destruct H as (seg & H1 & H2 & H3 & H4).
  - exists seg. auto.
  - destruct (is_Exception e) eqn:Ee; [|by exists seg; auto]. cbn. exists seg. split; [done|]. left. exists e.
    by rewrite last_snoc.
  - by exists seg.
Qed.

(** *** A conforming server *)

Definition demo_headers (sid : Z) (status : list Z) : quic_ev * list h3_event :=
  (OtherQuic, [HeadersReceived sid [(str ":status", status)] false]).
Definition demo_reply (sid : Z) (f : frame) : list canswer :=
  [ATime fzero; ATime fzero; AWoken [(OtherQuic, [DataReceived sid (Rfc.server_frame f) false])]].
Definition demo_echo (sid : Z) (f : frame) : list canswer := [ADone; ADone] ++ demo_reply sid f.
Definition demo_open (sid calls : Z) : list canswer :=
  [ASid sid] ++ replicate (Z.to_nat calls) ADone ++ [AWoken [demo_headers sid (str "200")]].
Definition demo_refusal (sid calls : Z) : list canswer :=
  [ASid sid] ++ replicate (Z.to_nat calls) ADone
  ++ [AWoken [(StopSendingReceived sid H3_NO_ERROR,
               [HeadersReceived sid [(str ":status", str "426"); (str "sec-websocket-version", str "13")] false])];
      ATime fzero].

Definition demo_script : list canswer :=
  [AConnected []] ++ demo_open 0 2
  ++ flat_map (demo_echo 0) [(OP_TEXT, str "hello"); (OP_BINARY, [0; 1; 2; 255]); (OP_PONG, str "pingpayload");
                             (OP_TEXT, str "chat"); (OP_TEXT, str "Hello!"); (OP_CLOSE, [3; 232])] ++ [ADone]
  ++ [AConnected []] ++ demo_open 0 3 ++ demo_reply 0 (OP_TEXT, str "coalesced") ++ [ADone]
  ++ [AConnected []] ++ demo_open 0 3 ++ demo_reply 0 (OP_CLOSE, [3; 232]) ++ [ADone]
  ++ [AConnected []] ++ demo_open 0 2 ++ [ATime fzero] ++ demo_echo 0 (OP_TEXT, str "later") ++ [ATime (flit 1 (-1)); ADone]
  ++ [AConnected []] ++ demo_refusal 0 3 ++ flat_map (fun i => demo_refusal (4 * i) 2) (seqZ 1 600)
  ++ demo_open 2404 2 ++ demo_echo 2404 (OP_TEXT, str "after-426") ++ [ADone].

Definition demo_world : world cop canswer cstate := World demo_script [] (CState new_client [] []).

Lemma demo_typed : Forall typed demo_script.
Proof. apply (bool_decide_unpack _). vm_compute. exact I. Qed.

Lemma conf_verdict_witness :
  (main (fun s => s) (fun _ => []) (str "server") 4433 demo_world).1 = Ret tt /\
  exists t, all_cases (str "server") 4433 t.
Proof.
  assert (E : (main (fun s => s) (fun _ => []) (str "server") 4433 demo_world).1 = Ret tt) by (vm_compute; reflexivity).
  split; [exact E|].
  assert (H := conf_verdict (fun s => s) (fun _ => []) (str "server") 4433 demo_world demo_typed).
  destruct (main _ _ _ _ demo_world) as [o w']. cbn in E. subst o.
  destruct H as (t & _ & H). exists t. exact H.
Defined.

(** ** The receive queue *)

(** C10: [recv_ws] refines a byte queue.  The abstract state is the sequence of
    bytes the server has sent on the current stream and the client has not
    consumed.  However the bytes are cut into events, and whatever other streams
    and connection events are interleaved, a call that returns takes from the
    front exactly the complete frames, at least [want] of them, and leaves no
    complete frame behind; a call that raises or still waits takes nothing. *)
Theorem recv_ws_queue want timeout w sid :
  Forall typed (env w) -> c_sid (cl (st w)) = Some sid -> wf_bytes (c_data (cl (st w))) ->
  let '(o, w') := recv_ws want timeout w in
  exists seg, trace w' = trace w ++ seg /\ silent seg /\ opened seg = [] /\
  let queue := c_data (cl (st w)) ++ stream_bytes sid (arrived seg) in
  match o with
  | Ret fs => exists b, queue = b ++ c_data (cl (st w')) /\ Conf.parse_ws b = Ok (fs, len b) /\
                        Conf.parse_ws (c_data (cl (st w'))) = Ok ([], 0) /\ want <= len fs
  | _ => c_data (cl (st w')) = queue
  end.
Proof.
  intros Ht Hs Hw. assert (H := recv_ws_runs want timeout (st w) sid Hs Hw w eq_refl Ht).
  destruct (recv_ws want timeout w) as [o w']. destruct H as (seg & H1 & _ & _ & Hq & _ & _ & H2).
  exists seg. split; [done|]. split; [done|]. destruct o as [fs|e|].
  - destruct H2 as (b & [He Ho] & H3). split; [done|]. exists b. split; [apply He|done].
  - destruct H2 as [He Ho]. split; [done|]. symmetry. apply He.
  - destruct H2 as [He Ho]. split; [done|]. symmetry. apply He.
Qed.

(** A script in which the server's frame arrives in two pieces, with a foreign
    stream in between. *)
Definition split_world : world cop canswer cstate :=
  World [ATime fzero; ATime fzero;
         AWoken [(OtherQuic, [DataReceived 4 (take 3 (Rfc.server_frame (OP_TEXT, str "hello"))) false])];
         ATime (flit 1 0);
         AWoken [(OtherQuic, [DataReceived 8 (str "other") false]);
                 (OtherQuic, [DataReceived 4 (drop 3 (Rfc.server_frame (OP_TEXT, str "hello"))) false])]]
        [] (CState (reset_stream 4 new_client) [] []).

Lemma split_world_typed : Forall typed (env split_world).
Proof. apply (bool_decide_unpack _). vm_compute. exact I. Qed.

Lemma recv_ws_queue_witness :
  (recv_ws 1 5 split_world).1 = Ret [(OP_TEXT, str "hello")] /\
  exists seg, trace (recv_ws 1 5 split_world).2 = seg /\ silent seg.
Proof.
  assert (H := recv_ws_queue 1 5 split_world 4 split_world_typed eq_refl (Forall_nil_2 _)).
  split; [vm_compute; reflexivity|]. destruct (recv_ws 1 5 split_world) as [o w'].
  destruct H as (seg & H1 & H2 & _). exists seg. split; [exact H1|exact H2].
Defined.

(** ** The receive loop ends *)

(** The events bring DATA of the stream. *)
Definition wakes (sid : Z) (evs : list (quic_ev * list h3_event)) : Prop :=
  exists d bs en, d ∈ evs /\ DataReceived sid bs en ∈ accepted sid d.2.

Lemma on_h3_event_got c e : c_got_data c = true -> c_got_data (on_h3_event c e).1 = true.
Proof. destruct e; cbn; [|by destruct (decide _)|done]. destruct (decide _); [|done]. by destruct (read_status_fields _ _). Qed.

Lemma on_h3_events_got c es : c_got_data c = true -> c_got_data (on_h3_events c es).1 = true.
Proof.
  revert c. induction es as [|e es IH]; intros c H; cbn [on_h3_events]; [done|].
  apply (on_h3_event_got c e) in H. destruct (on_h3_event c e) as [c1 []]; [by apply IH|done].
Qed.

Lemma on_h3_events_wake sid c es bs en :
  c_sid c = Some sid -> DataReceived sid bs en ∈ accepted sid es -> c_got_data (on_h3_events c es).1 = true.
Proof.
  revert c. induction es as [|e es IH]; intros c Hs; cbn [on_h3_events accepted]; [set_solver|].
  assert (H := on_h3_event_effect sid c (OtherQuic, [e]) e Hs ltac:(by left)).
  destruct (on_h3_event c e) as [c1 ok] eqn:E. destruct H as (H1 & _ & _ & -> & _).
  destruct (accepts sid e) eqn:Ea; [|set_solver]. intros [<- |Hin]%elem_of_cons; [|by apply IH].
  apply on_h3_events_got. cbn in E. rewrite decide_True in E by done. by injection E as <-.
Qed.

Lemma quic_event_got c d : c_got_data c = true -> c_got_data (quic_event_received c d).1 = true.
Proof. intros H. apply on_h3_events_got. by destruct d.1. Qed.

Lemma deliver_got evs c : c_got_data c = true -> c_got_data (deliver evs c) = true.
Proof. revert c. induction evs as [|d evs IH]; intros c H; [done|]. by apply IH, quic_event_got. Qed.

Lemma deliver_wakes sid evs c : c_sid c = Some sid -> wakes sid evs -> c_got_data (deliver evs c) = true.
Proof.
  intros Hs (d & bs & en & Hd & He). revert c Hs. induction evs as [|d' evs IH]; intros c Hs; [set_solver|].
  change (deliver (d' :: evs) c) with (deliver evs (quic_event_received c d').1).
  apply elem_of_cons in Hd as [<- |Hd].
  - apply deliver_got. unfold quic_event_received. eapply on_h3_events_wake; [|exact He]. by destruct d.1.
  - apply (IH Hd). apply (quic_event_effect sid c d' Hs).
Qed.

Lemma recv_round_productive want deadline : productive (fun _ : unit => recv_round want deadline).
Proof.
  intros [] w [] w'. unfold recv_round, self, get, bind at 1 2. cbn [ret].
  destruct (Conf.parse_ws (c_data (cl (st w)))) as [[fs n]|e]; [|done]. unfold lift, bind at 1. cbn [ret].
  destruct (want <=? len fs); [done|]. unfold update, modify. unfold bind at 1. intros H.
  eapply (bind_uses loop_time) in H; [exact H|intros; by eapply perform_uses|]. intros t.
  destruct (fge _ _); [apply keeps_throw, _|].
  apply keeps_bind; [apply _| |intros; apply keeps_ret, _]. unfold wait_for.
  apply keeps_bind; [apply _|apply perform_extends|]. intros [evs woken]. apply keeps_bind; [apply _|apply modify_extends|].
  intros []. apply keeps_bind; [apply _|apply keeps_bind; [apply _|apply keeps_get, _|intros; apply keeps_ret, _]|].
  intros c. destruct woken; [|apply keeps_throw, _]. destruct (is_set _ _); [apply keeps_ret, _|].
  intros w1. cbn. reflexivity.
Qed.

(** Rounds of the loop in which the clock is before the deadline and DATA arrives. *)
Definition round_script (rounds : list (spec_float * list (quic_ev * list h3_event))) : list canswer :=
  flat_map (fun r => [ATime r.1; AWoken r.2]) rounds.

Definition in_time (sid : Z) (deadline : spec_float) (r : spec_float * list (quic_ev * list h3_event)) : Prop :=
  fge fzero (fsub deadline r.1) = false /\ wakes sid r.2.

Lemma round_script_wf sid rounds :
  Forall typed (round_script rounds) -> wf_bytes (stream_bytes sid (flat_map snd rounds)).
Proof.
  intros Ht. assert (arrived (map (fun r => (LoopTime, AWoken r.2)) rounds) = flat_map snd rounds) as <-
    by (clear; induction rounds as [|r l IHl]; [done|]; cbn; by rewrite <- IHl).
  apply wf_stream_bytes. induction rounds as [|r l IHl]; [constructor|].
  cbn in Ht |- *. apply Forall_cons in Ht as [_ Ht]. apply Forall_cons in Ht as [Hr Ht]. constructor; auto.
Qed.

(** The outcome the whole stream calls for. *)
Definition ended (want : Z) (all : list frame) (o : outcome (list frame)) : Prop :=
  if want <=? len all then exists fs, o = Ret fs /\ fs `prefix_of` all /\ want <= len fs
  else exists text, o = Exc (TimeoutError text).

Lemma recv_round_eval want deadline w fs n :
  Conf.parse_ws (c_data (cl (st w))) = Ok (fs, n) ->
  recv_round want deadline w
  = if want <=? len fs then (Ret (inr fs), World (env w) (trace w)
      (CState (with_data (drop (Z.to_nat n) (c_data (cl (st w)))) (c_got_data (cl (st w))) (cl (st w))) (out (st w)) (err (st w))))
    else (let! now := loop_time in
          if fge fzero (fsub deadline now)
          then throw (TimeoutError (str "recv_ws: got " ++ dec (len fs) ++ str "/" ++ dec want))
          else wait_for GotData (fsub deadline now);; ret (inl tt))
         (World (env w) (trace w) (CState (with_data (c_data (cl (st w))) false (cl (st w))) (out (st w)) (err (st w)))).
Proof.
  intros H. unfold recv_round, self, get. unfold bind at 1 2. cbn [ret]. rewrite H. unfold lift, bind at 1. cbn [ret].
  by destruct (want <=? len fs).
Qed.

Lemma recv_loop_ends want deadline sid t1 rest rounds w all n :
  c_sid (cl (st w)) = Some sid -> wf_bytes (c_data (cl (st w))) -> Forall typed (env w) ->
  env w = round_script rounds ++ ATime t1 :: rest -> Forall (in_time sid deadline) rounds ->
  fge fzero (fsub deadline t1) = true ->
  Conf.parse_ws (c_data (cl (st w)) ++ stream_bytes sid (flat_map snd rounds)) = Ok (all, n) ->
  ended want all (iter (fun _ => recv_round want deadline) tt w).1.
Proof.
  revert w. induction rounds as [|[t evs] rounds IH]; intros w Hs Hw Ht Ee Hr Hend Hp.
  - rewrite iter_unfold by apply recv_round_productive. cbn in Hp. rewrite app_nil_r in Hp. unfold bind.
    rewrite (recv_round_eval _ _ _ _ _ Hp). unfold ended. destruct (Z.leb_spec want (len all)); [by exists all|].
    unfold loop_time, bind, perform. cbn [env]. rewrite Ee. cbn. rewrite Hend. cbn. by eexists.
  - apply Forall_cons in Hr as [[Hlt Hwake] Hr]. cbn [fst snd] in *. cbn [flat_map snd] in Hp. rewrite stream_bytes_app in Hp.
    rewrite Ee in Ht. cbn in Ht. assert (Ht' := Ht). apply Forall_cons in Ht as [_ Ht]. apply Forall_cons in Ht as [Hev Ht].
    assert (wf_bytes (stream_bytes sid evs ++ stream_bytes sid (flat_map snd rounds))) as Hmore.
    { rewrite <- stream_bytes_app. apply Forall_app in Ht as [Ht _].
      apply (round_script_wf sid ((t, evs) :: rounds)). by repeat constructor. }
    rewrite iter_unfold by apply recv_round_productive. unfold bind.
    destruct (Conf.parse_ws (c_data (cl (st w)))) as [[fs m]|e] eqn:E0.
    2:{ apply (parse_buf_app_raise Conf.ext _ _ (stream_bytes sid evs ++ stream_bytes sid (flat_map snd rounds))) in E0; [|done|done]. unfold Conf.parse_ws in Hp. by rewrite E0 in Hp. }
    rewrite (recv_round_eval _ _ _ _ _ E0). destruct (Z.leb_spec want (len fs)) as [Hle|Hgt].
    { assert (H := E0). apply (parse_buf_app Conf.ext _ _ (stream_bytes sid evs ++ stream_bytes sid (flat_map snd rounds))) in H; [|done|done]. unfold Conf.parse_ws in Hp. rewrite Hp in H.
      destruct (parse_buf Conf.ext _ _) as [[fs' m']|] in H; [|done]. injection H as -> _. unfold ended.
      rewrite (proj2 (Z.leb_le _ _)) by (rewrite len_app; assert (0 <= len fs') by apply len_nonneg; lia).
      exists fs. split; [done|]. split; [by apply prefix_app_r|done]. }
    set (c1 := with_data (c_data (cl (st w))) false (cl (st w))).
    assert (c_sid c1 = Some sid) as Hs1 by done. assert (Hd := deliver_effect sid c1 evs Hs1).
    unfold loop_time, wait_for, update, modify, self, get, bind, perform. cbn [env]. rewrite Ee. cbn -[iter recv_round deliver].
    rewrite Hlt. cbn -[iter recv_round deliver]. fold c1. rewrite (deliver_wakes sid evs c1 Hs1 Hwake).
    cbn -[iter recv_round deliver]. destruct Hd as [K1 K2 _ _ _]. cbn [app] in K2.
    change (c_data c1) with (c_data (cl (st w))) in K2. apply IH; cbn -[deliver]; auto.
    + rewrite <- K2. apply Forall_app in Hmore as [Hmore _]. by apply Forall_app.
    + rewrite <- K2, <- app_assoc. exact Hp.
Qed.

(** C22: [recv_ws] ends, and with the right outcome.  When DATA of the stream keeps
    arriving before the deadline and a clock reading then passes it, the call
    never hangs on bytes it already has (no wake-up is lost): if the bytes that
    arrived hold [want] frames it returns a prefix of their frames that has at
    least [want], otherwise it raises [TimeoutError]. *)
Theorem recv_ws_ends want timeout w sid t0 rounds t1 rest all n :
  c_sid (cl (st w)) = Some sid -> wf_bytes (c_data (cl (st w))) -> Forall typed (env w) ->
  env w = ATime t0 :: round_script rounds ++ ATime t1 :: rest ->
  Forall (in_time sid (fadd t0 (flit timeout 0))) rounds -> fge fzero (fsub (fadd t0 (flit timeout 0)) t1) = true ->
  Conf.parse_ws (c_data (cl (st w)) ++ stream_bytes sid (flat_map snd rounds)) = Ok (all, n) ->
  ended want all (recv_ws want timeout w).1.
Proof.
  intros Hs Hw Ht Ee Hr Hend Hp. unfold recv_ws, loop_time, bind, perform. rewrite Ee. cbn -[iter recv_round].
  rewrite Ee in Ht. apply Forall_cons in Ht as [_ Ht].
  by eapply (recv_loop_ends want _ sid t1 rest rounds (World (round_script rounds ++ ATime t1 :: rest)
    (trace w ++ [(LoopTime, ATime t0)]) (st w))).
Qed.

Definition late_world : world cop canswer cstate :=
  World (ATime fzero :: round_script [(fzero, [(OtherQuic, [DataReceived 4 (take 3 (Rfc.server_frame (OP_TEXT, str "hello"))) false])])]
         ++ [ATime (flit 5 0)]) [] (CState (reset_stream 4 new_client) [] []).

Lemma recv_ws_ends_witness :
  ended 1 [] (recv_ws 1 5 late_world).1 /\
  (recv_ws 1 5 late_world).1 = Exc (TimeoutError (str "recv_ws: got 0/1")).
Proof.
  split; [|vm_compute; reflexivity].
  eapply (recv_ws_ends 1 5 late_world 4 fzero _ (flit 5 0) [] [] 0); [reflexivity|constructor| |reflexivity| |vm_compute; reflexivity|].
  - apply (bool_decide_unpack _). vm_compute. exact I.
  - constructor; [|constructor]. split; [vm_compute; reflexivity|]. eexists _, _, _. split; [by left|]. vm_compute. left.
  - vm_compute. reflexivity.
Defined.
