(* ===== verification/Interop.v ===== *)
(** * The Python interop client

    [conformance/interop/clients/python/client.py]: the configuration, the
    [worker] loop of one thread, and [main] over the thread pool.  httpx is the
    environment: a reply is an answer.  The threads share nothing but the
    configuration, so a worker is a coroutine of its own and [main] sees only
    their results, in the order it asks for them. *)
From S2P Require Import Prelude PyFloat PyDouble Coro Transport Report.
#[local] Open Scope Z_scope.
#[local] Open Scope coro_scope.

(** ** Configuration *)

Record iconfig := IConfig { i_url : list Z; i_runtime : Z; i_clients : Z; i_mtls : bool; i_enc : list Z }.

(** The module's assignments; [env] is [os.environ]. *)
Definition read_iconfig (int_uni : list Z -> res Z) (env : list (list Z * list Z)) : res iconfig :=
  let var name default_ := default default_ (aget env (str name)) in
  runtime ← int_str int_uni (var "INTEROP_RUNTIME" (str "5"));
  clients ← int_str int_uni (var "INTEROP_CLIENTS" (str "1"));
  Ok (IConfig (var "INTEROP_URL" (str "https://server:8443")) runtime (Z.max 1 clients)
        (bool_decide (aget env (str "INTEROP_MTLS") = Some (str "1"))) (var "INTEROP_ENCODING" (str "gzip"))).

Definition NAME : list Z := str "python".
Definition METHODS : list (list Z) :=
  [str "GET"; str "POST"; str "PUT"; str "PATCH"; str "DELETE"; str "HEAD"; str "OPTIONS"].

(** The arguments [make_client] gives [httpx.Client]. *)
Record client_args := ClientArgs {
  a_http2 : bool; a_verify : list Z; a_timeout : spec_float; a_headers : list (list Z * list Z);
  a_cert : option (list Z * list Z) }.

(** A reply: status, [http_version], the decoded header fields (lower-case names)
    and the decoded text. *)
Record reply := Reply { status_code : Z; http_version : list Z; headers : list (list Z * list Z); text : list Z }.

(** ** The conversation *)

Inductive iop :=
| IMonotonic
| INewClient (args : client_args) | IClose
| IRequest (method url : list Z) (content : option (list Z)).

Inductive ianswer :=
| ITime (t : spec_float)
| IDone
| IReply (r : reply)
| IRaise (e : exn).

Definition read_itime (a : ianswer) : option (res spec_float) := match a with ITime t => Some (Ok t) | _ => None end.
Definition read_idone (a : ianswer) : option (res unit) :=
  match a with IDone => Some (Ok tt) | IRaise e => Some (Raise e) | _ => None end.
Definition read_ireply (a : ianswer) : option (res reply) :=
  match a with IReply r => Some (Ok r) | IRaise e => Some (Raise e) | _ => None end.

Abbreviation irun := (coro iop ianswer unit) (only parsing).

Section Worker.
Context (cfg : iconfig).

Definition make_client_args : client_args :=
  ClientArgs true (str "/certs/ca.pem") (flit 30 0)
    [(str "x-api-key", str "interop"); (str "accept-encoding", i_enc cfg)]
    (if i_mtls cfg then Some (str "/certs/client.pem", str "/certs/client.key") else None).

Definition echo_body (m : list Z) : option (list Z) :=
  if decide (m ∈ [str "POST"; str "PUT"; str "PATCH"]) then Some (str "hello from " ++ NAME) else None.

Definition header_text (h : option (list Z)) : list Z := default (str "None") h.

(** The checks of one echo reply: the text of the [RuntimeError], if any. *)
Definition check_echo (m : list Z) (r : reply) : option (list Z) :=
  let enc := aget (headers r) (str "content-encoding") in
  if negb (status_code r =? 200) then Some (m ++ str " status " ++ dec (status_code r))
  else if decide (http_version r <> str "HTTP/2") then Some (m ++ str " not HTTP/2: " ++ http_version r)
  else if decide (enc <> Some (i_enc cfg))
  then Some (m ++ str " not " ++ i_enc cfg ++ str "-encoded: " ++ header_text enc)
  else if decide (m = str "HEAD") then
    if decide (aget (headers r) (str "x-echo-method") <> Some (str "HEAD")) then Some (str "HEAD missing x-echo-method") else None
  else if contains (str "method=" ++ m) (text r) then None
  else Some (m ++ str " body did not echo method").

Definition check_whoami (r : reply) : option (list Z) :=
  if negb (status_code r =? 200) || bool_decide (strip (text r) ∈ [[]; str "-"])
  then Some (str "mTLS /whoami did not report a client subject") else None.

Definition raise_if (bad : option (list Z)) : irun unit :=
  match bad with Some msg => throw (RuntimeError msg) | None => ret tt end.

Definition irequest (m path : list Z) (content : option (list Z)) : irun reply :=
  perform (IRequest m (i_url cfg ++ path) content) read_ireply.

Definition echo_once (n : Z) (m : list Z) : irun Z :=
  let! r := irequest m (str "/echo") (echo_body m) in
  raise_if (check_echo m r);;
  ret (n + 1).

Definition whoami_once (n : Z) : irun Z :=
  if i_mtls cfg then
    let! r := irequest (str "GET") (str "/whoami") None in
    raise_if (check_whoami r);;
    ret (n + 1)
  else ret n.

Definition worker (deadline : spec_float) : irun Z :=
  perform (INewClient make_client_args) read_idone;;
  finally (iter (fun n =>
      let! now := perform IMonotonic read_itime in
      if flt now deadline then
        let! n := for_each METHODS echo_once n in
        let! n := whoami_once n in
        ret (inl n)
      else ret (inr n)) 0)
    (perform IClose read_idone).

(** [for f in futures: total += f.result()], the workers having ended: the first
    exception, in the order of the futures, leaves the loop. *)
Fixpoint collect (results : list (outcome Z)) (total : Z) : outcome Z :=
  match results with
  | [] => Ret total
  | Ret n :: rs => collect rs (total + n)
  | r :: _ => r
  end.

Definition running (r : outcome Z) : bool := match r with Wait => true | _ => false end.

Inductive exit_ := Exited (code : Z) (out err : list (list Z)) | Propagated (e : exn).

Definition ok_line (total : Z) : list Z :=
  str "INTEROP OK " ++ NAME ++ str ": requests=" ++ dec total ++ str " (clients=" ++ dec (i_clients cfg) ++ str ", runtime="
  ++ dec (i_runtime cfg) ++ str "s, mtls=" ++ (if i_mtls cfg then str "1" else str "0") ++ str ", enc=" ++ i_enc cfg ++ str ")".

Definition fail_line (reason : list Z) : list Z := str "INTEROP FAIL " ++ NAME ++ str ": " ++ reason.

End Worker.

Definition no_threads : list Z := str "max_workers must be greater than 0".

(** [main]: the clock reads [start], and submission [i] of [range(CLIENTS)] runs the
    worker in its own world [threads i].  The executor refuses to have no thread.
    The exit of the [with] block joins every thread, also after an exception; an
    [Exception] then goes to [fail], which prints on stderr and ends the process
    with [os._exit(1)].  [None] is a program still running. *)
Definition main (cfg : iconfig) (start : spec_float) (threads : Z -> world iop ianswer unit) : option exit_ :=
  let deadline := fadd start (flit (i_runtime cfg) 0) in
  if i_clients cfg <=? 0 then Some (Exited 1 [] [fail_line no_threads])
  else
    let results := map (fun i => (worker cfg deadline (threads i)).1) (seqZ 0 (i_clients cfg)) in
    if existsb running results then None
    else match collect results 0 with
         | Ret total => Some (Exited 0 [ok_line cfg total] [])
         | Exc e => Some (if is_Exception e then Exited 1 [] [fail_line (exn_text e)] else Propagated e)
         | Wait => None
         end.

(** ** What an [INTEROP OK] means *)

(** The requests of one round, each with the check its reply must pass. *)
Definition round_plan (cfg : iconfig) : list (iop * (reply -> option (list Z))) :=
  map (fun m => (IRequest m (i_url cfg ++ str "/echo") (echo_body m), check_echo cfg m)) METHODS
  ++ if i_mtls cfg then [(IRequest (str "GET") (i_url cfg ++ str "/whoami") None, check_whoami)] else [].

Definition is_request (oa : iop * ianswer) : bool := match oa.1 with IRequest _ _ _ => true | _ => false end.
Definition requests (tr : list (iop * ianswer)) : list (iop * ianswer) := List.filter is_request tr.

Definition fulfilled (oa : iop * ianswer) (p : iop * (reply -> option (list Z))) : Prop :=
  oa.1 = p.1 /\ exists r, oa.2 = IReply r /\ p.2 r = None.

(** How a request ends a worker: it raised, or its reply failed the check. *)
Definition broken (oa : iop * ianswer) (p : iop * (reply -> option (list Z))) (e : exn) : Prop :=
  oa.1 = p.1 /\ (oa.2 = IRaise e \/ exists r msg, oa.2 = IReply r /\ p.2 r = Some msg /\ e = RuntimeError msg).

Definition anything (a : ianswer) : Prop := True.

Lemma requests_app t1 t2 : requests (t1 ++ t2) = requests t1 ++ requests t2.
Proof. apply List.filter_app. Qed.

(** A sequence of checked requests, and where it broke. *)
Definition follows (plan : list (iop * (reply -> option (list Z)))) (seg : list (iop * ianswer)) (broke : option exn) : Prop :=
  match broke with
  | None => Forall2 fulfilled (requests seg) plan
  | Some e => exists done_ p rest pre oa, plan = done_ ++ p :: rest /\ requests seg = pre ++ [oa] /\
                Forall2 fulfilled pre done_ /\ broken oa p e
  end.

(** Asking one thing and checking the reply. *)
Lemma ask_runs cfg m path content check n s :
  runs anything (let! r := irequest cfg m path content in raise_if (check r);; ret (n + 1)) (fun seg _ o =>
    match o with
    | Ret n' => n' = n + 1 /\ follows [(IRequest m (i_url cfg ++ path) content, check)] seg None
    | Exc e => follows [(IRequest m (i_url cfg ++ path) content, check)] seg (Some e)
    | Wait => True
    end) s.
Proof.
  unfold irequest. apply runs_bind, runs_perform; [done|]. intros a r _ Ea. destruct a as [| |rp|e]; cbn in Ea; simplify_eq.
  - apply runs_bind. destruct (check rp) as [msg|] eqn:Ec; cbn [raise_if].
    + apply runs_throw. exists [], (IRequest m (i_url cfg ++ path) content, check), [], [], (IRequest m (i_url cfg ++ path) content, IReply rp).
      repeat (split; [done|]). right. by exists rp, msg.
    + apply runs_ret, runs_ret. split; [done|]. repeat constructor. by exists rp.
  - exists [], (IRequest m (i_url cfg ++ path) content, check), [], [], (IRequest m (i_url cfg ++ path) content, IRaise e).
    repeat (split; [done|]). by left.
Qed.

Lemma follows_app p1 p2 t1 t2 b : follows p1 t1 None -> follows p2 t2 b -> follows (p1 ++ p2) (t1 ++ t2) b.
Proof.
  intros H1 H2. destruct b as [e|]; cbn in *; rewrite requests_app.
  - destruct H2 as (d & p & rest & pre & oa & -> & -> & Hf & Hb).
    exists (p1 ++ d), p, rest, (requests t1 ++ pre), oa. rewrite !app_assoc. repeat (split; [done|]). split; [by apply Forall2_app|done].
  - by apply Forall2_app.
Qed.

Lemma follows_more p1 p2 t e : follows p1 t (Some e) -> follows (p1 ++ p2) t (Some e).
Proof.
  intros (d & p & rest & pre & oa & -> & H). exists d, p, (rest ++ p2), pre, oa.
  by rewrite <- app_assoc.
Qed.

Lemma follows_nil t : requests t = [] -> follows [] t None.
Proof. intros H. cbn. rewrite H. constructor. Qed.

Lemma follows_quiet p t1 t2 b : requests t2 = [] -> follows p t1 b -> follows p (t1 ++ t2) b.
Proof. intros E H. unfold follows. by rewrite requests_app, E, app_nil_r. Qed.

#[local] Hint Resolve follows_app follows_more follows_nil : core.

(** One round of the [while] loop. *)
Lemma round_runs cfg n s :
  runs anything (let! n := for_each METHODS (echo_once cfg) n in let! n := whoami_once cfg n in ret (inl n : Z + Z)) (fun seg _ o =>
    match o with
    | Ret (inl n') => n' = n + len (round_plan cfg) /\ follows (round_plan cfg) seg None
    | Ret (inr _) => False
    | Exc e => follows (round_plan cfg) seg (Some e)
    | Wait => True
    end) s.
Proof.
  set (item := fun m => (IRequest m (i_url cfg ++ str "/echo") (echo_body m), check_echo cfg m)).
  apply runs_bind. apply (runs_for_each anything _ _ (fun l n' seg _ => n' = n + len l /\ follows (map item l) seg None)).
  - split; [rewrite ?len_cons, ?len_nil; lia|by apply follows_nil].
  - intros l m n' seg s' (rest & El) _ (-> & Hf). eapply runs_mono; [apply (ask_runs cfg m (str "/echo") (echo_body m) (check_echo cfg m))|].
    intros seg' s'' [n''|e|] _ H; [| |done].
    + destruct H as (-> & H). rewrite map_app, len_app. split; [rewrite ?len_cons, ?len_nil; lia|by apply follows_app].
    + unfold round_plan. fold item. rewrite El, map_app, <- app_assoc. apply follows_app; [done|]. cbn [map app].
      change (item m :: map item rest ++ ?x) with ([item m] ++ map item rest ++ x). by apply follows_more.
  - intros n' seg s' _ (-> & Hf). unfold round_plan, whoami_once. fold item. apply runs_bind. destruct (i_mtls cfg).
    + eapply runs_mono; [apply ask_runs|]. intros seg' s'' [n''|e|] _ H; [| |done].
      * destruct H as (-> & H). apply runs_ret. rewrite app_nil_r, len_app, len_map. split; [rewrite ?len_cons, ?len_nil; lia|by apply follows_app].
      * by apply follows_app.
    + apply runs_ret, runs_ret. rewrite !app_nil_r, len_map. by split.
Qed.

(** A worker's whole conversation. *)
Lemma worker_runs cfg deadline s :
  runs anything (worker cfg deadline) (fun seg _ o =>
    match o with
    | Ret n => exists k, n = Z.of_nat k * len (round_plan cfg) /\ follows (concat (replicate k (round_plan cfg))) seg None
    | Exc e => (exists k, follows (concat (replicate k (round_plan cfg))) seg (Some e)) \/
               (INewClient (make_client_args cfg), IRaise e) ∈ seg \/ (IClose, IRaise e) ∈ seg
    | Wait => True
    end) s.
Proof.
  unfold worker. apply runs_bind, runs_perform; [done|]. intros a r _ Ea. destruct a; cbn in Ea; simplify_eq;
    [|right; left; by left]. set (call := (INewClient (make_client_args cfg), IDone)).
  apply runs_finally. apply (runs_iter anything _ (fun n seg _ => exists k, n = Z.of_nat k * len (round_plan cfg) /\
    follows (concat (replicate k (round_plan cfg))) ([call] ++ seg) None)).
  - exists 0%nat. split; [lia|by apply follows_nil].
  - done.
  - intros n seg s1 _ (k & -> & Hf). apply runs_bind, runs_perform; [done|]. intros a r _ Ea.
    destruct a as [t0| | |]; cbn in Ea; simplify_eq.
    assert (follows (concat (replicate k (round_plan cfg))) (([call] ++ seg) ++ [(IMonotonic, ITime t0)]) None) as Hf'
      by (by apply follows_quiet).
    destruct (flt t0 deadline).
    + eapply runs_mono; [apply round_runs|]. intros seg' s2 o _ H. destruct o as [[n'|n']|e|]; [|done| |done].
      * destruct H as (-> & H). exists (S k). rewrite <- Nat.add_1_r, replicate_add, concat_app. cbn [replicate concat].
        rewrite app_nil_r, !app_assoc. split; [lia|by apply follows_app].
      * apply runs_perform; [done|]. intros a r _ Ea. destruct a as [| | |e']; cbn in Ea; simplify_eq.
        -- left. exists (S k). rewrite <- Nat.add_1_r, replicate_add, concat_app. cbn [replicate concat]. rewrite app_nil_r.
           match goal with |- follows _ ?t _ =>
             replace t with (((([call] ++ seg) ++ [(IMonotonic, ITime t0)]) ++ seg') ++ [(IClose, IDone)]) by (by rewrite <- !app_assoc) end.
           apply follows_quiet; [done|]. by apply follows_app.
        -- right. right. apply elem_of_app. right. apply elem_of_app. right. by left.
    + apply runs_ret, runs_perform; [done|]. intros a r _ Ea. destruct a as [| | |e']; cbn in Ea; simplify_eq.
      * exists k. split; [done|]. rewrite app_nil_r, app_assoc. apply follows_quiet; [done|]. by rewrite <- app_assoc in Hf'.
      * right. right. apply elem_of_app. right. apply elem_of_app. right. by left.
Qed.

Lemma worker_talks cfg deadline w :
  exists seg, trace (worker cfg deadline w).2 = trace w ++ seg /\
  match (worker cfg deadline w).1 with
  | Ret n => exists k, n = Z.of_nat k * len (round_plan cfg) /\ follows (concat (replicate k (round_plan cfg))) seg None
  | Exc e => (exists k, follows (concat (replicate k (round_plan cfg))) seg (Some e)) \/
             (INewClient (make_client_args cfg), IRaise e) ∈ seg \/ (IClose, IRaise e) ∈ seg
  | Wait => True
  end.
Proof.
  assert (H := worker_runs cfg deadline (st w) w eq_refl (proj2 (Forall_forall _ _) (fun _ _ => I))).
  destruct (worker cfg deadline w) as [o w']. destruct H as (seg & Ht & _ & _ & H). by exists seg.
Qed.

(** *** The checks against what the server promises

    An echo is a 200 over HTTP/2 in the encoding asked for that shows the method it
    answers; [/whoami] names a client. *)
Definition echoes (cfg : iconfig) (m : list Z) (r : reply) : Prop :=
  status_code r = 200 /\ http_version r = str "HTTP/2" /\ aget (headers r) (str "content-encoding") = Some (i_enc cfg) /\
  if decide (m = str "HEAD") then aget (headers r) (str "x-echo-method") = Some (str "HEAD")
  else exists before after, text r = before ++ str "method=" ++ m ++ after.

Definition names_client (r : reply) : Prop := status_code r = 200 /\ strip (text r) <> [] /\ strip (text r) <> str "-".

Definition round_contract (cfg : iconfig) : list (iop * (reply -> Prop)) :=
  map (fun m => (IRequest m (i_url cfg ++ str "/echo") (echo_body m), echoes cfg m)) METHODS
  ++ if i_mtls cfg then [(IRequest (str "GET") (i_url cfg ++ str "/whoami") None, names_client)] else [].

Definition met (oa : iop * ianswer) (q : iop * (reply -> Prop)) : Prop := oa.1 = q.1 /\ exists r, oa.2 = IReply r /\ q.2 r.
Definition unmet (oa : iop * ianswer) (q : iop * (reply -> Prop)) (e : exn) : Prop :=
  oa.1 = q.1 /\ (oa.2 = IRaise e \/ exists r msg, oa.2 = IReply r /\ ~ q.2 r /\ e = RuntimeError msg).

(** A conversation that meets a sequence of promises, or all but the last one. *)
Definition honours (contract : list (iop * (reply -> Prop))) (seg : list (iop * ianswer)) (broke : option exn) : Prop :=
  match broke with
  | None => Forall2 met (requests seg) contract
  | Some e => exists done_ q rest pre oa, contract = done_ ++ q :: rest /\ requests seg = pre ++ [oa] /\
                Forall2 met pre done_ /\ unmet oa q e
  end.

Lemma starts_with_spec p s : starts_with p s = true <-> exists after, s = p ++ after.
Proof.
  revert s. induction p as [|a p IH]; intros s; cbn; [split; [by exists s|done]|].
  destruct s as [|b s]; [split; [done|by intros []]|]. rewrite andb_true_iff, Z.eqb_eq, IH. split.
  - intros [-> [after ->]]. by exists after.
  - intros [after [= -> ->]]. split; [done|by exists after].
Qed.

Lemma contains_spec sub s : contains sub s = true <-> exists before after, s = before ++ sub ++ after.
Proof.
  induction s as [|c s IH]; cbn [contains]; rewrite orb_true_iff, starts_with_spec.
  - split; [intros [[after E]|]; [by exists [], after|done]|]. intros (before & after & E). left. exists after.
    destruct before; [exact E|done].
  - rewrite IH. split.
    + intros [[after E]|(before & after & ->)]; [by exists [], after|by exists (c :: before), after].
    + intros ([|b before] & after & E); [left; by exists after|right]. injection E as -> ->. by exists before, after.
Qed.

Lemma check_echo_spec cfg m r : check_echo cfg m r = None <-> echoes cfg m r.
Proof.
  unfold check_echo, echoes. destruct (Z.eqb_spec (status_code r) 200) as [E1|E1]; cbn [negb]; [|naive_solver].
  destruct (decide (http_version r <> _)) as [E2|E2]; [naive_solver|]. apply dec_stable in E2.
  destruct (decide (aget (headers r) _ <> _)) as [E3|E3]; [naive_solver|]. apply dec_stable in E3.
  destruct (decide (m = str "HEAD")) as [->|E4].
  - destruct (decide (aget (headers r) (str "x-echo-method") <> _)) as [E5|E5]; [naive_solver|]. apply dec_stable in E5. done.
  - destruct (contains _ _) eqn:Ec.
    + apply contains_spec in Ec as (before & after & E). rewrite <- app_assoc in E. naive_solver.
    + split; [done|]. intros (_ & _ & _ & before & after & E). rewrite app_assoc in E.
      assert (contains (str "method=" ++ m) (text r) = true) as Ht; [|by rewrite Ht in Ec].
      apply contains_spec. exists before, after. by rewrite E, <- !app_assoc.
Qed.

Lemma check_whoami_spec r : check_whoami r = None <-> names_client r.
Proof.
  unfold check_whoami, names_client. destruct (Z.eqb_spec (status_code r) 200) as [E1|E1]; cbn [negb orb]; [|naive_solver].
  case_bool_decide as E2; [set_solver|]. split; [set_solver|done].
Qed.

Definition agrees (p : iop * (reply -> option (list Z))) (q : iop * (reply -> Prop)) : Prop :=
  p.1 = q.1 /\ forall r, p.2 r = None <-> q.2 r.

Lemma round_agrees cfg : Forall2 agrees (round_plan cfg) (round_contract cfg).
Proof.
  unfold round_plan, round_contract. apply Forall2_app.
  - induction METHODS as [|m ms IH]; constructor; [|exact IH]. split; [done|apply check_echo_spec].
  - destruct (i_mtls cfg); constructor; [|constructor]. split; [done|apply check_whoami_spec].
Qed.

Lemma rounds_agree cfg k : Forall2 agrees (concat (replicate k (round_plan cfg))) (concat (replicate k (round_contract cfg))).
Proof. induction k as [|k IH]; [constructor|]. apply Forall2_app; [apply round_agrees|exact IH]. Qed.

Lemma fulfilled_met oa p q : fulfilled oa p -> agrees p q -> met oa q.
Proof. intros (E & r & Er & Hr) [Eq Hq]. split; [congruence|]. exists r. by rewrite <- Hq. Qed.

Lemma follows_honours plan contract seg broke : Forall2 agrees plan contract -> follows plan seg broke -> honours contract seg broke.
Proof.
  intros Ha. destruct broke as [e|]; cbn [follows honours]; [|intros H; eapply Forall2_trans; eauto using fulfilled_met].
  intros (done_ & p & rest & pre & oa & -> & Er & Hd & E & Hb).
  apply Forall2_app_inv_l in Ha as (done' & ? & Ha1 & Ha2 & ->). apply Forall2_cons_inv_l in Ha2 as (q & rest' & [Eq Hq] & _ & ->).
  exists done', q, rest', pre, oa. split; [done|]. split; [done|].
  split; [eapply Forall2_trans; eauto using fulfilled_met|]. split; [congruence|].
  destruct Hb as [?|(r & msg & ? & Hm & ?)]; [by left|right]. exists r, msg. rewrite <- Hq, Hm. done.
Qed.

(** What the workers of a run that passes have done. *)
Definition verified_rounds (cfg : iconfig) (deadline : spec_float) (w : world iop ianswer unit) (k : nat) : Prop :=
  exists seg, trace (worker cfg deadline w).2 = trace w ++ seg /\ honours (concat (replicate k (round_contract cfg))) seg None.

Lemma collect_spec cfg deadline (ws : list (world iop ianswer unit)) total :
  match collect (map (fun w => (worker cfg deadline w).1) ws) total with
  | Ret n => exists ks, Forall2 (verified_rounds cfg deadline) ws ks /\
                        n = total + zsum (map Z.of_nat ks) * len (round_contract cfg)
  | Exc e => exists w, w ∈ ws /\ (worker cfg deadline w).1 = Exc e
  | Wait => exists w, w ∈ ws /\ (worker cfg deadline w).1 = Wait
  end.
Proof.
  revert total. induction ws as [|w ws IH]; intros total; cbn [map collect].
  - exists []. split; [constructor|]. cbn. lia.
  - assert (H := worker_talks cfg deadline w). destruct (worker cfg deadline w) as [o w'] eqn:E. cbn [fst snd] in *.
    destruct H as (seg & Ht & H). destruct o as [n|e|]; [|exists w; rewrite E; split; [by left|done]..].
    destruct H as (k & -> & Hf). assert (len (round_plan cfg) = len (round_contract cfg)) as El by (unfold len; by rewrite (Forall2_length _ _ _ (round_agrees cfg))).
    rewrite El. specialize (IH (total + Z.of_nat k * len (round_contract cfg))).
    destruct (collect _ _) as [n'|e|].
    + destruct IH as (ks & Hks & ->). exists (k :: ks). split; [|change (zsum (map Z.of_nat (k :: ks))) with (Z.of_nat k + zsum (map Z.of_nat ks)); lia]. constructor; [|done].
      exists seg. rewrite E. split; [done|]. by eapply follows_honours; [apply rounds_agree|].
    + destruct IH as (w0 & Hw & Hr). exists w0. split; [by right|done].
    + destruct IH as (w0 & Hw & Hr). exists w0. split; [by right|done].
Qed.

(** C15: the interop client's verdict.  [main] over the runs of its [CLIENTS] workers,
    whatever the server answered: exit 0 prints the number of requests made, and
    means that there was a worker, that every one of the [CLIENTS] made whole
    rounds (all seven methods, and [/whoami] under mTLS), every single reply of
    which kept the server's promise (a 200 over HTTP/2 in the encoding asked for
    that shows its method, a named client); exit 1 means that some worker's request
    raised or got a reply that broke it (or its client could not be opened or
    closed), and prints that error, or that [CLIENTS] is not positive; a worker
    without an answer keeps the program running. *)
Theorem interop_verdict cfg start (threads : Z -> world iop ianswer unit) :
  let deadline := fadd start (flit (i_runtime cfg) 0) in
  let ws := map threads (seqZ 0 (i_clients cfg)) in
  match main cfg start threads with
  | Some (Exited code out err) =>
      (code = 0 /\ err = [] /\ 0 < i_clients cfg /\ exists ks, length ks = Z.to_nat (i_clients cfg) /\
         Forall2 (verified_rounds cfg deadline) ws ks /\
         out = [ok_line cfg (zsum (map Z.of_nat ks) * len (round_contract cfg))]) \/
      (code = 1 /\ out = [] /\ i_clients cfg <= 0 /\ err = [fail_line no_threads]) \/
      (code = 1 /\ out = [] /\ exists w e seg, w ∈ ws /\ trace (worker cfg deadline w).2 = trace w ++ seg /\
         err = [fail_line (exn_text e)] /\
         ((exists k, honours (concat (replicate k (round_contract cfg))) seg (Some e)) \/
          (INewClient (make_client_args cfg), IRaise e) ∈ seg \/ (IClose, IRaise e) ∈ seg))
  | Some (Propagated e) => is_Exception e = false
  | None => exists w, w ∈ ws /\ (worker cfg deadline w).1 = Wait
  end.
Proof.
  cbv zeta. unfold main. set (deadline := fadd start _). set (ws := map threads _).
  destruct (Z.leb_spec (i_clients cfg) 0) as [Hc|Hc]; [right; left; by split|].
  assert (map (fun i => (worker cfg deadline (threads i)).1) (seqZ 0 (i_clients cfg))
          = map (fun w => (worker cfg deadline w).1) ws) as -> by (unfold ws; by rewrite map_map).
  destruct (existsb running _) eqn:Er.
  - apply existsb_exists in Er as (o & Hin & Ho). apply in_map_iff in Hin as (w & <- & Hin). exists w.
    split; [by apply list_elem_of_In|]. by destruct (worker cfg deadline w) as [[| |] ?].
  - assert (H := collect_spec cfg deadline ws 0). destruct (collect _ 0) as [n|e|]; [| |done].
    + left. destruct H as (ks & Hks & ->). split; [done|]. split; [done|]. split; [done|]. exists ks.
      split; [|by split]. rewrite <- (Forall2_length _ _ _ Hks). unfold ws. by rewrite length_map, length_seqZ.
    + destruct H as (w & Hw & E). destruct (is_Exception e) eqn:Ee; [|done]. right. right. split; [done|]. split; [done|].
      destruct (worker_talks cfg deadline w) as (seg & Ht & H). rewrite E in H. exists w, e, seg.
      do 3 (split; [done|]). destruct H as [(k & Hk)|H]; [left; exists k; by eapply follows_honours; [apply rounds_agree|]|by right].
Qed.

(** One worker against a server that answers one round and whose clock then passes
    the deadline. *)
Definition demo_reply (m : list Z) : ianswer :=
  IReply (Reply 200 (str "HTTP/2") [(str "content-encoding", str "gzip"); (str "x-echo-method", m)] (str "method=" ++ m)).

Definition demo_worker : world iop ianswer unit :=
  World ([IDone; ITime fzero] ++ map demo_reply METHODS ++ [ITime (flit 5 0); IDone]) [] tt.

Example interop_demo :
  main (IConfig (str "https://server:8443") 5 2 false (str "gzip")) fzero (fun _ => demo_worker)
  = Some (Exited 0 [str "INTEROP OK python: requests=14 (clients=2, runtime=5s, mtls=0, enc=gzip)"] []).
Proof. vm_compute. reflexivity. Qed.
