(* ===== verification/Fairness.v ===== *)
(** * The fairness summary

    [conformance/fairness/summarize.py]: the one-line record printed from an
    h2load measurement.  [json.load] is left out: the script starts from the parsed
    object, whose numbers are Python [int]s or [float]s. *)
From S2P Require Import Prelude PyFloat PyDouble.
#[local] Open Scope Z_scope.

(** A JSON number, and its conversion where an operator or a format needs a float. *)
Inductive num := NInt (n : Z) | NFloat (x : spec_float).

Definition as_float (x : num) : res spec_float := match x with NInt n => float_of_int n | NFloat x => Ok x end.

(** [d["measurements"]]: [requests], the two rates, and
    [performance]'s [request] times in seconds. *)
Record measurements := Measurements {
  succeeded : Z; total : Z; failed : Z; errored : Z; timed_out : Z;
  request_per_second : num; bytes_per_second : num;
  r_min : num; r_max : num; r_median : num; r_p95 : num; r_p99 : num; r_sd : num }.

(** [label = sys.argv[2] if len(sys.argv) > 2 else ""] *)
Definition label_of (argv : list (list Z)) : list Z := default [] (argv !! 2%nat).

(** [x / y] for JSON numbers and a positive [y]. *)
Definition num_div (x y : num) : res spec_float :=
  match x, y with
  | NInt a, NInt b => idiv a b
  | _, _ => a ← as_float x; b ← as_float y; Ok (fdiv a b)
  end.

Definition positive (x : num) : bool := match x with NInt n => 0 <? n | NFloat x => flt fzero x end.

(** [ms = lambda s: s * 1000.0] *)
Definition ms (s : num) : res spec_float := x ← as_float s; Ok (fmul x (flit 1000 0)).

(** [spread = (mx / mn) if mn > 0 else float("nan")] *)
Definition spread (mn mx : num) : res spec_float := if positive mn then num_div mx mn else Ok S754_nan.

(** [f"{s:<22}"] *)
Definition pad22 (s : list Z) : list Z := s ++ repeat 32 (Z.to_nat (22 - len s)).

(** The printed line. *)
Definition summary (label : list Z) (m : measurements) : res (list Z) :=
  sp ← spread (r_min m) (r_max m);
  rps ← as_float (request_per_second m);
  bps ← as_float (bytes_per_second m);
  p50 ← ms (r_median m); p95 ← ms (r_p95 m); p99 ← ms (r_p99 m); mx ← ms (r_max m); sd ← ms (r_sd m);
  Ok (pad22 label ++ str " reqs=" ++ dec (succeeded m) ++ str "/" ++ dec (total m)
      ++ str " fail=" ++ dec (failed m + errored m + timed_out m)
      ++ str " | " ++ fixed 0 rps ++ str " req/s " ++ fixed 2 (fdiv bps (flit 1000000000 0)) ++ str " GB/s "
      ++ str "| req-time ms: p50=" ++ fixed 1 p50 ++ str " p95=" ++ fixed 1 p95
      ++ str " p99=" ++ fixed 1 p99 ++ str " max=" ++ fixed 1 mx ++ str " sd=" ++ fixed 2 sd
      ++ str " | spread(max/min)=" ++ fixed 1 sp ++ str "x").

(** ** The fairness signal *)

(** A positive float divided by itself is exactly [1.0]. *)
Lemma fdiv_self m e : fdiv (S754_finite false m e) (S754_finite false m e) = S754_finite false 4503599627370496 (-52).
Proof.
  unfold fdiv, SFdiv, SFdiv_core_binary. rewrite !Z.sub_diag.
  change (Z.min (fexp 53 1024 0) 0) with (-53). change (0 - -53) with 53.
  rewrite Z.shiftl_mul_pow2 by lia.
  assert (Z.div_eucl (Z.pos m * 2 ^ 53) (Z.pos m) = (2 ^ 53, 0)) as ->.
  { assert (H := Z_div_mod (Z.pos m * 2 ^ 53) (Z.pos m) ltac:(lia)).
    destruct (Z.div_eucl (Z.pos m * 2 ^ 53) (Z.pos m)) as [q r]. destruct H as [H Hr].
    assert (q = 2 ^ 53) by nia. subst q. f_equal. lia. }
  unfold new_location. destruct (Z.even (Z.pos m)); reflexivity.
Qed.

(** The fairness signal of the summary.  Streams that all complete in the same
    time are reported as a spread of exactly 1.0, whatever that time is, and a
    measurement without a positive minimum as nan, never as a division error. *)
Theorem fair_spread mn :
  (forall m e, mn = NFloat (S754_finite false m e) -> fixed 1 <$> spread mn mn = Ok (str "1.0")) /\
  (positive mn = false -> forall mx, fixed 1 <$> spread mn mx = Ok (str "nan")).
Proof.
  split.
  - intros m e ->.
    change (Ok (fixed 1 (fdiv (S754_finite false m e) (S754_finite false m e))) = Ok (str "1.0")).
    rewrite fdiv_self. reflexivity.
  - intros H mx. unfold spread. by rewrite H.
Qed.
